(* ===== verification/_CoqProject ===== *)
-Q . S2P
Prelude.v
RustStr.v
Externals.v
Instances.v
SerdeHelp.v
Pomfrit.v
Core.v
Http.v
Fuzz.v
RateLimit.v
Spend.v
Gate.v
Authorize.v
Transparency.v
Policy.v
Appraise.v
Store.v
RedisTime.v
Wire.v
Redeemer.v
IssuerService.v
GateVerifiers.v
AttesterService.v
Origin.v
OriginSteps.v
OriginLocks.v
Restart.v
Mobile.v
ClientFlow.v
Cli.v
Main.v
Demo.v
System.v
Fleet.v
FleetToken.v
Overlap.v
FleetQuota.v
Routes.v
Standins.v
CoreTests.v
ServiceTests.v
Witnesses.v
