(* ===== verification/Prelude.v ===== *)
(** * eat-pass: a verification development

eat-pass issues unlinkable, one-time authorization tokens to devices that
attest to the software they run.  This library models its Rust implementation
(the crates under src/core, src/pomfrit, src/gate, src/policy, src/cli and
src/mobile) by executable definitions and proves what makes it correct.

** The program

A client asks an origin for a resource and gets a challenge.  It blinds a batch
of token inputs under the issuer's key, hashes them to a channel binding, and
has its hardware attest to that binding.  The attester verifies the evidence
against the operator's policy and signs an authorization for the binding; the
issuer checks the authorization and a quota, and signs the batch blindly.  The
client unblinds the tokens and presents one; the origin verifies it under a key
found in the issuer's transparency log and has the central redeemer mark its
nonce.

** The files

- Prelude: bytes, [result], the state-and-error monad [run], slices, machine
  widths; this file.
- RustStr: the operations of Rust's [str] the sources use.
- Externals: third-party crates as classes of operations, each with a class of
  the laws the theorems rely on.
- Instances, Standins: small concrete instances of those classes, used by the
  witnesses and the tests only.
- SerdeHelp: core/src/serdehelp.rs and its variants, byte fields as strings.
- Pomfrit: pomfrit/src/lib.rs, tokens, their wire format, the channel binding.
- Core: core/src/lib.rs, challenges, issuer keys, the client's mint, the
  verifier; Http: its module [http].
- RateLimit, Spend: core/src/ratelimit.rs and spend.rs; a trait is a class with
  its laws in another ([RateLimiterLaws], [SpentStoreLaws]), which the in-memory
  and the Redis implementations both discharge.
- Gate: core/src/gate.rs and faest_sig.rs; [AttestationVerifier] is the trait,
  [BindingCommits] what its implementations promise about the binding.
- Authorize: core/src/authorize.rs.  Transparency: core/src/transparency.rs.
- Policy, Appraise: the crate policy.
- Store: cli/src/store.rs, over a Redis server given as a class; RedisTime: the
  server's clock and the deadlines of its keys.
- Wire: the bodies of cli/src/wire.rs and the transport rule of tls.rs.
- Redeemer, IssuerService, AttesterService, Origin: the services of cli/src,
  each with its state as a record, its startup and its handlers.
- OriginSteps: the handler of Origin cut where it locks, draws or awaits, run as
  steps of concurrent requests to several origins that share their services;
  OriginLocks: those steps as the actions that take and drop its locks and await
  its calls, which may never return.
- Restart: an issuer started again, and what becomes of its log.
- GateVerifiers: gate/src/lib.rs, over the unified-quote crate as a class.
- Mobile: mobile/src/lib.rs and the stdio helper beside it.
- ClientFlow, Demo: cli/src/client.rs and demo.rs.
- Cli, Main: cli/src/main.rs with policy.rs and tls.rs's [serve]: the commands,
  and what each arm of [main] starts or prints.
- Fuzz: the fuzz targets of core/fuzz.
- System: the services, an origin and a client's machine joined into one world.
- Fleet: several origins on those services, with everything that happens to a
  deployment interleaved; FleetToken: what becomes of one token in it; Overlap:
  what two overlapping rotations do to tokens; FleetQuota: the quota over a run.
- Routes: the services on the wire, their routers as tables and the requests made
  to them, which System abbreviates to calls.
- CoreTests, ServiceTests: the repository's own tests as programs over the
  model, each with the theorem that it passes.
- Witnesses: a concrete input for every property that has hypotheses.

** Conventions

A definition has the name of its function; a method is [Type_method], a trait's
implementation an instance, an enum's constructor or a record's field has a
short prefix.  A string is its UTF-8 bytes.  An integer is an [N] kept below the
width of its type: casts are [wrap], saturating operations [sat_add32] and
[sat_add64], and unchecked additions [add_w], which wraps or panics by the
build's overflow checks ([BuildProfile]).  [Panic] is a value of [result] beside
[Ok] and [Err], so that the absence of panics is part of what is proved.
Functions that draw randomness, change state or call a service are [run]s: a
state in, an outcome and a state out, also when they fail.  The time is an
argument.  The loops of the code run over a list they were given, and are
structural recursions on it, so each operation is total.  The one fuel is that
of [req_run], which drives a request alone through its steps: seven are enough,
as [req_run_resource] shows, and [requests_end] bounds the actions of a request in
any interleaving.

Hashes are opaque functions.  A theorem that needs one to be injective concludes
with [collides]: the two hash inputs that would have to collide are exhibited
by position, so that the alternative is a real attack and not an assumption.
The laws assumed of signatures are correctness only; unforgeability and
unlinkability are cryptographic and not claimed.

** What is proved

The properties are numbered C1 to C40 in the files' comments.

- The deployment: C1 (a client's run against deployed services ends, prints its
  tokens and is granted when the redeemer marks the nonce), C2 (what a good token
  presented to any origin is answered, whatever happens meanwhile), C3 (what the
  origins together ever grant), C5 (which requests can change the issuer), C6 (the
  calls of the model are the exchanges on the wire), C7 (the services agree at any
  moment of any run), C8 (the deployment implements the contract [UpstreamOnce] the
  origins are proved against), C9 (the in-process demonstration, for every batch
  size).
- The origins, against that contract: C4 (no token granted twice by any origins in
  any interleaving of their requests), C10 (what a grant certifies), C11 (what
  every reachable state of a cluster satisfies), C12 (a request that runs
  undisturbed is the handler), C13 (the locks: requests end, and none waits for
  another's call).
- Authorizations: C14 to C17 (when the issuer signs, what it answers otherwise and
  what that costs, one authorization for one batch, coverage of the signature).
- Quotas and double spends: C18 to C23 (the signatures a deployment hands out
  within the quota, the Redis quota over an epoch under skewed clocks, one
  redemption within the spent set's life, the Redis backend as the in-memory one
  while no key expires, what each lifetime of the spent set forgets, the in-memory
  limiter exactly).
- The issuer: C24 (the served log verifies in every interleaving of rotations
  and signing), C25 (a restart forks that log), C26 (overlapping rotations lose
  the tokens of the first key).
- Transparency: C27, C28 (a head commits to the log, consistency means extension).
- Codecs: C29 to C32 (challenges and their one flaw, tokens, headers).
- Policies and attestation: C33 to C36 (loading, appraisal, the
  attester's handler and the type of its answers).
- Clients and processes: C37 to C40 (what an untrusted log stops, the helper's
  sessions, which roles listen and with what, what the other commands exit with).

Theorems of weight without a number: a mint is complete ([mint_complete], and
[mobile_mint] for the bindings), the operator's log passes the client's checks
([signed_log_verifies]), the channel binding determines the batch
([binding_commits_to_batch]), the in-memory limiter's overflow at the largest
quota ([limiter_wraps_at_max]), what the policy commands sign loads
([sign_then_load]), and the theorems of CoreTests and ServiceTests.

** What is not modelled

- The syntax of command lines, JSON and TOML, sockets and TLS: [main] is given the
  decoded command, and [Json] with [JsonLaws] stands for serde.  In System a body
  arrives as it was sent; Routes shows that it does through the routers, for
  axum's router and extractors as their documentation has them ([AxumLaws]).
- The cryptographic libraries and the verification of hardware quotes, which are
  not part of the repository: parameters, with laws for what is used.
- In System a client's requests are served at one instant and one after the
  other; Fleet interleaves requests, signing, redemptions, time and rotations,
  which may overlap: what needs them not to says so ([fl_apart]).  Services do not
  restart in it (see Restart), and the spent set does not expire: that is the
  subject of RedisTime.  Its calls take effect at one step; that they may be late or
  never return is the subject of OriginLocks.
- Which of the requests waiting for a free lock gets it: C13 shows that one can.
- What a Redis spent set keeps over time when its server fails between the SADD
  and the EXPIRE of a redemption: Store covers the failed commands, C20 and C22
  take a server that answers ([RedisReliable]).  C19 does not; its counters follow
  Redis's clock and its epochs the issuer's, which may differ by a quarter of an
  epoch.
- In the tests, what a random key, an outside library or a JSON text gives: a
  test that asks for a refusal no law guarantees is run on the stand-ins, and what
  a text decodes to is a hypothesis.
- Swift, Kotlin and TypeScript bindings and scripts.

** Directions

Key retirement together with the pruning of the spent set; services that restart
within Fleet; the desktop client of the evidence helpers as a process beside the
attester. *)

From Stdlib Require Export Init.Byte.
From Stdlib Require Import Strings.Byte.
From Stdlib Require Export NArith Lia ZifyBool ZifyN.
From stdpp Require Export base decidable list gmap strings pretty fin_maps.
From stdpp Require Import countable.

#[global] Open Scope N_scope.

(** ** Bytes *)

Abbreviation bytes := (list byte).

(** The bytes of an ASCII literal. *)
Definition B (s : string) : bytes := String.list_byte_of_string s.

(** The low eight bits of [n], as [n as u8]. *)
Definition byte_of_N (n : N) : byte :=
  match Byte.of_N (n mod 256) with Some b => b | None => x00 end.

#[export] Instance byte_eq_dec : EqDecision byte := Byte.byte_eq_dec.

#[export] Program Instance byte_countable : Countable byte :=
  inj_countable Byte.to_N Byte.of_N _.
Next Obligation. apply Byte.of_to_N. Qed.

(** ** Results: Rust's [Result] plus the outcome of a panic

[Panic] is the outcome of an out-of-range index or slice, of [unwrap] or
[expect] on a failure, and of an integer overflow in a build that checks for
it.  [?] and the combinators propagate it. *)

Inductive result (E T : Type) : Type :=
| Ok (x : T)
| Err (e : E)
| Panic.
Arguments Ok {E T} x.
Arguments Err {E T} e.
Arguments Panic {E T}.

#[export] Instance result_eq_dec {E T} `{EqDecision E, EqDecision T} :
  EqDecision (result E T).
Proof. solve_decision. Defined.

#[export] Instance result_ret E : MRet (result E) := fun _ x => Ok x.
#[export] Instance result_bind E : MBind (result E) := fun _ _ f m =>
  match m with Ok x => f x | Err e => Err e | Panic => Panic end.
#[export] Instance result_fmap E : FMap (result E) := fun _ _ f m =>
  match m with Ok x => Ok (f x) | Err e => Err e | Panic => Panic end.

(** [Result::map_err]. *)
Definition map_err {E E' T} (f : E -> E') (r : result E T) : result E' T :=
  match r with Ok x => Ok x | Err e => Err (f e) | Panic => Panic end.

(** [Option::ok_or]. *)
Definition ok_or {E T} (o : option T) (e : E) : result E T :=
  match o with Some x => Ok x | None => Err e end.

(** [Result::ok]; [None] also stands for a panic, which no caller below meets. *)
Definition ok {E T} (r : result E T) : option T :=
  match r with Ok x => Some x | _ => None end.

(** [Result::unwrap] and [expect]. *)
Definition expect {E E' T} (r : result E T) : result E' T :=
  match r with Ok x => Ok x | _ => Panic end.

Definition is_ok {E T} (r : result E T) : bool :=
  match r with Ok _ => true | _ => false end.

(** ** Computations over a state that may fail

[run S E T] is an operation through [&self] on state [S]: the state it leaves
is kept when it fails or panics. *)

Definition run (S E T : Type) : Type := S -> result E T * S.

#[export] Instance run_ret S E : MRet (run S E) := fun _ x s => (Ok x, s).
#[export] Instance run_bind S E : MBind (run S E) := fun _ _ f m s =>
  match m s with
  | (Ok x, s) => f x s
  | (Err e, s) => (Err e, s)
  | (Panic, s) => (Panic, s)
  end.

(** A pure result, the state, an update of it, and an error. *)
Definition lift {S E T} (r : result E T) : run S E T := fun s => (r, s).
Definition get {S E} : run S E S := fun s => (Ok s, s).
Definition modify {S E} (f : S -> S) : run S E unit := fun s => (Ok tt, f s).
Definition throw {S E T} (e : E) : run S E T := fun s => (Err e, s).

(** An operation on one component of the state, its error converted. *)
Definition on {S S' E E' T} (view : S -> S') (put : S' -> S -> S) (conv : E -> E')
    (m : run S' E T) : run S E' T :=
  fun s => let '(r, s') := m (view s) in (map_err conv r, put s' s).

Abbreviation on_fst conv := (on fst (fun x s => (x, s.2)) conv).
Abbreviation on_snd conv := (on snd (fun x s => (s.1, x)) conv).

(** ** Checked access *)

(** [&l[a..b]]. *)
Definition slice {E A} (a b : nat) (l : list A) : result E (list A) :=
  if decide (a ≤ b ∧ b ≤ length l)%nat then Ok (take (b - a) (drop a l)) else Panic.

(** [&l[a..]]. *)
Definition slice_from {E A} (a : nat) (l : list A) : result E (list A) :=
  slice a (length l) l.

(** [l[i]]. *)
Definition index {E A} (l : list A) (i : nat) : result E A :=
  match l !! i with Some x => Ok x | None => Panic end.

(** [<[u8; 32]>::try_from(slice)]. *)
Definition array32 (l : bytes) : option bytes :=
  if decide (length l = 32%nat) then Some l else None.

(** ** Machine integers *)

(** [n as uW]. *)
Definition wrap (w n : N) : N := n mod 2 ^ w.

Definition u32_max : N := 2 ^ 32 - 1.
Definition u64_max : N := 2 ^ 64 - 1.

(** [u32::saturating_add], [u64::saturating_add]. *)
Definition sat_add32 (a b : N) : N := N.min (a + b) u32_max.
Definition sat_add64 (a b : N) : N := N.min (a + b) u64_max.

(** Whether the build checks arithmetic for overflow (Cargo's dev and test
    profiles do; its release profile, which the repository does not change,
    wraps). *)
Class BuildProfile := overflow_checks : bool.

(** [a + b] on [uW]. *)
Definition add_w {E} `{BuildProfile} (w a b : N) : result E N :=
  if a + b <? 2 ^ w then Ok (a + b)
  else if overflow_checks then Panic else Ok (wrap w (a + b)).

(** [uW::to_le_bytes] and [to_be_bytes] on [w] bytes, and [from_be_bytes]. *)
Fixpoint le_bytes (w : nat) (n : N) : bytes :=
  match w with
  | O => []
  | S w' => byte_of_N n :: le_bytes w' (n / 256)
  end.

Definition be_bytes (w : nat) (n : N) : bytes := reverse (le_bytes w n).

Fixpoint le_value (l : bytes) : N :=
  match l with
  | [] => 0
  | b :: l' => Byte.to_N b + 256 * le_value l'
  end.

Definition be_value (l : bytes) : N := le_value (reverse l).

Definition len {A} (l : list A) : N := N.of_nat (length l).

(** ** Tactics *)

(** Case analysis on a computation that is known to return: splits the
    matches of the hypotheses and of the goal and closes the absurd cases. *)
Ltac case_result :=
  repeat (progress simplify_eq/= || case_match); simplify_eq/=.

Ltac destruct_ok H :=
  repeat match type of H with
  | context [match ?x with _ => _ end] =>
      let E := fresh "E" in destruct x eqn:E; simplify_eq/=
  end.

(** A closed decidable fact, by evaluation. *)
Ltac by_decide := apply (bool_decide_unpack _); vm_compute; exact I.

(** ** Hints *)

Create HintDb eatpass.
Create Rewrite HintDb eatpass.

(** ** Lemmas on results *)

Section results.
Context {E E' T U : Type}.

Lemma bind_Ok (m : result E T) (f : T -> result E U) y :
  m ≫= f = Ok y <-> exists x, m = Ok x /\ f x = Ok y.
Proof. destruct m; cbn; naive_solver. Qed.

Lemma map_err_Ok (f : E -> E') (r : result E T) x :
  map_err f r = Ok x <-> r = Ok x.
Proof. destruct r; naive_solver. Qed.

Lemma ok_or_Ok (o : option T) (e : E) x : ok_or o e = Ok x <-> o = Some x.
Proof. destruct o; naive_solver. Qed.

Lemma map_err_Panic (f : E -> E') (r : result E T) :
  map_err f r = Panic <-> r = Panic.
Proof. destruct r; naive_solver. Qed.

Lemma ok_or_Panic (o : option T) (e : E) : ok_or o e <> Panic.
Proof. by destruct o. Qed.

Lemma bind_Panic (m : result E T) (f : T -> result E U) :
  m ≫= f = Panic <-> m = Panic \/ exists x, m = Ok x /\ f x = Panic.
Proof. destruct m; cbn; naive_solver. Qed.

Lemma ok_Some (r : result E T) x : ok r = Some x <-> r = Ok x.
Proof. destruct r; naive_solver. Qed.

End results.

(** ** Lemmas on computations *)

Section runs.
Context {S E T U : Type}.

Lemma run_bind_Ok (m : run S E T) (f : T -> run S E U) s y s' :
  (m ≫= f) s = (Ok y, s') <-> exists x s1, m s = (Ok x, s1) /\ f x s1 = (Ok y, s').
Proof.
  unfold mbind, run_bind. destruct (m s) as [[x|e|] s1]; split.
  - intros Hf. by exists x, s1.
  - by intros (? & ? & [= <- <-] & ?).
  - done.
  - by intros (? & ? & ? & ?).
  - done.
  - by intros (? & ? & ? & ?).
Qed.

Lemma run_bind_cases (m : run S E T) (f : T -> run S E U) s r s' :
  (m ≫= f) s = (r, s') ->
  (exists x s1, m s = (Ok x, s1) /\ f x s1 = (r, s'))
  \/ (exists e, m s = (Err e, s') /\ r = Err e) \/ (m s = (Panic, s') /\ r = Panic).
Proof.
  unfold mbind, run_bind. destruct (m s) as [[x|e|] s1].
  - intros Hf. left. by exists x, s1.
  - intros [= <- <-]. right. left. by exists e.
  - intros [= <- <-]. by right; right.
Qed.

Lemma run_bind_step (m : run S E T) (f : T -> run S E U) s x s1 :
  m s = (Ok x, s1) -> (m ≫= f) s = f x s1.
Proof. unfold mbind, run_bind. by intros ->. Qed.

Lemma run_bind_stop (m : run S E T) (f : T -> run S E U) s e s1 :
  m s = (Err e, s1) -> (m ≫= f) s = (Err e, s1).
Proof. unfold mbind, run_bind. by intros ->. Qed.

Lemma lift_Ok (r : result E T) (s : S) x s' :
  lift r s = (Ok x, s') <-> r = Ok x /\ s' = s.
Proof. unfold lift. naive_solver. Qed.

Lemma on_Ok {S' E'} (view : S -> S') (put : S' -> S -> S) (conv : E' -> E)
    (m : run S' E' T) s x s' :
  on view put conv m s = (Ok x, s') <-> exists t, m (view s) = (Ok x, t) /\ s' = put t s.
Proof.
  unfold on. destruct (m (view s)) as [[y|e|] t]; cbn; split.
  - intros [= -> <-]. by exists t.
  - by intros (? & [= <- <-] & ->).
  - done.
  - by intros (? & ? & ?).
  - done.
  - by intros (? & ? & ?).
Qed.

End runs.

(** ** Lemmas on slices *)

Lemma slice_Ok {E A} (a b : nat) (l : list A) :
  (a ≤ b)%nat -> (b ≤ length l)%nat ->
  slice (E:=E) a b l = Ok (take (b - a) (drop a l)).
Proof. intros. unfold slice. rewrite decide_True by lia. done. Qed.

Lemma slice_app_mid {E A} (l1 l2 l3 : list A) a b :
  a = length l1 -> b = (length l1 + length l2)%nat ->
  slice (E:=E) a b (l1 ++ l2 ++ l3) = Ok l2.
Proof.
  intros -> ->. rewrite slice_Ok by (rewrite ?length_app; lia).
  rewrite drop_app_length.
  replace (_ + _ - _)%nat with (length l2) by lia.
  by rewrite take_app_length.
Qed.

Lemma slice_app_last {E A} (l1 l2 : list A) a b :
  a = length l1 -> b = (length l1 + length l2)%nat ->
  slice (E:=E) a b (l1 ++ l2) = Ok l2.
Proof.
  intros. replace (l1 ++ l2) with (l1 ++ l2 ++ []) by by rewrite app_nil_r.
  by apply slice_app_mid.
Qed.

Lemma slice_from_app {E A} (l1 l2 : list A) a :
  a = length l1 -> slice_from (E:=E) a (l1 ++ l2) = Ok l2.
Proof.
  intros ->. unfold slice_from.
  replace (l1 ++ l2) with (l1 ++ l2 ++ []) at 2 by by rewrite app_nil_r.
  apply slice_app_mid; rewrite ?length_app; lia.
Qed.

Lemma index_app_r {E A} (l1 l2 : list A) x i :
  i = length l1 -> index (E:=E) (l1 ++ x :: l2) i = Ok x.
Proof. intros ->. unfold index. by rewrite list_lookup_middle. Qed.

Lemma array32_Some l a : array32 l = Some a <-> a = l /\ length l = 32%nat.
Proof. unfold array32. case_decide; naive_solver. Qed.

Lemma array32_id l : length l = 32%nat -> array32 l = Some l.
Proof. intros. unfold array32. by rewrite decide_True. Qed.

(** Reading at a cursor: what a successful read says of the rest, and when a
    read does not panic. *)
Lemma index_Ok {E A} (l : list A) i x : index (E:=E) l i = Ok x <-> l !! i = Some x.
Proof. unfold index. destruct (l !! i); naive_solver. Qed.

Lemma index_cursor {E A} (l : list A) i x :
  index (E:=E) l i = Ok x -> drop i l = x :: drop (i + 1) l.
Proof. intros H%index_Ok. rewrite Nat.add_1_r. by apply drop_S. Qed.

Lemma index_in {E A} (l : list A) i :
  (i < length l)%nat -> exists x, index (E:=E) l i = Ok x.
Proof. intros [x Hx]%lookup_lt_is_Some. exists x. by apply index_Ok. Qed.

Lemma slice_cursor {E A} (l s : list A) i n :
  slice (E:=E) i (i + n) l = Ok s -> drop i l = s ++ drop (i + n) l /\ length s = n.
Proof.
  unfold slice. case_decide as Hb; [|done]. intros [= <-].
  replace (i + n - i)%nat with n by lia. split.
  - by rewrite <- drop_drop, take_drop.
  - rewrite length_take, length_drop. lia.
Qed.

Lemma slice_in {E A} (l : list A) i n :
  (i + n <= length l)%nat -> exists s, slice (E:=E) i (i + n) l = Ok s.
Proof. intros. rewrite slice_Ok by lia. eauto. Qed.

(** ** Lemmas on machine integers *)

Lemma to_N_bound b : Byte.to_N b < 256.
Proof. pose proof (Byte.to_N_bounded b). lia. Qed.

Lemma to_of_byte_N n : Byte.to_N (byte_of_N n) = n mod 256.
Proof.
  unfold byte_of_N. destruct (Byte.of_N (n mod 256)) as [b|] eqn:Eb.
  - by apply Byte.to_of_N in Eb.
  - apply Byte.of_N_None_iff in Eb.
    pose proof (N.mod_lt n 256). lia.
Qed.

Lemma byte_of_to_N b : byte_of_N (Byte.to_N b) = b.
Proof.
  unfold byte_of_N. rewrite N.mod_small by apply to_N_bound.
  by rewrite Byte.of_to_N.
Qed.

Lemma wrap_small w n : n < 2 ^ w -> wrap w n = n.
Proof. apply N.mod_small. Qed.

Lemma wrap_lt w n : wrap w n < 2 ^ w.
Proof. apply N.mod_lt. by apply N.pow_nonzero. Qed.

Lemma length_le_bytes w n : length (le_bytes w n) = w.
Proof. revert n. induction w; intros; cbn; auto. Qed.

Lemma length_be_bytes w n : length (be_bytes w n) = w.
Proof. unfold be_bytes. by rewrite length_reverse, length_le_bytes. Qed.

Lemma le_value_bytes w n : le_value (le_bytes w n) = n mod 2 ^ (8 * N.of_nat w).
Proof.
  revert n. induction w as [|w IH]; intros n.
  { cbn. symmetry. apply N.mod_1_r. }
  cbn [le_bytes le_value]. rewrite IH, to_of_byte_N.
  replace (8 * N.of_nat (S w)) with (8 + 8 * N.of_nat w) by lia.
  rewrite N.pow_add_r. change (2 ^ 8) with 256.
  rewrite N.Div0.mod_mul_r. lia.
Qed.

Lemma le_bytes_value l : le_bytes (length l) (le_value l) = l.
Proof.
  induction l as [|b l IH]; [done|]. cbn [length le_value le_bytes].
  pose proof (to_N_bound b).
  f_equal.
  - rewrite <- (byte_of_to_N b) at 2. unfold byte_of_N. do 2 f_equal.
    rewrite N.mul_comm, N.Div0.mod_add. done.
  - rewrite N.mul_comm, N.div_add by done. rewrite N.div_small by done. done.
Qed.

Lemma be_value_bytes w n : be_value (be_bytes w n) = n mod 2 ^ (8 * N.of_nat w).
Proof.
  unfold be_value, be_bytes. rewrite reverse_involutive. apply le_value_bytes.
Qed.

Lemma be_bytes_value l : be_bytes (length l) (be_value l) = l.
Proof.
  unfold be_value, be_bytes. rewrite <- length_reverse, le_bytes_value.
  apply reverse_involutive.
Qed.

Lemma be_value_bound l : be_value l < 2 ^ (8 * len l).
Proof.
  unfold len. rewrite <- (be_bytes_value l) at 1. rewrite be_value_bytes.
  apply N.mod_lt. by apply N.pow_nonzero.
Qed.

Lemma be_bytes_inj w m n :
  m < 2 ^ (8 * N.of_nat w) -> n < 2 ^ (8 * N.of_nat w) ->
  be_bytes w m = be_bytes w n -> m = n.
Proof.
  intros Hm Hn Heq. apply (f_equal be_value) in Heq.
  rewrite !be_value_bytes, !N.mod_small in Heq by done. done.
Qed.

Lemma le_bytes_inj w m n :
  m < 2 ^ (8 * N.of_nat w) -> n < 2 ^ (8 * N.of_nat w) ->
  le_bytes w m = le_bytes w n -> m = n.
Proof.
  intros Hm Hn Heq. apply (f_equal le_value) in Heq.
  rewrite !le_value_bytes, !N.mod_small in Heq by done. done.
Qed.

Lemma u32_max_spec : u32_max = 4294967295.
Proof. reflexivity. Qed.
Lemma pow_2_32 : 2 ^ 32 = 4294967296.
Proof. reflexivity. Qed.
Lemma sat_add32_spec a b : sat_add32 a b = N.min (a + b) 4294967295.
Proof. reflexivity. Qed.

Lemma sat_add64_small a b : a + b < 2 ^ 64 -> sat_add64 a b = a + b.
Proof. unfold sat_add64, u64_max. lia. Qed.

Lemma add_w_small {E} `{BuildProfile} w a b :
  a + b < 2 ^ w -> add_w (E:=E) w a b = Ok (a + b).
Proof. intros Hlt. unfold add_w. by apply N.ltb_lt in Hlt as ->. Qed.

(** Splitting a concatenation whose first parts have equal lengths. *)
Lemma app_inj_len {A} (l1 l2 k1 k2 : list A) :
  length l1 = length l2 -> l1 ++ k1 = l2 ++ k2 -> l1 = l2 /\ k1 = k2.
Proof. intros. by apply app_inj_1. Qed.

Lemma take_drop_app {A} n (l : list A) : take n l ++ drop n l = l.
Proof. apply take_drop. Qed.

Lemma Forall2_fmap_eq {A B C} (f : B -> C) (g : A -> C) l k :
  Forall2 (fun x y => f y = g x) l k -> f <$> k = g <$> l.
Proof. induction 1 as [|x y l k Hxy _ IH]; [done|]. rewrite !fmap_cons. congruence. Qed.

(** Induction two elements at a time. *)
Lemma list_pair_ind {A} (P : list A -> Prop) :
  P [] -> (forall x, P [x]) -> (forall x y l, P l -> P (x :: y :: l)) -> forall l, P l.
Proof.
  intros H0 H1 H2 l. enough (P l /\ forall x, P (x :: l)) by naive_solver.
  induction l as [|y l [IH IH']]; auto.
Qed.

#[export] Hint Rewrite @length_app @length_le_bytes @length_be_bytes : eatpass.
#[export] Hint Resolve to_N_bound wrap_lt array32_id : eatpass.
