(* ===== verification/RustStr.v ===== *)
(** * Rust strings

A Rust [str] is a byte slice with the invariant that it is valid UTF-8, so a
[str] is modelled by its bytes, [as_bytes] is the identity and [len] is the
number of bytes.  This file gives the operations of the standard library's
[str], [u64] and [u8] the sources use: [from_utf8] with the text of its error,
[trim] over the Unicode white space, [strip_prefix], [split], [split_once],
[trim_matches], the ASCII case operations, and decimal printing and parsing. *)

From S2P Require Import Prelude.

Abbreviation str := bytes.

(** ** Bytes by value *)

Definition b_in (lo hi : N) (b : byte) : bool :=
  (lo <=? Byte.to_N b) && (Byte.to_N b <=? hi).
Definition b_is (n : N) (b : byte) : bool := Byte.to_N b =? n.

(** ** [std::str::from_utf8] *)

(** [Utf8Error]: [valid_up_to] and [error_len]. *)
Record Utf8Error := { valid_up_to : N; error_len : option N }.

Definition utf8_cont (b : byte) : bool := b_in 0x80 0xBF b.

(** The second byte of a three-byte and of a four-byte sequence. *)
Definition utf8_second3 (b0 b1 : byte) : bool :=
  (b_is 0xE0 b0 && b_in 0xA0 0xBF b1) || (b_in 0xE1 0xEC b0 && utf8_cont b1)
  || (b_is 0xED b0 && b_in 0x80 0x9F b1) || (b_in 0xEE 0xEF b0 && utf8_cont b1).
Definition utf8_second4 (b0 b1 : byte) : bool :=
  (b_is 0xF0 b0 && b_in 0x90 0xBF b1) || (b_in 0xF1 0xF3 b0 && utf8_cont b1)
  || (b_is 0xF4 b0 && b_in 0x80 0x8F b1).

(** [run_utf8_validation]: [None] when the whole input is valid. *)
Fixpoint utf8_check (i : N) (s : bytes) : option Utf8Error :=
  let bad k := Some {| valid_up_to := i; error_len := Some k |} in
  let short := Some {| valid_up_to := i; error_len := None |} in
  match s with
  | [] => None
  | b0 :: s1 =>
      if b_in 0 0x7F b0 then utf8_check (i + 1) s1
      else if b_in 0xC2 0xDF b0 then
        match s1 with
        | [] => short
        | b1 :: s2 => if utf8_cont b1 then utf8_check (i + 2) s2 else bad 1
        end
      else if b_in 0xE0 0xEF b0 then
        match s1 with
        | [] => short
        | b1 :: s2 =>
            if utf8_second3 b0 b1 then
              match s2 with
              | [] => short
              | b2 :: s3 => if utf8_cont b2 then utf8_check (i + 3) s3 else bad 2
              end
            else bad 1
        end
      else if b_in 0xF0 0xF4 b0 then
        match s1 with
        | [] => short
        | b1 :: s2 =>
            if utf8_second4 b0 b1 then
              match s2 with
              | [] => short
              | b2 :: s3 =>
                  if utf8_cont b2 then
                    match s3 with
                    | [] => short
                    | b3 :: s4 => if utf8_cont b3 then utf8_check (i + 4) s4 else bad 3
                    end
                  else bad 2
              end
            else bad 1
        end
      else bad 1
  end.

Definition from_utf8 (s : bytes) : result Utf8Error str :=
  match utf8_check 0 s with None => Ok s | Some e => Err e end.

(** The invariant of [str] and [String]. *)
Definition is_utf8 (s : bytes) : Prop := utf8_check 0 s = None.

(** [u64::to_string] and the other unsigned integers. *)
Definition display_N (n : N) : str := B (pretty n).

(** [Display] of [Utf8Error]. *)
Definition utf8_error_display (e : Utf8Error) : str :=
  match error_len e with
  | Some n => B "invalid utf-8 sequence of " ++ display_N n
              ++ B " bytes from index " ++ display_N (valid_up_to e)
  | None => B "incomplete utf-8 byte sequence from index " ++ display_N (valid_up_to e)
  end.

(** ** [str::trim] *)

(** [char::is_whitespace] on the one-, two- and three-byte encodings. *)
Definition ws1 (b : byte) : bool := b_in 9 13 b || b_is 32 b.
Definition ws2 (b0 b1 : byte) : bool := b_is 0xC2 b0 && (b_is 0x85 b1 || b_is 0xA0 b1).
Definition ws3 (b0 b1 b2 : byte) : bool :=
  (b_is 0xE1 b0 && b_is 0x9A b1 && b_is 0x80 b2)
  || (b_is 0xE2 b0 && b_is 0x80 b1
      && (b_in 0x80 0x8A b2 || b_is 0xA8 b2 || b_is 0xA9 b2 || b_is 0xAF b2))
  || (b_is 0xE2 b0 && b_is 0x81 b1 && b_is 0x9F b2)
  || (b_is 0xE3 b0 && b_is 0x80 b1 && b_is 0x80 b2).

Fixpoint trim_start (s : str) : str :=
  match s with
  | [] => []
  | b0 :: s1 =>
      if ws1 b0 then trim_start s1 else
      match s1 with
      | b1 :: s2 =>
          if ws2 b0 b1 then trim_start s2 else
          match s2 with
          | b2 :: s3 => if ws3 b0 b1 b2 then trim_start s3 else s
          | [] => s
          end
      | [] => s
      end
  end.

(** The same from the end: the argument is the string reversed. *)
Fixpoint trim_rev (s : bytes) : bytes :=
  match s with
  | [] => []
  | b0 :: s1 =>
      if ws1 b0 then trim_rev s1 else
      match s1 with
      | b1 :: s2 =>
          if ws2 b1 b0 then trim_rev s2 else
          match s2 with
          | b2 :: s3 => if ws3 b2 b1 b0 then trim_rev s3 else s
          | [] => s
          end
      | [] => s
      end
  end.

Definition trim_end (s : str) : str := reverse (trim_rev (reverse s)).
Definition trim (s : str) : str := trim_end (trim_start s).

(** ** Patterns *)

Fixpoint strip_prefix (pat s : bytes) : option str :=
  match pat, s with
  | [], _ => Some s
  | p :: pat', b :: s' => if decide (p = b) then strip_prefix pat' s' else None
  | _ :: _, [] => None
  end.

Definition starts_with (pat s : bytes) : bool :=
  match strip_prefix pat s with Some _ => true | None => false end.

(** [s.split(pat)] for a non-empty pattern: the pieces between the matches,
    found from the left without overlap. [acc] is the current piece reversed,
    [skip] the bytes of a match still to pass over. *)
Fixpoint split_aux (pat acc : bytes) (skip : nat) (s : str) : list str :=
  match s with
  | [] => [reverse acc]
  | b :: s' =>
      match skip with
      | S k => split_aux pat acc k s'
      | O =>
          if starts_with pat s then reverse acc :: split_aux pat [] (pred (length pat)) s'
          else split_aux pat (b :: acc) O s'
      end
  end.

Definition split (pat s : str) : list str := split_aux pat [] O s.

(** [s.split_once(c)] for an ASCII character. *)
Fixpoint split_once (c : byte) (s : str) : option (str * str) :=
  match s with
  | [] => None
  | b :: s' =>
      if decide (b = c) then Some ([], s')
      else match split_once c s' with Some (x, y) => Some (b :: x, y) | None => None end
  end.

(** [trim_start_matches], [trim_end_matches] and [trim_matches] for an ASCII
    character. *)
Fixpoint trim_start_matches (c : byte) (s : str) : str :=
  match s with
  | b :: s' => if decide (b = c) then trim_start_matches c s' else s
  | [] => []
  end.
Definition trim_end_matches (c : byte) (s : str) : str :=
  reverse (trim_start_matches c (reverse s)).
Definition trim_matches (c : byte) (s : str) : str :=
  trim_end_matches c (trim_start_matches c s).

(** ** ASCII case *)

Definition to_ascii_lower_byte (b : byte) : byte :=
  if b_in 65 90 b then byte_of_N (Byte.to_N b + 32) else b.
Definition to_ascii_lowercase (s : str) : str := to_ascii_lower_byte <$> s.
Definition eq_ignore_ascii_case (s t : str) : bool :=
  bool_decide (to_ascii_lowercase s = to_ascii_lowercase t).

(** [split_whitespace]: the pieces between whitespace characters that are not
    empty; [acc] is the piece being read. *)
Fixpoint split_ws (acc : bytes) (s : str) : list str :=
  let flush (rest : list str) := match acc with [] => rest | _ => acc :: rest end in
  match s with
  | [] => flush []
  | b0 :: s1 =>
      if ws1 b0 then flush (split_ws [] s1) else
      match s1 with
      | b1 :: s2 =>
          if ws2 b0 b1 then flush (split_ws [] s2) else
          match s2 with
          | b2 :: s3 => if ws3 b0 b1 b2 then flush (split_ws [] s3) else split_ws (acc ++ [b0]) s1
          | [] => split_ws (acc ++ [b0]) s1
          end
      | [] => split_ws (acc ++ [b0]) s1
      end
  end.

Definition split_whitespace (s : str) : list str := split_ws [] s.

(** ** [str::parse::<u64>] *)

Inductive ParseIntError := PIEmpty | PIInvalidDigit | PIPosOverflow.

Definition parse_int_error_display (e : ParseIntError) : str :=
  match e with
  | PIEmpty => B "cannot parse integer from empty string"
  | PIInvalidDigit => B "invalid digit found in string"
  | PIPosOverflow => B "number too large to fit in target type"
  end.

Fixpoint parse_digits (w acc : N) (s : str) : result ParseIntError N :=
  match s with
  | [] => Ok acc
  | b :: s' =>
      if b_in 48 57 b then
        let acc' := acc * 10 + (Byte.to_N b - 48) in
        if acc' <? 2 ^ w then parse_digits w acc' s' else Err PIPosOverflow
      else Err PIInvalidDigit
  end.

Definition parse_uint (w : N) (s : str) : result ParseIntError N :=
  match s with
  | [] => Err PIEmpty
  | b :: s' =>
      match s' with
      | [] => if b_is 43 b || b_is 45 b then Err PIInvalidDigit else parse_digits w 0 s
      | _ => if b_is 43 b then parse_digits w 0 s' else parse_digits w 0 s
      end
  end.

(** ** Alphabets *)

(** The lower-case hex digits, the hex digits, and the base64 alphabets. *)
Definition is_hex_lower (b : byte) : bool := b_in 48 57 b || b_in 97 102 b.
Definition is_hex_digit (b : byte) : bool := is_hex_lower b || b_in 65 70 b.
Definition is_alnum (b : byte) : bool := b_in 48 57 b || b_in 65 90 b || b_in 97 122 b.
Definition is_b64url (b : byte) : bool := is_alnum b || b_is 45 b || b_is 95 b.
Definition is_b64 (b : byte) : bool := is_alnum b || b_is 43 b || b_is 47 b || b_is 61 b.

(** A printable ASCII byte other than the space: no white space starts or ends
    with one. *)
Definition is_graph (b : byte) : bool := b_in 33 126 b.

(** ** Lemmas *)

(** A property of bytes that is decided by inspection of the 256 values. *)
Ltac by_bytes b := destruct b; vm_compute; done.

Lemma from_utf8_Ok s t : from_utf8 s = Ok t <-> t = s /\ is_utf8 s.
Proof. unfold from_utf8, is_utf8. case_match; naive_solver. Qed.

Lemma from_utf8_no_panic s : from_utf8 s <> Panic.
Proof. unfold from_utf8. by case_match. Qed.

Lemma from_utf8_id s : is_utf8 s -> from_utf8 s = Ok s.
Proof. intros H. by apply from_utf8_Ok. Qed.

(** ASCII is valid UTF-8. *)
Lemma ascii_is_utf8 s : forallb (b_in 0 0x7F) s = true -> is_utf8 s.
Proof.
  intros H. unfold is_utf8. enough (Hi : forall i, utf8_check i s = None) by apply Hi.
  induction s as [|b s IH]; intros i; [done|].
  cbn [forallb utf8_check] in *. apply andb_prop in H as [Hb Hs]. rewrite Hb. auto.
Qed.

(** *** [trim] leaves a string with printable ends unchanged *)

Lemma graph_not_ws b : is_graph b = true ->
  ws1 b = false /\ (forall c, ws2 b c = false /\ ws2 c b = false)
  /\ (forall c d, ws3 b c d = false /\ ws3 c d b = false).
Proof.
  unfold is_graph, ws1, ws2, ws3, b_in, b_is. intros H.
  apply andb_prop in H as [H1 H2]. apply N.leb_le in H1, H2.
  repeat split; intros; lia.
Qed.

Lemma trim_start_graph b s : is_graph b = true -> trim_start (b :: s) = b :: s.
Proof.
  intros (H1 & H2 & H3)%graph_not_ws. cbn. rewrite H1.
  destruct s as [|b1 s]; [done|]. rewrite (proj1 (H2 b1)).
  destruct s as [|b2 s]; [done|]. by rewrite (proj1 (H3 b1 b2)).
Qed.

Lemma trim_rev_graph b s : is_graph b = true -> trim_rev (b :: s) = b :: s.
Proof.
  intros (H1 & H2 & H3)%graph_not_ws. cbn. rewrite H1.
  destruct s as [|b1 s]; [done|]. rewrite (proj2 (H2 b1)).
  destruct s as [|b2 s]; [done|]. by rewrite (proj2 (H3 b2 b1)).
Qed.

Lemma trim_end_graph s b : is_graph b = true -> trim_end (s ++ [b]) = s ++ [b].
Proof.
  intros Hb. unfold trim_end. rewrite reverse_snoc, trim_rev_graph by done.
  by rewrite reverse_cons, reverse_involutive.
Qed.

Lemma trim_start_space s : trim_start (x20 :: s) = trim_start s.
Proof. reflexivity. Qed.

Lemma trim_graph s : forallb is_graph s = true -> trim s = s.
Proof.
  unfold trim. destruct s as [|b s]; [done|]. cbn [forallb].
  intros [Hb Hs]%andb_prop. rewrite trim_start_graph by done.
  destruct s as [|c s' _] using rev_ind.
  - by apply (trim_end_graph []).
  - rewrite forallb_app in Hs. cbn in Hs.
    apply (trim_end_graph (b :: s')). by destruct (is_graph c); rewrite ?andb_false_r in Hs.
Qed.

(** A leading space and a printable rest: [trim] drops the space. *)
Lemma trim_space_graph s : forallb is_graph s = true -> trim (x20 :: s) = s.
Proof. intros H. unfold trim. rewrite trim_start_space. by apply trim_graph. Qed.

(** The ends decide: a string whose first and last bytes are printable. *)
Lemma trim_ends b s c :
  is_graph b = true -> is_graph c = true -> trim (b :: s ++ [c]) = b :: s ++ [c].
Proof.
  intros Hb Hc. unfold trim. rewrite trim_start_graph by done.
  by apply (trim_end_graph (b :: s)).
Qed.

(** *** Prefixes and matches *)

Lemma strip_prefix_app pat s : strip_prefix pat (pat ++ s) = Some s.
Proof. induction pat; cbn; [done|]. by rewrite decide_True. Qed.

Lemma strip_prefix_Some pat s t : strip_prefix pat s = Some t -> s = pat ++ t.
Proof.
  revert s. induction pat as [|p pat IH]; intros [|b s]; cbn; intros; simplify_eq; [done..|].
  case_decide; [|done]. subst. f_equal. auto.
Qed.

Lemma starts_with_app pat s : starts_with pat (pat ++ s) = true.
Proof. unfold starts_with. by rewrite strip_prefix_app. Qed.

(** [pat] is found at no position of [s]. *)
Definition no_match (pat s : bytes) : Prop := forall a c, s <> a ++ pat ++ c.

Lemma no_match_cons pat b s :
  no_match pat (b :: s) -> starts_with pat (b :: s) = false /\ no_match pat s.
Proof.
  intros H. split.
  - unfold starts_with. destruct (strip_prefix pat (b :: s)) as [t|] eqn:Es; [|done].
    apply strip_prefix_Some in Es. by destruct (H [] t).
  - intros a c ->. by apply (H (b :: a) c).
Qed.

Lemma split_aux_no_match pat acc s :
  no_match pat s -> split_aux pat acc 0 s = [reverse acc ++ s].
Proof.
  revert acc. induction s as [|b s IH]; intros acc H; cbn [split_aux].
  { by rewrite app_nil_r. }
  apply no_match_cons in H as [-> H]. rewrite IH by done.
  by rewrite reverse_cons, <- app_assoc.
Qed.

Lemma split_aux_skip pat acc k s t :
  length t = k -> split_aux pat acc k (t ++ s) = split_aux pat acc 0 s.
Proof.
  revert k. induction t as [|b t IH]; intros k <-; [done|].
  cbn [app split_aux length]. by apply IH.
Qed.

Lemma split_match pat s :
  pat <> [] -> split pat (pat ++ s) = [] :: split pat s.
Proof.
  unfold split. destruct pat as [|p pat]; [done|]. intros _.
  pose proof (starts_with_app (p :: pat) s) as Hs. cbn [app] in *.
  cbn [split_aux]. rewrite Hs. cbn [length pred]. by rewrite split_aux_skip.
Qed.

(** The piece after the only match at the start. *)
Lemma split_nth1 pat s :
  pat <> [] -> no_match pat s -> split pat (pat ++ s) !! 1%nat = Some s.
Proof.
  intros Hp Hs. rewrite split_match by done. unfold split.
  by rewrite split_aux_no_match.
Qed.

(** A pattern with a byte the string does not contain is not found. *)
Lemma no_match_byte pat c s : c ∈ pat -> c ∉ s -> no_match pat s.
Proof. intros Hc Hs a d ->. apply Hs. set_solver. Qed.

Lemma split_aux_char c acc s t :
  c ∉ s -> split_aux [c] acc 0 (s ++ c :: t) = (reverse acc ++ s) :: split [c] t.
Proof.
  revert acc. induction s as [|b s IH]; intros acc Hs; cbn [app split_aux].
  - unfold starts_with. cbn [strip_prefix]. rewrite decide_True by done.
    cbn. by rewrite app_nil_r.
  - unfold starts_with. cbn [strip_prefix]. rewrite decide_False by set_solver.
    rewrite IH by set_solver. by rewrite reverse_cons, <- app_assoc.
Qed.

(** [s.split(c).next()] on a string that starts with a piece without [c]. *)
Lemma split_char_head c s t :
  c ∉ s -> head (split [c] (s ++ c :: t)) = Some s.
Proof. intros Hs. unfold split. by rewrite split_aux_char. Qed.

Lemma split_once_app c s t : c ∉ s -> split_once c (s ++ c :: t) = Some (s, t).
Proof.
  induction s as [|b s IH]; intros Hs; cbn.
  - by rewrite decide_True.
  - rewrite decide_False by set_solver. rewrite IH by set_solver. done.
Qed.

Lemma trim_start_matches_id c s : c ∉ s -> trim_start_matches c s = s.
Proof. destruct s; [done|]. intros. cbn. rewrite decide_False; set_solver. Qed.

Lemma trim_end_matches_id c s : c ∉ s -> trim_end_matches c s = s.
Proof.
  intros. unfold trim_end_matches.
  rewrite trim_start_matches_id by (by rewrite elem_of_reverse).
  apply reverse_involutive.
Qed.

Lemma trim_matches_id c s : c ∉ s -> trim_matches c s = s.
Proof.
  intros. unfold trim_matches. rewrite trim_start_matches_id by done.
  by apply trim_end_matches_id.
Qed.

(** *** Alphabets *)

Lemma not_in_class (p : byte -> bool) c s :
  forallb p s = true -> p c = false -> c ∉ s.
Proof.
  intros Hs Hc Hin. apply list_elem_of_In in Hin.
  rewrite forallb_forall in Hs. apply Hs in Hin. congruence.
Qed.

Lemma forallb_mono (p q : byte -> bool) s :
  (forall b, p b = true -> q b = true) -> forallb p s = true -> forallb q s = true.
Proof. rewrite !forallb_forall. auto. Qed.

Lemma hex_lower_digit b : is_hex_lower b = true -> is_hex_digit b = true.
Proof. unfold is_hex_digit. intros ->. done. Qed.
Lemma hex_digit_graph b : is_hex_digit b = true -> is_graph b = true.
Proof. by_bytes b. Qed.
Lemma b64url_graph b : is_b64url b = true -> is_graph b = true.
Proof. by_bytes b. Qed.
Lemma b64_graph b : is_b64 b = true -> is_graph b = true.
Proof. by_bytes b. Qed.

Lemma trim_hex s : forallb is_hex_digit s = true -> trim s = s.
Proof. intros H. eapply trim_graph, forallb_mono, H. apply hex_digit_graph. Qed.
Lemma trim_hex_lower s : forallb is_hex_lower s = true -> trim s = s.
Proof. intros H. eapply trim_hex, forallb_mono, H. apply hex_lower_digit. Qed.
Lemma trim_b64 s : forallb is_b64 s = true -> trim s = s.
Proof. intros H. eapply trim_graph, forallb_mono, H. apply b64_graph. Qed.

Lemma lower_hex_byte b : is_hex_lower b = true -> to_ascii_lower_byte b = b.
Proof. by_bytes b. Qed.

Lemma lowercase_hex_lower s :
  forallb is_hex_lower s = true -> to_ascii_lowercase s = s.
Proof.
  induction s as [|b s IH]; [done|]. cbn. intros [Hb Hs]%andb_prop.
  f_equal; [by apply lower_hex_byte | by apply IH].
Qed.

Lemma eq_ignore_ascii_case_refl s : eq_ignore_ascii_case s s = true.
Proof. unfold eq_ignore_ascii_case. by rewrite bool_decide_true. Qed.

Lemma eq_ignore_ascii_case_spec s t :
  eq_ignore_ascii_case s t = true <-> to_ascii_lowercase s = to_ascii_lowercase t.
Proof. apply bool_decide_eq_true. Qed.

(** *** Decimal printing *)

Definition is_digit (b : byte) : bool := b_in 48 57 b.

Lemma B_inj s t : B s = B t -> s = t.
Proof.
  unfold B. intros H. apply (f_equal String.string_of_list_byte) in H.
  by rewrite !String.string_of_list_byte_of_string in H.
Qed.

Lemma display_N_inj m n : display_N m = display_N n -> m = n.
Proof. intros H%B_inj. by apply (inj pretty) in H. Qed.

Lemma pretty_N_char_digit x : is_digit (Ascii.byte_of_ascii (pretty_N_char x)) = true.
Proof. unfold pretty_N_char. repeat case_match; reflexivity. Qed.

Lemma pretty_N_go_digits x s :
  forallb is_digit (B s) = true -> forallb is_digit (B (pretty_N_go x s)) = true.
Proof.
  revert s. induction x as [x IH] using (well_founded_induction N.lt_wf_0); intros s Hs.
  destruct (decide (x = 0)) as [->|Hx]; [by rewrite pretty_N_go_0|].
  rewrite pretty_N_go_step by lia. apply IH; [apply N.div_lt; lia|].
  change (B (String ?c s)) with (Ascii.byte_of_ascii c :: B s). cbn [forallb].
  by rewrite pretty_N_char_digit, Hs.
Qed.

Lemma display_N_digits n : forallb is_digit (display_N n) = true.
Proof.
  unfold display_N, pretty, pretty_N. case_decide; [reflexivity|]. by apply pretty_N_go_digits.
Qed.

Lemma parse_digit_char d : d < 10 ->
  b_in 48 57 (Ascii.byte_of_ascii (pretty_N_char d)) = true
  /\ Byte.to_N (Ascii.byte_of_ascii (pretty_N_char d)) - 48 = d.
Proof.
  intros Hd.
  assert (d = 0 \/ d = 1 \/ d = 2 \/ d = 3 \/ d = 4 \/ d = 5 \/ d = 6 \/ d = 7 \/ d = 8 \/ d = 9)
    by lia.
  naive_solver.
Qed.

Lemma parse_digits_pretty w x s : x < 2 ^ w ->
  parse_digits w 0 (B (pretty_N_go x s)) = parse_digits w x (B s).
Proof.
  revert s. induction x as [x IH] using (well_founded_induction N.lt_wf_0); intros s Hx.
  destruct (decide (x = 0)) as [->|Hn]; [by rewrite pretty_N_go_0|].
  assert (Hdiv : x / 10 < x) by (apply N.div_lt; lia).
  rewrite pretty_N_go_step, IH by lia.
  change (B (String ?c s)) with (Ascii.byte_of_ascii c :: B s). cbn [parse_digits].
  destruct (parse_digit_char (x mod 10)) as [-> ->]; [apply N.mod_lt; lia|].
  replace (x / 10 * 10 + x mod 10) with x by (rewrite (N.div_mod x 10) at 1; lia).
  by apply N.ltb_lt in Hx as ->.
Qed.

Lemma digit_no_sign b : is_digit b = true -> b_is 43 b = false /\ b_is 45 b = false.
Proof. by_bytes b. Qed.

(** What [Display] prints of a number, [parse] reads. *)
Lemma parse_uint_display w n : n < 2 ^ w -> parse_uint w (display_N n) = Ok n.
Proof.
  intros Hn. pose proof (display_N_digits n) as Hd.
  assert (Hp : parse_digits w 0 (display_N n) = Ok n).
  { unfold display_N, pretty, pretty_N. case_decide as H0.
    - subst n. change (B "0") with [x30]. cbn [parse_digits b_in].
      change (0 * 10 + _) with 0. apply N.ltb_lt in Hn as ->. done.
    - by rewrite parse_digits_pretty. }
  destruct (display_N n) as [|b s] eqn:Hs.
  { cbn in Hp. injection Hp as <-. done. }
  cbn [forallb] in Hd. apply andb_prop in Hd as [Hb _].
  destruct (digit_no_sign b Hb) as [H1 H2].
  unfold parse_uint. rewrite H1, H2. cbn [orb]. by destruct s.
Qed.

#[export] Hint Resolve trim_hex_lower trim_b64 trim_matches_id trim_end_matches_id
  lowercase_hex_lower from_utf8_id : eatpass.
