(* ===== verification/Externals.v ===== *)
(** * Code outside the repository

Every third-party crate the modelled code calls is a type class of operations,
so that the definitions take it as an argument, and a second class states the
documented behaviour a theorem relies on.  A fallible external operation
returns [E + T] with [E] the [Display] text of its error: it may fail and does
not panic.

- [Sha256]: sha2's [Sha256]; a sequence of [update]s is the digest of the
  concatenation.
- [Hex], [Base64]: the crates hex and base64 (engines STANDARD and
  URL_SAFE_NO_PAD).
- [Json]: serde_json on one type.
- [Faest]: the crate faest with the ChaCha20 generator that seeds a key.
- [Ed25519]: ed25519-dalek, used by the dev-sim stand-ins.
- [Rng], [BlindSig]: getrandom and rand, and the blind signature library of
  the third_party submodule.
- [Chrono]: chrono's [DateTime<Utc>], used only through its order.
- [Tiers]: [unified_quote::tiers::assurance_tier]. *)

From S2P Require Import Prelude RustStr.

(** ** Operations *)

Class Sha256 := sha256 : bytes -> bytes.

Class Hex := {
  hex_encode : bytes -> str;
  hex_decode : str -> str + bytes;
}.

(** The two engines of base64 the sources use. *)
Inductive B64Engine := STANDARD | URL_SAFE_NO_PAD.

Class Base64 := {
  b64_encode : B64Engine -> bytes -> str;
  b64_decode : B64Engine -> str -> str + bytes;
}.

(** [serde_json::to_vec] (or [to_string]) and [from_slice] (or [from_str]). *)
Class Json (T : Type) := {
  json_to_vec : T -> str + bytes;
  json_from_slice : bytes -> str + T;
}.

Class Faest := {
  faest_sk : Type;
  faest_vk : Type;
  faest_sig : Type;
  (** [FAEST128fSigningKey::generate(&mut ChaCha20Rng::from_seed(seed))]. *)
  faest_generate : bytes -> faest_sk;
  faest_verifying_key : faest_sk -> faest_vk;
  faest_vk_to_bytes : faest_vk -> bytes;
  faest_vk_try_from : bytes -> str + faest_vk;
  faest_sig_to_bytes : faest_sig -> bytes;
  faest_sig_try_from : bytes -> str + faest_sig;
  faest_sign : faest_sk -> bytes -> faest_sig;
  faest_verify : faest_vk -> bytes -> faest_sig -> str + unit;
}.

Class Ed25519 := {
  ed_sk : Type;
  ed_vk : Type;
  ed_sk_from_bytes : bytes -> ed_sk;
  ed_verifying_key : ed_sk -> ed_vk;
  ed_vk_to_bytes : ed_vk -> bytes;
  ed_vk_from_bytes : bytes -> str + ed_vk;
  ed_sign : ed_sk -> bytes -> bytes;
  ed_verify : ed_vk -> bytes -> bytes -> str + unit;
}.

(** The operating system's randomness, as a state that every draw advances. *)
Class Rng := {
  rng : Type;
  (** [rand::rng().fill_bytes] on 32 bytes. *)
  fill32 : rng -> bytes * rng;
  (** [getrandom::getrandom] on 32 bytes. *)
  getrandom32 : rng -> (str + bytes) * rng;
}.

(** [BlindSignatureOptimized]; the [&mut additional_r] of [sign_1] and [sign_3]
    is an argument and a result, and each operation may draw randomness. *)
Class BlindSig `{Rng} := {
  bs_proof_state : Type;
  bs_keygen : rng -> (bytes * bytes) * rng;
  bs_expand_pk : bytes -> bytes;
  bs_sign_1 : bytes -> bytes -> rng -> (bytes * bs_proof_state * bytes) * rng;
  bs_sign_2 : bytes -> bytes -> rng -> bytes * rng;
  bs_sign_3 : bytes -> bytes -> bytes -> bs_proof_state -> bytes -> rng ->
              (bytes * bytes) * rng;
  bs_verify : bytes -> bytes -> bytes -> bytes -> bool;
}.

Class Chrono := {
  DateTime : Type;
  dt_eq_dec :: EqDecision DateTime;
  (** [a > b]. *)
  dt_gt : DateTime -> DateTime -> bool;
  (** [Debug] of an instant. *)
  dt_debug : DateTime -> str;
}.

(** The tier label and its detail, for a platform and the IMA flag. *)
Class Tiers := assurance_tier : str -> bool -> str * str.

(** A fallible external call as a [Result]. *)
Definition of_sum {E T} (r : E + T) : result E T :=
  match r with inl e => Err e | inr x => Ok x end.

(** ** Documented behaviour *)

Class Sha256Laws `{Sha256} : Prop := sha256_length m : length (sha256 m) = 32%nat.

Class HexLaws `{Hex} : Prop := {
  hex_decode_encode b : hex_decode (hex_encode b) = inr b;
  hex_encode_lower b : forallb is_hex_lower (hex_encode b) = true;
  hex_encode_length b : length (hex_encode b) = (2 * length b)%nat;
  (** Both cases are accepted, and nothing but digits. *)
  hex_decode_spec s b : hex_decode s = inr b <-> to_ascii_lowercase s = hex_encode b;
}.

Class Base64Laws `{Base64} : Prop := {
  b64_decode_encode e b : b64_decode e (b64_encode e b) = inr b;
  b64_encode_std b : forallb is_b64 (b64_encode STANDARD b) = true;
  b64_encode_url b : forallb is_b64url (b64_encode URL_SAFE_NO_PAD b) = true;
  b64_encode_nonempty e b : b <> [] -> b64_encode e b <> [];
}.

Class FaestLaws `{Faest} : Prop := {
  faest_sign_verify sk m :
    faest_verify (faest_verifying_key sk) m (faest_sign sk m) = inr tt;
  faest_vk_roundtrip sk :
    faest_vk_try_from (faest_vk_to_bytes (faest_verifying_key sk))
    = inr (faest_verifying_key sk);
  faest_vk_length sk : length (faest_vk_to_bytes (faest_verifying_key sk)) = 32%nat;
  faest_sig_roundtrip sk m :
    faest_sig_try_from (faest_sig_to_bytes (faest_sign sk m)) = inr (faest_sign sk m);
}.

Class RngLaws `{Rng} : Prop := {
  fill32_length g : length (fst (fill32 g)) = 32%nat;
  getrandom32_length g b g' : getrandom32 g = (inr b, g') -> length b = 32%nat;
}.

(** Completeness of the blind signature: an honest run ends in a proof that
    verifies, is not empty, and leaves a 32-byte [additional_r]. *)
Class BlindSigLaws `{BlindSig} : Prop := bs_complete :
  forall g0 pk sk g1, bs_keygen g0 = ((pk, sk), g1) ->
  forall msg r g2 bm st r1 g3, length r = 32%nat ->
    bs_sign_1 msg r g2 = ((bm, st, r1), g3) ->
  forall g4 bsig g5, bs_sign_2 sk bm g4 = (bsig, g5) ->
  forall g6 proof r2 g7,
    bs_sign_3 pk (bs_expand_pk pk) bsig st r1 g6 = ((proof, r2), g7) ->
    bs_verify (bs_expand_pk pk) msg proof r2 = true
    /\ proof <> [] /\ length r2 = 32%nat.

Class Ed25519Laws `{Ed25519} : Prop := {
  ed_sign_verify sk m : ed_verify (ed_verifying_key sk) m (ed_sign sk m) = inr tt;
  ed_vk_roundtrip sk :
    ed_vk_from_bytes (ed_vk_to_bytes (ed_verifying_key sk)) = inr (ed_verifying_key sk);
  ed_sig_length sk m : length (ed_sign sk m) = 64%nat;
}.

(** Every value is encoded, and decodes to itself. *)
Class JsonLaws (T : Type) `{Json T} : Prop := {
  json_total (x : T) : exists b, json_to_vec x = inr b;
  json_roundtrip (x : T) b : json_to_vec x = inr b -> json_from_slice b = inr x;
}.

(** ** Lemmas *)

Lemma of_sum_Ok {E T} (r : E + T) x : of_sum r = Ok x <-> r = inr x.
Proof. destruct r; naive_solver. Qed.

Lemma of_sum_no_panic {E T} (r : E + T) : of_sum r <> Panic.
Proof. by destruct r. Qed.

Lemma trim_hex_encode `{HexLaws} b : trim (hex_encode b) = hex_encode b.
Proof. apply trim_hex_lower, hex_encode_lower. Qed.

Lemma trim_b64_encode `{Base64Laws} b :
  trim (b64_encode STANDARD b) = b64_encode STANDARD b.
Proof. apply trim_b64, b64_encode_std. Qed.

Lemma hex_encode_inj `{HexLaws} a b : hex_encode a = hex_encode b -> a = b.
Proof. intros Heq. apply (f_equal hex_decode) in Heq. rewrite !hex_decode_encode in Heq. congruence. Qed.

#[export] Hint Rewrite @trim_hex_encode @trim_b64_encode @hex_decode_encode
  @b64_decode_encode using typeclasses eauto : eatpass.

(** A collision located among given messages.  (A collision exists for any
    hash, so a statement names the messages it is found in.) *)
Definition collides `{Sha256} (ms ms' : list bytes) : Prop :=
  exists x y, x ∈ ms /\ y ∈ ms' /\ x <> y /\ sha256 x = sha256 y.

Lemma sha256_inj_or `{Sha256} x y :
  sha256 x = sha256 y -> x = y \/ collides [x] [y].
Proof.
  intros Heq. destruct (decide (x = y)); [by left|right].
  exists x, y. set_solver.
Qed.
