(* ===== verification/Instances.v ===== *)
(** * Concrete stand-ins for the code outside the repository

Small executable instances of the classes of [Externals], each with its laws
proved.  They are used only by the witnesses, which evaluate the model on
concrete inputs: hex is base 16 as the crate writes it, base64 is stood in by
base 16, the hash by a 32-byte checksum, and the signature schemes by
transparent ones (a signature is the key followed by the message). *)

From S2P Require Import Prelude RustStr Externals.

(** ** Base 16 *)

Definition hex_char (v : N) : byte := byte_of_N (if v <? 10 then 48 + v else 87 + v).

Definition hex_val (c : byte) : option N :=
  if b_in 48 57 c then Some (Byte.to_N c - 48)
  else if b_in 97 102 c then Some (Byte.to_N c - 87)
  else if b_in 65 70 c then Some (Byte.to_N c - 55)
  else None.

Fixpoint base16_encode (b : bytes) : str :=
  match b with
  | [] => []
  | x :: b' => hex_char (Byte.to_N x / 16) :: hex_char (Byte.to_N x mod 16) :: base16_encode b'
  end.

Fixpoint base16_decode (s : str) : option bytes :=
  match s with
  | [] => Some []
  | [_] => None
  | c :: d :: s' =>
      match hex_val c, hex_val d, base16_decode s' with
      | Some h, Some l, Some b => Some (byte_of_N (16 * h + l) :: b)
      | _, _, _ => None
      end
  end.

Definition base16_result (s : str) : str + bytes :=
  match base16_decode s with Some b => inr b | None => inl (B "invalid digit") end.

#[export] Instance toy_hex : Hex :=
  {| hex_encode := base16_encode; hex_decode := base16_result |}.

#[export] Instance toy_base64 : Base64 :=
  {| b64_encode := fun _ => base16_encode; b64_decode := fun _ => base16_result |}.

(** ** A 32-byte checksum *)

#[export] Instance toy_sha256 : Sha256 :=
  fun m => be_bytes 32
    (fold_left (fun h b => N.land (h * 257 + Byte.to_N b + 1) (N.ones 64)) m 7).

(** ** Transparent signatures *)

#[export] Instance toy_faest : Faest := {|
  faest_sk := N;
  faest_vk := bytes;
  faest_sig := bytes;
  faest_generate := be_value;
  faest_verifying_key := be_bytes 32;
  faest_vk_to_bytes := id;
  faest_vk_try_from b := if decide (length b = 32%nat) then inr b else inl (B "length");
  faest_sig_to_bytes := id;
  faest_sig_try_from := inr;
  faest_sign sk m := be_bytes 32 sk ++ m;
  faest_verify vk m s := if decide (s = vk ++ m) then inr tt else inl (B "signature error");
|}.

#[export] Instance toy_ed25519 : Ed25519 := {|
  ed_sk := N;
  ed_vk := bytes;
  ed_sk_from_bytes := be_value;
  ed_verifying_key := be_bytes 32;
  ed_vk_to_bytes := id;
  ed_vk_from_bytes := inr;
  ed_sign sk m := be_bytes 32 sk ++ sha256 m;
  ed_verify vk m s := if decide (s = vk ++ sha256 m) then inr tt else inl (B "signature error");
|}.

(** ** A counter as the randomness, and blind signatures that do not blind *)

#[export] Instance toy_rng : Rng := {|
  rng := N;
  fill32 g := (be_bytes 32 g, g + 1);
  getrandom32 g := (inr (be_bytes 32 g), g + 1);
|}.

#[export] Instance toy_blindsig : BlindSig := {|
  bs_proof_state := bytes;
  bs_keygen g := ((be_bytes 32 g, be_bytes 32 g), g + 1);
  bs_expand_pk pk := pk;
  bs_sign_1 msg r g := ((msg, msg, r), g);
  bs_sign_2 sk bm g := (sk ++ bm, g);
  bs_sign_3 pk epk bsig st r g := ((bsig, r), g);
  bs_verify epk msg proof r := bool_decide (proof = epk ++ msg);
|}.

#[export] Instance toy_chrono : Chrono := {|
  DateTime := N;
  dt_gt a b := b <? a;
  dt_debug := display_N;
|}.

(** The tiers of the platforms the sources name. *)
#[export] Instance toy_tiers : Tiers := fun platform ima =>
  if decide (platform = B "linux-tpm-client")
  then (B "device-attested", if ima then B "tpm-ima" else B "tpm-channel-bound")
  else if decide (platform = B "windows-tpm-client") then (B "device-attested", B "tpm-channel-bound")
  else if decide (platform ∈ [B "macos-app-attest"; B "ios-app-attest"; B "android-key-attestation"])
  then (B "device-attested", B "app-attest")
  else (B "silicon-cvm", platform).

#[export] Instance toy_release : BuildProfile := false.

(** JSON of a countable type, stood in by the bytes of its code. *)
#[export] Instance toy_json T `{Countable T} : Json T := {|
  json_to_vec x := inr (be_bytes (S (N.to_nat (N.log2 (Npos (encode x)))))
                        (Npos (encode x)));
  json_from_slice b :=
    match be_value b with
    | Npos p => match decode p with Some x => inr x | None => inl (B "expected value") end
    | N0 => inl (B "expected value")
    end;
|}.

(** ** Laws *)

Lemma base16_roundtrip b : base16_decode (base16_encode b) = Some b.
Proof.
  induction b as [|x b IH]; [done|]. cbn [base16_encode base16_decode]. rewrite IH.
  by destruct x.
Qed.

Lemma base16_lower b : forallb is_hex_lower (base16_encode b) = true.
Proof.
  induction b as [|x b IH]; [done|]. cbn [base16_encode forallb]. rewrite IH.
  by destruct x.
Qed.

Lemma hex_val_char c v : hex_val c = Some v -> to_ascii_lower_byte c = hex_char v /\ v < 16.
Proof. destruct c; vm_compute; intros; simplify_eq; done. Qed.

Lemma hex_val_lower c v : hex_val c = Some v -> hex_val (to_ascii_lower_byte c) = Some v.
Proof. destruct c; vm_compute; intros; simplify_eq; done. Qed.

Lemma base16_inv s b : base16_decode s = Some b -> to_ascii_lowercase s = base16_encode b.
Proof.
  revert b. induction s as [| c | c d s IH] using list_pair_ind; intros b H;
    [by simplify_eq/= | done |]. cbn [base16_decode] in H.
  change (to_ascii_lowercase (c :: d :: s)) with
    (to_ascii_lower_byte c :: to_ascii_lower_byte d :: to_ascii_lowercase s).
  destruct (hex_val c) as [h|] eqn:Hc, (hex_val d) as [l|] eqn:Hd,
    (base16_decode s) as [b'|]; simplify_eq. cbn [base16_encode].
  apply hex_val_char in Hc as [-> Hh], Hd as [-> Hl].
  rewrite (IH b' eq_refl), to_of_byte_N, (N.mod_small _ 256) by lia.
  f_equal; [|f_equal]; f_equal.
  - rewrite (N.mul_comm 16), N.div_add_l, (N.div_small l) by lia. lia.
  - rewrite (N.mul_comm 16), N.add_comm, N.Div0.mod_add, N.mod_small by lia. done.
Qed.

Lemma base16_decode_lower s : base16_decode (to_ascii_lowercase s) = base16_decode s.
Proof.
  assert (Hv : forall c, hex_val (to_ascii_lower_byte c) = hex_val c) by (intros c; by destruct c).
  induction s as [| c | c d s IH] using list_pair_ind; [done..|].
  change (to_ascii_lowercase (c :: d :: s)) with
    (to_ascii_lower_byte c :: to_ascii_lower_byte d :: to_ascii_lowercase s).
  cbn [base16_decode]. by rewrite !Hv, IH.
Qed.

#[export] Instance toy_hex_laws : HexLaws.
Proof.
  split; cbn; unfold base16_result; intros.
  - by rewrite base16_roundtrip.
  - apply base16_lower.
  - induction b; cbn; lia.
  - split.
    + case_match; intros; simplify_eq. by apply base16_inv.
    + intros Hs. by rewrite <- base16_decode_lower, Hs, base16_roundtrip.
Qed.

Lemma hex_lower_b64 b : is_hex_lower b = true -> is_b64 b = true /\ is_b64url b = true.
Proof. by_bytes b. Qed.

#[export] Instance toy_base64_laws : Base64Laws.
Proof.
  split; cbn; unfold base16_result; intros.
  - by rewrite base16_roundtrip.
  - eapply forallb_mono, base16_lower. apply hex_lower_b64.
  - eapply forallb_mono, base16_lower. apply hex_lower_b64.
  - by destruct b.
Qed.

#[export] Instance toy_sha256_laws : Sha256Laws.
Proof. intros m. apply length_be_bytes. Qed.

#[export] Instance toy_faest_laws : FaestLaws.
Proof.
  split; cbn; intros.
  - by rewrite decide_True.
  - by rewrite decide_True.
  - done.
  - done.
Qed.

#[export] Instance toy_ed25519_laws : Ed25519Laws.
Proof.
  split; cbn; intros.
  - by rewrite decide_True.
  - done.
  - done.
Qed.

#[export] Instance toy_rng_laws : RngLaws.
Proof. split; intros *; [|intros [= <- _]]; apply length_be_bytes. Qed.

#[export] Instance toy_blindsig_laws : BlindSigLaws.
Proof.
  intros g0 pk sk g1 Hk msg r g2 bm st r1 g3 Hr H1 g4 bsig g5 H2 g6 proof r2 g7 H3.
  cbn [bs_keygen bs_sign_1 bs_sign_2 bs_sign_3 bs_verify bs_expand_pk toy_blindsig] in *.
  simplify_eq. split_and!; [by apply bool_decide_eq_true | | done].
  intros E. apply (f_equal length) in E. by rewrite length_app, length_be_bytes in E.
Qed.

Lemma be_value_log2 n : 0 < n -> be_value (be_bytes (S (N.to_nat (N.log2 n))) n) = n.
Proof.
  intros Hn. rewrite be_value_bytes, N.mod_small; [done|].
  destruct (N.log2_spec n Hn) as [_ Hl]. eapply N.lt_le_trans; [apply Hl|].
  apply N.pow_le_mono_r; [done|]. rewrite Nat2N.inj_succ, N2Nat.id. lia.
Qed.

Lemma toy_json_roundtrip T `{Countable T} (x : T) b :
  json_to_vec x = inr b -> json_from_slice b = inr x.
Proof.
  unfold json_to_vec, json_from_slice, toy_json. intros Hb.
  assert (b = be_bytes (S (N.to_nat (N.log2 (Npos (encode x))))) (Npos (encode x)))
    as -> by congruence.
  rewrite be_value_log2 by done. by rewrite decode_encode.
Qed.

#[export] Instance toy_json_laws T `{Countable T} : JsonLaws T.
Proof. split; [intros x; by eexists|apply toy_json_roundtrip]. Qed.
