(* ===== verification/SerdeHelp.v ===== *)
(** * The byte fields on the wire: core/src/serdehelp.rs

The string a byte field is written as, and what is read back from a string,
with the variants of pomfrit/src/lib.rs and policy/src/schema.rs that trim
first; the surrounding JSON is serde's. *)

From S2P Require Import Prelude RustStr Externals.

Section serde.
Context `{Hex, Base64}.

Definition hex32_serialize (v : bytes) : str := hex_encode v.

(** The error is what serde reports. *)
Definition hex32_deserialize (s : str) : result str bytes :=
  b ← of_sum (hex_decode s); ok_or (array32 b) (B "expected 32 bytes").

Definition b64vec_serialize (v : bytes) : str := b64_encode STANDARD v.

Definition b64vec_deserialize (s : str) : result str bytes := of_sum (b64_decode STANDARD s).

Definition b64vec_nested_serialize (v : list bytes) : list str := b64_encode STANDARD <$> v.

(** [collect] on an iterator of results: the first error ends it. *)
Fixpoint b64vec_nested_deserialize (enc : list str) : result str (list bytes) :=
  match enc with
  | [] => Ok []
  | s :: enc =>
      b ← of_sum (b64_decode STANDARD (trim s));
      l ← b64vec_nested_deserialize enc;
      Ok (b :: l)
  end.

(** pomfrit's [hex32], [b64bytes] and [b64vec], and the policy's [hex_option]. *)
Definition pomfrit_hex32_serialize (v : bytes) : str := hex_encode v.

Definition pomfrit_hex32_deserialize (s : str) : result str bytes :=
  b ← of_sum (hex_decode (trim s)); ok_or (array32 b) (B "expected 32 bytes").

Definition b64bytes_serialize (v : bytes) : str := b64_encode STANDARD v.

Definition b64bytes_deserialize (s : str) : result str bytes :=
  of_sum (b64_decode STANDARD (trim s)).

Definition pomfrit_b64vec_serialize (v : list bytes) : list str := b64_encode STANDARD <$> v.

Fixpoint pomfrit_b64vec_deserialize (enc : list str) : result str (list bytes) :=
  match enc with
  | [] => Ok []
  | s :: enc =>
      b ← b64bytes_deserialize s;
      l ← pomfrit_b64vec_deserialize enc;
      Ok (b :: l)
  end.

Definition hex_option_serialize (v : option bytes) : option str := hex_encode <$> v.

Definition hex_option_deserialize (opt : option str) : result str (option bytes) :=
  match opt with
  | None => Ok None
  | Some s => Some <$> of_sum (hex_decode (trim s))
  end.

Lemma hex32_roundtrip `{!HexLaws} v :
  length v = 32%nat -> hex32_deserialize (hex32_serialize v) = Ok v.
Proof.
  intros Hv. unfold hex32_deserialize, hex32_serialize. rewrite hex_decode_encode. cbn.
  by rewrite array32_id.
Qed.

(** Either case of the digits is read, and nothing but 64 digits. *)
Lemma hex32_deserialize_Ok `{!HexLaws} s v :
  hex32_deserialize s = Ok v <-> length v = 32%nat /\ to_ascii_lowercase s = hex32_serialize v.
Proof.
  unfold hex32_deserialize, hex32_serialize. rewrite bind_Ok. setoid_rewrite of_sum_Ok.
  setoid_rewrite ok_or_Ok. setoid_rewrite array32_Some. setoid_rewrite hex_decode_spec. naive_solver.
Qed.

Lemma b64vec_roundtrip `{!Base64Laws} v : b64vec_deserialize (b64vec_serialize v) = Ok v.
Proof. unfold b64vec_deserialize, b64vec_serialize. by rewrite b64_decode_encode. Qed.

Lemma b64vec_nested_roundtrip `{!Base64Laws} v :
  b64vec_nested_deserialize (b64vec_nested_serialize v) = Ok v.
Proof.
  induction v as [|b v IH]; [done|]. cbn.
  rewrite trim_b64_encode, b64_decode_encode. cbn [of_sum mbind result_bind].
  unfold b64vec_nested_serialize in IH. by rewrite IH.
Qed.

Lemma b64vec_nested_length enc v :
  b64vec_nested_deserialize enc = Ok v -> length v = length enc.
Proof.
  revert v. induction enc as [|s enc IH]; intros v; cbn; [by intros [= <-]|].
  intros (b & _ & Hr)%bind_Ok. apply bind_Ok in Hr as (l & Hl & [= <-]). cbn. f_equal. by apply IH.
Qed.

(** ** The trimming variants read what the others write *)

Lemma pomfrit_hex32_roundtrip `{!HexLaws} v :
  length v = 32%nat -> pomfrit_hex32_deserialize (pomfrit_hex32_serialize v) = Ok v.
Proof.
  intros Hv. unfold pomfrit_hex32_deserialize, pomfrit_hex32_serialize.
  rewrite trim_hex_encode. by apply hex32_roundtrip.
Qed.

Lemma b64bytes_roundtrip `{!Base64Laws} v : b64bytes_deserialize (b64bytes_serialize v) = Ok v.
Proof.
  unfold b64bytes_deserialize, b64bytes_serialize. by rewrite trim_b64_encode, b64_decode_encode.
Qed.

(** pomfrit's arrays and the core's are one format. *)
Lemma pomfrit_b64vec_same enc : pomfrit_b64vec_deserialize enc = b64vec_nested_deserialize enc.
Proof. induction enc as [|s enc IH]; [done|]. cbn. by rewrite IH. Qed.

Lemma pomfrit_b64vec_roundtrip `{!Base64Laws} v :
  pomfrit_b64vec_deserialize (pomfrit_b64vec_serialize v) = Ok v.
Proof. rewrite pomfrit_b64vec_same. apply b64vec_nested_roundtrip. Qed.

Lemma hex_option_roundtrip `{!HexLaws} v : hex_option_deserialize (hex_option_serialize v) = Ok v.
Proof.
  destruct v as [b|]; [|done]. cbn. by rewrite trim_hex_encode, hex_decode_encode.
Qed.

End serde.
