(* ===== verification/Pomfrit.v ===== *)
(** * The blind-signature layer: pomfrit/src/lib.rs

The [Scheme] of spend tokens over the blind-signature library, the token wire
format and the channel binding.  Randomness is a state [rng] that every
operation that draws takes and returns; the parsers are written over
[result], whose [Panic] is an out-of-range slice. *)

From S2P Require Import Prelude RustStr Externals.

(** ** Data *)

Definition ALG : str := B "PoMFRIT-MAYO1-FV1-128".
Definition TOKEN_TYPE : N := 0x4550.
Definition ADDITIONAL_R_LEN : nat := 32.

Inductive PomfritError :=
| PomfritCountMismatch (want got : N)
| PomfritMalformed (msg : str)
| PomfritVerifyFailed.

Definition PomfritError_display (e : PomfritError) : str :=
  match e with
  | PomfritCountMismatch want got =>
      B "count mismatch: want " ++ display_N want ++ B ", got " ++ display_N got
  | PomfritMalformed m => B "malformed token: " ++ m
  | PomfritVerifyFailed => B "verification failed"
  end.

Record KeyMaterial := { km_pk : bytes; km_sk : bytes; km_epk : bytes }.

(** [SignRequest] and [SignResponse] of the crate. *)
Record SignBody := { blinded : list bytes; binding : bytes }.
Record SignResponse := { blind_sigs : list bytes }.

Record SpendToken := {
  token_type : N;
  nonce : bytes;
  challenge_digest : bytes;
  token_key_id : bytes;
  authenticator : bytes;
}.

(** The ranges of the fields: [u16] and three [[u8; 32]]. *)
Record wf_token (t : SpendToken) : Prop := {
  wf_token_type : token_type t < 2 ^ 16;
  wf_nonce : length (nonce t) = 32%nat;
  wf_challenge_digest : length (challenge_digest t) = 32%nat;
  wf_token_key_id : length (token_key_id t) = 32%nat;
}.

#[export] Instance SpendToken_eq_dec : EqDecision SpendToken.
Proof. solve_decision. Defined.

Definition SpendToken_to_bytes (t : SpendToken) : bytes :=
  be_bytes 2 (token_type t) ++ nonce t ++ challenge_digest t ++ token_key_id t
  ++ authenticator t.

(** [slice.try_into().unwrap()] to [[u8; 32]]. *)
Definition unwrap32 {E} (r : result E bytes) : result E bytes :=
  s ← r; expect (ok_or (array32 s) tt).

Definition SpendToken_from_bytes (b : bytes) : result PomfritError SpendToken :=
  if decide (length b < 98 + ADDITIONAL_R_LEN + 1)%nat then
    Err (PomfritMalformed (B "token too short: " ++ display_N (len b) ++ B " bytes"))
  else
    b0 ← index b 0;
    b1 ← index b 1;
    n ← unwrap32 (slice 2 34 b);
    cd ← unwrap32 (slice 34 66 b);
    kid ← unwrap32 (slice 66 98 b);
    a ← slice_from 98 b;
    Ok {| token_type := be_value [b0; b1]; nonce := n; challenge_digest := cd;
          token_key_id := kid; authenticator := a |}.

Definition token_input (n cd kid : bytes) : bytes :=
  be_bytes 2 TOKEN_TYPE ++ n ++ cd ++ kid.

(** [BINDING_DOMAIN], and the message the channel binding hashes. *)
Definition BINDING_DOMAIN : bytes := B "eat-pass/binding" ++ [x00].

Definition binding_item (b : bytes) : bytes := be_bytes 4 (wrap 32 (len b)) ++ b.
Definition binding_message (l : list bytes) : bytes :=
  BINDING_DOMAIN ++ be_bytes 4 (wrap 32 (len l)) ++ concat (binding_item <$> l).

Definition encode_authenticator (additional_r proof : bytes) : bytes :=
  additional_r ++ proof.

Definition decode_authenticator (b : bytes) : result PomfritError (bytes * bytes) :=
  if decide (length b <= ADDITIONAL_R_LEN)%nat then
    Err (PomfritMalformed (B "authenticator too short"))
  else
    r ← slice 0 ADDITIONAL_R_LEN b;
    p ← slice_from ADDITIONAL_R_LEN b;
    Ok (r, p).

Section operations.
Context `{Sha256, BlindSig}.

Definition binding_of (l : list bytes) : bytes := sha256 (binding_message l).

Definition Scheme_token_key_id (pk : bytes) : bytes := sha256 pk.

Definition Scheme_keygen (g : rng) : KeyMaterial * rng :=
  let '((pk, sk), g) := bs_keygen g in
  ({| km_pk := pk; km_sk := sk; km_epk := bs_expand_pk pk |}, g).

Definition Scheme_expand_pk (pk : bytes) : bytes := bs_expand_pk pk.

Record PendingItem := {
  item_state : bs_proof_state;
  item_nonce : bytes;
  item_additional_r : bytes;
}.

Record PendingMint := {
  pending_pk : bytes;
  pending_challenge_digest : bytes;
  pending_token_key_id : bytes;
  pending_items : list PendingItem;
}.

Definition PendingMint_len (p : PendingMint) : N := len (pending_items p).
Definition PendingMint_is_empty (p : PendingMint) : bool :=
  bool_decide (pending_items p = []).

(** One iteration of [client_begin]'s loop. *)
Definition begin_item (kid cd : bytes) (g : rng) : (bytes * PendingItem) * rng :=
  let '(n, g) := fill32 g in
  let msg := token_input n cd kid in
  let '(r, g) := fill32 g in
  let '((bm, st, r), g) := bs_sign_1 msg r g in
  ((bm, {| item_state := st; item_nonce := n; item_additional_r := r |}), g).

Fixpoint begin_items (kid cd : bytes) (count : nat) (g : rng) :
    list (bytes * PendingItem) * rng :=
  match count with
  | O => ([], g)
  | S count =>
      let '(x, g) := begin_item kid cd g in
      let '(l, g) := begin_items kid cd count g in
      (x :: l, g)
  end.

Definition client_begin (pk kid cd : bytes) (count : nat) (g : rng) :
    (SignBody * PendingMint) * rng :=
  let '(l, g) := begin_items kid cd count g in
  let bl := l.*1 in
  (({| blinded := bl; binding := binding_of bl |},
    {| pending_pk := pk; pending_challenge_digest := cd;
       pending_token_key_id := kid; pending_items := l.*2 |}), g).

Fixpoint sign_items (sk : bytes) (l : list bytes) (g : rng) : list bytes * rng :=
  match l with
  | [] => ([], g)
  | bm :: l =>
      let '(s, g) := bs_sign_2 sk bm g in
      let '(ss, g) := sign_items sk l g in
      (s :: ss, g)
  end.

Definition issuer_sign (sk : bytes) (req : SignBody) (g : rng) : SignResponse * rng :=
  let '(l, g) := sign_items sk (blinded req) g in ({| blind_sigs := l |}, g).

(** One iteration of [client_finalize]'s loop. *)
Definition finalize_item (p : PendingMint) (epk : bytes) (item : PendingItem) (bsig : bytes)
    (g : rng) : SpendToken * rng :=
  let '((proof, r), g) :=
    bs_sign_3 (pending_pk p) epk bsig (item_state item) (item_additional_r item) g in
  ({| token_type := TOKEN_TYPE; nonce := item_nonce item;
      challenge_digest := pending_challenge_digest p;
      token_key_id := pending_token_key_id p;
      authenticator := encode_authenticator r proof |}, g).

Fixpoint finalize_items (p : PendingMint) (epk : bytes) (l : list (PendingItem * bytes))
    (g : rng) : list SpendToken * rng :=
  match l with
  | [] => ([], g)
  | (item, bsig) :: l =>
      let '(t, g) := finalize_item p epk item bsig g in
      let '(ts, g) := finalize_items p epk l g in
      (t :: ts, g)
  end.

Definition client_finalize (p : PendingMint) (resp : SignResponse) (pk : bytes) (g : rng) :
    result PomfritError (list SpendToken) * rng :=
  if decide (pk <> pending_pk p) then
    (Err (PomfritMalformed (B "issuer pubkey mismatch")), g)
  else if decide (length (blind_sigs resp) <> length (pending_items p)) then
    (Err (PomfritCountMismatch (len (pending_items p)) (len (blind_sigs resp))), g)
  else
    let epk := bs_expand_pk (pending_pk p) in
    let '(ts, g) := finalize_items p epk (zip (pending_items p) (blind_sigs resp)) g in
    (Ok ts, g).

Definition Scheme_verify (epk : bytes) (t : SpendToken) : result PomfritError bytes :=
  if decide (token_type t <> TOKEN_TYPE) then
    Err (PomfritMalformed (B "token type " ++ display_N (token_type t)
      ++ B " unsupported (want " ++ display_N TOKEN_TYPE ++ B ")"))
  else
    '(r, proof) ← decode_authenticator (authenticator t);
    let msg := token_input (nonce t) (challenge_digest t) (token_key_id t) in
    if bs_verify epk msg proof r then Ok (nonce t) else Err PomfritVerifyFailed.

End operations.

(** ** The token wire format *)

Lemma unwrap32_Ok {E} (r : result E bytes) x :
  unwrap32 r = Ok x <-> r = Ok x /\ length x = 32%nat.
Proof.
  unfold unwrap32. destruct r as [y| |]; cbn; [|naive_solver..].
  unfold array32. case_decide; cbn; naive_solver.
Qed.

Lemma unwrap32_id {E} x : length x = 32%nat -> unwrap32 (E:=E) (Ok x) = Ok x.
Proof. intros. by apply unwrap32_Ok. Qed.

(** A long enough buffer is its fields one after the other. *)
Lemma token_layout (b : bytes) :
  (131 <= length b)%nat ->
  exists b0 b1 n cd kid a,
    b = [b0; b1] ++ n ++ cd ++ kid ++ a
    /\ length n = 32%nat /\ length cd = 32%nat /\ length kid = 32%nat
    /\ (33 <= length a)%nat.
Proof.
  intros Hb. destruct b as [|b0 [|b1 b]]; cbn in Hb; [lia..|].
  exists b0, b1, (take 32 b), (take 32 (drop 32 b)), (take 32 (drop 64 b)), (drop 96 b).
  rewrite !length_take, !length_drop. split_and!; [|lia..].
  cbn. do 2 f_equal.
  replace (drop 96 b) with (drop 32 (drop 64 b)) by by rewrite drop_drop.
  replace (drop 64 b) with (drop 32 (drop 32 b)) by by rewrite drop_drop.
  by rewrite !take_drop.
Qed.

Lemma from_bytes_fields b0 b1 n cd kid a :
  length n = 32%nat -> length cd = 32%nat -> length kid = 32%nat -> (33 <= length a)%nat ->
  SpendToken_from_bytes ([b0; b1] ++ n ++ cd ++ kid ++ a)
  = Ok {| token_type := be_value [b0; b1]; nonce := n; challenge_digest := cd;
          token_key_id := kid; authenticator := a |}.
Proof.
  intros Hn Hc Hk Ha. unfold SpendToken_from_bytes, ADDITIONAL_R_LEN.
  rewrite decide_False by (rewrite !length_app; cbn; lia).
  change (index ([b0; b1] ++ ?l) 0) with (@Ok PomfritError _ b0).
  change (index ([b0; b1] ++ ?l) 1) with (@Ok PomfritError _ b1).
  cbn [mbind result_bind].
  rewrite (slice_app_mid [b0; b1] n _ 2 34) by (cbn; lia).
  rewrite app_assoc, (slice_app_mid ([b0; b1] ++ n) cd _ 34 66) by (rewrite length_app; cbn; lia).
  rewrite app_assoc, (slice_app_mid (_ ++ cd) kid _ 66 98) by (rewrite !length_app; cbn; lia).
  rewrite app_assoc, slice_from_app by (rewrite !length_app; cbn; lia).
  rewrite (unwrap32_id n), (unwrap32_id cd), (unwrap32_id kid) by done. done.
Qed.

Lemma from_bytes_short b :
  (length b < 131)%nat ->
  SpendToken_from_bytes b
  = Err (PomfritMalformed (B "token too short: " ++ display_N (len b) ++ B " bytes")).
Proof. intros. unfold SpendToken_from_bytes. by rewrite decide_True. Qed.

Lemma from_to_bytes t :
  wf_token t -> (33 <= length (authenticator t))%nat ->
  SpendToken_from_bytes (SpendToken_to_bytes t) = Ok t.
Proof.
  intros [Ht Hn Hc Hk] Ha. unfold SpendToken_to_bytes.
  pose proof (length_be_bytes 2 (token_type t)) as Hl.
  pose proof (be_value_bytes 2 (token_type t)) as Hv.
  destruct (be_bytes 2 (token_type t)) as [|b0 [|b1 [|]]]; try done.
  rewrite from_bytes_fields, Hv, N.mod_small by done. by destruct t.
Qed.

Lemma from_bytes_Ok b t :
  SpendToken_from_bytes b = Ok t ->
  SpendToken_to_bytes t = b /\ wf_token t /\ (33 <= length (authenticator t))%nat.
Proof.
  destruct (decide (length b < 131)%nat).
  { by rewrite from_bytes_short. }
  destruct (token_layout b) as (b0 & b1 & n' & cd & kid & a & -> & ?); [lia|].
  rewrite from_bytes_fields by naive_solver. intros [= <-].
  split_and!; [|split; cbn; try naive_solver|cbn; naive_solver].
  - unfold SpendToken_to_bytes. cbn [token_type nonce challenge_digest token_key_id
      authenticator]. change 2%nat with (length [b0; b1]). by rewrite be_bytes_value.
  - apply (be_value_bound [b0; b1]).
Qed.

Lemma from_bytes_no_panic b : SpendToken_from_bytes b <> Panic.
Proof.
  destruct (decide (length b < 131)%nat).
  { by rewrite from_bytes_short. }
  destruct (token_layout b) as (b0 & b1 & n' & cd & kid & a & -> & ?); [lia|].
  by rewrite from_bytes_fields by naive_solver.
Qed.

Lemma decode_authenticator_no_panic a : decode_authenticator a <> Panic.
Proof.
  unfold decode_authenticator, ADDITIONAL_R_LEN. case_decide; [done|].
  unfold slice_from. by rewrite !slice_Ok by lia.
Qed.

Lemma decode_encode_authenticator r proof :
  length r = 32%nat -> proof <> [] ->
  decode_authenticator (encode_authenticator r proof) = Ok (r, proof).
Proof.
  intros Hr Hp. unfold decode_authenticator, encode_authenticator, ADDITIONAL_R_LEN.
  destruct proof as [|p proof]; [done|].
  rewrite decide_False by (rewrite length_app; cbn; lia).
  rewrite <- (app_nil_l (r ++ _)) at 1.
  rewrite (slice_app_mid [] r) by (cbn; lia). cbn [mbind result_bind].
  by rewrite slice_from_app.
Qed.

(** The signed message determines its three fields. *)
Lemma token_input_inj n cd kid n' cd' kid' :
  length n = 32%nat -> length cd = 32%nat -> length n' = 32%nat -> length cd' = 32%nat ->
  token_input n cd kid = token_input n' cd' kid' -> n = n' /\ cd = cd' /\ kid = kid'.
Proof.
  unfold token_input. intros. apply app_inv_head in H3.
  apply app_inj_len in H3 as [-> H3]; [|congruence].
  by apply app_inj_len in H3 as [-> H3]; [|congruence].
Qed.

(** ** The channel binding *)

(** Every length written in 32 bits fits. *)
Definition binding_fits (l : list bytes) : Prop :=
  len l < 2 ^ 32 /\ Forall (fun b => len b < 2 ^ 32) l.

Lemma binding_items_inj l l' :
  Forall (fun b => len b < 2 ^ 32) l -> Forall (fun b => len b < 2 ^ 32) l' ->
  length l = length l' ->
  concat (binding_item <$> l) = concat (binding_item <$> l') -> l = l'.
Proof.
  intros Hl. revert l'. induction Hl as [|b l Hb Hl IH]; intros [|b' l']; try done.
  intros [Hb' Hl']%Forall_cons [= Hlen]. rewrite !fmap_cons. cbn [concat]. unfold binding_item at 1 3.
  rewrite <- !app_assoc. intros Heq.
  apply app_inj_len in Heq as [Hn Heq]; [|by rewrite !length_be_bytes].
  rewrite !wrap_small in Hn by done. apply be_bytes_inj in Hn; [|done..].
  apply app_inj_len in Heq as [-> Heq]; [|unfold len in Hn; lia].
  f_equal. by apply IH.
Qed.

Lemma binding_message_inj l l' :
  binding_fits l -> binding_fits l' -> binding_message l = binding_message l' -> l = l'.
Proof.
  intros [Hl Hbl] [Hl' Hbl'] Heq. unfold binding_message in Heq.
  apply app_inv_head in Heq.
  apply app_inj_len in Heq as [Hn Heq]; [|by rewrite !length_be_bytes].
  rewrite !wrap_small in Hn by done. apply be_bytes_inj in Hn; [|done..].
  apply binding_items_inj; [done..| |done]. unfold len in Hn; lia.
Qed.

(** ** Operations: what they never change, and completeness *)

Section facts.
Context `{Sha256, BlindSig}.

Lemma Scheme_verify_Ok epk t n :
  Scheme_verify epk t = Ok n <->
  token_type t = TOKEN_TYPE /\ n = nonce t /\
  exists r proof, decode_authenticator (authenticator t) = Ok (r, proof) /\
    bs_verify epk (token_input (nonce t) (challenge_digest t) (token_key_id t)) proof r = true.
Proof.
  unfold Scheme_verify. case_decide as Ht; [naive_solver|].
  destruct (decode_authenticator _) as [[r proof]| |]; cbn;
    [|split; [done|by intros (_ & _ & ? & ? & ? & _)]..].
  case_match eqn:Hv; split.
  - intros [= <-]. split; [done|]. split; [done|]. by exists r, proof.
  - by intros (_ & -> & _).
  - done.
  - intros (_ & _ & r' & proof' & [= <- <-] & ?). congruence.
Qed.

Lemma Scheme_verify_no_panic epk t : Scheme_verify epk t <> Panic.
Proof.
  unfold Scheme_verify. case_decide; [done|].
  pose proof (decode_authenticator_no_panic (authenticator t)).
  destruct (decode_authenticator _) as [[r proof]| |]; cbn; [case_match|..]; done.
Qed.

(** A binding collision is a collision of two listed messages. *)
Lemma binding_of_inj l l' :
  binding_fits l -> binding_fits l' -> binding_of l = binding_of l' ->
  l = l' \/ collides [binding_message l] [binding_message l'].
Proof.
  unfold binding_of. intros Hl Hl' [Heq|Hc]%sha256_inj_or; [left|by right].
  by apply binding_message_inj.
Qed.

Lemma begin_items_length kid cd count g l g' :
  begin_items kid cd count g = (l, g') -> length l = count.
Proof.
  revert g l g'. induction count as [|count IH]; intros g l g'; cbn [begin_items].
  { by intros [= <- _]. }
  destruct (begin_item kid cd g) as [x g1]. destruct (begin_items kid cd count g1) as [l' g2] eqn:Hl.
  intros [= <- _]. cbn. f_equal. by eapply IH.
Qed.

(** What an honest run of [sign_1] leaves behind for one item. *)
Definition honest_item (cd kid : bytes) (bm : bytes) (item : PendingItem) : Prop :=
  exists r g g', length r = 32%nat /\ length (item_nonce item) = 32%nat /\
    bs_sign_1 (token_input (item_nonce item) cd kid) r g
    = ((bm, item_state item, item_additional_r item), g').

Lemma begin_items_honest `{!RngLaws} kid cd count g l g' :
  begin_items kid cd count g = (l, g') ->
  length l = count /\ Forall (fun x => honest_item cd kid x.1 x.2) l.
Proof.
  revert g l g'. induction count as [|count IH]; intros g l g' Hb; cbn in Hb.
  { by simplify_eq. }
  unfold begin_item in Hb.
  pose proof (fill32_length g). destruct (fill32 g) as [n g1].
  pose proof (fill32_length g1). destruct (fill32 g1) as [r g2].
  destruct (bs_sign_1 _ r g2) as [[[bm st] r'] g3] eqn:Hs.
  destruct (begin_items kid cd count g3) as [l' g4] eqn:Hl. simplify_eq/=.
  apply IH in Hl as [<- Hl]. split; [done|]. constructor; [|done].
  exists r, g2, g3. done.
Qed.

Lemma sign_items_spec sk l g ss g' :
  sign_items sk l g = (ss, g') ->
  Forall2 (fun bm s => exists h h', bs_sign_2 sk bm h = (s, h')) l ss.
Proof.
  revert g ss g'. induction l as [|bm l IH]; intros g ss g' Hs; cbn in Hs.
  { by simplify_eq. }
  destruct (bs_sign_2 sk bm g) as [s g1] eqn:E1.
  destruct (sign_items sk l g1) as [ss' g2] eqn:E2. simplify_eq. eauto.
Qed.

Lemma finalize_items_spec p epk l g ts g' :
  finalize_items p epk l g = (ts, g') ->
  Forall2 (fun x t => exists h h', finalize_item p epk x.1 x.2 h = (t, h')) l ts.
Proof.
  revert g ts g'. induction l as [|[item s] l IH]; intros g ts g' Hf; cbn in Hf.
  { by simplify_eq. }
  destruct (finalize_item p epk item s g) as [t g1] eqn:E1.
  destruct (finalize_items p epk l g1) as [ts' g2] eqn:E2. simplify_eq. eauto.
Qed.

Lemma item_complete `{!BlindSigLaws} g0 pk sk g1 cd kid p item bm s h h' t k k' :
  bs_keygen g0 = ((pk, sk), g1) ->
  pending_pk p = pk -> pending_challenge_digest p = cd -> pending_token_key_id p = kid ->
  length cd = 32%nat -> length kid = 32%nat ->
  honest_item cd kid bm item ->
  bs_sign_2 sk bm h = (s, h') ->
  finalize_item p (bs_expand_pk pk) item s k = (t, k') ->
  Scheme_verify (bs_expand_pk pk) t = Ok (item_nonce item)
  /\ wf_token t /\ (33 <= length (authenticator t))%nat
  /\ challenge_digest t = cd /\ token_key_id t = kid.
Proof.
  intros Hk Hpk Hcd Hkid Hlc Hlk (r & j & j' & Hr & Hn & Hs1) Hs2 Hf.
  unfold finalize_item in Hf. rewrite Hpk in Hf.
  destruct (bs_sign_3 pk (bs_expand_pk pk) s (item_state item) (item_additional_r item) k)
    as [[proof r2] k2] eqn:Hs3. injection Hf as <- _.
  destruct (bs_complete _ _ _ _ Hk _ _ _ _ _ _ _ Hr Hs1 _ _ _ Hs2 _ _ _ _ Hs3) as (Hv & Hp & Hr2).
  split_and!; cbn [authenticator challenge_digest token_key_id]; [| |
    unfold encode_authenticator; rewrite length_app; destruct proof; cbn; [done|lia] | done..].
  - apply Scheme_verify_Ok. cbn [token_type nonce challenge_digest token_key_id authenticator].
    split_and!; [done..|]. exists r2, proof. rewrite Hcd, Hkid.
    by rewrite decode_encode_authenticator.
  - split; cbn; [done|congruence..].
Qed.

(** An honest mint ends with as many tokens as were begun, and every one of
    them verifies under the issuer's key. *)
Lemma scheme_complete `{!RngLaws, !BlindSigLaws} g0 pk sk g1 kid cd count g2 body p g3 g4 resp g5 g6 r g7 :
  length cd = 32%nat -> length kid = 32%nat ->
  bs_keygen g0 = ((pk, sk), g1) ->
  client_begin pk kid cd count g2 = ((body, p), g3) ->
  issuer_sign sk body g4 = (resp, g5) ->
  client_finalize p resp pk g6 = (r, g7) ->
  exists ts, r = Ok ts /\ length ts = count /\
    nonce <$> ts = item_nonce <$> pending_items p /\
    Forall (fun t => Scheme_verify (bs_expand_pk pk) t = Ok (nonce t) /\ wf_token t
      /\ (33 <= length (authenticator t))%nat /\ challenge_digest t = cd
      /\ token_key_id t = kid) ts.
Proof.
  intros Hlc Hlk Hk Hb Hs Hf. unfold client_begin, issuer_sign, client_finalize in *.
  destruct (begin_items kid cd count g2) as [l g3'] eqn:Hl. simplify_eq/=.
  apply begin_items_honest in Hl as [<- Hl].
  destruct (sign_items sk l.*1 g4) as [ss g5'] eqn:Hss. simplify_eq/=.
  apply sign_items_spec in Hss. pose proof (Forall2_length _ _ _ Hss) as Hlen.
  rewrite length_fmap in Hlen.
  rewrite decide_False in Hf by naive_solver.
  rewrite decide_False in Hf by (rewrite length_fmap; naive_solver).
  destruct (finalize_items _ _ _ g6) as [ts g7'] eqn:Hts. simplify_eq.
  apply finalize_items_spec in Hts. exists ts.
  assert (Hp : Forall2 (fun x t => nonce t = item_nonce x.1 /\
    Scheme_verify (bs_expand_pk pk) t = Ok (nonce t) /\ wf_token t
      /\ (33 <= length (authenticator t))%nat /\ challenge_digest t = cd
      /\ token_key_id t = kid) (zip l.*2 ss) ts).
  { clear Hlen. set (p := Build_PendingMint _ _ _ _) in Hts.
    assert (pending_pk p = pk /\ pending_challenge_digest p = cd /\ pending_token_key_id p = kid)
      as (Hpk & Hcd & Hkid) by done. clearbody p.
    revert ss ts Hss Hts. induction Hl as [|[bm item] l Hi Hl IH]; intros ss ts Hss Hts.
    - inversion Hss; subst. inversion Hts; subst. constructor.
    - cbn in Hss. apply Forall2_cons_inv_l in Hss as (s & ss' & (h & h' & Hs2) & Hss & ->).
      cbn in Hts. apply Forall2_cons_inv_l in Hts as (t & ts' & (k & k' & Hs3) & Hts & ->).
      cbn [fst snd] in *.
      destruct (item_complete _ _ _ _ _ _ _ _ _ _ _ _ _ _ _ Hk Hpk Hcd Hkid Hlc Hlk Hi Hs2 Hs3)
        as (Hv & ? & ? & ? & ?).
      assert (nonce t = item_nonce item) as Hn by (apply Scheme_verify_Ok in Hv; naive_solver).
      constructor; [by rewrite Hn in *|]. by apply IH. }
  pose proof (Forall2_length _ _ _ Hp) as Hlt. rewrite length_zip, length_fmap in Hlt.
  split_and!; [done|lia| |].
  - erewrite (Forall2_fmap_eq nonce (fun x => item_nonce x.1));
      [|eapply Forall2_impl; [exact Hp|naive_solver]].
    cbn [pending_items]. trans (item_nonce <$> (zip l.*2 ss).*1);
      [by rewrite <- list_fmap_compose|]. rewrite fst_zip; [done|].
    rewrite length_fmap. lia.
  - clear - Hp. induction Hp; constructor; naive_solver.
Qed.

End facts.

(** ** Properties *)

(** C31: the wire format of tokens is exact: every token of the field lengths the
    code enforces is read back as it was written; a buffer that parses is the
    encoding of the token read; a buffer under 131 bytes is refused with its
    length; and no buffer makes the parser panic. *)
Theorem token_codec b t :
  (wf_token t -> (33 <= length (authenticator t))%nat ->
   SpendToken_from_bytes (SpendToken_to_bytes t) = Ok t)
  /\ (SpendToken_from_bytes b = Ok t ->
      SpendToken_to_bytes t = b /\ wf_token t /\ (33 <= length (authenticator t))%nat)
  /\ ((length b < 131)%nat -> SpendToken_from_bytes b
      = Err (PomfritMalformed (B "token too short: " ++ display_N (len b) ++ B " bytes")))
  /\ ((131 <= length b)%nat -> exists t', SpendToken_from_bytes b = Ok t')
  /\ SpendToken_from_bytes b <> Panic.
Proof.
  split; [apply from_to_bytes|]. split; [apply from_bytes_Ok|]. split; [apply from_bytes_short|].
  split; [|apply from_bytes_no_panic].
  intros Hb. destruct (token_layout b Hb) as (b0 & b1 & n' & cd & kid & a & -> & ? & ? & ? & ?).
  eexists. by apply from_bytes_fields.
Qed.

(** The channel binding of a batch commits to its blinded messages, their
    number and their order: two batches within the 32-bit length fields with one
    binding are the same, or the two hashed messages are a SHA-256 collision. *)
Theorem binding_commits_to_batch `{Sha256} l l' :
  binding_fits l -> binding_fits l' -> binding_of l = binding_of l' ->
  l = l' \/ collides [binding_message l] [binding_message l'].
Proof. apply binding_of_inj. Qed.
