(* ===== verification/Core.v ===== *)
(** * The token layer: core/src/lib.rs (without its module http)

Errors, token challenges and their byte encoding, the issuer's key pair, and
the three roles of a mint: [Client_begin] and [PendingTokens_finalize],
[Issuer_blind_sign], [Verifier_verify]. *)

From S2P Require Import Prelude RustStr Externals Pomfrit.

(** ** Data *)

Inductive Error :=
| ErrPomfrit (e : PomfritError)
| ErrFaest (msg : str)
| ErrRng (msg : str)
| ErrCountMismatch (want got : N)
| ErrKeyVersion (want have : N)
| ErrKeyIdMismatch
| ErrChallengeMismatch
| ErrTokenType (want got : N)
| ErrMalformed (msg : str)
| ErrJson (msg : str).

Definition Error_display (e : Error) : str :=
  match e with
  | ErrPomfrit e => B "pomfrit: " ++ PomfritError_display e
  | ErrFaest m => B "faest: " ++ m
  | ErrRng m => B "rng: " ++ m
  | ErrCountMismatch want got =>
      B "issuer returned " ++ display_N got ++ B " signatures for " ++ display_N want
      ++ B " requests"
  | ErrKeyVersion want have =>
      B "key version mismatch: token wants v" ++ display_N want ++ B ", have v"
      ++ display_N have
  | ErrKeyIdMismatch => B "token_key_id mismatch: token bound to a different issuer key"
  | ErrChallengeMismatch =>
      B "challenge mismatch: token was issued for a different challenge"
  | ErrTokenType want got =>
      B "token type " ++ display_N got ++ B " unsupported (want " ++ display_N want ++ B ")"
  | ErrMalformed m => B "malformed token: " ++ m
  | ErrJson m => B "json: " ++ m
  end.

Record TokenChallenge := {
  ch_token_type : N;
  issuer_name : str;
  redemption_context : bytes;
  origin_info : str;
}.

#[export] Instance TokenChallenge_eq_dec : EqDecision TokenChallenge.
Proof. solve_decision. Defined.

(** The ranges of the fields, and the lengths the encoding can hold. *)
Record wf_challenge (c : TokenChallenge) : Prop := {
  wf_ch_type : ch_token_type c < 2 ^ 16;
  wf_issuer : is_utf8 (issuer_name c);
  wf_origin : is_utf8 (origin_info c);
  wf_issuer_len : len (issuer_name c) < 2 ^ 16;
  wf_context_len : len (redemption_context c) < 2 ^ 8;
  wf_origin_len : len (origin_info c) < 2 ^ 16;
}.

Definition TokenChallenge_new (issuer origin : str) : TokenChallenge :=
  {| ch_token_type := TOKEN_TYPE; issuer_name := issuer; redemption_context := [];
     origin_info := origin |}.

Definition TokenChallenge_to_bytes (c : TokenChallenge) : bytes :=
  be_bytes 2 (ch_token_type c)
  ++ be_bytes 2 (wrap 16 (len (issuer_name c))) ++ issuer_name c
  ++ [byte_of_N (len (redemption_context c))] ++ redemption_context c
  ++ be_bytes 2 (wrap 16 (len (origin_info c))) ++ origin_info c.

Definition TokenChallenge_from_bytes (b : bytes) : result Error TokenChallenge :=
  if decide (length b < 2 + 2 + 1 + 2)%nat then
    Err (ErrMalformed (B "challenge too short"))
  else
    let off := O in
    t0 ← index b off; t1 ← index b (off + 1);
    let token_type := be_value [t0; t1] in
    let off := (off + 2)%nat in
    i0 ← index b off; i1 ← index b (off + 1);
    let iss_len := N.to_nat (be_value [i0; i1]) in
    let off := (off + 2)%nat in
    if decide (length b < off + iss_len + 1 + 2)%nat then
      Err (ErrMalformed (B "challenge issuer truncated"))
    else
      iss ← slice off (off + iss_len) b;
      issuer ← map_err (fun e => ErrMalformed (B "challenge issuer utf8: "
        ++ utf8_error_display e)) (from_utf8 iss);
      let off := (off + iss_len)%nat in
      c0 ← index b off;
      let ctx_len := N.to_nat (Byte.to_N c0) in
      let off := (off + 1)%nat in
      if decide (length b < off + ctx_len + 2)%nat then
        Err (ErrMalformed (B "challenge context truncated"))
      else
        ctx ← slice off (off + ctx_len) b;
        let off := (off + ctx_len)%nat in
        o0 ← index b off; o1 ← index b (off + 1);
        let org_len := N.to_nat (be_value [o0; o1]) in
        let off := (off + 2)%nat in
        if decide (off + org_len <> length b)%nat then
          Err (ErrMalformed (B "challenge origin truncated"))
        else
          org ← slice off (off + org_len) b;
          origin ← map_err (fun e => ErrMalformed (B "challenge origin utf8: "
            ++ utf8_error_display e)) (from_utf8 org);
          Ok {| ch_token_type := token_type; issuer_name := issuer;
                redemption_context := ctx; origin_info := origin |}.

Definition with_redemption_context (c : TokenChallenge) (ctx : bytes) : TokenChallenge :=
  {| ch_token_type := ch_token_type c; issuer_name := issuer_name c;
     redemption_context := ctx; origin_info := origin_info c |}.

Definition has_redemption_context (c : TokenChallenge) : bool :=
  bool_decide (length (redemption_context c) = 32%nat).

Record IssuerPublicKey := { pk_key_version : N; pk_alg : str; pk_key : bytes }.

#[export] Instance IssuerPublicKey_eq_dec : EqDecision IssuerPublicKey.
Proof. solve_decision. Defined.

Record Issuer := { issuer_sk : bytes; issuer_pk : bytes; issuer_key_version : N }.

(** [SignRequest]; the response has the one field of the crate's
    [SignResponse], which stands for both. *)
Record SignRequest := {
  token_challenge : TokenChallenge;
  req_key_version : N;
  req_body : SignBody;
}.

Definition SignRequest_binding (r : SignRequest) : bytes := binding (req_body r).

(** ** Operations *)

Section operations.
Context `{Sha256, BlindSig}.

Definition TokenChallenge_digest (c : TokenChallenge) : bytes :=
  sha256 (TokenChallenge_to_bytes c).

Definition random_nonce (g : rng) : result Error bytes * rng :=
  let '(r, g) := getrandom32 g in (map_err ErrRng (of_sum r), g).

Definition with_random_redemption_context (c : TokenChallenge) (g : rng) :
    result Error TokenChallenge * rng :=
  let '(n, g) := random_nonce g in (with_redemption_context c <$> n, g).

Definition IssuerPublicKey_token_key_id (pk : IssuerPublicKey) : result Error bytes :=
  Ok (Scheme_token_key_id (pk_key pk)).

Definition IssuerPublicKey_expanded_key (pk : IssuerPublicKey) : bytes :=
  Scheme_expand_pk (pk_key pk).

Definition check_key_consistency (pinned : bytes) (pk : IssuerPublicKey) : result Error unit :=
  kid ← IssuerPublicKey_token_key_id pk;
  if decide (kid = pinned) then Ok tt else Err ErrKeyIdMismatch.

Definition Issuer_generate (key_version : N) (g : rng) : Issuer * rng :=
  let '(kp, g) := Scheme_keygen g in
  ({| issuer_sk := km_sk kp; issuer_pk := km_pk kp; issuer_key_version := key_version |}, g).

Definition Issuer_public (i : Issuer) : IssuerPublicKey :=
  {| pk_key_version := issuer_key_version i; pk_alg := ALG; pk_key := issuer_pk i |}.

Definition Issuer_blind_sign (i : Issuer) (req : SignRequest) (g : rng) :
    result Error SignResponse * rng :=
  if decide (req_key_version req <> issuer_key_version i) then
    (Err (ErrKeyVersion (req_key_version req) (issuer_key_version i)), g)
  else
    let '(r, g) := issuer_sign (issuer_sk i) (req_body req) g in
    (Ok {| blind_sigs := blind_sigs r |}, g).

Record PendingTokens := { pt_inner : PendingMint; pt_pk : IssuerPublicKey }.

Definition PendingTokens_len (p : PendingTokens) : N := PendingMint_len (pt_inner p).
Definition PendingTokens_is_empty (p : PendingTokens) : bool :=
  PendingMint_is_empty (pt_inner p).

Definition Client_begin (pk : IssuerPublicKey) (challenge : TokenChallenge) (count : nat)
    (g : rng) : result Error (SignRequest * PendingTokens) * rng :=
  let cd := TokenChallenge_digest challenge in
  match IssuerPublicKey_token_key_id pk with
  | Ok kid =>
      let '((body, inner), g) := client_begin (pk_key pk) kid cd count g in
      (Ok ({| token_challenge := challenge; req_key_version := pk_key_version pk;
              req_body := body |},
           {| pt_inner := inner; pt_pk := pk |}), g)
  | Err e => (Err e, g)
  | Panic => (Panic, g)
  end.

Definition PendingTokens_finalize (p : PendingTokens) (pk : IssuerPublicKey)
    (resp : SignResponse) (g : rng) : result Error (list SpendToken) * rng :=
  let '(r, g) :=
    client_finalize (pt_inner p) {| blind_sigs := blind_sigs resp |} (pk_key pk) g in
  (map_err ErrPomfrit r, g).

Record Verifier := { v_pk : IssuerPublicKey; v_epk : bytes }.

Definition Verifier_new (pk : IssuerPublicKey) : Verifier :=
  {| v_pk := pk; v_epk := Scheme_expand_pk (pk_key pk) |}.

Definition Verifier_verify (v : Verifier) (t : SpendToken) (c : TokenChallenge) :
    result Error bytes :=
  if decide (token_type t <> TOKEN_TYPE) then Err (ErrTokenType TOKEN_TYPE (token_type t))
  else if decide (challenge_digest t <> TokenChallenge_digest c) then Err ErrChallengeMismatch
  else
    kid ← IssuerPublicKey_token_key_id (v_pk v);
    if decide (token_key_id t <> kid) then Err ErrKeyIdMismatch
    else map_err ErrPomfrit (Scheme_verify (v_epk v) t).

End operations.

(** ** The encoding of challenges *)

(** A buffer laid out as the encoder does, with its length fields. *)
Lemma challenge_from_fields t0 t1 i0 i1 iss c0 ctx o0 o1 org :
  be_value [i0; i1] = len iss -> Byte.to_N c0 = len ctx -> be_value [o0; o1] = len org ->
  is_utf8 iss -> is_utf8 org ->
  TokenChallenge_from_bytes
    ([t0; t1; i0; i1] ++ iss ++ [c0] ++ ctx ++ [o0; o1] ++ org)
  = Ok {| ch_token_type := be_value [t0; t1]; issuer_name := iss;
          redemption_context := ctx; origin_info := org |}.
Proof.
  intros Hi Hc Ho Ui Uo. unfold TokenChallenge_from_bytes.
  remember ([t0; t1; i0; i1] ++ iss ++ [c0] ++ ctx ++ [o0; o1] ++ org) as b eqn:Eb.
  assert (Hlen : length b = (7 + length iss + length ctx + length org)%nat)
    by (subst b; rewrite !length_app; cbn; lia).
  unfold len in Hi, Hc, Ho.
  rewrite decide_False by lia.
  replace (index b 0) with (@Ok Error _ t0) by by rewrite Eb.
  replace (index b (0 + 1)) with (@Ok Error _ t1) by by rewrite Eb.
  replace (index b (0 + 2)) with (@Ok Error _ i0) by by rewrite Eb.
  replace (index b (0 + 2 + 1)) with (@Ok Error _ i1) by by rewrite Eb.
  cbn [mbind result_bind]. rewrite Hi, Nat2N.id. rewrite decide_False by lia.
  replace (slice _ _ b) with (@Ok Error _ iss)
    by by rewrite Eb, (slice_app_mid [t0; t1; i0; i1] iss).
  cbn [mbind result_bind]. rewrite (from_utf8_id iss) by done. cbn [map_err mbind result_bind].
  replace (index b _) with (@Ok Error _ c0).
  2:{ rewrite Eb, app_assoc. symmetry. apply index_app_r. rewrite length_app. cbn. lia. }
  cbn [mbind result_bind]. rewrite Hc, Nat2N.id, decide_False by lia.
  replace (slice _ _ b) with (@Ok Error _ ctx).
  2:{ rewrite Eb, 2!app_assoc. symmetry.
      apply slice_app_mid; rewrite !length_app; cbn; lia. }
  cbn [mbind result_bind].
  replace (index b (_ + _ + 1 + _)) with (@Ok Error _ o0).
  2:{ rewrite Eb, 3!app_assoc. symmetry. apply index_app_r. rewrite !length_app. cbn. lia. }
  replace (index b (_ + 1)) with (@Ok Error _ o1).
  2:{ rewrite Eb, 3!app_assoc. change ([o0; o1] ++ org) with ([o0] ++ o1 :: org).
      rewrite app_assoc. symmetry. apply index_app_r. rewrite !length_app. cbn. lia. }
  cbn [mbind result_bind]. rewrite Ho, Nat2N.id, decide_False by lia.
  replace (slice _ _ b) with (@Ok Error _ org).
  2:{ rewrite Eb, 4!app_assoc. symmetry.
      apply slice_app_last; rewrite !length_app; cbn; lia. }
  cbn [mbind result_bind]. by rewrite (from_utf8_id org).
Qed.

Lemma challenge_from_to c :
  wf_challenge c -> TokenChallenge_from_bytes (TokenChallenge_to_bytes c) = Ok c.
Proof.
  intros [Ht Ui Uo Li Lc Lo]. unfold TokenChallenge_to_bytes.
  rewrite !wrap_small by done.
  pose proof (be_value_bytes 2 (ch_token_type c)) as Vt.
  pose proof (be_value_bytes 2 (len (issuer_name c))) as Vi.
  pose proof (be_value_bytes 2 (len (origin_info c))) as Vo.
  rewrite N.mod_small in Vt, Vi, Vo by done.
  pose proof (length_be_bytes 2 (ch_token_type c)).
  pose proof (length_be_bytes 2 (len (issuer_name c))).
  pose proof (length_be_bytes 2 (len (origin_info c))).
  destruct (be_bytes 2 (ch_token_type c)) as [|t0 [|t1 [|]]]; try done.
  destruct (be_bytes 2 (len (issuer_name c))) as [|i0 [|i1 [|]]]; try done.
  destruct (be_bytes 2 (len (origin_info c))) as [|o0 [|o1 [|]]]; try done.
  change ([t0; t1] ++ [i0; i1] ++ ?l) with ([t0; t1; i0; i1] ++ l).
  rewrite challenge_from_fields; [by destruct c; cbn in *; subst|done| |done..].
  rewrite to_of_byte_N. by apply N.mod_small.
Qed.

(** An accepted buffer is the encoding of the challenge it decodes to. *)
Lemma challenge_from_Ok b c :
  TokenChallenge_from_bytes b = Ok c -> TokenChallenge_to_bytes c = b /\ wf_challenge c.
Proof.
  unfold TokenChallenge_from_bytes. case_decide; [done|].
  intros (t0 & Ht0 & H1)%bind_Ok. apply bind_Ok in H1 as (t1 & Ht1 & H1).
  apply bind_Ok in H1 as (i0 & Hi0 & H1). apply bind_Ok in H1 as (i1 & Hi1 & H1).
  case_decide; [done|].
  apply bind_Ok in H1 as (iss & Hiss & H1).
  apply bind_Ok in H1 as (iss' & [-> Ui]%map_err_Ok%from_utf8_Ok & H1).
  apply bind_Ok in H1 as (c0 & Hc0 & H1). case_decide; [done|].
  apply bind_Ok in H1 as (ctx & Hctx & H1).
  apply bind_Ok in H1 as (o0 & Ho0 & H1). apply bind_Ok in H1 as (o1 & Ho1 & H1).
  case_decide as Hend; [done|].
  apply bind_Ok in H1 as (org & Horg & H1).
  apply bind_Ok in H1 as (org' & [-> Uo]%map_err_Ok%from_utf8_Ok & [= <-]).
  apply index_cursor in Ht0, Ht1, Hi0, Hi1, Hc0, Ho0, Ho1.
  apply slice_cursor in Hiss as [Hiss Liss], Hctx as [Hctx Lctx], Horg as [Horg Lorg].
  rewrite Hend, drop_all, app_nil_r in Horg.
  assert (Hv : forall x y, be_value [x; y] < 65536) by (intros x y; apply (be_value_bound [x; y])).
  pose proof (Hv t0 t1). pose proof (Hv i0 i1). pose proof (Hv o0 o1).
  pose proof (to_N_bound c0).
  split.
  - unfold TokenChallenge_to_bytes. cbn [ch_token_type issuer_name redemption_context origin_info].
    unfold len. rewrite Liss, Lctx, Lorg, !N2Nat.id, !wrap_small by done.
    change 2%nat with (length [t0; t1]) at 1. rewrite be_bytes_value.
    change 2%nat with (length [i0; i1]) at 1. rewrite be_bytes_value.
    change 2%nat with (length [o0; o1]) at 1. rewrite be_bytes_value, byte_of_to_N.
    rewrite <- (Nat.add_assoc _ 1 1) in Ht1. rewrite <- (Nat.add_assoc _ 1 1) in Hi1.
    rewrite <- (Nat.add_assoc _ 1 1) in Ho1. change (1 + 1)%nat with 2%nat in *.
    rewrite <- (drop_0 b) at 1. by rewrite Ht0, Ht1, Hi0, Hi1, Hiss, Hc0, Hctx, Ho0, Ho1, Horg.
  - split; cbn [ch_token_type issuer_name redemption_context origin_info];
      try done; unfold len; rewrite ?Liss, ?Lctx, ?Lorg, ?N2Nat.id; done.
Qed.

Lemma challenge_from_no_panic b : TokenChallenge_from_bytes b <> Panic.
Proof.
  unfold TokenChallenge_from_bytes. case_decide; [done|].
  assert (Hu : forall f s, map_err (E' := Error) f (from_utf8 s) <> Panic)
    by (intros f s; rewrite map_err_Panic; apply from_utf8_no_panic).
  destruct (@index_in Error _ b 0) as [t0 ->]; [lia|].
  destruct (@index_in Error _ b (0 + 1)) as [t1 ->]; [lia|].
  destruct (@index_in Error _ b (0 + 2)) as [i0 ->]; [lia|].
  destruct (@index_in Error _ b (0 + 2 + 1)) as [i1 ->]; [lia|].
  cbn [mbind result_bind]. case_decide; [done|].
  set (off := (0 + 2 + 2)%nat) in *. set (n := N.to_nat (be_value [i0; i1])) in *.
  destruct (@slice_in Error _ b off n) as [iss ->]; [lia|].
  cbn [mbind result_bind]. specialize (Hu (fun e => ErrMalformed
    (B "challenge issuer utf8: " ++ utf8_error_display e)) iss) as Hi.
  destruct (map_err _ (from_utf8 iss)); [|done..]. cbn [mbind result_bind].
  destruct (@index_in Error _ b (off + n)) as [c0 ->]; [lia|].
  cbn [mbind result_bind]. set (m := N.to_nat (Byte.to_N c0)) in *. case_decide; [done|].
  destruct (@slice_in Error _ b (off + n + 1) m) as [ctx ->]; [lia|].
  destruct (@index_in Error _ b (off + n + 1 + m)) as [o0 ->]; [lia|].
  destruct (@index_in Error _ b (off + n + 1 + m + 1)) as [o1 ->]; [lia|].
  cbn [mbind result_bind]. set (k := N.to_nat (be_value [o0; o1])) in *. case_decide as Hend; [done|].
  destruct (@slice_in Error _ b (off + n + 1 + m + 2) k) as [org ->]; [lia|].
  cbn [mbind result_bind]. specialize (Hu (fun e => ErrMalformed
    (B "challenge origin utf8: " ++ utf8_error_display e)) org).
  by destruct (map_err _ (from_utf8 org)).
Qed.

Lemma challenge_to_bytes_inj c c' :
  wf_challenge c -> wf_challenge c' ->
  TokenChallenge_to_bytes c = TokenChallenge_to_bytes c' -> c = c'.
Proof.
  intros Hc Hc' Heq. apply challenge_from_to in Hc, Hc'. congruence.
Qed.

Lemma wf_challenge_new iss org :
  is_utf8 iss -> is_utf8 org -> len iss < 2 ^ 16 -> len org < 2 ^ 16 ->
  wf_challenge (TokenChallenge_new iss org).
Proof. by split. Qed.

Lemma wf_challenge_context c ctx :
  wf_challenge c -> length ctx = 32%nat -> wf_challenge (with_redemption_context c ctx).
Proof. intros [] Hl. split; try done. cbn. unfold len. by rewrite Hl. Qed.

(** ** The roles *)

Section facts.
Context `{Sha256, BlindSig}.

Lemma digest_inj c c' :
  wf_challenge c -> wf_challenge c' -> TokenChallenge_digest c = TokenChallenge_digest c' ->
  c = c' \/ collides [TokenChallenge_to_bytes c] [TokenChallenge_to_bytes c'].
Proof.
  unfold TokenChallenge_digest. intros Hc Hc' [Heq|Hx]%sha256_inj_or; [left|by right].
  by apply challenge_to_bytes_inj.
Qed.

Lemma Verifier_verify_Ok v t c n :
  Verifier_verify v t c = Ok n <->
  token_type t = TOKEN_TYPE /\ challenge_digest t = TokenChallenge_digest c
  /\ token_key_id t = Scheme_token_key_id (pk_key (v_pk v))
  /\ n = nonce t
  /\ exists r proof, authenticator t = r ++ proof /\ length r = 32%nat /\ proof <> []
     /\ bs_verify (v_epk v) (token_input (nonce t) (challenge_digest t) (token_key_id t))
          proof r = true.
Proof.
  unfold Verifier_verify. case_decide; [naive_solver|]. case_decide; [naive_solver|].
  unfold IssuerPublicKey_token_key_id. cbn [mbind result_bind].
  case_decide; [naive_solver|].
  rewrite map_err_Ok, Scheme_verify_Ok.
  split.
  - intros (Ht & -> & r & proof & Hd & Hv). split_and!; [done..|].
    unfold decode_authenticator in Hd. case_decide as Hl; [done|].
    unfold slice_from, ADDITIONAL_R_LEN in *. rewrite !slice_Ok in Hd by lia.
    cbn [mbind result_bind] in Hd. injection Hd as <- <-.
    rewrite drop_0 in *. change (32 - 0)%nat with 32%nat in *. exists (take 32 (authenticator t)), (drop 32 (authenticator t)).
    rewrite (take_ge (drop 32 _)) in Hv by (rewrite length_drop; lia).
    split_and!; [by rewrite take_drop|rewrite length_take; lia| |done].
    intros Hn%(f_equal length). rewrite length_drop in Hn. cbn in Hn. lia.
  - intros (Ht & _ & _ & -> & r & proof & Ha & Hr & Hp & Hv). split_and!; [done..|].
    exists r, proof. rewrite Ha. split; [by apply decode_encode_authenticator|done].
Qed.

Lemma Verifier_verify_no_panic v t c : Verifier_verify v t c <> Panic.
Proof.
  unfold Verifier_verify, IssuerPublicKey_token_key_id.
  repeat (case_decide; [done|]; cbn [mbind result_bind]).
  rewrite map_err_Panic. apply Scheme_verify_no_panic.
Qed.

(** A token answers for at most one challenge. *)
Lemma Verifier_verify_challenge v v' t c c' n n' :
  wf_challenge c -> wf_challenge c' ->
  Verifier_verify v t c = Ok n -> Verifier_verify v' t c' = Ok n' ->
  c = c' \/ collides [TokenChallenge_to_bytes c] [TokenChallenge_to_bytes c'].
Proof.
  intros Hc Hc' (_ & Hd & _)%Verifier_verify_Ok (_ & Hd' & _)%Verifier_verify_Ok.
  apply digest_inj; congruence.
Qed.

Lemma check_key_consistency_Ok pinned pk :
  check_key_consistency pinned pk = Ok tt <-> pinned = Scheme_token_key_id (pk_key pk).
Proof.
  unfold check_key_consistency, IssuerPublicKey_token_key_id. cbn. case_decide; naive_solver.
Qed.

Lemma Issuer_blind_sign_cases i req g r g' :
  Issuer_blind_sign i req g = (r, g') ->
  (req_key_version req = issuer_key_version i /\
   exists resp, r = Ok resp /\ issuer_sign (issuer_sk i) (req_body req) g = (resp, g'))
  \/ (req_key_version req <> issuer_key_version i /\ g' = g
      /\ r = Err (ErrKeyVersion (req_key_version req) (issuer_key_version i))).
Proof.
  unfold Issuer_blind_sign. case_decide as Hv.
  - intros [= <- <-]. by right.
  - destruct (issuer_sign _ _ g) as [[l] g1] eqn:Hs. intros [= <- <-].
    left. split; [done|]. by eexists.
Qed.

(** What a begun mint asks to sign. *)
Lemma Client_begin_total pk c count g :
  exists req p g', Client_begin pk c count g = (Ok (req, p), g')
    /\ binding (req_body req) = binding_of (blinded (req_body req))
    /\ length (blinded (req_body req)) = count
    /\ req_key_version req = pk_key_version pk /\ token_challenge req = c.
Proof.
  unfold Client_begin, IssuerPublicKey_token_key_id, client_begin.
  destruct (begin_items _ _ count g) as [l g'] eqn:Hl. do 3 eexists. split; [done|].
  cbn [req_body blinded binding req_key_version token_challenge].
  split_and!; [done| |done..]. rewrite length_fmap. by eapply begin_items_length.
Qed.

Lemma Issuer_blind_sign_same_version i req g resp g' :
  req_key_version req = issuer_key_version i ->
  issuer_sign (issuer_sk i) (req_body req) g = (resp, g') ->
  Issuer_blind_sign i req g = (Ok resp, g').
Proof.
  intros Hv Hs. unfold Issuer_blind_sign. rewrite decide_False by tauto. rewrite Hs.
  by destruct resp.
Qed.

(** Begin, sign and finalize in sequence: every token verifies against the
    challenge it was minted for. *)
Lemma mint_run_complete `{!Sha256Laws, !RngLaws, !BlindSigLaws}
    kv g0 i g1 c count g2 req p g3 g4 resp g5 g6 r g7 :
  Issuer_generate kv g0 = (i, g1) ->
  Client_begin (Issuer_public i) c count g2 = (Ok (req, p), g3) ->
  Issuer_blind_sign i req g4 = (Ok resp, g5) ->
  PendingTokens_finalize p (Issuer_public i) resp g6 = (r, g7) ->
  exists ts, r = Ok ts /\ length ts = count /\
    Forall (fun t => Verifier_verify (Verifier_new (Issuer_public i)) t c = Ok (nonce t)
      /\ wf_token t /\ (33 <= length (authenticator t))%nat) ts.
Proof.
  unfold Issuer_generate, Client_begin, PendingTokens_finalize, Scheme_keygen.
  destruct (bs_keygen g0) as [[pk sk] g0'] eqn:Hk. intros [= <- <-].
  cbn [IssuerPublicKey_token_key_id Issuer_public pk_key issuer_pk km_pk km_sk].
  destruct (client_begin _ _ _ _ g2) as [[body inner] g2'] eqn:Hb.
  intros [= <- <- <-] Hs. apply Issuer_blind_sign_cases in Hs as [(_ & resp' & [= <-] & Hs)|];
    [|naive_solver]. cbn [pt_inner req_body issuer_sk] in *.
  replace {| blind_sigs := blind_sigs resp |} with resp by by destruct resp.
  destruct (client_finalize inner resp pk g6) as [r' g6'] eqn:Hf. intros [= <- <-].
  eapply scheme_complete in Hf as (ts & -> & Hl & _ & Hts); [|apply sha256_length..|done|done|done].
  exists ts. split_and!; [done..|]. eapply Forall_impl; [exact Hts|].
  intros t (Hv & Hw & Ha & Hcd & Hkid). split_and!; [|done..].
  unfold Verifier_verify. apply Scheme_verify_Ok in Hv as Hv'.
  rewrite decide_False by naive_solver. rewrite decide_False by naive_solver.
  unfold IssuerPublicKey_token_key_id. cbn [mbind result_bind].
  rewrite decide_False by naive_solver. apply map_err_Ok, Hv.
Qed.

End facts.

(** ** Properties *)

(** C29: the encoding of challenges is exact: a challenge whose names are UTF-8
    and whose lengths fit their fields is read back as it was written, a buffer
    that parses is the encoding of a challenge of that kind, and no buffer makes
    the parser panic. *)
Theorem challenge_codec b c :
  (wf_challenge c -> TokenChallenge_from_bytes (TokenChallenge_to_bytes c) = Ok c)
  /\ (TokenChallenge_from_bytes b = Ok c -> TokenChallenge_to_bytes c = b /\ wf_challenge c)
  /\ TokenChallenge_from_bytes b <> Panic.
Proof.
  split; [apply challenge_from_to|]. split; [apply challenge_from_Ok|]. apply challenge_from_no_panic.
Qed.

(** C30: outside those lengths [to_bytes] truncates its length fields instead of
    failing: two different challenges, of one issuer, have one encoding and so
    one digest, and a token minted for the one is accepted for the other. *)
Theorem oversized_challenge_collides `{Sha256, BlindSig} :
  exists c c', c <> c' /\ issuer_name c = issuer_name c'
    /\ TokenChallenge_to_bytes c = TokenChallenge_to_bytes c'
    /\ TokenChallenge_digest c = TokenChallenge_digest c'
    /\ forall v t, Verifier_verify v t c = Verifier_verify v t c'.
Proof.
  set (c := {| ch_token_type := TOKEN_TYPE; issuer_name := B "issuer"; origin_info := [];
               redemption_context := [x01; x00] ++ replicate 254 x61 |}).
  set (c' := {| ch_token_type := TOKEN_TYPE; issuer_name := B "issuer"; redemption_context := [];
                origin_info := replicate 254 x61 ++ [x00; x00] |}).
  assert (Hb : TokenChallenge_to_bytes c = TokenChallenge_to_bytes c') by by vm_compute.
  assert (Hd : TokenChallenge_digest c = TokenChallenge_digest c')
    by (unfold TokenChallenge_digest; by rewrite Hb).
  exists c, c'. split_and!; [done|done|done|done|]. intros v t. unfold Verifier_verify. by rewrite Hd.
Qed.

(** The origin's check, exactly: a token is accepted when its type is the
    one supported, its challenge digest and key id are those of the challenge and
    of the verifier's key, its authenticator splits into 32 bytes and a proof,
    and the proof verifies over the token's own fields; the result is the nonce. *)
Theorem verifier_accepts `{Sha256, BlindSig} v t c n :
  Verifier_verify v t c = Ok n <->
  token_type t = TOKEN_TYPE /\ challenge_digest t = TokenChallenge_digest c
  /\ token_key_id t = Scheme_token_key_id (pk_key (v_pk v))
  /\ n = nonce t
  /\ exists r proof, authenticator t = r ++ proof /\ length r = 32%nat /\ proof <> []
     /\ bs_verify (v_epk v) (token_input (nonce t) (challenge_digest t) (token_key_id t))
          proof r = true.
Proof. apply Verifier_verify_Ok. Qed.

(** A mint is complete: whatever the randomness, a batch begun for an honest
    issuer's public key, blind-signed by that issuer and finalized gives exactly
    the requested number of tokens, each of which verifies against the challenge
    and has the lengths the wire format asks for. *)
Theorem mint_complete `{Sha256Laws, RngLaws, !BlindSig, !BlindSigLaws}
    kv g0 i g1 c count g2 req p g3 g4 resp g5 g6 r g7 :
  Issuer_generate kv g0 = (i, g1) ->
  Client_begin (Issuer_public i) c count g2 = (Ok (req, p), g3) ->
  Issuer_blind_sign i req g4 = (Ok resp, g5) ->
  PendingTokens_finalize p (Issuer_public i) resp g6 = (r, g7) ->
  exists ts, r = Ok ts /\ length ts = count /\
    Forall (fun t => Verifier_verify (Verifier_new (Issuer_public i)) t c = Ok (nonce t)
      /\ wf_token t /\ (33 <= length (authenticator t))%nat) ts.
Proof. apply mint_run_complete. Qed.
