(* ===== verification/Http.v ===== *)
(** * The HTTP headers: module http of core/src/lib.rs

The challenge and authorization headers of the PrivateToken scheme, and their
parsers. *)

From S2P Require Import Prelude RustStr Externals Pomfrit Core.

Section operations.
Context `{Base64}.

Definition www_authenticate (challenge_bytes : bytes) (pk : IssuerPublicKey) :
    result Error str :=
  Ok (B "PrivateToken challenge=" ++ b64_encode URL_SAFE_NO_PAD challenge_bytes
      ++ B ", token-key=" ++ b64_encode URL_SAFE_NO_PAD (pk_key pk)).

Definition authorization (token : SpendToken) : str :=
  B "PrivateToken token=" ++ b64_encode URL_SAFE_NO_PAD (SpendToken_to_bytes token).

Definition parse_authorization (header : str) : result Error SpendToken :=
  rest ← ok_or (trim <$> strip_prefix (B "PrivateToken") (trim header))
           (ErrMalformed (B "not a PrivateToken auth header"));
  b64 ← ok_or ((fun s => trim_end_matches x2c (trim_matches x22 (trim s)))
                 <$> split (B "token=") rest !! 1%nat)
          (ErrMalformed (B "missing token= parameter"));
  b ← map_err (fun e => ErrMalformed (B "base64url: " ++ e))
        (of_sum (b64_decode URL_SAFE_NO_PAD b64));
  map_err ErrPomfrit (SpendToken_from_bytes b).

Definition parse_www_authenticate (header : str) : result Error TokenChallenge :=
  rest ← ok_or (trim <$> strip_prefix (B "PrivateToken") (trim header))
           (ErrMalformed (B "not a PrivateToken challenge"));
  b64 ← ok_or ((fun s => trim_matches x22 (trim s))
                 <$> (split (B "challenge=") rest !! 1%nat ≫= fun s => head (split [x2c] s)))
          (ErrMalformed (B "missing challenge= parameter"));
  b ← map_err (fun e => ErrMalformed (B "challenge base64url: " ++ e))
        (of_sum (b64_decode URL_SAFE_NO_PAD b64));
  TokenChallenge_from_bytes b.

End operations.

(** ** Lemmas *)

(** Trimming a text whose first byte and whose last part are printable. *)
Lemma trim_printable_ends b s t :
  is_graph b = true -> t <> [] -> forallb is_graph t = true -> trim (b :: s ++ t) = b :: s ++ t.
Proof.
  intros Hb Ht Hg. destruct t as [|c t _] using rev_ind; [done|].
  rewrite app_assoc. apply trim_ends; [done|].
  rewrite forallb_app in Hg. cbn in Hg. by destruct (is_graph c), (forallb is_graph t).
Qed.

Lemma unique_occurrence (c : byte) s t a e :
  c ∉ s -> c ∉ t -> s ++ c :: t = a ++ c :: e -> a = s.
Proof.
  revert a. induction s as [|x s IH]; intros [|y a] Hs Ht Heq; simplify_eq/=; [done|..].
  - exfalso. apply Ht. set_solver.
  - exfalso. apply Hs. set_solver.
  - f_equal. apply IH; set_solver.
Qed.

(** Where the last byte of a pattern occurs once, the byte before it decides
    whether the pattern occurs. *)
Lemma no_match_last_two p q c d s t :
  c ∉ s -> c ∉ t -> c <> d -> q <> d -> no_match (p ++ [q; c]) (s ++ [d; c] ++ t).
Proof.
  intros Hs Ht Hcd Hqd a e Heq.
  assert (Hl : (s ++ [d]) ++ c :: t = (a ++ p ++ [q]) ++ c :: e)
    by (rewrite <- !app_assoc; cbn; rewrite <- !app_assoc in Heq; apply Heq).
  apply unique_occurrence in Hl; [|set_solver|done].
  rewrite app_assoc in Hl. by apply app_inj_2 in Hl as [_ [= ->]].
Qed.

Section facts.
Context `{Base64Laws}.

Lemma authorization_trim t :
  trim (authorization t) = authorization t.
Proof.
  unfold authorization. change (B "PrivateToken token=") with
    (x50 :: (B "rivateToken token" ++ [x3d])).
  cbn [app]. rewrite <- app_assoc. apply trim_printable_ends; [done..|].
  cbn [forallb app]. eapply forallb_mono, b64_encode_url. apply b64url_graph.
Qed.

Lemma b64url_plain b c :
  is_b64url c = false -> c ∉ b64_encode URL_SAFE_NO_PAD b.
Proof. intros Hc. eapply not_in_class; [apply b64_encode_url|done]. Qed.

Lemma b64url_trim b : trim (b64_encode URL_SAFE_NO_PAD b) = b64_encode URL_SAFE_NO_PAD b.
Proof. apply trim_graph. eapply forallb_mono, b64_encode_url. apply b64url_graph. Qed.

(** What the parser reads out of a header made by [authorization] is exactly
    the token's bytes. *)
Lemma parse_authorization_of t :
  parse_authorization (authorization t)
  = map_err ErrPomfrit (SpendToken_from_bytes (SpendToken_to_bytes t)).
Proof.
  unfold parse_authorization. rewrite authorization_trim. unfold authorization.
  change (B "PrivateToken token=") with (B "PrivateToken" ++ x20 :: B "token=").
  rewrite <- app_assoc, strip_prefix_app. cbn [fmap option_fmap option_map app].
  rewrite trim_space_graph.
  2:{ rewrite forallb_app. apply andb_true_intro. split; [done|].
      eapply forallb_mono, b64_encode_url. apply b64url_graph. }
  cbn [ok_or mbind result_bind]. rewrite split_nth1; [|done|].
  2:{ eapply (no_match_byte _ x3d); [by_decide|by apply b64url_plain]. }
  cbn [fmap option_fmap option_map ok_or mbind result_bind].
  rewrite b64url_trim, trim_matches_id by by apply b64url_plain.
  rewrite trim_end_matches_id by by apply b64url_plain.
  by rewrite b64_decode_encode.
Qed.

Lemma parse_www_authenticate_of b pk h :
  www_authenticate b pk = Ok h -> parse_www_authenticate h = TokenChallenge_from_bytes b.
Proof.
  intros Hw. assert (h = B "PrivateToken challenge=" ++ b64_encode URL_SAFE_NO_PAD b
      ++ B ", token-key=" ++ b64_encode URL_SAFE_NO_PAD (pk_key pk)) as ->
    by (unfold www_authenticate in Hw; congruence).
  clear Hw. unfold parse_www_authenticate.
  set (k := b64_encode _ (pk_key pk)). set (c := b64_encode _ b).
  assert (Hk : forallb is_graph k = true)
    by (eapply forallb_mono, b64_encode_url; apply b64url_graph).
  assert (Hh : trim (B "PrivateToken challenge=" ++ c ++ B ", token-key=" ++ k)
    = B "PrivateToken" ++ x20 :: B "challenge=" ++ c ++ B ", token-key=" ++ k).
  { change (B ", token-key=" ++ k) with (B ", " ++ (B "token-key=" ++ k)).
    rewrite (app_assoc c). change (B "PrivateToken challenge=") with
      (x50 :: B "rivateToken challenge="). cbn [app]. rewrite app_assoc.
    rewrite trim_printable_ends; [by rewrite <- !app_assoc|done..|].
    rewrite forallb_app. by rewrite Hk. }
  rewrite Hh, strip_prefix_app. cbn [fmap option_fmap option_map].
  assert (Ht : trim (x20 :: B "challenge=" ++ c ++ B ", token-key=" ++ k)
    = B "challenge=" ++ c ++ B ", token-key=" ++ k).
  { unfold trim at 1. rewrite trim_start_space. fold (trim (B "challenge=" ++ c ++ B ", token-key=" ++ k)).
    change (B ", token-key=" ++ k) with (B ", " ++ (B "token-key=" ++ k)).
    rewrite (app_assoc c). change (B "challenge=") with (x63 :: B "hallenge=").
    cbn [app]. rewrite app_assoc.
    rewrite trim_printable_ends; [by rewrite <- !app_assoc|done..|].
    rewrite forallb_app. by rewrite Hk. }
  rewrite Ht. cbn [ok_or mbind result_bind]. rewrite split_nth1; [|done|].
  2:{ change (B "challenge=") with (B "challeng" ++ [x65; x3d]).
      change (B ", token-key=") with (B ", token-ke" ++ [x79; x3d]).
      rewrite <- app_assoc, (app_assoc c).
      apply no_match_last_two; [|by apply b64url_plain|done..].
      apply not_elem_of_app. split; [by apply b64url_plain|by_decide]. }
  cbn [mbind option_bind]. change (B ", token-key=" ++ k) with (x2c :: B " token-key=" ++ k).
  rewrite split_char_head by by apply b64url_plain.
  cbn [fmap option_fmap option_map ok_or mbind result_bind]. unfold c.
  rewrite b64url_trim, trim_matches_id by by apply b64url_plain.
  by rewrite b64_decode_encode.
Qed.

End facts.

Section panics.
Context `{Base64}.

Lemma parse_authorization_no_panic h : parse_authorization h <> Panic.
Proof.
  unfold parse_authorization. rewrite bind_Panic. intros [Hp|(rest & _ & Hp)];
    [by apply ok_or_Panic in Hp|].
  rewrite bind_Panic in Hp. destruct Hp as [Hp|(b64 & _ & Hp)]; [by apply ok_or_Panic in Hp|].
  rewrite bind_Panic in Hp. destruct Hp as [Hp|(b & _ & Hp)]; rewrite map_err_Panic in Hp.
  - by apply of_sum_no_panic in Hp.
  - by apply from_bytes_no_panic in Hp.
Qed.

Lemma parse_www_authenticate_no_panic h : parse_www_authenticate h <> Panic.
Proof.
  unfold parse_www_authenticate. rewrite bind_Panic. intros [Hp|(rest & _ & Hp)];
    [by apply ok_or_Panic in Hp|].
  rewrite bind_Panic in Hp. destruct Hp as [Hp|(b64 & _ & Hp)]; [by apply ok_or_Panic in Hp|].
  rewrite bind_Panic in Hp. destruct Hp as [Hp|(b & _ & Hp)].
  - rewrite map_err_Panic in Hp. by apply of_sum_no_panic in Hp.
  - by apply challenge_from_no_panic in Hp.
Qed.

End panics.

(** ** Properties *)

(** C32: the two headers round-trip: a token put in an [authorization] header and
    a challenge put in a [www-authenticate] header, for any key, are read back
    from it; and no header makes either parser panic. *)
Theorem headers_roundtrip `{Base64Laws} t c pk h s :
  (wf_token t -> (33 <= length (authenticator t))%nat ->
   parse_authorization (authorization t) = Ok t)
  /\ (wf_challenge c -> www_authenticate (TokenChallenge_to_bytes c) pk = Ok h ->
      parse_www_authenticate h = Ok c)
  /\ parse_authorization s <> Panic /\ parse_www_authenticate s <> Panic.
Proof.
  split_and!; [| |apply parse_authorization_no_panic|apply parse_www_authenticate_no_panic].
  - intros Ht Ha. by rewrite parse_authorization_of, from_to_bytes.
  - intros Hc Hh. by rewrite (parse_www_authenticate_of _ _ _ Hh), challenge_from_to.
Qed.
