(* ===== verification/Fuzz.v ===== *)
(** * The fuzz targets: core/fuzz/fuzz_targets

What the fuzzers run on arbitrary bytes, as functions of them: [Panic] is a
crash, or a failed assertion. *)

From S2P Require Import Prelude RustStr Externals Pomfrit Core Http.

Section fuzz.
Context `{Sha256, Hex, Base64}.

(** token_from_bytes.rs: what is accepted re-encodes to the input. *)
Definition fuzz_token_from_bytes (data : bytes) : result Empty_set unit :=
  match SpendToken_from_bytes data with
  | Ok tok => if decide (SpendToken_to_bytes tok = data) then Ok tt else Panic
  | Err _ => Ok tt
  | Panic => Panic
  end.

(** parse_authorization.rs, on the inputs that are UTF-8. *)
Definition fuzz_parse_authorization (data : bytes) : result Empty_set unit :=
  match utf8_check 0 data with
  | None => match parse_authorization data with Panic => Panic | _ => Ok tt end
  | Some _ => Ok tt
  end.

(** No input crashes a fuzz target, and what the deterministic smoke test
    asserts besides holds of every input: bytes are refused exactly when they
    are shorter than 131, and a token written as a header is read back. *)
Theorem fuzz_targets_pass `{!Base64Laws} data :
  fuzz_token_from_bytes data = Ok tt /\ fuzz_parse_authorization data = Ok tt
  /\ ((exists e, SpendToken_from_bytes data = Err e) <-> (length data < 131)%nat)
  /\ (forall t, SpendToken_from_bytes data = Ok t -> parse_authorization (authorization t) = Ok t).
Proof.
  unfold fuzz_token_from_bytes, fuzz_parse_authorization.
  pose proof (from_bytes_no_panic data) as Hp. pose proof (parse_authorization_no_panic data).
  split_and!.
  - destruct (SpendToken_from_bytes data) as [t|e|] eqn:Ht; [|done..].
    apply from_bytes_Ok in Ht as [-> _]. by rewrite decide_True.
  - destruct (utf8_check 0 data); [done|]. by destruct (parse_authorization data).
  - split; [|intros Hl; rewrite from_bytes_short by done; by eexists].
    intros [e He]. destruct (decide (length data < 131)%nat) as [|Hl]; [done|].
    destruct (token_layout data) as (b0 & b1 & n & cd & kid & a & -> & ?); [lia|].
    by rewrite from_bytes_fields in He by naive_solver.
  - intros t (Hd & Hw & Ha)%from_bytes_Ok. by rewrite parse_authorization_of, from_to_bytes.
Qed.

End fuzz.
