(* ===== verification/RateLimit.v ===== *)
(** * Issuance quotas: core/src/ratelimit.rs

[RateLimiter] is the trait and [RateLimiterLaws] what the issuer relies on: a
grant is counted against the identity and the epoch, and fits the quota.
[InMemoryRateLimiter] discharges it below the largest quota. *)

From S2P Require Import Prelude RustStr.

Inductive RateLimitError :=
| RLExceeded
| RLBackend (msg : str).

Definition RateLimitError_display (e : RateLimitError) : str :=
  match e with
  | RLExceeded => B "issuance quota exceeded for this attestation in the current epoch"
  | RLBackend m => B "rate-limit backend unavailable: " ++ m
  end.

#[export] Instance RateLimitError_eq_dec : EqDecision RateLimitError.
Proof. solve_decision. Defined.

(** The clock as the limiters read it: [duration_since(UNIX_EPOCH)], with
    [None] for a clock before 1970. *)
Definition secs_since_epoch (clock : option N) : N := default 0 clock.

Class RateLimiter (R : Type) :=
  try_consume : option N -> bytes -> N -> run R RateLimitError unit.

(** ** [NoLimit] *)

Record NoLimit := {}.

#[export] Instance NoLimit_limiter : RateLimiter NoLimit := fun _ _ _ => mret tt.

(** ** [InMemoryRateLimiter] *)

(** [state] is guarded by a mutex; [poisoned] records a panic of its holder. *)
Record InMemoryRateLimiter := {
  max_per_epoch : N;
  epoch_secs : N;
  state : gmap (N * bytes) N;
  poisoned : bool;
}.

Definition InMemoryRateLimiter_new (max secs : N) : InMemoryRateLimiter :=
  {| max_per_epoch := max; epoch_secs := N.max secs 1; state := ∅; poisoned := false |}.

Definition current_epoch (l : InMemoryRateLimiter) (clock : option N) : N :=
  secs_since_epoch clock / epoch_secs l.

Definition set_state (l : InMemoryRateLimiter) (m : gmap (N * bytes) N) : InMemoryRateLimiter :=
  {| max_per_epoch := max_per_epoch l; epoch_secs := epoch_secs l; state := m;
     poisoned := poisoned l |}.

Definition poison (l : InMemoryRateLimiter) : InMemoryRateLimiter :=
  {| max_per_epoch := max_per_epoch l; epoch_secs := epoch_secs l; state := state l;
     poisoned := true |}.

Definition try_consume_at `{BuildProfile} (epoch : N) (attestation_id : bytes) (n : N) :
    run InMemoryRateLimiter RateLimitError unit := fun l =>
  if poisoned l then (Panic, l)
  else
    let key := (epoch, attestation_id) in
    let used := default 0 (state l !! key) in
    let l := set_state l (<[key := used]> (state l)) in
    if max_per_epoch l <? sat_add32 used n then (Err RLExceeded, l)
    else
      match add_w (E := RateLimitError) 32 used n with
      | Ok v => (Ok tt, set_state l (<[key := v]> (state l)))
      | _ => (Panic, poison l)
      end.

Definition prune_before (keep_from : N) : run InMemoryRateLimiter RateLimitError unit := fun l =>
  if poisoned l then (Panic, l)
  else (Ok tt, set_state l (filter (fun '((epoch, _), _) => keep_from <= epoch) (state l))).

#[export] Instance InMemoryRateLimiter_limiter `{BuildProfile} :
  RateLimiter InMemoryRateLimiter := fun clock attestation_id n l =>
  try_consume_at (current_epoch l clock) attestation_id n l.

(** ** What a limiter promises *)

(** [used l e i] is the number of permits counted for [i] in epoch [e]: a grant
    adds to it and fits the quota, and nothing ever takes from it. *)
Class RateLimiterLaws (R : Type) `{RateLimiter R} := {
  limiter_ok : R -> Prop;
  quota : R -> N;
  epoch_at : R -> option N -> N;
  used : R -> N -> bytes -> N;
  limiter_step l clock i n r l' :
    limiter_ok l -> n < 2 ^ 32 -> try_consume clock i n l = (r, l') ->
    limiter_ok l' /\ quota l' = quota l /\ epoch_at l' = epoch_at l
    /\ (forall e j, used l e j <= used l' e j)
    /\ (r = Ok tt -> used l' (epoch_at l clock) i = used l (epoch_at l clock) i + n
                     /\ used l' (epoch_at l clock) i <= quota l);
}.

(** A request to the limiter: the clock at it, the identity and the batch. *)
Definition consume_req : Type := option N * bytes * N.

(** Serving requests in order; each is answered before the next. *)
Fixpoint consume_all {R} `{RateLimiter R} (l : list consume_req) (s : R) :
    list (consume_req * result RateLimitError unit) * R :=
  match l with
  | [] => ([], s)
  | (clock, i, n) :: l =>
      let '(r, s) := try_consume clock i n s in
      let '(rs, s) := consume_all l s in
      (((clock, i, n), r) :: rs, s)
  end.

(** The permits a history of answers granted to one identity in one epoch. *)
Definition granted (epoch_of : option N -> N) (e : N) (i : bytes)
    (h : list (consume_req * result RateLimitError unit)) : N :=
  foldr (fun '((clock, j, n), r) acc =>
    if decide (r = Ok tt /\ epoch_of clock = e /\ j = i) then n + acc else acc) 0 h.

(** ** The in-memory limiter *)

Definition counted (l : InMemoryRateLimiter) (e : N) (i : bytes) : N :=
  default 0 (state l !! (e, i)).

Section memory.
Context `{BuildProfile}.

(** Every branch of [try_consume_at] on a limiter that is not poisoned. *)
Lemma try_consume_at_cases e i n l r l' :
  poisoned l = false -> counted l e i < 2 ^ 32 -> n < 2 ^ 32 ->
  try_consume_at e i n l = (r, l') ->
  max_per_epoch l' = max_per_epoch l /\ epoch_secs l' = epoch_secs l /\
  (forall e' j, (e', j) <> (e, i) -> counted l' e' j = counted l e' j) /\
  ((max_per_epoch l < sat_add32 (counted l e i) n /\ r = Err RLExceeded
    /\ poisoned l' = false /\ counted l' e i = counted l e i)
   \/ (counted l e i + n <= max_per_epoch l /\ counted l e i + n < 2 ^ 32 /\ r = Ok tt
       /\ poisoned l' = false /\ counted l' e i = counted l e i + n)
   \/ (2 ^ 32 <= counted l e i + n /\ u32_max <= max_per_epoch l /\
       ((overflow_checks = true /\ r = Panic /\ poisoned l' = true
         /\ counted l' e i = counted l e i)
        \/ (overflow_checks = false /\ r = Ok tt /\ poisoned l' = false
            /\ counted l' e i = wrap 32 (counted l e i + n))))).
Proof.
  unfold try_consume_at. intros Hp Hu Hn. rewrite Hp. fold (counted l e i).
  cbn [max_per_epoch set_state].
  assert (Hi : forall v e' j m, (e', j) <> (e, i) ->
    counted (set_state l (<[(e, i) := v]> m)) e' j = default 0 (m !! (e', j)))
    by (intros v e' j m Hne; unfold counted; cbn; by rewrite lookup_insert_ne).
  assert (Hs : forall v m, counted (set_state l (<[(e, i) := v]> m)) e i = v)
    by (intros v m; unfold counted; cbn; by rewrite lookup_insert_eq).
  unfold sat_add32, add_w. change (2 ^ 32) with (u32_max + 1) in *.
  destruct (N.ltb_spec (max_per_epoch l) (N.min (counted l e i + n) u32_max)).
  { intros [= <- <-]. split_and!; [done..|by intros; apply Hi|]. left.
    split_and!; [done..|apply Hs]. }
  destruct (N.ltb_spec (counted l e i + n) (u32_max + 1)).
  { intros [= <- <-]. cbn [set_state state max_per_epoch epoch_secs poisoned].
    split_and!; [done..|intros e' j Hne|].
    - unfold counted. cbn. by rewrite !lookup_insert_ne.
    - right. left. split_and!; [lia|done..|]. unfold counted at 1. cbn.
      by rewrite lookup_insert_eq. }
  destruct overflow_checks.
  - intros [= <- <-]. split_and!; [done..|by intros; apply Hi|]. right. right.
    split_and!; [lia..|]. left. split_and!; [done..|]. apply Hs.
  - intros [= <- <-]. split_and!; [done..|intros e' j Hne|].
    + unfold counted. cbn. by rewrite !lookup_insert_ne.
    + right. right. split_and!; [lia..|]. right. split_and!; [done..|].
      unfold counted at 1. cbn. by rewrite lookup_insert_eq.
Qed.

End memory.

(** No count is above the quota, and the quota is not the largest [u32]. *)
Record memory_ok (l : InMemoryRateLimiter) : Prop := {
  memory_live : poisoned l = false;
  memory_max : max_per_epoch l < u32_max;
  memory_counts e i : counted l e i <= max_per_epoch l;
}.

Lemma memory_ok_new max secs : max < u32_max -> memory_ok (InMemoryRateLimiter_new max secs).
Proof. intros. split; [done|done|]. intros e i. unfold counted. cbn. rewrite lookup_empty. cbn. lia. Qed.

Lemma counted_new max secs e i : counted (InMemoryRateLimiter_new max secs) e i = 0.
Proof. unfold counted. cbn. by rewrite lookup_empty. Qed.

Section memory_laws.
Context `{BuildProfile}.

Lemma memory_step e i n l r l' :
  memory_ok l -> n < 2 ^ 32 -> try_consume_at e i n l = (r, l') ->
  memory_ok l' /\ max_per_epoch l' = max_per_epoch l /\ epoch_secs l' = epoch_secs l
  /\ (forall e' j, (e', j) <> (e, i) -> counted l' e' j = counted l e' j)
  /\ ((counted l e i + n <= max_per_epoch l /\ r = Ok tt
       /\ counted l' e i = counted l e i + n)
      \/ (max_per_epoch l < counted l e i + n /\ r = Err RLExceeded
          /\ counted l' e i = counted l e i)).
Proof.
  intros [Hp Hm Hc] Hn Ht. pose proof (Hc e i) as Hci. rewrite u32_max_spec in Hm.
  apply try_consume_at_cases in Ht as (Hmax & Hs & Ho & Hcase); [|done|rewrite pow_2_32; lia|done].
  rewrite sat_add32_spec, u32_max_spec in Hcase.
  assert (Hboth : poisoned l' = false /\
    ((counted l e i + n <= max_per_epoch l /\ r = Ok tt
       /\ counted l' e i = counted l e i + n)
      \/ (max_per_epoch l < counted l e i + n /\ r = Err RLExceeded
          /\ counted l' e i = counted l e i))).
  { destruct Hcase as [(? & ? & ? & ?)|[(? & ? & ? & ? & ?)|(? & ? & _)]]; [..|lia].
    - split; [done|]. right. split_and!; [lia|done..].
    - split; [done|]. left. by split_and!. }
  destruct Hboth as [Hp' Hr]. split_and!; [|done..].
  split; [done|rewrite u32_max_spec; lia|]. intros e' j. rewrite Hmax.
  destruct (decide ((e', j) = (e, i))) as [[= -> ->]|Hne].
  - lia.
  - by rewrite Ho.
Qed.

#[export] Program Instance InMemoryRateLimiter_laws : RateLimiterLaws InMemoryRateLimiter := {|
  limiter_ok := memory_ok;
  quota := max_per_epoch;
  epoch_at := current_epoch;
  used := counted;
|}.
Next Obligation.
  intros l clock i n r l' Hok Hn Ht.
  apply memory_step in Ht as (Hok' & Hmax & Hs & Ho & Hcase); [|done..].
  split_and!; [done..| | |].
  - unfold current_epoch. by rewrite Hs.
  - intros e j. destruct (decide ((e, j) = (current_epoch l clock, i))) as [[= -> ->]|Hne].
    + destruct Hcase as [(_ & _ & ->)|(_ & _ & ->)]; lia.
    + by rewrite Ho.
  - intros ->. destruct Hcase as [(? & _ & ->)|(_ & ? & _)]; [lia|done].
Qed.

Lemma prune_before_counted k l l' e i :
  poisoned l = false -> prune_before k l = (Ok tt, l') ->
  counted l' e i = if k <=? e then counted l e i else 0.
Proof.
  unfold prune_before. intros ->. intros [= <-]. unfold counted. cbn.
  destruct (N.leb_spec k e) as [Hk|Hk].
  - f_equal. apply option_eq. intros v. rewrite map_lookup_filter_Some. naive_solver.
  - rewrite map_lookup_filter_None_2; [done|]. right. intros v _ ?. lia.
Qed.

End memory_laws.

(** ** Properties *)

(** C23: the in-memory limiter below the largest quota: a request is granted and
    counted exactly when it fits what is left in its epoch, and is otherwise
    refused with nothing counted; every other identity and epoch is left alone,
    and the limiter never panics. *)
Theorem memory_limiter_spec `{BuildProfile} clock i n l r l' :
  memory_ok l -> n < 2 ^ 32 -> try_consume clock i n l = (r, l') ->
  let e := current_epoch l clock in
  memory_ok l' /\ (forall e' j, (e', j) <> (e, i) -> counted l' e' j = counted l e' j)
  /\ if counted l e i + n <=? max_per_epoch l
     then r = Ok tt /\ counted l' e i = counted l e i + n
     else r = Err RLExceeded /\ counted l' e i = counted l e i.
Proof.
  intros Hok Hn Ht. cbv zeta. apply memory_step in Ht as (Hok' & _ & _ & Ho & Hc); [|done..].
  split; [done|]. split; [done|].
  destruct (N.leb_spec (counted l (current_epoch l clock) i + n) (max_per_epoch l)),
    Hc as [(? & ? & ?)|(? & ? & ?)]; done || lia.
Qed.

(** At the largest quota the check saturates and the count does not: once
    the identity has used [u32::MAX], one more permit is granted and the count
    wraps to zero in a release build; a build with overflow checks panics while
    it holds the lock, and every later request panics on the poisoned mutex. *)
Theorem limiter_wraps_at_max `{BuildProfile} clock i l r l' :
  poisoned l = false -> max_per_epoch l = u32_max ->
  counted l (current_epoch l clock) i = u32_max ->
  try_consume clock i 1 l = (r, l') ->
  if overflow_checks
  then r = Panic /\ forall clock' j n, exists l'', try_consume clock' j n l' = (Panic, l'')
  else r = Ok tt /\ counted l' (current_epoch l clock) i = 0.
Proof.
  intros Hp Hm Hc Ht. rewrite u32_max_spec in Hm, Hc.
  apply try_consume_at_cases in Ht as (_ & _ & _ & Hcase); [|done|rewrite Hc; done|done].
  rewrite Hc, Hm, sat_add32_spec in Hcase.
  destruct Hcase as [(Hlt & _)|[(Hle & _)|(_ & _ & Hcase)]]; [by vm_compute in Hlt|by vm_compute in Hle|].
  destruct Hcase as [(-> & -> & Hpo & _)|(-> & -> & _ & Hw)].
  - split; [done|]. intros clock' j n. exists l'. unfold try_consume, InMemoryRateLimiter_limiter,
      try_consume_at. by rewrite Hpo.
  - split; [done|]. by rewrite Hw.
Qed.
