(* ===== verification/Spend.v ===== *)
(** * Double-spend protection: core/src/spend.rs

[SpentStore] is the trait and [SpentStoreLaws] what an origin relies on: a
nonce is accepted only when it was not marked, and stays marked.
[InMemorySpentStore] discharges it. *)

From S2P Require Import Prelude RustStr.

Inductive SpendError :=
| SEDoubleSpend
| SEBackend (msg : str).

Definition SpendError_display (e : SpendError) : str :=
  match e with
  | SEDoubleSpend => B "token already spent (double-spend)"
  | SEBackend m => B "spend backend unavailable: " ++ m
  end.

#[export] Instance SpendError_eq_dec : EqDecision SpendError.
Proof. solve_decision. Defined.

Class SpentStore (S : Type) := check_and_mark : N -> bytes -> run S SpendError unit.

(** ** [InMemorySpentStore] *)

(** The set behind the mutex.  Nothing panics while holding it, so the mutex is
    never poisoned. *)
Record InMemorySpentStore := { seen : gset (N * bytes) }.

Definition InMemorySpentStore_new : InMemorySpentStore := {| seen := ∅ |}.

Definition prune_epochs_before (keep_from : N) : run InMemorySpentStore SpendError unit :=
  modify (fun s => {| seen := filter (fun '(epoch, _) => keep_from <= epoch) (seen s) |}).

Definition InMemorySpentStore_len (s : InMemorySpentStore) : N := N.of_nat (size (seen s)).
Definition InMemorySpentStore_is_empty (s : InMemorySpentStore) : bool :=
  InMemorySpentStore_len s =? 0.

#[export] Instance InMemorySpentStore_store : SpentStore InMemorySpentStore :=
  fun key_epoch nonce s =>
    if decide ((key_epoch, nonce) ∈ seen s) then (Err SEDoubleSpend, s)
    else (Ok tt, {| seen := {[ (key_epoch, nonce) ]} ∪ seen s |}).

(** ** What a store promises *)

(** [spent s k n] says that nonce [n] is marked under key epoch [k]; [store_ok]
    is what the store needs of its settings.  An error may leave the nonce marked (a reply can be lost), never another one. *)
Class SpentStoreLaws (S : Type) `{SpentStore S} := {
  store_ok : S -> Prop;
  spent : S -> N -> bytes -> Prop;
  check_and_mark_step s k n r s' :
    store_ok s -> check_and_mark k n s = (r, s') ->
    store_ok s'
    /\ (forall k' n', spent s k' n' -> spent s' k' n')
    /\ (forall k' n', spent s' k' n' -> spent s k' n' \/ (k', n') = (k, n))
    /\ (r = Ok tt -> ~ spent s k n /\ spent s' k n);
  (** It calls a double spend only what is one. *)
  check_and_mark_refused s k n s' :
    store_ok s -> check_and_mark k n s = (Err SEDoubleSpend, s') -> spent s k n;
}.

(** Redemptions in order, and the ones a history accepted. *)
Fixpoint mark_all {S} `{SpentStore S} (l : list (N * bytes)) (s : S) :
    list ((N * bytes) * result SpendError unit) * S :=
  match l with
  | [] => ([], s)
  | (k, n) :: l =>
      let '(r, s) := check_and_mark k n s in
      let '(rs, s) := mark_all l s in
      (((k, n), r) :: rs, s)
  end.

Definition accepted (h : list ((N * bytes) * result SpendError unit)) : list (N * bytes) :=
  (filter (fun x => x.2 = Ok tt) h).*1.

Lemma accepted_cons x r h :
  accepted ((x, r) :: h) = if decide (r = Ok tt) then x :: accepted h else accepted h.
Proof. unfold accepted. rewrite filter_cons. cbn [snd]. by case_decide. Qed.

Section laws.
Context {S : Type} `{SpentStoreLaws S}.

Lemma mark_all_spent l s h s' :
  store_ok s -> mark_all l s = (h, s') ->
  store_ok s' /\ NoDup (accepted h) /\ (forall k n, (k, n) ∈ accepted h -> ~ spent s k n)
  /\ (forall k n, spent s k n -> spent s' k n)
  /\ (forall k n, (k, n) ∈ accepted h -> spent s' k n).
Proof.
  revert s h s'. induction l as [|[k n] l IH]; intros s h s' Hs; cbn [mark_all].
  { intros [= <- <-]. split_and!; [done|constructor|set_solver|done|set_solver]. }
  destruct (check_and_mark k n s) as [r s1] eqn:Hc.
  destruct (mark_all l s1) as [rs s2] eqn:Hl. intros [= <- <-].
  destruct (check_and_mark_step _ _ _ _ _ Hs Hc) as (Hs1 & Hmono & _ & Hok).
  destruct (IH _ _ _ Hs1 Hl) as (Hs2 & Hd & Hfresh & Hmono2 & Hspent).
  rewrite accepted_cons. case_decide as Hr.
  - destruct (Hok Hr) as [Hn Hm]. split_and!; [done|..].
    + constructor; [|done]. intros Hin. by apply (Hfresh k n).
    + intros k' n' [[= -> ->]|Hin]%elem_of_cons; [done|]. intros Hk. by eapply Hfresh, Hmono.
    + auto.
    + intros k' n' [[= -> ->]|Hin]%elem_of_cons; auto.
  - split_and!; [done|done| |auto..].
    intros k' n' Hin Hk. by eapply Hfresh, Hmono.
Qed.

End laws.

(** ** The in-memory store *)

#[export] Program Instance InMemorySpentStore_laws : SpentStoreLaws InMemorySpentStore := {|
  store_ok _ := True;
  spent s k n := (k, n) ∈ seen s;
|}.
Next Obligation.
  intros s k n r s' _. unfold check_and_mark, InMemorySpentStore_store. split; [done|].
  revert H. case_decide; intros [= <- <-]; cbn; set_solver.
Qed.
Next Obligation.
  intros s k n s' _. unfold check_and_mark, InMemorySpentStore_store. by case_decide.
Qed.

Lemma check_and_mark_memory k n s :
  check_and_mark k n s
  = if decide ((k, n) ∈ seen s) then (Err SEDoubleSpend, s)
    else (Ok tt, {| seen := {[ (k, n) ]} ∪ seen s |}).
Proof. done. Qed.

Lemma prune_epochs_seen k s r s' e n :
  prune_epochs_before k s = (r, s') -> (e, n) ∈ seen s' <-> (e, n) ∈ seen s /\ k <= e.
Proof. unfold prune_epochs_before, modify. intros [= <- <-]. cbn. set_solver. Qed.
