(* ===== verification/Gate.v ===== *)
(** * The attestation gate: core/src/gate.rs and core/src/faest_sig.rs

Measurements and the anonymity-set class, the interface of an attestation
verifier and the wrapper that adds a class to it, the dev-sim attester, and
issuance behind the gate. *)

From S2P Require Import Prelude RustStr Externals Pomfrit Core RateLimit.

(** ** faest_sig.rs *)

Definition FAEST_PK_LEN : nat := 32.

Section faest_sig.
Context `{Faest, Hex}.

Definition signing_key_from_seed (seed : bytes) : result Error faest_sk :=
  Ok (faest_generate seed).

Definition verifying_key_from_bytes (b : bytes) : result Error faest_vk :=
  map_err (fun e => ErrFaest (B "verifying key: " ++ e)) (of_sum (faest_vk_try_from b)).

Definition verifying_key_from_hex (hex_str : str) : result Error faest_vk :=
  b ← map_err (fun e => ErrFaest (B "pub hex: " ++ e)) (of_sum (hex_decode (trim hex_str)));
  arr ← ok_or (array32 b) (ErrFaest (B "pub key must be 32 bytes (64 hex chars)"));
  verifying_key_from_bytes arr.

Definition faest_sig_sign (sk : faest_sk) (msg : bytes) : bytes :=
  faest_sig_to_bytes (faest_sign sk msg).

Definition public_bytes (vk : faest_vk) : bytes := faest_vk_to_bytes vk.

Definition public_bytes_from_sk (sk : faest_sk) : bytes := public_bytes (faest_verifying_key sk).

Definition faest_sig_verify (vk : faest_vk) (msg sig : bytes) : result Error unit :=
  sig ← map_err (fun e => ErrFaest (B "signature decode: " ++ e)) (of_sum (faest_sig_try_from sig));
  map_err (fun e => ErrFaest (B "signature verify: " ++ e)) (of_sum (faest_verify vk msg sig)).

Lemma faest_sig_verify_sign `{!FaestLaws} sk m :
  faest_sig_verify (faest_verifying_key sk) m (faest_sig_sign sk m) = Ok tt.
Proof.
  unfold faest_sig_verify, faest_sig_sign. rewrite faest_sig_roundtrip. cbn.
  by rewrite faest_sign_verify.
Qed.

(** An accepted signature is one the scheme accepts. *)
Lemma faest_sig_verify_Ok vk m s :
  faest_sig_verify vk m s = Ok tt <->
  exists sig, faest_sig_try_from s = inr sig /\ faest_verify vk m sig = inr tt.
Proof.
  unfold faest_sig_verify. destruct (faest_sig_try_from s) as [e|sig]; cbn; [naive_solver|].
  destruct (faest_verify vk m sig) as [e|[]] eqn:Hv; cbn; split; try done.
  - intros (? & [= <-] & ?). congruence.
  - intros _. by exists sig.
Qed.

Lemma faest_sig_verify_no_panic vk m s : faest_sig_verify vk m s <> Panic.
Proof.
  unfold faest_sig_verify. destruct (faest_sig_try_from s); cbn; [done|].
  by destruct (faest_verify vk m _).
Qed.

Lemma verifying_key_from_hex_encode `{!FaestLaws, !HexLaws} sk :
  verifying_key_from_hex (hex_encode (public_bytes_from_sk sk)) = Ok (faest_verifying_key sk).
Proof.
  unfold verifying_key_from_hex, public_bytes_from_sk, public_bytes.
  rewrite trim_hex_encode, hex_decode_encode. cbn [of_sum map_err mbind result_bind].
  rewrite array32_id by apply faest_vk_length. cbn [ok_or mbind result_bind].
  unfold verifying_key_from_bytes. by rewrite faest_vk_roundtrip.
Qed.

End faest_sig.

(** ** Measurements *)

Record Measurement := {
  platform : str;
  value_x : bytes;
  ima_verified : bool;
}.

#[export] Instance Measurement_eq_dec : EqDecision Measurement.
Proof. solve_decision. Defined.

Definition Measurement_new (p : str) (v : bytes) : Measurement :=
  {| platform := p; value_x := v; ima_verified := false |}.

Definition with_ima_verified (m : Measurement) (ima : bool) : Measurement :=
  {| platform := platform m; value_x := value_x m; ima_verified := ima |}.

(** The message [rate_limit_id] hashes. *)
Definition rate_limit_message (m : Measurement) : bytes :=
  B "eat-pass/v0/ratelimit-id" ++ [x00] ++ platform m ++ [x00] ++ value_x m.

Definition rate_limit_id `{Sha256} (m : Measurement) : bytes := sha256 (rate_limit_message m).

Record MeasurementClass := {
  class_name : str;
  class_version : N;
  class_accepted : gset bytes;
}.

Definition MeasurementClass_new (name : str) (version : N) (l : list bytes) : MeasurementClass :=
  {| class_name := name; class_version := version; class_accepted := list_to_set l |}.

Definition class_contains (c : MeasurementClass) (v : bytes) : bool :=
  bool_decide (v ∈ class_accepted c).

Definition policy_label (c : MeasurementClass) : str :=
  class_name c ++ B "@v" ++ display_N (class_version c).

Definition class_len (c : MeasurementClass) : N := N.of_nat (size (class_accepted c)).
Definition class_is_empty (c : MeasurementClass) : bool := class_len c =? 0.

Inductive GateError :=
| GAttestationInvalid (msg : str)
| GMeasurementNotAllowed
| GBindingMismatch
| GQuotaExceeded
| GUnknown (msg : str).

#[export] Instance GateError_eq_dec : EqDecision GateError.
Proof. solve_decision. Defined.

Definition GateError_display (e : GateError) : str :=
  match e with
  | GAttestationInvalid m => B "attestation invalid: " ++ m
  | GMeasurementNotAllowed => B "measurement not allowed"
  | GBindingMismatch => B "channel binding mismatch"
  | GQuotaExceeded => B "quota exceeded"
  | GUnknown m => B "unknown: " ++ m
  end.

(** ** Attestation verifiers *)

(** The trait; a verifier may read the clock, which is an argument. *)
Class AttestationVerifier `{Chrono} (V : Type) :=
  verify_eat : V -> DateTime -> bytes -> bytes -> result GateError Measurement.

(** What an issuer relies on: an attestation commits to one binding. *)
Class BindingCommits (V : Type) `{AttestationVerifier V} : Prop :=
  binding_commits v now now' eat b b' m m' :
    verify_eat v now eat b = Ok m -> verify_eat v now' eat b' = Ok m' -> b = b'.

Record ClassGated (V : Type) := { cg_inner : V; cg_class : MeasurementClass }.
Arguments cg_inner {V}.
Arguments cg_class {V}.

#[export] Instance ClassGated_verifier `{AttestationVerifier V} :
  AttestationVerifier (ClassGated V) := fun v now eat b =>
  m ← verify_eat (cg_inner v) now eat b;
  if class_contains (cg_class v) (value_x m) then Ok m else Err GMeasurementNotAllowed.

#[export] Instance ClassGated_commits `{BindingCommits V} : BindingCommits (ClassGated V).
Proof.
  intros v now now' eat b b' m m' (x & Hx & _)%bind_Ok (y & Hy & _)%bind_Ok.
  by eapply binding_commits.
Qed.

(** ** The dev-sim attester *)

Definition DEV_EAT_DOMAIN : bytes := B "eat-pass/v0/dev-eat" ++ [x00].

Definition dev_signed_bytes (m : Measurement) (b : bytes) : bytes :=
  DEV_EAT_DOMAIN ++ platform m ++ [x00] ++ value_x m ++ [x00] ++ b.

Record DevEat := {
  dev_platform : str;
  dev_value_x : bytes;
  dev_binding : bytes;
  dev_sig : bytes;
}.

#[export] Instance DevEat_eq_dec : EqDecision DevEat.
Proof. solve_decision. Defined.

Section dev.
Context `{Ed25519, Rng, Chrono, Json DevEat}.

Record DevAttester := { dev_sk : ed_sk }.

Definition DevAttester_from_seed (seed : bytes) : DevAttester :=
  {| dev_sk := ed_sk_from_bytes seed |}.

Definition DevAttester_generate : run rng GateError DevAttester := fun g =>
  let '(r, g) := getrandom32 g in
  (DevAttester_from_seed <$> map_err GUnknown (of_sum r), g).

Definition DevAttester_verifying_key (a : DevAttester) : bytes :=
  ed_vk_to_bytes (ed_verifying_key (dev_sk a)).

Definition DevAttester_attest (a : DevAttester) (m : Measurement) (b : bytes) :
    result GateError bytes :=
  expect (of_sum (json_to_vec
    {| dev_platform := platform m; dev_value_x := value_x m; dev_binding := b;
       dev_sig := ed_sign (dev_sk a) (dev_signed_bytes m b) |})).

Record DevVerifier := { dev_vk : ed_vk; dev_class : MeasurementClass }.

Definition DevVerifier_new_for_class (key : bytes) (class : MeasurementClass) :
    result GateError DevVerifier :=
  vk ← map_err GAttestationInvalid (of_sum (ed_vk_from_bytes key));
  Ok {| dev_vk := vk; dev_class := class |}.

Definition DevVerifier_new (key : bytes) (allow : list bytes) : result GateError DevVerifier :=
  DevVerifier_new_for_class key (MeasurementClass_new (B "default") 1 allow).

Definition DevVerifier_verify (v : DevVerifier) (now : DateTime) (eat expected : bytes) :
    result GateError Measurement :=
  e ← map_err (fun e => GAttestationInvalid (B "parse: " ++ e)) (of_sum (json_from_slice eat));
  let m := {| platform := dev_platform e; value_x := dev_value_x e; ima_verified := false |} in
  if decide (length (dev_sig e) <> 64%nat) then
    Err (GAttestationInvalid (B "signature length"))
  else
    _ ← map_err (fun e => GAttestationInvalid (B "signature: " ++ e))
          (of_sum (ed_verify (dev_vk v) (dev_signed_bytes m (dev_binding e)) (dev_sig e)));
    if decide (dev_binding e <> expected) then Err GBindingMismatch
    else if class_contains (dev_class v) (value_x m) then Ok m
    else Err GMeasurementNotAllowed.

#[export] Instance DevVerifier_verifier : AttestationVerifier DevVerifier := DevVerifier_verify.

Lemma DevVerifier_verify_Ok v now eat b m :
  DevVerifier_verify v now eat b = Ok m <->
  exists s, json_from_slice eat = inr (Build_DevEat (platform m) (value_x m) b s)
    /\ ima_verified m = false /\ length s = 64%nat
    /\ ed_verify (dev_vk v) (dev_signed_bytes m b) s = inr tt
    /\ value_x m ∈ class_accepted (dev_class v).
Proof.
  unfold DevVerifier_verify, class_contains.
  destruct (json_from_slice eat) as [e|[p x b' s]]; cbn [of_sum map_err mbind result_bind];
    [naive_solver|]. cbn [dev_platform dev_value_x dev_binding dev_sig value_x].
  assert (Hs : forall m', dev_signed_bytes m' = dev_signed_bytes
    {| platform := platform m'; value_x := value_x m'; ima_verified := false |}) by done.
  case_decide as Hl; [naive_solver|].
  destruct (ed_verify _ _ s) as [er|[]] eqn:Hv; cbn [of_sum map_err mbind result_bind].
  { split; [done|]. intros (s' & [= -> -> -> ->] & _ & _ & Hv' & _).
    rewrite Hs in Hv'. congruence. }
  case_decide as Hb; [naive_solver|]. subst b'.
  case_bool_decide as Hc; split.
  - intros [= <-]. exists s. by split_and!.
  - intros (s' & [= -> -> ->] & Hi & _). destruct m; cbn in *; by subst.
  - done.
  - intros (s' & [= -> -> ->] & _ & _ & _ & ?). done.
Qed.

#[export] Instance DevVerifier_commits : BindingCommits DevVerifier.
Proof.
  intros v now now' eat b b' m m' (s & Hs & _)%DevVerifier_verify_Ok
    (s' & Hs' & _)%DevVerifier_verify_Ok. congruence.
Qed.

Lemma dev_attest_verify `{!Ed25519Laws} seed m b eat class v now :
  (forall e s, json_to_vec e = inr s -> json_from_slice s = inr e) ->
  ima_verified m = false ->
  DevAttester_attest (DevAttester_from_seed seed) m b = Ok eat ->
  DevVerifier_new_for_class (DevAttester_verifying_key (DevAttester_from_seed seed)) class
    = Ok v ->
  value_x m ∈ class_accepted class ->
  DevVerifier_verify v now eat b = Ok m.
Proof.
  intros Hj Hi Ha Hv Hc. unfold DevVerifier_new_for_class, DevAttester_verifying_key in Hv.
  rewrite ed_vk_roundtrip in Hv. injection Hv as <-.
  unfold DevAttester_attest in Ha.
  destruct (json_to_vec _) as [|s] eqn:Hs; [done|]. injection Ha as <-.
  apply DevVerifier_verify_Ok. apply Hj in Hs. eexists. split_and!; [exact Hs|done|..|done].
  - apply ed_sig_length.
  - apply ed_sign_verify.
Qed.

End dev.

(** ** Issuance behind the gate *)

(** The error a limiter's refusal becomes. *)
Definition limit_error (e : RateLimitError) : GateError :=
  match e with
  | RLExceeded => GQuotaExceeded
  | RLBackend m => GUnknown (B "rate-limit backend: " ++ m)
  end.

Section issue.
Context `{Sha256, BlindSig, Chrono}.

Definition issue_gated {V} `{!AttestationVerifier V} (issuer : Issuer) (verifier : V)
    (now : DateTime) (req : SignRequest) (eat : bytes) : run rng GateError SignResponse :=
  let b := binding_of (blinded (req_body req)) in
  if decide (b <> SignRequest_binding req) then throw GBindingMismatch
  else
    _ ← lift (verify_eat verifier now eat b);
    on id (fun g _ => g) (fun e => GUnknown (Error_display e)) (Issuer_blind_sign issuer req).

Definition issue_gated_with_limit {V} `{!AttestationVerifier V, RateLimiter R} (issuer : Issuer)
    (verifier : V) (now : DateTime) (clock : option N) (req : SignRequest) (eat : bytes) :
    run (R * rng) GateError SignResponse :=
  let b := binding_of (blinded (req_body req)) in
  if decide (b <> SignRequest_binding req) then throw GBindingMismatch
  else
    m ← lift (verify_eat verifier now eat b);
    _ ← on_fst limit_error
          (try_consume clock (rate_limit_id m) (wrap 32 (len (blinded (req_body req)))));
    on_snd (fun e => GUnknown (Error_display e)) (Issuer_blind_sign issuer req).

End issue.

(** ** Lemmas *)

(** A label determines the class it names: the version is the digits after the
    last [@v]. *)
Lemma app_at_inj (a a' v v' : str) :
  x40 ∉ v -> x40 ∉ v' -> a ++ x40 :: v = a' ++ x40 :: v' -> a = a' /\ v = v'.
Proof.
  revert a'. induction a as [|x a IH]; intros [|y a'] Hv Hv' Heq; simplify_eq/=; [done|..].
  - exfalso. apply Hv. set_solver.
  - exfalso. apply Hv'. set_solver.
  - destruct (IH a') as [-> ->]; done.
Qed.

Lemma policy_label_inj c c' :
  policy_label c = policy_label c' ->
  class_name c = class_name c' /\ class_version c = class_version c'.
Proof.
  unfold policy_label. change (B "@v" ++ ?l) with (x40 :: x76 :: l). intros Heq.
  assert (Hd : forall n, x40 ∉ x76 :: display_N n).
  { intros n. apply not_elem_of_cons. split; [done|].
    eapply not_in_class; [apply display_N_digits|done]. }
  apply app_at_inj in Heq as [-> [= Hv]]; [|apply Hd..]. split; [done|]. by apply display_N_inj.
Qed.

(** The two messages the gate signs and hashes name one measurement, where the
    platform is a C string. *)
Lemma nul_terminated_inj (a a' v v' : bytes) :
  x00 ∉ a -> x00 ∉ a' -> a ++ x00 :: v = a' ++ x00 :: v' -> a = a' /\ v = v'.
Proof.
  revert a'. induction a as [|x a IH]; intros [|y a'] Ha Ha' Heq; simplify_eq/=; [done|..].
  - exfalso. apply Ha'. set_solver.
  - exfalso. apply Ha. set_solver.
  - destruct (IH a') as [-> ->]; set_solver.
Qed.

(** What a quota is counted against is the measured identity: the
    message hashed into the limiter's key determines the platform and the
    measured value, for platforms without a NUL byte (every verifier's are). *)
Theorem rate_limit_message_inj m m' :
  x00 ∉ platform m -> x00 ∉ platform m' ->
  rate_limit_message m = rate_limit_message m' ->
  platform m = platform m' /\ value_x m = value_x m'.
Proof.
  unfold rate_limit_message. intros Hm Hm' Heq%app_inv_head%app_inv_head.
  by apply nul_terminated_inj in Heq.
Qed.

Section facts.
Context `{Sha256, BlindSig, Chrono}.

Lemma ClassGated_Ok {V} `{!AttestationVerifier V} (v : ClassGated V) now eat b m :
  verify_eat v now eat b = Ok m <->
  verify_eat (cg_inner v) now eat b = Ok m /\ value_x m ∈ class_accepted (cg_class v).
Proof.
  unfold verify_eat at 1, ClassGated_verifier. rewrite bind_Ok. unfold class_contains.
  split.
  - intros (x & Hx & Hc). case_bool_decide; naive_solver.
  - intros [Hm Hc]. exists m. by rewrite bool_decide_true.
Qed.

Lemma on_snd_sign_Ok {S} issuer req (s : S) g resp s' :
  on_snd (fun e => GUnknown (Error_display e)) (Issuer_blind_sign issuer req) (s, g)
    = (Ok resp, s') <->
  req_key_version req = issuer_key_version issuer /\ s'.1 = s
  /\ issuer_sign (issuer_sk issuer) (req_body req) g = (resp, s'.2).
Proof.
  destruct s' as [s1 g1']. rewrite on_Ok. unfold Issuer_blind_sign. cbn [fst snd].
  case_decide as Hk.
  - split; [|naive_solver]. by intros (? & [= ] & _).
  - destruct (issuer_sign _ _ g) as [[l] g1]. cbn. split.
    + by intros (? & [= <- <-] & [= -> ->]).
    + intros (_ & -> & [= <- <-]). by exists g1.
Qed.

Lemma issue_gated_with_limit_Ok {V} `{!AttestationVerifier V, RateLimiter R} issuer (v : V)
    now clock req eat (l : R) g resp l' g' :
  issue_gated_with_limit issuer v now clock req eat (l, g) = (Ok resp, (l', g')) <->
  binding (req_body req) = binding_of (blinded (req_body req))
  /\ req_key_version req = issuer_key_version issuer
  /\ (exists m, verify_eat v now eat (binding (req_body req)) = Ok m
      /\ try_consume clock (rate_limit_id m) (wrap 32 (len (blinded (req_body req)))) l
         = (Ok tt, l'))
  /\ issuer_sign (issuer_sk issuer) (req_body req) g = (resp, g').
Proof.
  unfold issue_gated_with_limit, SignRequest_binding. case_decide as Hb.
  { split; [done|]. intros (? & _). congruence. }
  rewrite <- Hb. rewrite run_bind_Ok. setoid_rewrite lift_Ok. split.
  - intros (m & s1 & [Hm ->] & Hr). apply run_bind_Ok in Hr as ([] & s2 & Hc & Hs).
    apply on_Ok in Hc as (t & Hc & ->). apply on_snd_sign_Ok in Hs as (Hk & Hl & Hs).
    cbn [fst snd] in *. subst t. split_and!; eauto.
  - intros (_ & Hk & (m & Hm & Hc) & Hs). exists m, (l, g). split; [done|].
    apply run_bind_Ok. exists tt, (l', g). split; [apply on_Ok; by exists l'|].
    by apply on_snd_sign_Ok.
Qed.

Lemma issue_gated_Ok {V} `{!AttestationVerifier V} issuer (v : V) now req eat g resp g' :
  issue_gated issuer v now req eat g = (Ok resp, g') <->
  binding (req_body req) = binding_of (blinded (req_body req))
  /\ req_key_version req = issuer_key_version issuer
  /\ (exists m, verify_eat v now eat (binding (req_body req)) = Ok m)
  /\ issuer_sign (issuer_sk issuer) (req_body req) g = (resp, g').
Proof.
  unfold issue_gated, SignRequest_binding. case_decide as Hb.
  { split; [done|]. intros (? & _). congruence. }
  rewrite <- Hb. rewrite run_bind_Ok. setoid_rewrite lift_Ok.
  unfold on, Issuer_blind_sign. split.
  - intros (m & s1 & [Hm ->] & Hr). unfold id in Hr. case_decide as Hk; [done|].
    destruct (issuer_sign _ _ g) as [[l] g1]. injection Hr as <- <-.
    split_and!; eauto.
  - intros (_ & Hk & [m Hm] & Hs). exists m, g. split; [done|]. unfold id.
    rewrite decide_False by naive_solver. rewrite Hs. by destruct resp.
Qed.

(** An attestation is worth one batch: evidence a verifier accepted
    for the bindings of two batches was for the same blinded messages, or the two
    bindings are a SHA-256 collision. *)
Theorem gate_replay {V} `{!AttestationVerifier V, !BindingCommits V} (v : V) now now' eat req req' m m' :
  binding_fits (blinded (req_body req)) -> binding_fits (blinded (req_body req')) ->
  verify_eat v now eat (binding_of (blinded (req_body req))) = Ok m ->
  verify_eat v now' eat (binding_of (blinded (req_body req'))) = Ok m' ->
  blinded (req_body req) = blinded (req_body req')
  \/ collides [binding_message (blinded (req_body req))]
              [binding_message (blinded (req_body req'))].
Proof.
  intros Hf Hf' Hv Hv'. apply binding_of_inj; [done..|]. by eapply binding_commits.
Qed.

End facts.
