(* ===== verification/Authorize.v ===== *)
(** * The split between attester and issuer: core/src/authorize.rs

Short-lived signed authorizations: their signed bytes and verification, the
attester's [Authorizer], and the issuer's [issue_authorized_with_limit]. *)

From S2P Require Import Prelude RustStr Externals Pomfrit Core RateLimit Gate.

Definition AUTHORIZATION_VERSION : N := 1.
Definition DEFAULT_AUTHORIZATION_TTL_SECS : N := 60.
Definition AUTH_DOMAIN : bytes := B "eat-pass/issuance-auth" ++ [x00].

Record IssuanceAuthorization := {
  auth_version : N;
  auth_binding : bytes;
  auth_rate_limit_id : bytes;
  auth_policy_label : str;
  auth_max_batch : N;
  auth_exp : N;
  auth_iat : N;
  auth_sig : bytes;
}.

#[export] Instance IssuanceAuthorization_eq_dec : EqDecision IssuanceAuthorization.
Proof. solve_decision. Defined.

(** The ranges of the fields, and the lengths the signed bytes can hold. *)
Record wf_auth (a : IssuanceAuthorization) : Prop := {
  wf_auth_version : auth_version a < 2 ^ 32;
  wf_auth_binding : length (auth_binding a) = 32%nat;
  wf_auth_id : len (auth_rate_limit_id a) < 2 ^ 32;
  wf_auth_label : len (auth_policy_label a) < 2 ^ 32;
  wf_auth_batch : auth_max_batch a < 2 ^ 32;
  wf_auth_exp : auth_exp a < 2 ^ 64;
  wf_auth_iat : auth_iat a < 2 ^ 64;
}.

Definition signed_bytes (a : IssuanceAuthorization) : bytes :=
  AUTH_DOMAIN ++ le_bytes 4 (auth_version a) ++ auth_binding a
  ++ le_bytes 4 (wrap 32 (len (auth_rate_limit_id a))) ++ auth_rate_limit_id a
  ++ le_bytes 4 (wrap 32 (len (auth_policy_label a))) ++ auth_policy_label a
  ++ le_bytes 4 (auth_max_batch a) ++ le_bytes 8 (auth_exp a) ++ le_bytes 8 (auth_iat a).

Definition set_sig (a : IssuanceAuthorization) (s : bytes) : IssuanceAuthorization :=
  {| auth_version := auth_version a; auth_binding := auth_binding a;
     auth_rate_limit_id := auth_rate_limit_id a; auth_policy_label := auth_policy_label a;
     auth_max_batch := auth_max_batch a; auth_exp := auth_exp a; auth_iat := auth_iat a;
     auth_sig := s |}.

Section operations.
Context `{Sha256, Hex, Faest, Chrono}.

Definition IssuanceAuthorization_verify (a : IssuanceAuthorization) (attester_pub : faest_vk)
    (now : N) : result GateError unit :=
  if decide (auth_version a <> AUTHORIZATION_VERSION) then
    Err (GAttestationInvalid (B "authorization version " ++ display_N (auth_version a)
      ++ B " unsupported (want " ++ display_N AUTHORIZATION_VERSION ++ B ")"))
  else if auth_max_batch a =? 0 then
    Err (GAttestationInvalid (B "authorization max_batch must be non-zero"))
  else if auth_exp a <? now then Err (GAttestationInvalid (B "authorization expired"))
  else
    _ ← map_err (fun e => GAttestationInvalid (B "authorization sig: " ++ Error_display e))
          (faest_sig_verify attester_pub (signed_bytes a) (auth_sig a));
    Ok tt.

Record Authorizer (V : Type) := {
  az_signer : faest_sk;
  az_verifier : V;
  az_ttl_secs : N;
  az_policy_label : str;
}.
Arguments az_signer {V}.
Arguments az_verifier {V}.
Arguments az_ttl_secs {V}.
Arguments az_policy_label {V}.

Definition Authorizer_new {V} (seed : bytes) (verifier : V) (label : str) (ttl : N) :
    result GateError (Authorizer V) :=
  sk ← expect (signing_key_from_seed seed);
  Ok {| az_signer := sk; az_verifier := verifier; az_ttl_secs := ttl;
        az_policy_label := label |}.

Definition Authorizer_verifying_key {V} (z : Authorizer V) : bytes :=
  public_bytes_from_sk (az_signer z).

Definition sign_authorization {V} (z : Authorizer V) (m : Measurement) (b : bytes)
    (max_batch now : N) : result GateError IssuanceAuthorization :=
  if max_batch =? 0 then Err (GAttestationInvalid (B "max_batch must be non-zero"))
  else
    let a := {| auth_version := AUTHORIZATION_VERSION; auth_binding := b;
                auth_rate_limit_id := rate_limit_id m;
                auth_policy_label := az_policy_label z; auth_max_batch := max_batch;
                auth_exp := sat_add64 now (az_ttl_secs z); auth_iat := now;
                auth_sig := [] |} in
    Ok (set_sig a (faest_sig_sign (az_signer z) (signed_bytes a))).

Definition authorize {V} `{!AttestationVerifier V} (z : Authorizer V) (clock : DateTime)
    (eat b : bytes) (max_batch now : N) : result GateError IssuanceAuthorization :=
  if max_batch =? 0 then Err (GAttestationInvalid (B "max_batch must be non-zero"))
  else
    m ← verify_eat (az_verifier z) clock eat b;
    sign_authorization z m b max_batch now.

Definition attester_pubkey_from_hex (hex_str : str) : result GateError faest_vk :=
  map_err (fun e => GAttestationInvalid (Error_display e)) (verifying_key_from_hex hex_str).

Definition issue_authorized_with_limit `{BlindSig, RateLimiter R} (issuer : Issuer)
    (attester_pub : faest_vk) (req : SignRequest) (a : IssuanceAuthorization)
    (now : N) (clock : option N) : run (R * rng) GateError SignResponse :=
  _ ← lift (IssuanceAuthorization_verify a attester_pub now);
  let b := binding_of (blinded (req_body req)) in
  if decide (b <> SignRequest_binding req) then throw GBindingMismatch
  else if decide (b <> auth_binding a) then throw GBindingMismatch
  else
    let batch := wrap 32 (len (blinded (req_body req))) in
    if auth_max_batch a <? batch then
      throw (GAttestationInvalid (B "batch size " ++ display_N batch
        ++ B " exceeds authorization max_batch " ++ display_N (auth_max_batch a)))
    else
      _ ← on_fst limit_error (try_consume clock (auth_rate_limit_id a) batch);
      on_snd (fun e => GUnknown (Error_display e)) (Issuer_blind_sign issuer req).

End operations.
Arguments az_signer {_ _}.
Arguments az_verifier {_ _}.
Arguments az_ttl_secs {_ _}.
Arguments az_policy_label {_ _}.

(** [dev::from_seed]: a matched dev attester and authorizer. *)
Definition dev_from_seed `{Faest, Ed25519} (seed : bytes) (allow : list bytes) :
    result GateError (DevAttester * Authorizer DevVerifier) :=
  let attester := DevAttester_from_seed seed in
  let class := MeasurementClass_new (B "default") 1 allow in
  verifier ← DevVerifier_new_for_class (DevAttester_verifying_key attester) class;
  z ← Authorizer_new seed verifier (B "default@v1") DEFAULT_AUTHORIZATION_TTL_SECS;
  Ok (attester, z).

(** ** The signed bytes *)

Lemma le_field_inj w n n' (k k' : bytes) :
  n < 2 ^ (8 * N.of_nat w) -> n' < 2 ^ (8 * N.of_nat w) ->
  le_bytes w n ++ k = le_bytes w n' ++ k' -> n = n' /\ k = k'.
Proof.
  intros Hn Hn' Heq. apply app_inj_len in Heq as [Hb Hk]; [|by rewrite !length_le_bytes].
  by apply le_bytes_inj in Hb.
Qed.

(** A field written after its 32-bit length. *)
Lemma le_prefixed_inj (l l' k k' : bytes) :
  len l < 2 ^ 32 -> len l' < 2 ^ 32 ->
  le_bytes 4 (wrap 32 (len l)) ++ l ++ k = le_bytes 4 (wrap 32 (len l')) ++ l' ++ k' ->
  l = l' /\ k = k'.
Proof.
  intros Hl Hl' Heq. rewrite !wrap_small in Heq by done.
  apply le_field_inj in Heq as [Hn Heq]; [|done..].
  apply app_inj_len in Heq; [done|]. unfold len in Hn. lia.
Qed.

(** C17: the attester's signature covers every field: two authorizations
    whose fields have their machine widths and the same signed bytes differ at
    most in their signatures. *)
Theorem signed_bytes_inj a a' :
  wf_auth a -> wf_auth a' -> signed_bytes a = signed_bytes a' ->
  a' = set_sig a (auth_sig a').
Proof.
  intros [] [] Heq. unfold signed_bytes in Heq. apply app_inv_head in Heq.
  apply le_field_inj in Heq as [E1 Heq]; [|done..].
  apply app_inj_len in Heq as [E2 Heq]; [|congruence].
  apply le_prefixed_inj in Heq as [E3 Heq]; [|done..].
  apply le_prefixed_inj in Heq as [E4 Heq]; [|done..].
  apply le_field_inj in Heq as [E5 Heq]; [|done..].
  apply le_field_inj in Heq as [E6 Heq]; [|done..].
  rewrite <- (app_nil_r (le_bytes 8 (auth_iat a))), <- (app_nil_r (le_bytes 8 (auth_iat a')))
    in Heq.
  apply le_field_inj in Heq as [E7 _]; [|done..].
  destruct a, a'; cbn in *. by subst.
Qed.

(** ** Operations *)

Section facts.
Context `{Sha256, Hex, Faest, Chrono}.

Lemma IssuanceAuthorization_verify_Ok a vk now :
  IssuanceAuthorization_verify a vk now = Ok tt <->
  auth_version a = AUTHORIZATION_VERSION /\ auth_max_batch a <> 0 /\ now <= auth_exp a
  /\ faest_sig_verify vk (signed_bytes a) (auth_sig a) = Ok tt.
Proof.
  unfold IssuanceAuthorization_verify. case_decide; [naive_solver|].
  destruct (N.eqb_spec (auth_max_batch a) 0); [naive_solver|].
  destruct (N.ltb_spec (auth_exp a) now).
  { split; [done|]. intros (_ & _ & ? & _). lia. }
  destruct (faest_sig_verify _ _ _) as [[]|e|]; cbn; split; try done; naive_solver.
Qed.

Lemma sign_authorization_Ok {V} (z : Authorizer V) m b n now a :
  sign_authorization z m b n now = Ok a <->
  n <> 0 /\ auth_version a = AUTHORIZATION_VERSION /\ auth_binding a = b
  /\ auth_rate_limit_id a = rate_limit_id m /\ auth_policy_label a = az_policy_label z
  /\ auth_max_batch a = n /\ auth_exp a = sat_add64 now (az_ttl_secs z) /\ auth_iat a = now
  /\ auth_sig a = faest_sig_sign (az_signer z) (signed_bytes a).
Proof.
  unfold sign_authorization. destruct (N.eqb_spec n 0); [naive_solver|]. split.
  - intros [= <-]. by split_and!.
  - intros (_ & Ev & Eb & Ei & El & En & Ex & Et & Es). destruct a; cbn in *. by subst.
Qed.

Lemma authorize_Ok {V} `{!AttestationVerifier V} (z : Authorizer V) clock eat b n now a :
  authorize z clock eat b n now = Ok a <->
  exists m, verify_eat (az_verifier z) clock eat b = Ok m
    /\ sign_authorization z m b n now = Ok a.
Proof.
  unfold authorize. destruct (N.eqb_spec n 0) as [->|Hn].
  - split; [done|]. intros (m & _ & Hs). unfold sign_authorization in Hs. done.
  - rewrite bind_Ok. done.
Qed.

(** What the attester signs, the issuer's check accepts until it expires. *)
Lemma sign_authorization_verify `{!FaestLaws} {V} (z : Authorizer V) m b n now a now' :
  sign_authorization z m b n now = Ok a -> now' <= auth_exp a ->
  IssuanceAuthorization_verify a (faest_verifying_key (az_signer z)) now' = Ok tt.
Proof.
  intros (Hn & Hv & _ & _ & _ & Hm & _ & _ & Hs)%sign_authorization_Ok Hx.
  apply IssuanceAuthorization_verify_Ok. split_and!; [done|congruence|done|].
  rewrite Hs. apply faest_sig_verify_sign.
Qed.

Context `{BlindSig, RateLimiter R}.

Lemma issue_authorized_Ok issuer vk req a now clock (l : R) g resp l' g' :
  issue_authorized_with_limit issuer vk req a now clock (l, g) = (Ok resp, (l', g')) <->
  IssuanceAuthorization_verify a vk now = Ok tt
  /\ binding (req_body req) = binding_of (blinded (req_body req))
  /\ auth_binding a = binding_of (blinded (req_body req))
  /\ wrap 32 (len (blinded (req_body req))) <= auth_max_batch a
  /\ req_key_version req = issuer_key_version issuer
  /\ try_consume clock (auth_rate_limit_id a) (wrap 32 (len (blinded (req_body req)))) l
     = (Ok tt, l')
  /\ issuer_sign (issuer_sk issuer) (req_body req) g = (resp, g').
Proof.
  unfold issue_authorized_with_limit, SignRequest_binding. rewrite run_bind_Ok.
  setoid_rewrite lift_Ok. split.
  - intros ([] & s1 & [Hv ->] & Hr).
    case_decide as Hb; [done|]. case_decide as Ha; [done|].
    destruct (N.ltb_spec (auth_max_batch a) (wrap 32 (len (blinded (req_body req))))); [done|].
    apply run_bind_Ok in Hr as ([] & s2 & Hc & Hs).
    apply on_Ok in Hc as (t & Hc & ->). apply on_snd_sign_Ok in Hs as (Hk & Hl & Hs).
    cbn [fst snd] in *. subst t. by split_and!.
  - intros (Hv & Hb & Ha & Hn & Hk & Hc & Hs). exists tt, (l, g). split; [done|].
    rewrite !decide_False by naive_solver.
    destruct (N.ltb_spec (auth_max_batch a) (wrap 32 (len (blinded (req_body req))))); [lia|].
    apply run_bind_Ok. exists tt, (l', g). split; [apply on_Ok; by exists l'|].
    by apply on_snd_sign_Ok.
Qed.

(** Only an authorization that verifies, for this batch, has an effect. *)
Lemma issue_authorized_effect issuer vk req a now clock (l : R) g r l' g' :
  issue_authorized_with_limit issuer vk req a now clock (l, g) = (r, (l', g')) ->
  (l', g') = (l, g)
  \/ IssuanceAuthorization_verify a vk now = Ok tt
     /\ auth_binding a = binding_of (blinded (req_body req)).
Proof.
  unfold issue_authorized_with_limit, SignRequest_binding, lift, throw. unfold mbind, run_bind.
  destruct (IssuanceAuthorization_verify a vk now) as [[]|e|]; [|intros [= <- <- <-]; by left..].
  case_decide as Hb; [intros [= <- <- <-]; by left|]. case_decide as Ha; [intros [= <- <- <-]; by left|].
  intros _. by right.
Qed.

(** What the limiter refuses, after everything before it passed. *)
Lemma issue_authorized_limited issuer vk req a now clock (l : R) g e l' :
  IssuanceAuthorization_verify a vk now = Ok tt ->
  binding (req_body req) = binding_of (blinded (req_body req)) ->
  auth_binding a = binding_of (blinded (req_body req)) ->
  wrap 32 (len (blinded (req_body req))) <= auth_max_batch a ->
  try_consume clock (auth_rate_limit_id a) (wrap 32 (len (blinded (req_body req)))) l = (Err e, l') ->
  issue_authorized_with_limit issuer vk req a now clock (l, g) = (Err (limit_error e), (l', g)).
Proof.
  intros Hv Hb Ha Hm Hc. unfold issue_authorized_with_limit, SignRequest_binding.
  rewrite Hb, Ha. unfold lift, throw, mbind, run_bind. rewrite Hv, !decide_False by tauto.
  destruct (N.ltb_spec (auth_max_batch a) (wrap 32 (len (blinded (req_body req))))); [lia|].
  unfold on. cbn [fst snd]. by rewrite Hc.
Qed.

(** C16: an authorization is worth one batch: two requests issued under
    one authorization, whichever issuers, keys, clocks and limiters served them,
    were for the same blinded messages, or the two bindings are a SHA-256
    collision. *)
Theorem issue_authorized_replay issuer issuer' vk vk' req req' a now now' clock clock'
    (l m : R) g h resp resp' l' m' g' h' :
  binding_fits (blinded (req_body req)) -> binding_fits (blinded (req_body req')) ->
  issue_authorized_with_limit issuer vk req a now clock (l, g) = (Ok resp, (l', g')) ->
  issue_authorized_with_limit issuer' vk' req' a now' clock' (m, h) = (Ok resp', (m', h')) ->
  blinded (req_body req) = blinded (req_body req')
  \/ collides [binding_message (blinded (req_body req))]
              [binding_message (blinded (req_body req'))].
Proof.
  intros Hf Hf' (_ & _ & Ha & _)%issue_authorized_Ok (_ & _ & Ha' & _)%issue_authorized_Ok.
  apply binding_of_inj; congruence.
Qed.

End facts.

(** ** Properties *)

(** C14: an issuer signs exactly when the authorization verifies under the
    attester's key and has not expired, the request's binding is that of its
    blinded messages and the one authorized, the batch is within the authorized
    size, the key version is the current one and the limiter grants the batch to
    the authorized identity; the response is then the blind signatures. *)
Theorem issue_authorized_exactly `{Sha256, Hex, Faest, Chrono, BlindSig, RateLimiter R}
    issuer vk req a now clock (l : R) g resp l' g' :
  issue_authorized_with_limit issuer vk req a now clock (l, g) = (Ok resp, (l', g')) <->
  (auth_version a = AUTHORIZATION_VERSION /\ auth_max_batch a <> 0 /\ now <= auth_exp a
   /\ faest_sig_verify vk (signed_bytes a) (auth_sig a) = Ok tt)
  /\ binding (req_body req) = binding_of (blinded (req_body req))
  /\ auth_binding a = binding_of (blinded (req_body req))
  /\ wrap 32 (len (blinded (req_body req))) <= auth_max_batch a
  /\ req_key_version req = issuer_key_version issuer
  /\ try_consume clock (auth_rate_limit_id a) (wrap 32 (len (blinded (req_body req)))) l
     = (Ok tt, l')
  /\ issuer_sign (issuer_sk issuer) (req_body req) g = (resp, g').
Proof. rewrite issue_authorized_Ok, IssuanceAuthorization_verify_Ok. done. Qed.

(** C15: every outcome of a request to sign, in the order the issuer decides it: a
    bad authorization first, then a binding that is not the blinded messages' or
    not the one authorized, then an oversized batch with its text, each of which
    leaves the limiter and the randomness as they were; then the limiter's
    refusal, mapped to the gate's; and a request for another key version is
    refused only after its quota was consumed. *)
Theorem issue_authorized_refuses `{Sha256, Hex, Faest, Chrono, BlindSig, RateLimiter R}
    issuer vk req a now clock (l : R) g r l' g' :
  issue_authorized_with_limit issuer vk req a now clock (l, g) = (r, (l', g')) ->
  let own := binding_of (blinded (req_body req)) in
  let batch := wrap 32 (len (blinded (req_body req))) in
  match IssuanceAuthorization_verify a vk now with
  | Err e => r = Err e /\ l' = l /\ g' = g
  | Panic => r = Panic /\ l' = l /\ g' = g
  | Ok _ =>
      if decide (own = binding (req_body req) /\ own = auth_binding a) then
        if auth_max_batch a <? batch then
          r = Err (GAttestationInvalid (B "batch size " ++ display_N batch
                ++ B " exceeds authorization max_batch " ++ display_N (auth_max_batch a)))
          /\ l' = l /\ g' = g
        else
          match try_consume clock (auth_rate_limit_id a) batch l with
          | (Err e, s) => r = Err (limit_error e) /\ l' = s /\ g' = g
          | (Panic, s) => r = Panic /\ l' = s /\ g' = g
          | (Ok _, s) =>
              l' = s /\
              (if decide (req_key_version req = issuer_key_version issuer)
               then exists resp, r = Ok resp
                 /\ issuer_sign (issuer_sk issuer) (req_body req) g = (resp, g')
               else r = Err (GUnknown (Error_display
                      (ErrKeyVersion (req_key_version req) (issuer_key_version issuer))))
                    /\ g' = g)
          end
      else r = Err GBindingMismatch /\ l' = l /\ g' = g
  end.
Proof.
  cbv zeta. unfold issue_authorized_with_limit, SignRequest_binding.
  unfold lift, throw, mbind, run_bind.
  destruct (IssuanceAuthorization_verify a vk now) as [[]|e|]; [|by intros [= <- <- <-]..].
  destruct (decide (binding_of _ <> binding _)) as [Hb|Hb];
    [intros [= <- <- <-]; by rewrite decide_False by tauto|apply dec_stable in Hb].
  destruct (decide (binding_of _ <> auth_binding a)) as [Ha|Ha];
    [intros [= <- <- <-]; by rewrite decide_False by tauto|apply dec_stable in Ha].
  rewrite decide_True by done.
  destruct (auth_max_batch a <? wrap 32 (len (blinded (req_body req)))); [by intros [= <- <- <-]|].
  unfold on at 1. cbn [fst snd]. intros Hr.
  destruct (try_consume _ _ _ l) as [[[]|e|] s]; cbn in Hr; [|naive_solver..].
  unfold on, Issuer_blind_sign in Hr. cbn [fst snd] in Hr. case_decide as Hk.
  - rewrite decide_False by done. cbn in Hr. naive_solver.
  - rewrite decide_True by done. destruct (issuer_sign _ _ g) as [[bs] g1]; cbn in Hr.
    injection Hr as <- <- <-. split; [done|]. by exists {| blind_sigs := bs |}.
Qed.
