(* ===== verification/Transparency.v ===== *)
(** * Key transparency: core/src/transparency.rs

The append-only, hash-chained log of issuer keys: the operator's [KeyLog] and
[LogSigner_sign], and the client's three checks.  Records are compared up to
[same_record], the spelling of their [token_key_id]; the chain of hashes is
proper for it, and pins the records up to it or yields a located collision. *)

From S2P Require Import Prelude RustStr Externals Pomfrit Core Gate.

(** ** Data *)

Definition LEAF_DOMAIN : bytes := B "eat-pass/kt/leaf" ++ [x00].
Definition HEAD_DOMAIN : bytes := B "eat-pass/kt/head" ++ [x00].
Definition STH_DOMAIN : bytes := B "eat-pass/kt/sth" ++ [x00].

Inductive TransparencyError :=
| THex (field : str)
| TLength (field : str)
| THeadMismatch
| TSeqMismatch (sth records : N)
| TBadSignature
| TNotIncluded
| TNotConsistent.

#[export] Instance TransparencyError_eq_dec : EqDecision TransparencyError.
Proof. solve_decision. Defined.

Definition TransparencyError_display (e : TransparencyError) : str :=
  match e with
  | THex f => B "bad hex in " ++ f
  | TLength f => B "record " ++ f ++ B " wrong length"
  | THeadMismatch => B "signed head does not match the served records"
  | TSeqMismatch s n =>
      B "signed-head seq " ++ display_N s ++ B " != record count " ++ display_N n
  | TBadSignature => B "signed-head signature invalid"
  | TNotIncluded => B "token_key_id not present in the log"
  | TNotConsistent =>
      B "new log does not extend the previously-seen head (history rewritten)"
  end.

Record KeyRecord := {
  kr_seq : N;
  kr_key_version : N;
  kr_token_key_id : str;
  kr_not_before : N;
}.

#[export] Instance KeyRecord_eq_dec : EqDecision KeyRecord.
Proof. solve_decision. Defined.

(** The ranges of the fields. *)
Record wf_record (r : KeyRecord) : Prop := {
  wf_kr_seq : kr_seq r < 2 ^ 64;
  wf_kr_version : kr_key_version r < 2 ^ 32;
  wf_kr_not_before : kr_not_before r < 2 ^ 64;
}.

Record SignedHead := { sh_seq : N; sh_head : str; sh_sig : str }.

#[export] Instance SignedHead_eq_dec : EqDecision SignedHead.
Proof. solve_decision. Defined.

Record KeyLog := { kl_records : list KeyRecord }.

Definition KeyLog_new : KeyLog := {| kl_records := [] |}.

Definition sth_message (seq : N) (head : bytes) : bytes :=
  STH_DOMAIN ++ be_bytes 8 seq ++ head.

(** The messages hashed for a leaf and for a step. *)
Definition leaf_message (r : KeyRecord) (tkid : bytes) : bytes :=
  LEAF_DOMAIN ++ be_bytes 8 (kr_seq r) ++ be_bytes 4 (kr_key_version r) ++ tkid
  ++ be_bytes 8 (kr_not_before r).
Definition step_message (prev leaf : bytes) : bytes := HEAD_DOMAIN ++ prev ++ leaf.

(** ** Operations *)

Section operations.
Context `{Sha256, Hex}.

Definition token_key_id_bytes (r : KeyRecord) : result TransparencyError bytes :=
  v ← map_err (fun _ => THex (B "token_key_id")) (of_sum (hex_decode (trim (kr_token_key_id r))));
  ok_or (array32 v) (TLength (B "token_key_id")).

Definition leaf_hash (r : KeyRecord) : result TransparencyError bytes :=
  tkid ← token_key_id_bytes r;
  Ok (sha256 (leaf_message r tkid)).

Definition genesis_head : bytes := sha256 (HEAD_DOMAIN ++ B "genesis").

Definition step (prev leaf : bytes) : bytes := sha256 (step_message prev leaf).

(** The loop of [chain_heads] from a running head. *)
Fixpoint chain_heads_from (cur : bytes) (records : list KeyRecord) :
    result TransparencyError (list bytes) :=
  match records with
  | [] => Ok []
  | r :: records =>
      leaf ← leaf_hash r;
      let cur := step cur leaf in
      heads ← chain_heads_from cur records;
      Ok (cur :: heads)
  end.

Definition chain_heads (records : list KeyRecord) : result TransparencyError (list bytes) :=
  chain_heads_from genesis_head records.

Definition head_of (records : list KeyRecord) : result TransparencyError bytes :=
  heads ← chain_heads records; Ok (default genesis_head (last heads)).

Definition KeyLog_append `{BlindSig} (log : KeyLog) (pk : IssuerPublicKey) (not_before : N) :
    result TransparencyError (N * KeyLog) :=
  tkid ← map_err (fun _ => THex (B "token_key_id")) (IssuerPublicKey_token_key_id pk);
  let seq := len (kl_records log) in
  Ok (seq, {| kl_records := kl_records log ++
    [ {| kr_seq := seq; kr_key_version := pk_key_version pk;
         kr_token_key_id := hex_encode tkid; kr_not_before := not_before |} ] |}).

Definition KeyLog_head (log : KeyLog) : result TransparencyError bytes :=
  expect (head_of (kl_records log)).

Context `{Faest, Base64}.

Record LogSigner := { ls_sk : faest_sk }.

Definition LogSigner_from_seed (seed : bytes) : result TransparencyError LogSigner :=
  sk ← expect (signing_key_from_seed seed); Ok {| ls_sk := sk |}.

Definition LogSigner_public (s : LogSigner) : bytes := public_bytes_from_sk (ls_sk s).

Definition LogSigner_sign (s : LogSigner) (log : KeyLog) : result TransparencyError SignedHead :=
  head ← KeyLog_head log;
  let seq := len (kl_records log) - 1 in
  let sig := faest_sig_sign (ls_sk s) (sth_message seq head) in
  Ok {| sh_seq := seq; sh_head := hex_encode head; sh_sig := b64_encode STANDARD sig |}.

Definition parse_head (sth : SignedHead) : result TransparencyError bytes :=
  v ← map_err (fun _ => THex (B "head")) (of_sum (hex_decode (trim (sh_head sth))));
  ok_or (array32 v) (TLength (B "head")).

Definition verify_log `{BuildProfile} (log_pub : bytes) (records : list KeyRecord)
    (sth : SignedHead) : result TransparencyError unit :=
  n ← add_w 64 (sh_seq sth) 1;
  if decide (n <> len records) then Err (TSeqMismatch (sh_seq sth) (len records))
  else
    head ← head_of records;
    head' ← parse_head sth;
    if decide (head <> head') then Err THeadMismatch
    else
      vk ← map_err (fun _ => TBadSignature) (verifying_key_from_bytes log_pub);
      sig ← map_err (fun _ => THex (B "sig")) (of_sum (b64_decode STANDARD (trim (sh_sig sth))));
      _ ← map_err (fun _ => TBadSignature) (faest_sig_verify vk (sth_message (sh_seq sth) head) sig);
      Ok tt.

Definition verify_inclusion (records : list KeyRecord) (token_key_id : bytes) :
    result TransparencyError N :=
  let want := hex_encode token_key_id in
  ok_or (kr_seq <$> (snd <$> list_find (fun r => eq_ignore_ascii_case (kr_token_key_id r) want)
                       records))
    TNotIncluded.

Definition verify_consistency (old : SignedHead) (new_records : list KeyRecord) :
    result TransparencyError unit :=
  let old_idx := N.to_nat (sh_seq old) in
  if decide (length new_records <= old_idx)%nat then Err TNotConsistent
  else
    heads ← chain_heads new_records;
    h ← index heads old_idx;
    head ← parse_head old;
    if decide (h <> head) then Err TNotConsistent else Ok tt.

(** Appending keys one after the other. *)
Fixpoint KeyLog_append_all `{BlindSig} (log : KeyLog) (keys : list (IssuerPublicKey * N)) :
    result TransparencyError KeyLog :=
  match keys with
  | [] => Ok log
  | (pk, nb) :: keys => '(_, log) ← KeyLog_append log pk nb; KeyLog_append_all log keys
  end.

End operations.

(** ** Records up to the spelling of their key id *)

Section records.
Context `{Sha256, Hex}.

Definition same_record (r r' : KeyRecord) : Prop :=
  kr_seq r = kr_seq r' /\ kr_key_version r = kr_key_version r'
  /\ kr_not_before r = kr_not_before r' /\ token_key_id_bytes r = token_key_id_bytes r'.

#[export] Instance same_record_equiv : Equivalence same_record.
Proof.
  split.
  - intros r. by split_and!.
  - intros r r' (? & ? & ? & ?). by split_and!.
  - intros r s t (? & ? & ? & ?) (? & ? & ? & ?). split_and!; congruence.
Qed.

#[export] Instance leaf_hash_proper : Proper (same_record ==> eq) leaf_hash.
Proof.
  intros r r' (Es & Ev & En & Et). unfold leaf_hash, leaf_message. by rewrite Es, Ev, En, Et.
Qed.

#[export] Instance chain_heads_from_proper :
  Proper (eq ==> Forall2 same_record ==> eq) chain_heads_from.
Proof.
  intros cur _ <- l l' Hl. revert cur. induction Hl as [|r r' l l' Hr _ IH]; intros cur; [done|].
  cbn. rewrite Hr. destruct (leaf_hash r') as [leaf| |]; cbn; [|done..]. by rewrite IH.
Qed.

#[export] Instance head_of_proper : Proper (Forall2 same_record ==> eq) head_of.
Proof. intros l l' Hl. unfold head_of, chain_heads. by rewrite Hl. Qed.

Lemma token_key_id_bytes_Ok r t :
  token_key_id_bytes r = Ok t <-> hex_decode (trim (kr_token_key_id r)) = inr t /\ length t = 32%nat.
Proof.
  unfold token_key_id_bytes. destruct (hex_decode _) as [e|v]; cbn; [naive_solver|].
  unfold array32. case_decide; cbn; naive_solver.
Qed.

Lemma token_key_id_bytes_no_panic r : token_key_id_bytes r <> Panic.
Proof.
  unfold token_key_id_bytes. destruct (hex_decode _); cbn; [done|]. apply ok_or_Panic.
Qed.

Lemma parse_head_Ok sth h :
  parse_head sth = Ok h <-> hex_decode (trim (sh_head sth)) = inr h /\ length h = 32%nat.
Proof.
  unfold parse_head. destruct (hex_decode _) as [e|v]; cbn; [naive_solver|].
  unfold array32. case_decide; cbn; naive_solver.
Qed.

Lemma leaf_message_inj r r' t t' :
  wf_record r -> wf_record r' -> length t = 32%nat -> length t' = 32%nat ->
  leaf_message r t = leaf_message r' t' ->
  kr_seq r = kr_seq r' /\ kr_key_version r = kr_key_version r'
  /\ kr_not_before r = kr_not_before r' /\ t = t'.
Proof.
  intros [] [] Ht Ht' Heq. unfold leaf_message in Heq. apply app_inv_head in Heq.
  apply app_inj_len in Heq as [E1 Heq]; [|by rewrite !length_be_bytes].
  apply app_inj_len in Heq as [E2 Heq]; [|by rewrite !length_be_bytes].
  apply app_inj_len in Heq as [E3 E4]; [|congruence].
  apply be_bytes_inj in E1, E2, E4; [by split_and!|done..].
Qed.

Lemma default_last_cons {A} (d x : A) l : default d (last (x :: l)) = default x (last l).
Proof. rewrite last_cons. by destruct (last l). Qed.

(** The heads of a list, its last one, and its prefixes. *)
Lemma chain_heads_from_app cur l k :
  chain_heads_from cur (l ++ k) =
  hs ← chain_heads_from cur l;
  ks ← chain_heads_from (default cur (last hs)) k;
  Ok (hs ++ ks).
Proof.
  revert cur. induction l as [|r l IH]; intros cur; cbn.
  { by destruct (chain_heads_from cur k). }
  destruct (leaf_hash r) as [leaf| |]; cbn; [|done..]. rewrite IH.
  destruct (chain_heads_from _ l) as [hs| |]; cbn [mbind result_bind]; [|done..].
  rewrite default_last_cons.
  by destruct (chain_heads_from (default (step cur leaf) (last hs)) k).
Qed.

Lemma chain_heads_from_length cur l hs :
  chain_heads_from cur l = Ok hs -> length hs = length l.
Proof.
  revert cur hs. induction l as [|r l IH]; intros cur hs; cbn; [by intros [= <-]|].
  intros (leaf & _ & Hr)%bind_Ok. apply bind_Ok in Hr as (hs' & Hl & [= <-]).
  cbn. f_equal. by eapply IH.
Qed.

Lemma chain_heads_from_Panic cur l : chain_heads_from cur l <> Panic.
Proof.
  revert cur. induction l as [|r l IH]; intros cur; [done|]. cbn [chain_heads_from].
  rewrite bind_Panic. intros [Hp|(leaf & _ & Hp)].
  - unfold leaf_hash in Hp. rewrite bind_Panic in Hp.
    destruct Hp as [Hp|(? & _ & [=])]. by apply token_key_id_bytes_no_panic in Hp.
  - rewrite bind_Panic in Hp. destruct Hp as [Hp|(? & _ & [=])]. by apply IH in Hp.
Qed.

Lemma chain_heads_prefix l k n hs h :
  n = length l -> (0 < n)%nat -> chain_heads (l ++ k) = Ok hs -> hs !! (n - 1)%nat = Some h ->
  head_of l = Ok h.
Proof.
  intros -> Hn Hc Hh. unfold chain_heads, head_of in *. rewrite chain_heads_from_app in Hc.
  unfold chain_heads. apply bind_Ok in Hc as (hs1 & Hl & Hc).
  apply bind_Ok in Hc as (hs2 & _ & [= <-]). rewrite Hl. cbn.
  apply chain_heads_from_length in Hl. rewrite lookup_app_l in Hh by lia.
  by rewrite last_lookup, Hl, <- Nat.sub_1_r, Hh.
Qed.

(** ** What equal heads pin *)

(** Every message hashed on the way to the head of a list. *)
Fixpoint chain_messages_from (cur : bytes) (records : list KeyRecord) : list bytes :=
  match records with
  | [] => []
  | r :: records =>
      match token_key_id_bytes r with
      | Ok t =>
          let leaf := sha256 (leaf_message r t) in
          leaf_message r t :: step_message cur leaf :: chain_messages_from (step cur leaf) records
      | _ => []
      end
  end.

Definition chain_messages (records : list KeyRecord) : list bytes :=
  chain_messages_from genesis_head records.

Lemma collides_mono ms ms' ns ns' :
  ms ⊆ ns -> ms' ⊆ ns' -> collides ms ms' -> collides ns ns'.
Proof. intros Hs Hs' (x & y & ? & ? & ?). exists x, y. set_solver. Qed.

Lemma equal_heads_pin `{!Sha256Laws} cur cur' l l' hs hs' :
  length cur = 32%nat -> length cur' = 32%nat ->
  Forall wf_record l -> Forall wf_record l' -> length l = length l' ->
  chain_heads_from cur l = Ok hs -> chain_heads_from cur' l' = Ok hs' ->
  default cur (last hs) = default cur' (last hs') ->
  (Forall2 same_record l l' /\ cur = cur')
  \/ collides (chain_messages_from cur l) (chain_messages_from cur' l').
Proof.
  intros Hc Hc' Hl Hl' Hlen. revert cur cur' hs hs' Hc Hc' Hl'.
  revert l' Hlen. induction Hl as [|r l Hr Hl IH];
    intros [|r' l'] Hlen cur cur' hs hs' Hc Hc' Hl'; try done; cbn.
  { intros [= <-] [= <-] Heq. left. split; [constructor|done]. }
  apply Forall_cons in Hl' as [Hr' Hl'].
  intros (leaf & Hleaf & Hk)%bind_Ok (leaf' & Hleaf' & Hk')%bind_Ok Heq.
  apply bind_Ok in Hk as (hs1 & Hh & [= <-]), Hk' as (hs1' & Hh' & [= <-]).
  apply bind_Ok in Hleaf as (t & Ht & [= <-]), Hleaf' as (t' & Ht' & [= <-]).
  rewrite Ht, Ht'.
  set (leaf := sha256 (leaf_message r t)) in *. set (leaf' := sha256 (leaf_message r' t')) in *.
  assert (Heq1 : default (step cur leaf) (last hs1) = default (step cur' leaf') (last hs1')).
  { by rewrite !default_last_cons in Heq. }
  edestruct (IH l') as [[Hs Hstep]|Hx]; [by injection Hlen| | |exact Hl'|exact Hh|exact Hh'|done| |].
  - apply sha256_length.
  - apply sha256_length.
  - unfold step in Hstep. apply sha256_inj_or in Hstep as [Hstep|Hx].
    2:{ right. eapply collides_mono, Hx; set_solver. }
    unfold step_message in Hstep. apply app_inv_head in Hstep. apply app_inj_len in Hstep as [-> Hleaf]; [|congruence].
    apply sha256_inj_or in Hleaf as [Hleaf|Hx].
    2:{ right. eapply collides_mono, Hx; set_solver. }
    pose proof Ht as [_ Lt]%token_key_id_bytes_Ok.
    pose proof Ht' as [_ Lt']%token_key_id_bytes_Ok.
    apply leaf_message_inj in Hleaf as (? & ? & ? & ->); [|done..].
    left. split; [|done]. constructor; [|done]. unfold same_record. by rewrite Ht, Ht'.
  - right. eapply collides_mono, Hx; set_solver.
Qed.

Lemma genesis_length `{!Sha256Laws} : length genesis_head = 32%nat.
Proof. apply sha256_length. Qed.

Lemma head_of_pins `{!Sha256Laws} l l' h :
  Forall wf_record l -> Forall wf_record l' -> length l = length l' ->
  head_of l = Ok h -> head_of l' = Ok h ->
  Forall2 same_record l l' \/ collides (chain_messages l) (chain_messages l').
Proof.
  unfold head_of. intros Hl Hl' Hlen (hs & Hh & [= <-])%bind_Ok (hs' & Hh' & [= Heq])%bind_Ok.
  edestruct equal_heads_pin as [[? _]|?]; [..|by left|by right]; try done; apply genesis_length.
Qed.

End records.

(** ** The operator's log and the client's checks *)

Section checks.
Context `{Sha256, Hex, Faest, Base64}.

(** Records whose key id parses. *)
Definition has_key_id (r : KeyRecord) : Prop := exists t, token_key_id_bytes r = Ok t.

Lemma chain_heads_from_total cur l :
  Forall has_key_id l -> exists hs, chain_heads_from cur l = Ok hs.
Proof.
  intros Hl. revert cur. induction Hl as [|r l [t Ht] _ IH]; intros cur; [by eexists|].
  cbn [chain_heads_from]. unfold leaf_hash. rewrite Ht. cbn [mbind result_bind].
  destruct (IH (step cur (sha256 (leaf_message r t)))) as [hs ->].
  by eexists.
Qed.

Lemma head_of_total l : Forall has_key_id l -> exists h, head_of l = Ok h.
Proof.
  intros Hl. unfold head_of, chain_heads. destruct (chain_heads_from_total genesis_head l Hl) as [hs ->].
  by eexists.
Qed.

Lemma head_of_length `{!Sha256Laws} l h : head_of l = Ok h -> length h = 32%nat.
Proof.
  unfold head_of, chain_heads. intros (hs & Hh & [= <-])%bind_Ok.
  assert (Hg : length genesis_head = 32%nat) by apply genesis_length.
  revert Hh Hg. generalize genesis_head as cur. revert hs.
  induction l as [|r l IH]; intros hs cur; cbn; [by intros [= <-]|].
  intros (leaf & _ & Hr)%bind_Ok Hg. apply bind_Ok in Hr as (hs' & Hl & [= <-]).
  rewrite default_last_cons. eapply IH; [done|]. apply sha256_length.
Qed.

Lemma verify_log_Ok `{BuildProfile} pub records sth :
  sh_seq sth + 1 < 2 ^ 64 ->
  verify_log pub records sth = Ok tt <->
  sh_seq sth + 1 = len records /\
  exists head vk sig, head_of records = Ok head /\ parse_head sth = Ok head
    /\ faest_vk_try_from pub = inr vk /\ b64_decode STANDARD (trim (sh_sig sth)) = inr sig
    /\ faest_sig_verify vk (sth_message (sh_seq sth) head) sig = Ok tt.
Proof.
  intros Hs. unfold verify_log. rewrite add_w_small by done. cbn [mbind result_bind].
  case_decide as Hn; [naive_solver|].
  destruct (head_of records) as [head|e|]; cbn [mbind result_bind]; [|naive_solver..].
  destruct (parse_head sth) as [head'|e|]; cbn [mbind result_bind]; [|naive_solver..].
  case_decide as Hh; [naive_solver|]. subst head'.
  unfold verifying_key_from_bytes.
  destruct (faest_vk_try_from pub) as [e|vk]; cbn [of_sum map_err mbind result_bind]; [naive_solver|].
  destruct (b64_decode _ _) as [e|sig]; cbn [of_sum map_err mbind result_bind]; [naive_solver|].
  destruct (faest_sig_verify _ _ sig) as [[]|e|] eqn:Hv; cbn [of_sum map_err mbind result_bind]; split; try done.
  - intros _. split; [done|]. by exists head, vk, sig.
  - intros (_ & ? & ? & ? & [= <-] & _ & [= <-] & [= <-] & ?). congruence.
  - intros (_ & ? & ? & ? & [= <-] & _ & [= <-] & [= <-] & ?). congruence.
Qed.

Lemma verify_log_no_panic `{BuildProfile} pub records sth :
  sh_seq sth + 1 < 2 ^ 64 -> verify_log pub records sth <> Panic.
Proof.
  intros Hs. unfold verify_log. rewrite add_w_small by done. cbn [mbind result_bind].
  case_decide; [done|]. rewrite bind_Panic. intros [Hp|(head & _ & Hp)].
  { unfold head_of in Hp. rewrite bind_Panic in Hp. destruct Hp as [Hp|(? & _ & [=])].
    by apply chain_heads_from_Panic in Hp. }
  rewrite bind_Panic in Hp. destruct Hp as [Hp|(head' & _ & Hp)].
  { unfold parse_head in Hp. destruct (hex_decode _); cbn in Hp; [done|]. by apply ok_or_Panic in Hp. }
  case_decide; [done|]. unfold verifying_key_from_bytes in Hp.
  destruct (faest_vk_try_from pub) as [e|vk]; cbn in Hp; [done|].
  destruct (b64_decode _ _) as [e|sig]; cbn in Hp; [done|].
  pose proof (faest_sig_verify_no_panic vk (sth_message (sh_seq sth) head) sig).
  by destruct (faest_sig_verify _ _ sig).
Qed.

Lemma verify_inclusion_Ok records kid n :
  verify_inclusion records kid = Ok n <->
  exists i r, records !! i = Some r /\ kr_seq r = n
    /\ to_ascii_lowercase (kr_token_key_id r) = to_ascii_lowercase (hex_encode kid)
    /\ forall j s, records !! j = Some s -> (j < i)%nat ->
       to_ascii_lowercase (kr_token_key_id s) <> to_ascii_lowercase (hex_encode kid).
Proof.
  unfold verify_inclusion. rewrite ok_or_Ok. split.
  - intros Hf. destruct (list_find _ _) as [[i r]|] eqn:Hl; [|done].
    cbn in Hf. injection Hf as <-. apply list_find_Some in Hl as (Hr & Hp & Hb).
    exists i, r. split_and!; [done..| |].
    + by apply eq_ignore_ascii_case_spec, Is_true_true.
    + intros j s Hj Hlt Heq. eapply Hb; [done..|].
      by apply Is_true_true, eq_ignore_ascii_case_spec.
  - intros (i & r & Hr & <- & Heq & Hb).
    assert (list_find (fun r => eq_ignore_ascii_case (kr_token_key_id r) (hex_encode kid)) records
      = Some (i, r)) as ->; [|done].
    apply list_find_Some. split_and!; [done| |].
    + by apply Is_true_true, eq_ignore_ascii_case_spec.
    + intros j s Hj Hlt Hp. eapply Hb; [done..|]. by apply eq_ignore_ascii_case_spec, Is_true_true.
Qed.

Lemma verify_consistency_Ok old records :
  verify_consistency old records = Ok tt <->
  exists hs h, (N.to_nat (sh_seq old) < length records)%nat /\ chain_heads records = Ok hs
    /\ hs !! N.to_nat (sh_seq old) = Some h /\ parse_head old = Ok h.
Proof.
  unfold verify_consistency. case_decide as Hl; [split; [done|]; intros (? & ? & ? & _); lia|].
  destruct (chain_heads records) as [hs|e|]; cbn [mbind result_bind];
    [|split; [done|]; intros (? & ? & _ & [=] & _)..].
  unfold index. destruct (hs !! _) as [h|] eqn:Hx; cbn [mbind result_bind];
    [|split; [done|]; intros (? & ? & _ & [= <-] & ? & _); congruence].
  destruct (parse_head old) as [h'|e|]; cbn [mbind result_bind];
    [|split; [done|]; intros (? & ? & _ & _ & _ & [=])..].
  case_decide as Hh.
  - split; [done|]. intros (? & ? & _ & [= <-] & Hy & [= <-]). congruence.
  - subst h'. split; [|done]. intros _. exists hs, h. split_and!; [lia|done..].
Qed.

Lemma verify_consistency_no_panic old records : verify_consistency old records <> Panic.
Proof.
  unfold verify_consistency. case_decide as Hl; [done|].
  destruct (chain_heads records) as [hs|e|] eqn:Hc; cbn [mbind result_bind]; [|done|].
  2:{ by apply chain_heads_from_Panic in Hc. }
  apply chain_heads_from_length in Hc.
  destruct (@index_in TransparencyError _ hs (N.to_nat (sh_seq old))) as [h ->]; [lia|].
  cbn [mbind result_bind]. unfold parse_head.
  destruct (hex_decode _); cbn; [done|]. unfold array32. case_decide; cbn; [case_decide|]; done.
Qed.

(** C28: append-only: when a client accepted a log under a head, and later
    a longer log that is consistent with that head, the new log begins with the
    records of the old one, up to the spelling of key ids, or the chain of hashes
    shows a SHA-256 collision. *)
Theorem consistency_extends `{BuildProfile, !Sha256Laws} pub pub' old old_sth new new_sth :
  Forall wf_record old -> Forall wf_record new ->
  sh_seq old_sth + 1 < 2 ^ 64 -> sh_seq new_sth + 1 < 2 ^ 64 ->
  verify_log pub old old_sth = Ok tt -> verify_log pub' new new_sth = Ok tt ->
  verify_consistency old_sth new = Ok tt ->
  Forall2 same_record old (take (length old) new)
  \/ collides (chain_messages old) (chain_messages (take (length old) new)).
Proof.
  intros Hwo Hwn Hs Hs' Ho Hn Hc. apply verify_log_Ok in Ho as (Hlo & head & _ & _ & Hho & Hpo & _); [|done].
  apply verify_consistency_Ok in Hc as (hs & h & Hlt & Hch & Hh & Hp).
  rewrite Hpo in Hp. injection Hp as <-. unfold len in Hlo.
  eapply head_of_pins; [done|by apply Forall_take|rewrite length_take; lia|done|].
  rewrite <- (take_drop (length old) new) in Hch.
  eapply (chain_heads_prefix _ _ (length old)); [rewrite length_take; lia|lia|done|].
  replace (length old - 1)%nat with (N.to_nat (sh_seq old_sth)) by lia. done.
Qed.

End checks.

Section log.
Context `{Sha256Laws, HexLaws, FaestLaws, Base64Laws, BlindSig}.

Definition key_record (seq : N) (pk : IssuerPublicKey) (nb : N) : KeyRecord :=
  {| kr_seq := seq; kr_key_version := pk_key_version pk;
     kr_token_key_id := hex_encode (Scheme_token_key_id (pk_key pk)); kr_not_before := nb |}.

Fixpoint key_records (seq : N) (keys : list (IssuerPublicKey * N)) : list KeyRecord :=
  match keys with
  | [] => []
  | (pk, nb) :: keys => key_record seq pk nb :: key_records (seq + 1) keys
  end.

Lemma KeyLog_append_all_spec log keys :
  KeyLog_append_all log keys
  = Ok {| kl_records := kl_records log ++ key_records (len (kl_records log)) keys |}.
Proof.
  revert log. induction keys as [|[pk nb] keys IH]; intros log; cbn.
  { rewrite app_nil_r. by destruct log. }
  rewrite IH. cbn [kl_records]. rewrite <- app_assoc. do 4 f_equal.
  unfold len. rewrite length_app. cbn. f_equal. lia.
Qed.

Lemma key_record_id seq pk nb :
  token_key_id_bytes (key_record seq pk nb) = Ok (Scheme_token_key_id (pk_key pk)).
Proof.
  apply token_key_id_bytes_Ok. unfold key_record. cbn [kr_token_key_id]. rewrite trim_hex_encode, hex_decode_encode.
  split; [done|]. apply sha256_length.
Qed.

Lemma key_records_have_id seq keys : Forall has_key_id (key_records seq keys).
Proof.
  revert seq. induction keys as [|[pk nb] keys IH]; intros seq; constructor; [|done].
  eexists. apply key_record_id.
Qed.

Lemma length_key_records seq keys : length (key_records seq keys) = length keys.
Proof. revert seq. induction keys as [|[pk nb] keys IH]; intros seq; cbn; auto. Qed.

Lemma key_records_app seq keys more :
  key_records seq (keys ++ more) = key_records seq keys ++ key_records (seq + len keys) more.
Proof.
  revert seq. induction keys as [|[pk nb] keys IH]; intros seq; cbn.
  { by rewrite N.add_0_r. }
  rewrite IH. do 3 f_equal. unfold len. cbn. lia.
Qed.

Lemma key_records_lookup seq keys i pk nb :
  keys !! i = Some (pk, nb) ->
  key_records seq keys !! i = Some (key_record (seq + N.of_nat i) pk nb).
Proof.
  revert seq i. induction keys as [|[pk' nb'] keys IH]; intros seq [|i]; cbn; try done.
  - intros [= -> ->]. by rewrite N.add_0_r.
  - intros Hi%(IH (seq + 1)). etrans; [exact Hi|]. do 2 f_equal. lia.
Qed.

Lemma key_records_lookup_inv seq keys i r :
  key_records seq keys !! i = Some r ->
  exists pk nb, keys !! i = Some (pk, nb) /\ r = key_record (seq + N.of_nat i) pk nb.
Proof.
  intros Hr. assert (Hi : (i < length keys)%nat)
    by (apply lookup_lt_Some in Hr; by rewrite length_key_records in Hr).
  apply lookup_lt_is_Some in Hi as [[pk nb] Hpk]. exists pk, nb. split; [done|].
  apply (key_records_lookup seq) in Hpk. congruence.
Qed.

Lemma LogSigner_sign_spec signer log :
  Forall has_key_id (kl_records log) ->
  exists head, head_of (kl_records log) = Ok head /\
  LogSigner_sign signer log = Ok {| sh_seq := len (kl_records log) - 1; sh_head := hex_encode head;
    sh_sig := b64_encode STANDARD
      (faest_sig_sign (ls_sk signer) (sth_message (len (kl_records log) - 1) head)) |}.
Proof.
  intros Hl. destruct (head_of_total _ Hl) as [head Hh]. exists head. split; [done|].
  unfold LogSigner_sign, KeyLog_head. by rewrite Hh.
Qed.

Lemma signed_head_parses (seq : N) (head : bytes) (sig : str) :
  length head = 32%nat ->
  parse_head {| sh_seq := seq; sh_head := hex_encode head; sh_sig := sig |} = Ok head.
Proof. intros Hl. apply parse_head_Ok. cbn [sh_head]. by rewrite trim_hex_encode, hex_decode_encode. Qed.

(** What the operator publishes, the client accepts. *)
Lemma sign_verify_log `{BuildProfile} signer log sth :
  Forall has_key_id (kl_records log) -> kl_records log <> [] ->
  len (kl_records log) < 2 ^ 64 ->
  LogSigner_sign signer log = Ok sth ->
  verify_log (LogSigner_public signer) (kl_records log) sth = Ok tt.
Proof.
  intros Hid Hne Hlt Hs. destruct (LogSigner_sign_spec signer log Hid) as (head & Hh & Hsign).
  rewrite Hsign in Hs. injection Hs as <-.
  assert (Hpos : 0 < len (kl_records log)) by (unfold len; destruct (kl_records log); [done|cbn; lia]).
  apply verify_log_Ok; cbn [sh_seq sh_sig]; [lia|]. split; [lia|].
  exists head, (faest_verifying_key (ls_sk signer)).
  eexists. split_and!; [done| |apply faest_vk_roundtrip| |apply faest_sig_verify_sign].
  - apply signed_head_parses. by eapply head_of_length.
  - by rewrite trim_b64_encode, b64_decode_encode.
Qed.

(** A head signed at any earlier time is consistent with the log now. *)
Lemma sign_consistent signer (l k : list KeyRecord) sth :
  Forall has_key_id (l ++ k) -> l <> [] ->
  LogSigner_sign signer {| kl_records := l |} = Ok sth ->
  verify_consistency sth (l ++ k) = Ok tt.
Proof.
  intros Hid Hne Hs. pose proof Hid as [Hidl _]%Forall_app.
  destruct (LogSigner_sign_spec signer {| kl_records := l |} Hidl) as (head & Hh & Hsign).
  rewrite Hsign in Hs. injection Hs as <-. cbn [kl_records] in *.
  assert (Hpos : (0 < length l)%nat) by (destruct l; [done|cbn; lia]).
  destruct (chain_heads_from_total genesis_head _ Hid) as [hs Hhs].
  pose proof (chain_heads_from_length _ _ _ Hhs) as Hlen. rewrite length_app in Hlen.
  assert (Hlt : (length l - 1 < length hs)%nat) by lia.
  apply lookup_lt_is_Some in Hlt as [h Hh'].
  apply verify_consistency_Ok. exists hs, head. cbn [sh_seq].
  replace (N.to_nat (len l - 1)) with (length l - 1)%nat by (unfold len; lia).
  split_and!; [rewrite length_app; lia|done| |apply signed_head_parses; by eapply head_of_length].
  rewrite Hh'. eapply chain_heads_prefix in Hh'; [|done|done|done]. congruence.
Qed.

End log.

(** ** Properties *)

(** C27: a signed head commits to the log: two logs accepted under one head,
    whatever the log keys, have the same records up to the spelling of key ids,
    or the chain of hashes shows a SHA-256 collision. *)
Theorem head_commits_to_log `{Sha256Laws, Hex, Faest, Base64, BuildProfile} pub pub' l l' sth :
  Forall wf_record l -> Forall wf_record l' -> sh_seq sth + 1 < 2 ^ 64 ->
  verify_log pub l sth = Ok tt -> verify_log pub' l' sth = Ok tt ->
  Forall2 same_record l l' \/ collides (chain_messages l) (chain_messages l').
Proof.
  intros Hl Hl' Hs (Hn & h & _ & _ & Hh & Hp & _)%verify_log_Ok
    (Hn' & h' & _ & _ & Hh' & Hp' & _)%verify_log_Ok; [|done..].
  assert (h' = h) as -> by congruence. eapply head_of_pins; [done..| |done|done].
  unfold len in *. lia.
Qed.

(** The operator's log and the client's checks agree: whatever keys are
    appended to an empty log and signed, the log verifies under the signer's
    public key, every appended key is found in it, and it is consistent with the
    head signed after any non-empty prefix. *)
Theorem signed_log_verifies `{Sha256Laws, HexLaws, FaestLaws, Base64Laws, BlindSig, BuildProfile}
    signer ks more log log' sth sth' :
  ks <> [] -> len (ks ++ more) < 2 ^ 64 ->
  KeyLog_append_all KeyLog_new ks = Ok log -> LogSigner_sign signer log = Ok sth ->
  KeyLog_append_all log more = Ok log' -> LogSigner_sign signer log' = Ok sth' ->
  verify_log (LogSigner_public signer) (kl_records log') sth' = Ok tt
  /\ verify_consistency sth (kl_records log') = Ok tt
  /\ (forall pk nb, (pk, nb) ∈ ks ++ more ->
      exists n, verify_inclusion (kl_records log') (Scheme_token_key_id (pk_key pk)) = Ok n).
Proof.
  intros Hne Hlen Ha Hs Ha' Hs'. rewrite KeyLog_append_all_spec in Ha, Ha'.
  injection Ha as <-. injection Ha' as <-. cbn [kl_records KeyLog_new app] in *.
  assert (Hl : len (key_records 0 ks) = len ks) by (unfold len; by rewrite length_key_records).
  change (len []) with 0 in *. rewrite Hl, <- (N.add_0_l (len ks)), <- key_records_app in *.
  split_and!.
  - apply (sign_verify_log signer {| kl_records := key_records 0 (ks ++ more) |});
      [apply key_records_have_id| |cbn; unfold len in *; by rewrite length_key_records|done].
    cbn. by destruct ks as [|[]].
  - rewrite key_records_app. apply (sign_consistent signer); [|by destruct ks as [|[]]|done].
    apply Forall_app. split; apply key_records_have_id.
  - intros pk nb [i Hi]%list_elem_of_lookup. apply (key_records_lookup 0) in Hi.
    unfold verify_inclusion. destruct (list_find _ _) as [[j r]|] eqn:Hf; [by eexists|].
    exfalso. apply list_find_None in Hf. rewrite Forall_forall in Hf.
    eapply Hf; [by eapply list_elem_of_lookup_2|]. apply Is_true_true, eq_ignore_ascii_case_refl.
Qed.
