(* ===== verification/Policy.v ===== *)
(** * Operator policies: policy/src/schema.rs, diff.rs, sign.rs and lib.rs

The policy record and [validate], the anonymity-set class built from it, the
comparison of two policies, the signed sidecar file, and what the attester
loads.  The files read are a function [fs_read], the environment variables
arguments. *)

From S2P Require Import Prelude RustStr Externals Core Gate.

(** ** schema.rs *)

Inductive PolicyError :=
| PIo (msg : str)
| PJson (msg : str)
| PInvalid (msg : str).

#[export] Instance PolicyError_eq_dec : EqDecision PolicyError.
Proof. solve_decision. Defined.

Definition PolicyError_display (e : PolicyError) : str :=
  match e with
  | PIo m => B "io: " ++ m
  | PJson m => B "json: " ++ m
  | PInvalid m => B "policy invalid: " ++ m
  end.

Inductive EvidenceProfile :=
| UqEat
| AzureSnpBundle
| AzureAttestedTls
| AndroidKeyAttestation
| IosAppAttest
| DesktopTpmClient
| MacOsAppAttest.

#[export] Instance EvidenceProfile_eq_dec : EqDecision EvidenceProfile.
Proof. solve_decision. Defined.

Definition EvidenceProfile_debug (p : EvidenceProfile) : str :=
  match p with
  | UqEat => B "UqEat"
  | AzureSnpBundle => B "AzureSnpBundle"
  | AzureAttestedTls => B "AzureAttestedTls"
  | AndroidKeyAttestation => B "AndroidKeyAttestation"
  | IosAppAttest => B "IosAppAttest"
  | DesktopTpmClient => B "DesktopTpmClient"
  | MacOsAppAttest => B "MacOsAppAttest"
  end.

Inductive RegistryMinimum := Recommended | Deprecated.

#[export] Instance RegistryMinimum_eq_dec : EqDecision RegistryMinimum.
Proof. solve_decision. Defined.

Definition RegistryMinimum_accepts (m : RegistryMinimum) (status : str) : bool :=
  match m with
  | Recommended => bool_decide (status = B "recommended")
  | Deprecated => bool_decide (status = B "recommended") || bool_decide (status = B "deprecated")
  end.

Inductive TrustTier := SoftwareWitness | RelayInherited | DeviceAttested | SiliconCvm.

#[export] Instance TrustTier_eq_dec : EqDecision TrustTier.
Proof. solve_decision. Defined.

Definition TrustTier_label (t : TrustTier) : str :=
  match t with
  | SoftwareWitness => B "software-witness"
  | RelayInherited => B "relay-inherited"
  | DeviceAttested => B "device-attested"
  | SiliconCvm => B "silicon-cvm"
  end.

Definition TrustTier_from_label (label : str) : option TrustTier :=
  if decide (label = B "software-witness") then Some SoftwareWitness
  else if decide (label = B "relay-inherited") then Some RelayInherited
  else if decide (label = B "device-attested") then Some DeviceAttested
  else if decide (label = B "silicon-cvm") then Some SiliconCvm
  else None.

Definition TrustTier_rank (t : TrustTier) : N :=
  match t with
  | SoftwareWitness => 0
  | RelayInherited => 1
  | DeviceAttested => 2
  | SiliconCvm => 3
  end.

Definition TrustTier_accepts (min actual : TrustTier) : bool :=
  TrustTier_rank min <=? TrustTier_rank actual.

Record ClassSpec := { spec_name : str; spec_version : N }.

#[export] Instance ClassSpec_eq_dec : EqDecision ClassSpec.
Proof. solve_decision. Defined.

Record AllowEntry := {
  ae_measurement : option bytes;
  ae_app_id_hash : option bytes;
  ae_registry_status : option str;
}.

#[export] Instance AllowEntry_eq_dec : EqDecision AllowEntry.
Proof. solve_decision. Defined.

Record VerificationPolicy `{Chrono} := {
  vp_version : N;
  vp_id : str;
  vp_valid_until : option DateTime;
  vp_evidence_profile : EvidenceProfile;
  vp_class : ClassSpec;
  vp_registry_minimum : RegistryMinimum;
  vp_min_tier : TrustTier;
  vp_allowed_tier_details : list str;
  vp_allow : list AllowEntry;
  vp_require_ima : bool;
  vp_boot_aggregates : list str;
  vp_desktop_tpm_ek_roots : list str;
  vp_desktop_tpm_activation_pubkeys : list str;
  vp_notes : option str;
}.

Definition default_registry_minimum : RegistryMinimum := Recommended.
Definition default_min_tier : TrustTier := SoftwareWitness.

(** [for (i, x) in l.iter().enumerate() { body }] with an early return. *)
Fixpoint for_enumerate {E A} (body : N -> A -> result E unit) (i : N) (l : list A) :
    result E unit :=
  match l with
  | [] => Ok tt
  | x :: l => _ ← body i x; for_enumerate body (i + 1) l
  end.

(** [Option<Vec<u8>>::is_some_and(|m| !m.is_empty())]. *)
Definition some_nonempty (o : option bytes) : bool :=
  match o with Some (_ :: _) => true | _ => false end.

Definition is_app_profile (p : EvidenceProfile) : bool :=
  match p with
  | AndroidKeyAttestation | IosAppAttest | MacOsAppAttest => true
  | _ => false
  end.

Definition validate_allow (profile : EvidenceProfile) (i : N) (e : AllowEntry) :
    result PolicyError unit :=
  let has_m := some_nonempty (ae_measurement e) in
  let has_a := some_nonempty (ae_app_id_hash e) in
  let at_i := B "allow[" ++ display_N i in
  if Bool.eqb has_m has_a then
    Err (PInvalid (at_i ++ B "]: set exactly one of measurement or app_id_hash"))
  else
    match profile with
    | AndroidKeyAttestation | IosAppAttest | MacOsAppAttest =>
        if has_a then Ok tt
        else Err (PInvalid (at_i ++ B "]: app-attest profile requires app_id_hash only"))
    | DesktopTpmClient =>
        if has_m then Ok tt
        else Err (PInvalid (at_i
               ++ B "]: desktop-tpm profile requires measurement (build_id_hash) only"))
    | _ =>
        if has_m then Ok tt
        else Err (PInvalid (at_i ++ B "]: CVM profile requires measurement only"))
    end.

Section schema.
Context `{Hex, Chrono}.

(** [hex::decode(s.trim()).map(|v| v.len()).unwrap_or(0)]. *)
Definition hex_len (s : str) : N :=
  match hex_decode (trim s) with inr v => len v | inl _ => 0 end.

Definition validate_hex32 (field what : str) (i : N) (s : str) : result PolicyError unit :=
  if decide (hex_len s <> 32) then
    Err (PInvalid (field ++ B "[" ++ display_N i ++ B "] must be 32-byte hex" ++ what))
  else Ok tt.

Definition validate_detail (i : N) (d : str) : result PolicyError unit :=
  if decide (trim d = []) then
    Err (PInvalid (B "allowed_tier_details[" ++ display_N i ++ B "] must be non-empty"))
  else Ok tt.

Definition has_desktop_tpm_policy (p : VerificationPolicy) : bool :=
  vp_require_ima p || bool_decide (vp_boot_aggregates p <> [])
  || bool_decide (vp_desktop_tpm_ek_roots p <> [])
  || bool_decide (vp_desktop_tpm_activation_pubkeys p <> []).

Definition validate (p : VerificationPolicy) : result PolicyError unit :=
  if decide (vp_version p <> 1) then
    Err (PInvalid (B "unsupported policy version " ++ display_N (vp_version p)))
  else if decide (vp_id p = []) then Err (PInvalid (B "id must be non-empty"))
  else if decide (spec_name (vp_class p) = []) then
    Err (PInvalid (B "class.name must be non-empty"))
  else if decide (vp_allow p = []) then Err (PInvalid (B "allow must not be empty"))
  else
    _ ← for_enumerate validate_detail 0 (vp_allowed_tier_details p);
    _ ← for_enumerate (validate_allow (vp_evidence_profile p)) 0 (vp_allow p);
    if has_desktop_tpm_policy p && bool_decide (vp_evidence_profile p <> DesktopTpmClient) then
      Err (PInvalid
        (B "desktop TPM trust-root fields are only valid for the desktop-tpm profile"))
    else
      _ ← (if decide (vp_evidence_profile p = DesktopTpmClient) then
             if decide (vp_desktop_tpm_ek_roots p = []) then
               Err (PInvalid (B "desktop-tpm profile requires desktop_tpm_ek_roots"))
             else if decide (vp_desktop_tpm_activation_pubkeys p = []) then
               Err (PInvalid (B "desktop-tpm profile requires desktop_tpm_activation_pubkeys"))
             else Ok tt
           else Ok tt);
      _ ← for_enumerate (validate_hex32 (B "boot_aggregates") (B " (sha256 over PCR 0-9)")) 0
            (vp_boot_aggregates p);
      _ ← for_enumerate (validate_hex32 (B "desktop_tpm_ek_roots")
                           (B " (sha256 of DER root cert)")) 0
            (vp_desktop_tpm_ek_roots p);
      for_enumerate (validate_hex32 (B "desktop_tpm_activation_pubkeys")
                       (B " Ed25519 public key")) 0
        (vp_desktop_tpm_activation_pubkeys p).

Definition from_json_bytes `{Json VerificationPolicy} (b : bytes) :
    result PolicyError VerificationPolicy :=
  p ← map_err PJson (of_sum (json_from_slice b));
  _ ← validate p;
  Ok p.

(** [hex::decode(s.trim()).ok().and_then(|v| <[u8; 32]>::try_from(v).ok())]. *)
Definition hex32 (s : str) : option bytes :=
  match hex_decode (trim s) with inr v => array32 v | inl _ => None end.

Definition boot_aggregates_bytes (p : VerificationPolicy) : list bytes :=
  omap hex32 (vp_boot_aggregates p).

Definition desktop_tpm_ek_roots_bytes (p : VerificationPolicy) : list str :=
  (fun s => to_ascii_lowercase (trim s)) <$> vp_desktop_tpm_ek_roots p.

Definition desktop_tpm_activation_pubkeys_bytes (p : VerificationPolicy) : list bytes :=
  omap hex32 (vp_desktop_tpm_activation_pubkeys p).

Definition is_expired (p : VerificationPolicy) (now : DateTime) : bool :=
  match vp_valid_until p with Some u => dt_gt now u | None => false end.

(** [Option::or]. *)
Definition opt_or {A} (a b : option A) : option A :=
  match a with Some x => Some x | None => b end.

Definition entry_id (e : AllowEntry) : option bytes :=
  opt_or (ae_measurement e) (ae_app_id_hash e).

Definition measurement_class (p : VerificationPolicy) : MeasurementClass :=
  MeasurementClass_new (spec_name (vp_class p)) (spec_version (vp_class p))
    (omap entry_id (vp_allow p)).

End schema.

(** ** diff.rs *)

Record PolicyDiff := {
  left_id : str;
  right_id : str;
  same_class : bool;
  same_profile : bool;
  same_min_tier : bool;
  same_tier_details : bool;
  valid_until_changed : bool;
  added_allow : gset str;
  removed_allow : gset str;
  notes_changed : bool;
}.

Section diff.
Context `{Hex, Chrono}.

Definition allow_id_hex (e : AllowEntry) : option str := hex_encode <$> entry_id e.

Definition allow_set (p : VerificationPolicy) : gset str :=
  list_to_set (omap allow_id_hex (vp_allow p)).

Definition diff (l r : VerificationPolicy) : PolicyDiff := {|
  left_id := vp_id l;
  right_id := vp_id r;
  same_class := bool_decide (spec_name (vp_class l) = spec_name (vp_class r))
    && (spec_version (vp_class l) =? spec_version (vp_class r));
  same_profile := bool_decide (vp_evidence_profile l = vp_evidence_profile r);
  same_min_tier := bool_decide (vp_min_tier l = vp_min_tier r);
  same_tier_details := bool_decide (vp_allowed_tier_details l = vp_allowed_tier_details r);
  valid_until_changed := bool_decide (vp_valid_until l <> vp_valid_until r);
  added_allow := allow_set r ∖ allow_set l;
  removed_allow := allow_set l ∖ allow_set r;
  notes_changed := bool_decide (vp_notes l <> vp_notes r);
|}.

End diff.

Definition PolicyDiff_is_empty (d : PolicyDiff) : bool :=
  same_class d && same_profile d && same_min_tier d && same_tier_details d
  && negb (valid_until_changed d) && bool_decide (added_allow d = ∅)
  && bool_decide (removed_allow d = ∅) && negb (notes_changed d).

(** ** sign.rs and lib.rs *)

(** A path as its parent and its file name, the form [set_file_name] works on. *)
Record Path := { path_dir : str; path_file : option bytes }.

(** The file system the process reads, with the text of its errors. *)
Class Fs := {
  fs_read : Path -> str + bytes;
  (** The outcome of [std::fs::write]. *)
  fs_write : Path -> bytes -> str + unit;
  path_display : Path -> str;
}.

(** [path.file_name().and_then(|s| s.to_str())]. *)
Definition file_name_str (p : Path) : option str :=
  match path_file p with
  | Some n => match utf8_check 0 n with None => Some n | Some _ => None end
  | None => None
  end.

Definition sidecar_path (p : Path) : Path :=
  let name := default (B "policy.json") (file_name_str p) in
  {| path_dir := path_dir p; path_file := Some (name ++ B ".sig") |}.

(** [std::fs::read_to_string]. *)
Definition fs_read_to_string `{Fs} (p : Path) : str + str :=
  match fs_read p with
  | inl e => inl e
  | inr b => match utf8_check 0 b with
             | None => inr b
             | Some _ => inl (B "stream did not contain valid UTF-8")
             end
  end.

Section sign.
Context `{Hex, Chrono, Json VerificationPolicy, Faest, Base64, Fs}.

Definition from_json_file (path : Path) : result PolicyError VerificationPolicy :=
  b ← map_err PIo (of_sum (fs_read path)); from_json_bytes b.

Definition load_verified (path : Path) (trusted : list faest_vk) :
    result PolicyError VerificationPolicy :=
  b ← map_err PIo (of_sum (fs_read path));
  policy ← from_json_bytes b;
  if decide (trusted = []) is left _ then Ok policy
  else
    let sig_path := sidecar_path path in
    sig_b64 ← map_err (fun e => PInvalid (B "policy sidecar " ++ path_display sig_path
                ++ B " required when trusted keys are configured: " ++ e))
                (of_sum (fs_read_to_string sig_path));
    sig ← map_err (fun e => PInvalid (B "policy sidecar bad base64: " ++ e))
            (of_sum (b64_decode STANDARD (trim sig_b64)));
    if existsb (fun vk => is_ok (faest_sig_verify vk b sig)) trusted then Ok policy
    else Err (PInvalid
      (B "policy sidecar signature does not verify under any trusted key")).

(** The loop of [trusted_pubs_from_env] over [raw.split(',').enumerate()]. *)
Fixpoint parse_trusted (i : N) (l : list str) : result PolicyError (list faest_vk) :=
  match l with
  | [] => Ok []
  | s :: l =>
      let hex_str := trim s in
      if decide (hex_str = []) then parse_trusted (i + 1) l
      else
        vk ← map_err (fun e => PInvalid (B "EATPASS_POLICY_TRUSTED_PUB[" ++ display_N i ++ B "]: "
               ++ Error_display e)) (verifying_key_from_hex hex_str);
        out ← parse_trusted (i + 1) l;
        Ok (vk :: out)
  end.

(** [EATPASS_POLICY_TRUSTED_PUB], where it is set. *)
Definition trusted_pubs_from_env (var : option str) : result PolicyError (list faest_vk) :=
  match var with
  | None => Ok []
  | Some raw => parse_trusted 0 (split [x2c] raw)
  end.

(** [EATPASS_POLICY_SIGNING_SEED], where it is set. *)
Definition signing_key_from_env (var : option str) : result PolicyError faest_sk :=
  hex_str ← ok_or var (PInvalid
    (B "EATPASS_POLICY_SIGNING_SEED required (64 hex chars) to sign policy sidecars"));
  b ← map_err (fun e => PInvalid (B "EATPASS_POLICY_SIGNING_SEED bad hex: " ++ e))
        (of_sum (hex_decode (trim hex_str)));
  seed ← ok_or (array32 b) (PInvalid (B "EATPASS_POLICY_SIGNING_SEED must be 32 bytes"));
  map_err (fun e => PInvalid (Error_display e)) (signing_key_from_seed seed).

(** The state is the list of files written. *)
Definition sign_policy_file (path : Path) (seed_var : option str) :
    run (list (Path * bytes)) PolicyError Path :=
  b ← lift (map_err PIo (of_sum (fs_read path)));
  _ ← lift (from_json_bytes b);
  sk ← lift (signing_key_from_env seed_var);
  let sig := faest_sig_sign sk b in
  let out := sidecar_path path in
  let text := b64_encode STANDARD sig in
  _ ← lift (map_err PIo (of_sum (fs_write out text)));
  _ ← modify (cons (out, text));
  mret out.

Definition evidence_profile_for_gate (gate : str) : result PolicyError EvidenceProfile :=
  if decide (gate = B "uq") then Ok UqEat
  else if decide (gate = B "azure") then Ok AzureSnpBundle
  else if decide (gate = B "azure-tls") then Ok AzureAttestedTls
  else if decide (gate = B "android-key" \/ gate = B "android") then Ok AndroidKeyAttestation
  else if decide (gate = B "ios-app-attest" \/ gate = B "ios") then Ok IosAppAttest
  else if decide (gate = B "desktop-tpm" \/ gate = B "linux-tpm" \/ gate = B "windows-tpm")
       then Ok DesktopTpmClient
  else if decide (gate = B "macos-app-attest" \/ gate = B "macos") then Ok MacOsAppAttest
  else Err (PInvalid (B "unknown gate '" ++ gate ++ B "'")).

(** [{:?}] of the expiry. *)
Definition valid_until_debug (o : option DateTime) : str :=
  match o with None => B "None" | Some d => B "Some(" ++ dt_debug d ++ B ")" end.

Definition load_for_attester (path : Path) (gate : str) (trusted : list faest_vk)
    (now : DateTime) : result PolicyError VerificationPolicy :=
  policy ← load_verified path trusted;
  if is_expired policy now then
    Err (PInvalid (B "policy " ++ vp_id policy ++ B " expired (valid_until="
      ++ valid_until_debug (vp_valid_until policy) ++ B ")"))
  else
    want ← evidence_profile_for_gate gate;
    if decide (vp_evidence_profile policy <> want) then
      Err (PInvalid (B "policy evidence_profile "
        ++ EvidenceProfile_debug (vp_evidence_profile policy) ++ B " does not match --gate "
        ++ gate ++ B " (" ++ EvidenceProfile_debug want ++ B ")"))
    else Ok policy.

End sign.

(** ** Validity *)

Section validity.
Context `{Hex, Chrono}.

(** What an allow entry holds in a valid policy of a profile. *)
Definition valid_entry (profile : EvidenceProfile) (e : AllowEntry) : Prop :=
  if is_app_profile profile
  then some_nonempty (ae_app_id_hash e) = true /\ some_nonempty (ae_measurement e) = false
  else some_nonempty (ae_measurement e) = true /\ some_nonempty (ae_app_id_hash e) = false.

(** What [validate] promises. *)
Record valid_policy (p : VerificationPolicy) : Prop := {
  valid_version : vp_version p = 1;
  valid_id : vp_id p <> [];
  valid_class_name : spec_name (vp_class p) <> [];
  valid_allow : vp_allow p <> [];
  valid_details : Forall (fun d => trim d <> []) (vp_allowed_tier_details p);
  valid_entries : Forall (valid_entry (vp_evidence_profile p)) (vp_allow p);
  valid_desktop :
    if decide (vp_evidence_profile p = DesktopTpmClient)
    then vp_desktop_tpm_ek_roots p <> [] /\ vp_desktop_tpm_activation_pubkeys p <> []
    else vp_require_ima p = false /\ vp_boot_aggregates p = []
         /\ vp_desktop_tpm_ek_roots p = [] /\ vp_desktop_tpm_activation_pubkeys p = [];
  valid_boot : Forall (fun s => hex_len s = 32) (vp_boot_aggregates p);
  valid_roots : Forall (fun s => hex_len s = 32) (vp_desktop_tpm_ek_roots p);
  valid_keys : Forall (fun s => hex_len s = 32) (vp_desktop_tpm_activation_pubkeys p);
}.

Lemma for_enumerate_Ok {E A} (body : N -> A -> result E unit) (P : A -> Prop) i l :
  (forall i x, body i x = Ok tt <-> P x) ->
  for_enumerate body i l = Ok tt <-> Forall P l.
Proof.
  intros Hb. revert i. induction l as [|x l IH]; intros i; cbn [for_enumerate]; [done|].
  rewrite bind_Ok, Forall_cons, <- (IH (i + 1)), <- (Hb i x). split.
  - by intros ([] & ? & ?).
  - intros [? ?]. by exists tt.
Qed.

Lemma for_enumerate_no_panic {E A} (body : N -> A -> result E unit) i l :
  (forall i x, body i x <> Panic) -> for_enumerate body i l <> Panic.
Proof.
  intros Hb. revert i. induction l as [|x l IH]; intros i; cbn [for_enumerate]; [done|].
  rewrite bind_Panic. intros [Hp|(? & _ & Hp)]; [by apply Hb in Hp|by apply IH in Hp].
Qed.

Lemma validate_detail_Ok i d : validate_detail i d = Ok tt <-> trim d <> [].
Proof. unfold validate_detail. case_decide; naive_solver. Qed.

Lemma validate_hex32_Ok f w i s : validate_hex32 f w i s = Ok tt <-> hex_len s = 32.
Proof. unfold validate_hex32. case_decide; naive_solver. Qed.

Lemma validate_allow_Ok profile i e :
  validate_allow profile i e = Ok tt <-> valid_entry profile e.
Proof.
  unfold validate_allow, valid_entry.
  destruct (some_nonempty (ae_measurement e)), (some_nonempty (ae_app_id_hash e));
    destruct profile; cbn; split; try done; intros [? ?]; done.
Qed.

Lemma validate_Ok p : validate p = Ok tt <-> valid_policy p.
Proof.
  unfold validate. repeat (case_decide; [split; [done|by intros []]|]).
  rewrite bind_Ok. setoid_rewrite bind_Ok.
  split.
  - intros ([] & Hd%(for_enumerate_Ok _ _ _ _ validate_detail_Ok) & [] &
      He%(for_enumerate_Ok _ _ _ _ (validate_allow_Ok _)) & Hr).
    destruct (has_desktop_tpm_policy p && _) eqn:Hdt; [done|].
    apply bind_Ok in Hr as ([] & Hdesk & Hr).
    apply bind_Ok in Hr as ([] & Hb%(for_enumerate_Ok _ _ _ _ (validate_hex32_Ok _ _)) & Hr).
    apply bind_Ok in Hr as ([] & Hk%(for_enumerate_Ok _ _ _ _ (validate_hex32_Ok _ _)) & Ha).
    apply (for_enumerate_Ok _ _ _ _ (validate_hex32_Ok _ _)) in Ha.
    split; try done.
    case_decide as Hp; [by repeat case_decide|].
    rewrite (bool_decide_true _ Hp), andb_true_r in Hdt. unfold has_desktop_tpm_policy in Hdt.
    rewrite !orb_false_iff, !bool_decide_eq_false in Hdt.
    destruct Hdt as [[[? Hx] Hy] Hz]. apply dec_stable in Hx, Hy, Hz. by split_and!.
  - intros [_ _ _ _ Hd He Hdesk Hb Hk Ha].
    exists tt. split; [by apply (for_enumerate_Ok _ _ _ _ validate_detail_Ok)|].
    exists tt. split; [by apply (for_enumerate_Ok _ _ _ _ (validate_allow_Ok _))|].
    assert (has_desktop_tpm_policy p && bool_decide (vp_evidence_profile p <> DesktopTpmClient)
      = false) as ->.
    { unfold has_desktop_tpm_policy. case_decide as Hp.
      - rewrite (bool_decide_false (vp_evidence_profile p <> DesktopTpmClient))
          by (intros Hn; by apply Hn). by rewrite andb_false_r.
      - destruct Hdesk as (-> & -> & -> & ->). done. }
    apply bind_Ok. exists tt. split.
    { case_decide; [|done]. destruct Hdesk. by rewrite !decide_False by done. }
    apply bind_Ok. exists tt. split; [by apply (for_enumerate_Ok _ _ _ _ (validate_hex32_Ok _ _))|].
    apply bind_Ok. exists tt. split; [by apply (for_enumerate_Ok _ _ _ _ (validate_hex32_Ok _ _))|].
    by apply (for_enumerate_Ok _ _ _ _ (validate_hex32_Ok _ _)).
Qed.

Lemma validate_no_panic p : validate p <> Panic.
Proof.
  assert (Hh : forall f w i s, validate_hex32 f w i s <> Panic)
    by (intros; unfold validate_hex32; by case_decide).
  unfold validate. repeat (case_decide; [done|]).
  rewrite bind_Panic. intros [Hp|(? & _ & Hp)].
  { eapply for_enumerate_no_panic, Hp. intros j d. unfold validate_detail. by case_decide. }
  rewrite bind_Panic in Hp. destruct Hp as [Hp|(? & _ & Hp)].
  { eapply for_enumerate_no_panic, Hp. intros j e. unfold validate_allow.
    by repeat case_match. }
  destruct (has_desktop_tpm_policy p && _); [done|].
  rewrite bind_Panic in Hp. destruct Hp as [Hp|(? & _ & Hp)]; [by repeat case_decide|].
  do 2 (rewrite bind_Panic in Hp; destruct Hp as [Hp|(? & _ & Hp)];
    [by eapply for_enumerate_no_panic, Hp|]).
  by eapply for_enumerate_no_panic, Hp.
Qed.

Lemma TrustTier_label_roundtrip t : TrustTier_from_label (TrustTier_label t) = Some t.
Proof. by destruct t. Qed.

Lemma TrustTier_from_label_Some l t : TrustTier_from_label l = Some t <-> l = TrustTier_label t.
Proof.
  split; [|intros ->; apply TrustTier_label_roundtrip].
  unfold TrustTier_from_label. repeat (case_decide; [by intros [= <-]|]). done.
Qed.

Lemma measurement_class_contains p v :
  class_contains (measurement_class p) v = true <->
  exists e, e ∈ vp_allow p /\ entry_id e = Some v.
Proof.
  unfold class_contains, measurement_class. rewrite bool_decide_eq_true. cbn.
  rewrite elem_of_list_to_set, list_elem_of_omap. done.
Qed.

End validity.

(** ** Loading and signing *)

Section loading.
Context `{Hex, Chrono, Json VerificationPolicy, Faest, Base64}.

Lemma from_json_bytes_Ok b p :
  from_json_bytes b = Ok p <-> json_from_slice b = inr p /\ valid_policy p.
Proof.
  unfold from_json_bytes. rewrite bind_Ok. setoid_rewrite map_err_Ok.
  setoid_rewrite of_sum_Ok. split.
  - intros (p' & Hj & Hv). apply bind_Ok in Hv as ([] & Hv%validate_Ok & [= ->]). done.
  - intros [Hj Hv]. exists p. split; [done|]. apply bind_Ok. exists tt.
    split; [by apply validate_Ok|done].
Qed.

(** A policy is loaded from valid bytes and, where keys are configured, from
    bytes one of them signed. *)
Lemma load_verified_Ok `{Fs} path trusted p :
  load_verified path trusted = Ok p <->
  exists b, fs_read path = inr b /\ json_from_slice b = inr p /\ valid_policy p
  /\ (trusted = [] \/
      trusted <> [] /\
      exists text sig, fs_read_to_string (sidecar_path path) = inr text
        /\ b64_decode STANDARD (trim text) = inr sig
        /\ Exists (fun vk => faest_sig_verify vk b sig = Ok tt) trusted).
Proof.
  unfold load_verified. rewrite bind_Ok. setoid_rewrite map_err_Ok.
  setoid_rewrite of_sum_Ok.
  assert (Hex : forall b sig,
    existsb (fun vk => is_ok (faest_sig_verify vk b sig)) trusted = true
    <-> Exists (fun vk => faest_sig_verify vk b sig = Ok tt) trusted).
  { intros b sig. rewrite existsb_exists, Exists_exists. setoid_rewrite list_elem_of_In.
    split; intros (vk & Hin & Hv); exists vk; split; try done.
    - by destruct (faest_sig_verify vk b sig) as [[]| |].
    - by rewrite Hv. }
  split.
  - intros (b & Hb & Hr). apply bind_Ok in Hr as (p' & [Hj Hv]%from_json_bytes_Ok & Hr).
    exists b. case_decide as Ht; [injection Hr as ->; by split_and!; [..|left]|].
    apply bind_Ok in Hr as (text & Hx%map_err_Ok%of_sum_Ok & Hr).
    apply bind_Ok in Hr as (sig & Hs%map_err_Ok%of_sum_Ok & Hr).
    destruct (existsb _ _) eqn:Hok; [|done]. injection Hr as ->.
    split_and!; [done..|]. right. split; [done|]. exists text, sig.
    split_and!; [done..|]. by apply Hex.
  - intros (b & Hb & Hj & Hv & Ht). exists b. split; [done|].
    apply bind_Ok. exists p. split; [by apply from_json_bytes_Ok|].
    destruct Ht as [->|(Ht & text & sig & Hx & Hs & Hok)]; [by rewrite decide_True|].
    rewrite decide_False by done. apply bind_Ok. exists text. split; [by rewrite Hx|].
    apply bind_Ok. exists sig. split; [by rewrite Hs|]. by apply Hex in Hok as ->.
Qed.

Lemma load_for_attester_Ok `{Fs} path gate trusted now p :
  load_for_attester path gate trusted now = Ok p <->
  load_verified path trusted = Ok p /\ is_expired p now = false
  /\ evidence_profile_for_gate gate = Ok (vp_evidence_profile p).
Proof.
  unfold load_for_attester. rewrite bind_Ok. split.
  - intros (p' & Hl & Hr). destruct (is_expired p' now) eqn:He; [done|].
    apply bind_Ok in Hr as (want & Hw & Hr). case_decide as Hp; [done|].
    injection Hr as ->. by subst want.
  - intros (Hl & He & Hg). exists p. split; [done|]. rewrite He. apply bind_Ok.
    eexists. split; [done|]. rewrite decide_False; [done|]. by intros Hn.
Qed.

Lemma b64_utf8 `{!Base64Laws} b : is_utf8 (b64_encode STANDARD b).
Proof.
  apply ascii_is_utf8. eapply forallb_mono, b64_encode_std. intros c. by_bytes c.
Qed.

(** Signing and loading a policy fit: a file [policy sign] accepted,
    with the sidecar it wrote beside it, loads under the one trusted key of the
    signing seed. *)
Theorem sign_then_load `{!FaestLaws, !Base64Laws} (fs fs' : Fs) path seed out w :
  @sign_policy_file _ _ _ _ _ fs path seed [] = (Ok out, w) ->
  @fs_read fs' path = @fs_read fs path ->
  (forall q c, (q, c) ∈ w -> @fs_read fs' q = inr c) ->
  exists sk p, signing_key_from_env seed = Ok sk
    /\ @load_verified _ _ _ _ _ fs' path [faest_verifying_key sk] = Ok p.
Proof.
  unfold sign_policy_file. intros Hs Hsame Hw.
  apply run_bind_Ok in Hs as (b & s1 & [Hb%map_err_Ok%of_sum_Ok ->]%lift_Ok & Hs).
  apply run_bind_Ok in Hs as (p & s2 & [[Hj Hv]%from_json_bytes_Ok ->]%lift_Ok & Hs).
  apply run_bind_Ok in Hs as (sk & s3 & [Hsk ->]%lift_Ok & Hs).
  apply run_bind_Ok in Hs as ([] & s4 & [_ ->]%lift_Ok & Hs).
  apply run_bind_Ok in Hs as ([] & s5 & Hm & Hs).
  unfold modify in Hm. injection Hm as <-. injection Hs as <- <-.
  exists sk, p. split; [done|]. apply load_verified_Ok. exists b.
  split_and!; [congruence|done..|]. right. split; [done|].
  eexists _, (faest_sig_sign sk b). split_and!.
  - unfold fs_read_to_string. erewrite Hw by by apply list_elem_of_singleton.
    by rewrite (b64_utf8 _).
  - by rewrite trim_b64_encode, b64_decode_encode.
  - constructor. apply faest_sig_verify_sign.
Qed.

Lemma from_json_bytes_no_panic b : from_json_bytes b <> Panic.
Proof.
  unfold from_json_bytes. rewrite bind_Panic. intros [Hp|(p & _ & Hp)].
  { rewrite map_err_Panic in Hp. by apply of_sum_no_panic in Hp. }
  rewrite bind_Panic in Hp. destruct Hp as [Hp|(? & _ & [=])].
  by apply validate_no_panic in Hp.
Qed.

End loading.

(** ** Comparing *)

Section comparing.
Context `{Hex, Chrono}.

Lemma diff_is_empty l r :
  PolicyDiff_is_empty (diff l r) = true <->
  vp_class l = vp_class r /\ vp_evidence_profile l = vp_evidence_profile r
  /\ vp_min_tier l = vp_min_tier r
  /\ vp_allowed_tier_details l = vp_allowed_tier_details r
  /\ vp_valid_until l = vp_valid_until r /\ allow_set l = allow_set r
  /\ vp_notes l = vp_notes r.
Proof.
  unfold PolicyDiff_is_empty, diff. cbn [same_class same_profile same_min_tier
    same_tier_details valid_until_changed added_allow removed_allow notes_changed].
  rewrite !andb_true_iff, !negb_true_iff, !bool_decide_eq_true, !bool_decide_eq_false, N.eqb_eq.
  assert (Hset : allow_set r ∖ allow_set l = ∅ /\ allow_set l ∖ allow_set r = ∅
    <-> allow_set l = allow_set r).
  { split; [|intros ->; set_solver]. intros [Ha Hb].
    apply set_eq. intros x. destruct (decide (x ∈ allow_set l)), (decide (x ∈ allow_set r)); set_solver. }
  destruct (vp_class l) as [nl wl], (vp_class r) as [nr wr]. cbn [spec_name spec_version].
  split.
  - intros [[[[[[[[-> ->] Hp] Hm] Ht] Hv] Ha] Hr] Hn].
    apply dec_stable in Hv, Hn. split_and!; try done. by apply Hset.
  - intros ([= -> ->] & Hp & Hm & Ht & Hv & Ha & Hn). apply Hset in Ha as [Ha Hb].
    split_and!; try done; by intros ?.
Qed.

End comparing.

(** ** Properties *)

(** [validate] accepts exactly the policies of version 1 that have an
    identifier, a class and allow entries of the kind their profile measures,
    with the desktop fields present for the desktop profile and absent for the
    others and every pinned digest 32 bytes of hex; it never panics. *)
Theorem validate_exactly `{Hex, Chrono} p :
  (validate p = Ok tt <-> valid_policy p) /\ validate p <> Panic.
Proof. split; [apply validate_Ok|apply validate_no_panic]. Qed.

(** C33: the attester starts with exactly the policies that are read from the
    file, valid, signed by a trusted key where any is configured, not expired,
    and of the profile its gate verifies. *)
Theorem attester_policy_exactly `{Hex, Chrono, Json VerificationPolicy, Faest, Base64, Fs}
    path gate trusted now p :
  load_for_attester path gate trusted now = Ok p <->
  (exists b, fs_read path = inr b /\ json_from_slice b = inr p /\ valid_policy p
   /\ (trusted = [] \/
       trusted <> [] /\
       exists text sig, fs_read_to_string (sidecar_path path) = inr text
         /\ b64_decode STANDARD (trim text) = inr sig
         /\ Exists (fun vk => faest_sig_verify vk b sig = Ok tt) trusted))
  /\ (forall u, vp_valid_until p = Some u -> dt_gt now u = false)
  /\ evidence_profile_for_gate gate = Ok (vp_evidence_profile p).
Proof.
  rewrite load_for_attester_Ok, load_verified_Ok.
  assert (Hx : is_expired p now = false <-> forall u, vp_valid_until p = Some u -> dt_gt now u = false).
  { unfold is_expired. destruct (vp_valid_until p) as [u|]; [|done].
    split; [by intros ? ? [= <-]|by intros Hu; apply Hu]. }
  by rewrite Hx.
Qed.
