(* ===== verification/Appraise.v ===== *)
(** * Appraisal: policy/src/appraise.rs and gated.rs

[appraise] runs every check on already authenticated claims and reports them
all; [PolicyGated] puts it behind any attestation verifier. *)

From S2P Require Import Prelude RustStr Externals Core Gate Policy.

(** ** appraise.rs *)

Inductive CheckId :=
| PolicyNotExpired
| ProfileMatch
| BindingOk
| ReferenceValueMatch
| RegistryStatus
| MinTier
| TierDetailAllowed.

#[export] Instance CheckId_eq_dec : EqDecision CheckId.
Proof. solve_decision. Defined.

Definition CheckId_debug (c : CheckId) : str :=
  match c with
  | PolicyNotExpired => B "PolicyNotExpired"
  | ProfileMatch => B "ProfileMatch"
  | BindingOk => B "BindingOk"
  | ReferenceValueMatch => B "ReferenceValueMatch"
  | RegistryStatus => B "RegistryStatus"
  | MinTier => B "MinTier"
  | TierDetailAllowed => B "TierDetailAllowed"
  end.

Record AppraisalResult := {
  ar_pass : bool;
  ar_policy_id : str;
  ar_class_label : str;
  ar_tier : str;
  ar_tier_detail : str;
  ar_notes : option str;
  ar_checks : list (CheckId * bool);
  ar_measurement : option Measurement;
  ar_reason : option str;
}.

Record AppraisalClaims := {
  ac_evidence_profile : EvidenceProfile;
  ac_platform : str;
  ac_measurement : option bytes;
  ac_app_id_hash : option bytes;
  ac_binding_ok : bool;
  ac_ima_verified : bool;
  ac_registry_status : option str;
}.

Definition fail_reason (checks : list (CheckId * bool)) : str :=
  match list_find (fun c : CheckId * bool => c.2 = false) checks with
  | Some (_, (id, _)) => B "failed check: " ++ CheckId_debug id
  | None => B "unknown"
  end.

Definition ac_identity (c : AppraisalClaims) : option bytes :=
  opt_or (ac_measurement c) (ac_app_id_hash c).

(** The predicate [any] and [find] use on allow entries. *)
Definition entry_matches (id : bytes) (e : AllowEntry) : bool :=
  bool_decide (ae_measurement e = Some id) || bool_decide (ae_app_id_hash e = Some id).

Section appraise.
Context `{Chrono, Tiers}.

Definition in_allow (p : VerificationPolicy) (c : AppraisalClaims) : bool :=
  match ac_identity c with
  | Some id => existsb (entry_matches id) (vp_allow p)
  | None => false
  end.

Definition registry_ok (p : VerificationPolicy) (c : AppraisalClaims) : bool :=
  match ac_registry_status c with
  | None => true
  | Some s => RegistryMinimum_accepts (vp_registry_minimum p) s
  end.

Definition appraise (p : VerificationPolicy) (c : AppraisalClaims) (now : DateTime) :
    AppraisalResult :=
  let class_label := spec_name (vp_class p) ++ B "@v" ++ display_N (spec_version (vp_class p)) in
  let not_expired := negb (is_expired p now) in
  let profile_match := bool_decide (ac_evidence_profile c = vp_evidence_profile p) in
  let identity := ac_identity c in
  let '(tier, tier_detail) := assurance_tier (ac_platform c) (ac_ima_verified c) in
  let tier_ok :=
    match TrustTier_from_label tier with
    | Some actual => TrustTier_accepts (vp_min_tier p) actual
    | None => false
    end in
  let tier_detail_ok :=
    bool_decide (vp_allowed_tier_details p = [])
    || existsb (fun allowed => bool_decide (allowed = tier_detail)) (vp_allowed_tier_details p) in
  let checks :=
    [ (PolicyNotExpired, not_expired); (ProfileMatch, profile_match);
      (BindingOk, ac_binding_ok c); (ReferenceValueMatch, in_allow p c);
      (RegistryStatus, registry_ok p c); (MinTier, tier_ok);
      (TierDetailAllowed, tier_detail_ok) ] in
  let pass := forallb snd checks in
  {| ar_pass := pass;
     ar_policy_id := vp_id p;
     ar_class_label := class_label;
     ar_tier := tier;
     ar_tier_detail := tier_detail;
     ar_notes := vp_notes p;
     ar_checks := checks;
     ar_measurement :=
       if pass then
         (fun v => with_ima_verified (Measurement_new (ac_platform c) v) (ac_ima_verified c))
           <$> identity
       else None;
     ar_reason := if pass then None else Some (fail_reason checks) |}.

(** ** gated.rs *)

Definition registry_status_for (p : VerificationPolicy) (identity : bytes) : option str :=
  match list_find (entry_matches identity) (vp_allow p) with
  | Some (_, e) => ae_registry_status e
  | None => None
  end.

Record PolicyGated (V : Type) := { pg_inner : V; pg_policy : VerificationPolicy }.

Definition verify_with_appraisal {V} `{!AttestationVerifier V} (v : PolicyGated V) (now : DateTime)
    (eat expected : bytes) : result GateError (Measurement * AppraisalResult) :=
  let p := pg_policy _ v in
  m ← verify_eat (pg_inner _ v) now eat expected;
  let '(measurement_claim, app_id_claim) :=
    match vp_evidence_profile p with
    | AndroidKeyAttestation | IosAppAttest | MacOsAppAttest => (None, Some (value_x m))
    | _ => (Some (value_x m), None)
    end in
  let claims :=
    {| ac_evidence_profile := vp_evidence_profile p; ac_platform := platform m;
       ac_measurement := measurement_claim; ac_app_id_hash := app_id_claim;
       ac_binding_ok := true; ac_ima_verified := ima_verified m;
       ac_registry_status := registry_status_for p (value_x m) |} in
  let r := appraise p claims now in
  if ar_pass r then Ok (m, r)
  else Err (GAttestationInvalid (default (B "policy denied") (ar_reason r))).

#[export] Instance PolicyGated_verifier {V} `{!AttestationVerifier V} :
  AttestationVerifier (PolicyGated V) := fun v now eat expected =>
  fst <$> verify_with_appraisal v now eat expected.

End appraise.
Arguments pg_inner {_ _}.
Arguments pg_policy {_ _}.

(** ** What passes *)

Section facts.
Context `{Chrono, Tiers}.

(** The conditions a passing appraisal certifies. *)
Record passes (p : VerificationPolicy) (c : AppraisalClaims) (now : DateTime) : Prop := {
  passes_expiry u : vp_valid_until p = Some u -> dt_gt now u = false;
  passes_profile : ac_evidence_profile c = vp_evidence_profile p;
  passes_binding : ac_binding_ok c = true;
  passes_allow : exists id e, ac_identity c = Some id /\ e ∈ vp_allow p
    /\ (ae_measurement e = Some id \/ ae_app_id_hash e = Some id);
  passes_registry s : ac_registry_status c = Some s ->
    RegistryMinimum_accepts (vp_registry_minimum p) s = true;
  passes_tier : exists t, (assurance_tier (ac_platform c) (ac_ima_verified c)).1 = TrustTier_label t
    /\ TrustTier_rank (vp_min_tier p) <= TrustTier_rank t;
  passes_detail : vp_allowed_tier_details p = []
    \/ (assurance_tier (ac_platform c) (ac_ima_verified c)).2 ∈ vp_allowed_tier_details p;
}.

Lemma entry_matches_true id e :
  entry_matches id e = true <-> ae_measurement e = Some id \/ ae_app_id_hash e = Some id.
Proof. unfold entry_matches. by rewrite orb_true_iff, !bool_decide_eq_true. Qed.

Lemma in_allow_true p c :
  in_allow p c = true <-> exists id e, ac_identity c = Some id /\ e ∈ vp_allow p
    /\ (ae_measurement e = Some id \/ ae_app_id_hash e = Some id).
Proof.
  unfold in_allow. destruct (ac_identity c) as [id|]; [|naive_solver].
  rewrite existsb_exists. setoid_rewrite entry_matches_true. setoid_rewrite list_elem_of_In.
  naive_solver.
Qed.

Lemma appraise_pass p c now :
  ar_pass (appraise p c now) = true <-> passes p c now.
Proof.
  unfold appraise. destruct (assurance_tier _ _) as [tier detail] eqn:Ht.
  cbn [ar_pass forallb snd]. rewrite !andb_true_iff, orb_true_iff, negb_true_iff,
    !bool_decide_eq_true, in_allow_true, existsb_exists.
  setoid_rewrite bool_decide_eq_true. setoid_rewrite <- list_elem_of_In. split.
  - intros (Hx & Hp & Hb & Ha & Hr & Hm & Hd & _). split; rewrite ?Ht; try done.
    + intros u Hu. unfold is_expired in Hx. by rewrite Hu in Hx.
    + intros s Hs. unfold registry_ok in Hr. by rewrite Hs in Hr.
    + destruct (TrustTier_from_label tier) as [t|] eqn:Hl; [|done].
      apply TrustTier_from_label_Some in Hl as ->. exists t. split; [done|].
      by apply N.leb_le.
    + destruct Hd as [?|(d & ? & ->)]; [by left|by right].
  - intros [Hx Hp Hb Ha Hr (t & Hl & Hm) Hd]. rewrite Ht in Hl, Hd. cbn [fst snd] in *.
    split_and!; try done.
    + unfold is_expired. destruct (vp_valid_until p) as [u|]; [|done]. by apply Hx.
    + unfold registry_ok. destruct (ac_registry_status c) as [s|]; [|done]. by apply Hr.
    + subst tier. rewrite TrustTier_label_roundtrip. by apply N.leb_le.
    + destruct Hd as [?|?]; [by left|right]. by exists detail.
Qed.

(** The report says which check failed first, and carries a measurement
    exactly when it passes. *)
Lemma appraise_report p c now :
  let r := appraise p c now in
  ar_pass r = forallb snd (ar_checks r)
  /\ (ar_pass r = true -> ar_reason r = None
      /\ exists v, ac_identity c = Some v /\
         ar_measurement r = Some {| platform := ac_platform c; value_x := v;
                                    ima_verified := ac_ima_verified c |})
  /\ (ar_pass r = false -> ar_measurement r = None
      /\ exists pre id post, ar_checks r = pre ++ (id, false) :: post
         /\ Forall (fun x => x.2 = true) pre
         /\ ar_reason r = Some (B "failed check: " ++ CheckId_debug id)).
Proof.
  cbv zeta. pose proof (appraise_pass p c now) as Hpass.
  assert (Hc : ar_pass (appraise p c now) = forallb snd (ar_checks (appraise p c now))).
  { unfold appraise. by destruct (assurance_tier _ _). }
  split; [done|]. split.
  - intros Hp. apply Hpass in Hp as Hps. destruct (passes_allow _ _ _ Hps) as (id & e & Hid & _).
    unfold appraise in *. destruct (assurance_tier _ _) as [tier detail].
    cbn [ar_pass ar_reason ar_measurement] in *. rewrite Hp, Hid. split; [done|].
    exists id. by split.
  - intros Hf. assert (Hm : ar_measurement (appraise p c now) = None
      /\ ar_reason (appraise p c now) = Some (fail_reason (ar_checks (appraise p c now)))).
    { unfold appraise in *. destruct (assurance_tier _ _) as [tier detail].
      cbn [ar_pass ar_reason ar_measurement ar_checks] in *. by rewrite Hf. }
    destruct Hm as [Hm Hreason]. split; [done|]. rewrite Hf in Hc. symmetry in Hc.
    rewrite Hreason. clear -Hc. revert Hc. generalize (ar_checks (appraise p c now)).
    intros l Hl. unfold fail_reason.
    destruct (list_find _ l) as [[i [id b]]|] eqn:Hfind.
    + apply list_find_Some in Hfind as (Hi & Hb & Hbefore). cbn in Hb. subst b.
      exists (take i l), id, (drop (S i) l). split_and!; [|..|done].
      * by rewrite <- (take_drop_middle l i (id, false)) at 1.
      * apply Forall_lookup_2. intros j x [Hx Hj]%lookup_take_Some.
        apply not_false_is_true. eauto.
    + exfalso. apply list_find_None in Hfind. apply not_true_iff_false in Hl. apply Hl.
      apply forallb_forall. intros x Hx%list_elem_of_In.
      rewrite Forall_forall in Hfind. apply not_false_is_true. eauto.
Qed.

Lemma verify_with_appraisal_Ok {V} `{!AttestationVerifier V} (v : PolicyGated V) now eat b m r :
  verify_with_appraisal v now eat b = Ok (m, r) ->
  verify_eat (pg_inner v) now eat b = Ok m /\ ar_pass r = true
  /\ ar_measurement r = Some m
  /\ exists c, r = appraise (pg_policy v) c now /\ passes (pg_policy v) c now
     /\ ac_identity c = Some (value_x m) /\ ac_platform c = platform m
     /\ ac_ima_verified c = ima_verified m
     /\ ac_registry_status c = registry_status_for (pg_policy v) (value_x m).
Proof.
  unfold verify_with_appraisal. intros (m' & Hm & Hr)%bind_Ok.
  destruct (match vp_evidence_profile (pg_policy v) with
    | AndroidKeyAttestation | IosAppAttest | MacOsAppAttest => _ | _ => _ end)
    as [mc ac] eqn:Hmc.
  assert (Hid : opt_or mc ac = Some (value_x m')) by (destruct (vp_evidence_profile _); by simplify_eq).
  set (c := Build_AppraisalClaims _ _ _ _ _ _ _) in Hr.
  destruct (ar_pass _) eqn:Hp; [|done]. injection Hr as -> <-.
  split; [done|]. split; [done|]. pose proof (appraise_report (pg_policy v) c now) as (_ & Hok & _).
  destruct (Hok Hp) as (_ & x & Hx & Hmx).
  assert (x = value_x m) as -> by (unfold ac_identity in Hx; cbn in Hx; congruence).
  split; [rewrite Hmx; by destruct m|].
  exists c. split_and!; [done| |done..]. by apply appraise_pass.
Qed.

#[export] Instance PolicyGated_commits {V} `{!AttestationVerifier V, !BindingCommits V} : BindingCommits (PolicyGated V).
Proof.
  intros v now now' eat b b' m m'. unfold verify_eat, PolicyGated_verifier.
  destruct (verify_with_appraisal v now eat b) as [[x r]| |] eqn:Hx; [|done..].
  destruct (verify_with_appraisal v now' eat b') as [[y s]| |] eqn:Hy; [|done..].
  intros _ _. apply verify_with_appraisal_Ok in Hx as [Hx _], Hy as [Hy _].
  by eapply binding_commits.
Qed.

(** What a policy-gated verifier accepts, its class accepts too, for a policy
    whose entries are valid. *)
Lemma PolicyGated_reference {V} `{!AttestationVerifier V} (v : PolicyGated V) now eat b m :
  verify_eat v now eat b = Ok m ->
  verify_eat (pg_inner v) now eat b = Ok m
  /\ is_expired (pg_policy v) now = false
  /\ exists e, e ∈ vp_allow (pg_policy v)
     /\ (ae_measurement e = Some (value_x m) \/ ae_app_id_hash e = Some (value_x m)).
Proof.
  unfold verify_eat at 1, PolicyGated_verifier.
  destruct (verify_with_appraisal v now eat b) as [[x r]| |] eqn:Hx; [|done..].
  intros [= <-]. apply verify_with_appraisal_Ok in Hx as (Hi & _ & _ & c & _ & Hp & Hid & _).
  split; [done|]. split.
  - unfold is_expired. destruct (vp_valid_until _) as [u|] eqn:Hu; [|done].
    by eapply passes_expiry.
  - destruct (passes_allow _ _ _ Hp) as (id & e & Hid' & He & Hm). exists e.
    split; [done|]. by assert (id = value_x x) as <- by congruence.
Qed.

End facts.

(** ** Properties *)

(** C34: an appraisal passes exactly when the policy is not expired and the
    claims have its profile, a good binding, an allowed identity, an accepted
    registry status and an allowed tier and detail; a passing result carries the
    measurement and no reason, a failing one the first failed check. *)
Theorem appraise_exactly `{Chrono, Tiers} p c now :
  let r := appraise p c now in
  (ar_pass r = true <-> passes p c now)
  /\ (ar_pass r = true -> ar_reason r = None
      /\ exists v, ac_identity c = Some v /\
         ar_measurement r = Some {| platform := ac_platform c; value_x := v;
                                    ima_verified := ac_ima_verified c |})
  /\ (ar_pass r = false -> ar_measurement r = None
      /\ exists pre id post, ar_checks r = pre ++ (id, false) :: post
         /\ Forall (fun x => x.2 = true) pre
         /\ ar_reason r = Some (B "failed check: " ++ CheckId_debug id)).
Proof.
  cbv zeta. destruct (appraise_report p c now) as (_ & Hp & Hf). split; [apply appraise_pass|done].
Qed.
