(* ===== verification/Store.v ===== *)
(** * The backends of the services: cli/src/store.rs

The in-memory and Redis backends of the spent set and of the rate limiter, and
the enums that select one at startup.  The Redis server is a state and the
commands the code sends are operations on it ([Redis]); its Lua script is
translated command by command, and [r_invoke] runs a script on the server. *)

From S2P Require Import Prelude RustStr Externals RateLimit Spend.

(** The [redis] feature of the build; without it the Redis variants of the
    enums do not exist, and no value of them is built. *)
Class Features := redis_feature : bool.

(** ** The Redis server *)

(** A command runs on the server's state and may fail, with the text of its
    error. *)
Class Redis := {
  rstate : Type;
  r_client : Type;
  r_open : str -> str + r_client;
  r_build : r_client -> str + rstate;
  (** [pool.get()]. *)
  r_conn : run rstate str unit;
  r_ping : run rstate str unit;
  r_sadd : bytes -> bytes -> run rstate str Z;
  r_expire : bytes -> Z -> run rstate str unit;
  r_incrby : bytes -> Z -> run rstate str Z;
  r_decrby : bytes -> Z -> run rstate str Z;
  (** [EVALSHA] of a script. *)
  r_invoke : run rstate str Z -> run rstate str Z;
}.

(** What the commands document, over the members of a set and the value of a
    counter (absent is zero).  A failed command may have been applied, since a
    reply can be lost; no key expires while a command runs.  A time to live that
    is not positive deletes the key, so nothing is promised of it here. *)
Class RedisLaws `{Redis} := {
  r_member : rstate -> bytes -> bytes -> Prop;
  r_counter : rstate -> bytes -> Z;
  r_neutral (s s' : rstate) : Prop :=
    (forall k m, r_member s' k m <-> r_member s k m) /\ (forall k, r_counter s' k = r_counter s k);
  r_conn_law s r s' : r_conn s = (r, s') -> r_neutral s s';
  r_expire_law k t s r s' : (0 < t)%Z -> r_expire k t s = (r, s') -> r_neutral s s';
  r_sadd_law k m s r s' : r_sadd k m s = (r, s') ->
    (forall k' m', r_member s k' m' -> r_member s' k' m')
    /\ (forall k' m', r_member s' k' m' -> r_member s k' m' \/ (k', m') = (k, m))
    /\ (forall k', r_counter s' k' = r_counter s k')
    /\ (forall v, r = Ok v -> r_member s' k m /\ (v = 1%Z <-> ~ r_member s k m)
        /\ (v <> 1%Z -> r_member s k m));
  r_incrby_law k n s r s' : r_incrby k n s = (r, s') ->
    (forall v, r = Ok v -> v = (r_counter s k + n)%Z /\ r_counter s' k = v)
    /\ (r_counter s' k = r_counter s k \/ r_counter s' k = (r_counter s k + n)%Z)
    /\ (forall k', k' <> k -> r_counter s' k' = r_counter s k');
  r_decrby_law k n s r s' : r_decrby k n s = (r, s') ->
    (forall v, r = Ok v -> r_counter s' k = (r_counter s k - n)%Z)
    /\ (r_counter s' k = r_counter s k \/ r_counter s' k = (r_counter s k - n)%Z)
    /\ (forall k', k' <> k -> r_counter s' k' = r_counter s k');
  (** A script runs as one step or not at all. *)
  r_invoke_law script s r s' : r_invoke script s = (r, s') ->
    (forall v, r = Ok v -> script s = (Ok v, s'))
    /\ (s' = s \/ s' = (script s).2);
}.

(** ** The stores *)

Section redis.
Context `{Redis, Hex}.

Record RedisSpentStore := { rs_server : rstate; rs_ttl_secs : N }.

(** [connect]'s steps up to the ping, shared by both backends. *)
Definition redis_dial (url : str) : result str rstate :=
  client ← map_err (fun e => B "redis open " ++ url ++ B ": " ++ e) (of_sum (r_open url));
  pool ← map_err (fun e => B "redis pool: " ++ e) (of_sum (r_build client));
  let '(r, pool) := r_conn pool in
  _ ← map_err (fun e => B "redis connect: " ++ e) r;
  let '(r, pool) := r_ping pool in
  _ ← map_err (fun e => B "redis ping: " ++ e) r;
  Ok pool.

Definition RedisSpentStore_connect (url : str) (ttl_secs : N) : result str RedisSpentStore :=
  s ← redis_dial url; Ok {| rs_server := s; rs_ttl_secs := N.max ttl_secs 1 |}.

Definition spent_key (key_epoch : N) : bytes := B "eatpass:spent:" ++ display_N key_epoch.

(** [u64 as i64]. *)
Definition as_i64 (n : N) : Z :=
  if n <? 2 ^ 63 then Z.of_N n else (Z.of_N n - 2 ^ 64)%Z.

(** On the server's state. *)
Definition redis_check_and_mark (ttl_secs key_epoch : N) (nonce : bytes) :
    run rstate SpendError unit := fun s =>
  match r_conn s with
  | (Ok _, s) =>
      let key := spent_key key_epoch in
      let member := hex_encode nonce in
      match r_sadd key member s with
      | (Ok added, s) =>
          let '(_, s) := r_expire key (as_i64 ttl_secs) s in
          (if (added =? 1)%Z then Ok tt else Err SEDoubleSpend, s)
      | (Err e, s) => (Err (SEBackend (B "sadd: " ++ e)), s)
      | (Panic, s) => (Panic, s)
      end
  | (Err e, s) => (Err (SEBackend (B "pool: " ++ e)), s)
  | (Panic, s) => (Panic, s)
  end.

#[export] Instance RedisSpentStore_store : SpentStore RedisSpentStore :=
  fun key_epoch nonce st =>
    let '(r, s) := redis_check_and_mark (rs_ttl_secs st) key_epoch nonce (rs_server st) in
    (r, {| rs_server := s; rs_ttl_secs := rs_ttl_secs st |}).

Record RedisRateLimiter := {
  rr_server : rstate;
  rr_max_per_epoch : N;
  rr_epoch_secs : N;
}.

(** [CONSUME_LUA]. *)
Definition CONSUME_LUA (key : bytes) (n ttl max : Z) : run rstate str Z :=
  v ← r_incrby key n;
  _ ← (if (v =? n)%Z then r_expire key ttl else mret tt);
  if (max <? v)%Z then _ ← r_decrby key n; mret 0%Z
  else mret 1%Z.

Definition RedisRateLimiter_connect (url : str) (max secs : N) : result str RedisRateLimiter :=
  s ← redis_dial url;
  Ok {| rr_server := s; rr_max_per_epoch := max; rr_epoch_secs := N.max secs 1 |}.

Definition redis_current_epoch (l : RedisRateLimiter) (clock : option N) : N :=
  secs_since_epoch clock / rr_epoch_secs l.

Definition limit_key (epoch : N) (attestation_id : bytes) : bytes :=
  B "eatpass:rl:" ++ display_N epoch ++ B ":" ++ hex_encode attestation_id.

(** [ttl] of [try_consume]. *)
Definition rr_ttl (l : RedisRateLimiter) : N :=
  N.max (sat_add64 (rr_epoch_secs l) (rr_epoch_secs l / 2)) 1.

#[export] Instance RedisRateLimiter_limiter : RateLimiter RedisRateLimiter :=
  fun clock attestation_id n l =>
    let back s := {| rr_server := s; rr_max_per_epoch := rr_max_per_epoch l;
                     rr_epoch_secs := rr_epoch_secs l |} in
    match r_conn (rr_server l) with
    | (Ok _, s) =>
        let epoch := redis_current_epoch l clock in
        let key := limit_key epoch attestation_id in
        match r_invoke (CONSUME_LUA key (Z.of_N n) (as_i64 (rr_ttl l))
                          (Z.of_N (rr_max_per_epoch l))) s with
        | (Ok v, s) => (if (v =? 1)%Z then Ok tt else Err RLExceeded, back s)
        | (Err e, s) => (Err (RLBackend (B "eval: " ++ e)), back s)
        | (Panic, s) => (Panic, back s)
        end
    | (Err e, s) => (Err (RLBackend (B "pool: " ++ e)), back s)
    | (Panic, s) => (Panic, back s)
    end.

(** ** The enums *)

Inductive SpendBackend :=
| SpendInMemory (s : InMemorySpentStore)
| SpendRedis (s : RedisSpentStore).

Definition redis_missing {T} (url : str) : result str T :=
  Err (B "backend '" ++ url ++ B "' requires the `redis` feature (rebuild with --features redis)").

Definition SpendBackend_from_url `{Features} (url : option str) (ttl_secs : N) :
    result str SpendBackend :=
  match url with
  | None => Ok (SpendInMemory InMemorySpentStore_new)
  | Some u => if redis_feature then SpendRedis <$> RedisSpentStore_connect u ttl_secs
              else redis_missing u
  end.

Definition SpendBackend_label (b : SpendBackend) : str :=
  match b with SpendInMemory _ => B "in-memory" | SpendRedis _ => B "redis" end.

#[export] Instance SpendBackend_store : SpentStore SpendBackend := fun key_epoch nonce b =>
  match b with
  | SpendInMemory s => let '(r, s) := check_and_mark key_epoch nonce s in (r, SpendInMemory s)
  | SpendRedis s => let '(r, s) := check_and_mark key_epoch nonce s in (r, SpendRedis s)
  end.

Inductive LimitBackend :=
| LimitInMemory (l : InMemoryRateLimiter)
| LimitRedis (l : RedisRateLimiter).

Definition LimitBackend_from_url `{Features} (url : option str) (max secs : N) :
    result str LimitBackend :=
  match url with
  | None => Ok (LimitInMemory (InMemoryRateLimiter_new max secs))
  | Some u => if redis_feature then LimitRedis <$> RedisRateLimiter_connect u max secs
              else redis_missing u
  end.

Definition LimitBackend_label (b : LimitBackend) : str :=
  match b with LimitInMemory _ => B "in-memory" | LimitRedis _ => B "redis" end.

#[export] Instance LimitBackend_limiter `{BuildProfile} : RateLimiter LimitBackend :=
  fun clock attestation_id n b =>
  match b with
  | LimitInMemory l => let '(r, l) := try_consume clock attestation_id n l in (r, LimitInMemory l)
  | LimitRedis l => let '(r, l) := try_consume clock attestation_id n l in (r, LimitRedis l)
  end.

End redis.

(** ** The Redis store keeps the promises of the traits *)

Section redis_laws.
Context `{RedisLaws, HexLaws}.

Lemma r_neutral_refl s : r_neutral s s.
Proof. by split. Qed.

Lemma r_neutral_trans s1 s2 s3 : r_neutral s1 s2 -> r_neutral s2 s3 -> r_neutral s1 s3.
Proof.
  intros [Hm Hc] [Hm' Hc']. split; intros.
  - by rewrite Hm', Hm.
  - by rewrite Hc', Hc.
Qed.

Lemma spent_key_inj k k' : spent_key k = spent_key k' -> k = k'.
Proof. intros Hk%app_inv_head. by apply display_N_inj. Qed.

Lemma redis_check_and_mark_step ttl k n s r s' :
  (0 < as_i64 ttl)%Z -> redis_check_and_mark ttl k n s = (r, s') ->
  (forall k' m, r_member s k' m -> r_member s' k' m)
  /\ (forall k' m, r_member s' k' m -> r_member s k' m \/ (k', m) = (spent_key k, hex_encode n))
  /\ (r = Ok tt -> ~ r_member s (spent_key k) (hex_encode n)
                  /\ r_member s' (spent_key k) (hex_encode n))
  /\ (r = Err SEDoubleSpend -> r_member s (spent_key k) (hex_encode n)).
Proof.
  intros Httl. unfold redis_check_and_mark.
  destruct (r_conn s) as [[u|e|] s1] eqn:Hc; apply r_conn_law in Hc as [Hm _];
    [|intros [= <- <-]; split_and!; [intros; by apply Hm|intros; left; by apply Hm|done|done]..].
  destruct (r_sadd _ _ s1) as [[v|e|] s2] eqn:Hs; apply r_sadd_law in Hs as (Hg & Hn & _ & Hv);
    [|intros [= <- <-]; split_and!; [intros; by apply Hg, Hm
      |intros k' m [Hx|Hx]%Hn; [left; by apply Hm|by right]|done|done]..].
  destruct (r_expire _ _ s2) as [u' s3] eqn:He. apply r_expire_law in He as [Hm3 _]; [|done].
  intros [= <- <-]. destruct (Hv v eq_refl) as (Hin & Hnew & Hold). split_and!.
  - intros k' m Hx. by apply Hm3, Hg, Hm.
  - intros k' m Hx%Hm3. apply Hn in Hx as [Hx|Hx]; [left; by apply Hm|by right].
  - destruct (Z.eqb_spec v 1) as [Hv1|]; [intros _|done]. split.
    + rewrite <- Hm. by apply Hnew.
    + by apply Hm3.
  - destruct (Z.eqb_spec v 1) as [|Hv1]; [done|intros _]. rewrite <- Hm. by apply Hold.
Qed.

#[export] Program Instance RedisSpentStore_laws : SpentStoreLaws RedisSpentStore := {|
  store_ok s := (0 < as_i64 (rs_ttl_secs s))%Z;
  spent s k n := r_member (rs_server s) (spent_key k) (hex_encode n);
|}.
Next Obligation.
  intros s k n r s' Hs. unfold check_and_mark, RedisSpentStore_store.
  destruct (redis_check_and_mark _ k n _) as [r1 s1] eqn:Hr. intros [= <- <-]. cbn [rs_server].
  apply redis_check_and_mark_step in Hr as (Hm & Hn & Hok & _); [|done]. split_and!; [done|auto| |done].
  intros k' n' [Hx|[= Hk Hh]]%Hn; [by left|right].
  apply display_N_inj in Hk as ->. by apply hex_encode_inj in Hh as ->.
Qed.
Next Obligation.
  intros s k n s' Hs. unfold check_and_mark, RedisSpentStore_store.
  destruct (redis_check_and_mark _ k n _) as [r1 s1] eqn:Hr. intros [= -> _].
  apply redis_check_and_mark_step in Hr as (_ & _ & _ & Hx); auto.
Qed.

#[export] Program Instance SpendBackend_laws : SpentStoreLaws SpendBackend := {|
  store_ok b := match b with SpendInMemory s => store_ok s | SpendRedis s => store_ok s end;
  spent b k n := match b with SpendInMemory s => spent s k n | SpendRedis s => spent s k n end;
|}.
Next Obligation.
  intros b k n r b' Hs. unfold check_and_mark, SpendBackend_store. destruct b as [s|s].
  - destruct (check_and_mark k n s) as [r1 s1] eqn:Hr. intros [= <- <-].
    by apply check_and_mark_step in Hr.
  - destruct (check_and_mark k n s) as [r1 s1] eqn:Hr. intros [= <- <-].
    by apply check_and_mark_step in Hr.
Qed.
Next Obligation.
  intros b k n b' Hs. unfold check_and_mark, SpendBackend_store. destruct b as [s|s].
  all: destruct (check_and_mark k n s) as [r1 s1] eqn:Hr; intros [= -> _].
  all: by apply check_and_mark_refused in Hr.
Qed.

(** A limiter key names one epoch and one identity. *)
Lemma limit_key_inj e i e' i' : limit_key e i = limit_key e' i' -> e = e' /\ i = i'.
Proof.
  unfold limit_key. intros Hk%app_inv_head. change (B ":" ++ ?l) with (x3a :: l) in Hk.
  assert (Hd : forall n, x3a ∉ display_N n)
    by (intros n; eapply not_in_class; [apply display_N_digits|done]).
  pose proof (split_once_app x3a (display_N e) (hex_encode i) (Hd e)) as Hs.
  rewrite Hk, split_once_app in Hs by apply Hd. injection Hs as He Hi.
  apply display_N_inj in He as ->. by apply hex_encode_inj in Hi as ->.
Qed.

(** The script on a counter: it is granted and counted exactly when the count
    fits, and otherwise left as it was; a failure may leave it counted. *)
Theorem CONSUME_LUA_exactly key n ttl max s r s' :
  (0 <= n)%Z -> (0 < ttl)%Z -> CONSUME_LUA key n ttl max s = (r, s') ->
  (forall k, k <> key -> r_counter s' k = r_counter s k)
  /\ (r_counter s key <= r_counter s' key)%Z
  /\ (r = Ok 1%Z -> r_counter s' key = (r_counter s key + n)%Z
                    /\ (r_counter s key + n <= max)%Z)
  /\ (r = Ok 0%Z -> r_counter s' key = r_counter s key /\ (max < r_counter s key + n)%Z).
Proof.
  intros Hn Httl Hr. unfold CONSUME_LUA in Hr. apply run_bind_cases in Hr
    as [(v & s1 & Hi & Hr)|[(e & Hi & ->)|[Hi ->]]]; apply r_incrby_law in Hi as (Hv & Hc & Ho).
  2-3: split_and!; [done|destruct Hc; lia|done..].
  destruct (Hv v eq_refl) as [-> Hcv].
  assert (Hneutral : forall r2 s2, (if (r_counter s key + n =? n)%Z then r_expire key ttl else mret tt) s1
    = (r2, s2) -> forall k, r_counter s2 k = r_counter s1 k).
  { intros r2 s2. destruct (_ =? _)%Z; [|by intros [= <- <-]].
    intros He. by apply r_expire_law in He as [_ He]. }
  apply run_bind_cases in Hr as [([] & s2 & He & Hr)|[(e & He & ->)|[He ->]]];
    specialize (Hneutral _ _ He); clear He; rename Hneutral into He.
  2-3: split_and!; [intros; rewrite He; by apply Ho|rewrite He, Hcv; lia|done..].
  destruct (Z.ltb_spec max (r_counter s key + n)).
  - apply run_bind_cases in Hr as [(w & s3 & Hd & Hr)|[(e & Hd & ->)|[Hd ->]]];
      apply r_decrby_law in Hd as (Hw & Hdc & Hdo).
    2-3: split_and!; [intros; rewrite Hdo, He; [by apply Ho|done]
                     |rewrite He, Hcv in Hdc; destruct Hdc; lia|done..].
    injection Hr as <- <-. specialize (Hw w eq_refl). rewrite He, Hcv in Hw.
    split_and!; [intros; rewrite Hdo, He; [by apply Ho|done]|lia|done|].
    intros _. split; [lia|done].
  - injection Hr as <- <-. split_and!; [intros; rewrite He; by apply Ho|rewrite He, Hcv; lia| |done].
    intros _. rewrite He, Hcv. done.
Qed.

#[export] Program Instance RedisRateLimiter_laws : RateLimiterLaws RedisRateLimiter := {|
  limiter_ok l := (0 < as_i64 (rr_ttl l))%Z
    /\ forall e i, (0 <= r_counter (rr_server l) (limit_key e i))%Z;
  quota := rr_max_per_epoch;
  epoch_at := redis_current_epoch;
  used l e i := Z.to_N (r_counter (rr_server l) (limit_key e i));
|}.
Next Obligation.
  intros l clock i n r l' [Httl Hok] Hn. unfold try_consume, RedisRateLimiter_limiter.
  destruct (r_conn (rr_server l)) as [[u|e|] s1] eqn:Hc; apply r_conn_law in Hc as [_ Hc];
    [|intros [= <- <-]; cbn; split_and!;
      [done|intros; rewrite Hc; apply Hok|done..|intros; rewrite Hc; lia|done]..].
  set (key := limit_key (redis_current_epoch l clock) i).
  destruct (r_invoke _ s1) as [r2 s2] eqn:Hi. pose proof (r_invoke_law _ _ _ _ Hi) as [Hv Hs].
  set (script := CONSUME_LUA _ _ _ _) in *.
  assert (Hcnt : (forall k, k <> key -> r_counter s2 k = r_counter s1 k)
    /\ (r_counter s1 key <= r_counter s2 key)%Z).
  { destruct Hs as [->| ->]; [split; [done|lia]|]. destruct (script s1) as [r3 s3] eqn:Hl.
    apply CONSUME_LUA_exactly in Hl as (? & ? & _); [done|lia|done]. }
  destruct Hcnt as [Hother Hkey].
  assert (Hmono : forall e j, (r_counter (rr_server l) (limit_key e j)
                               <= r_counter s2 (limit_key e j))%Z).
  { intros e j. rewrite <- Hc. destruct (decide (limit_key e j = key)) as [->|Hne]; [done|].
    rewrite Hother by done. lia. }
  assert (Hpos : forall e j, (0 <= r_counter s2 (limit_key e j))%Z)
    by (intros e j; specialize (Hmono e j); specialize (Hok e j); lia).
  assert (Hge : forall e j, Z.to_N (r_counter (rr_server l) (limit_key e j))
                            <= Z.to_N (r_counter s2 (limit_key e j)))
    by (intros e j; specialize (Hmono e j); lia).
  destruct r2 as [v|e|]; intros [= <- <-]; split_and!; try done.
  - cbn [rr_server]. intros Hr. destruct (Z.eqb_spec v 1) as [->|]; [|done].
    specialize (Hv 1%Z eq_refl). apply CONSUME_LUA_exactly in Hv as (_ & _ & Hg & _); [|lia|done].
    destruct (Hg eq_refl) as [Hg1 Hg2]. fold key. rewrite Hg1. rewrite Hc in *.
    specialize (Hok (redis_current_epoch l clock) i). fold key in Hok. lia.
Qed.

#[export] Program Instance LimitBackend_laws `{BuildProfile} : RateLimiterLaws LimitBackend := {|
  limiter_ok b := match b with LimitInMemory l => limiter_ok l | LimitRedis l => limiter_ok l end;
  quota b := match b with LimitInMemory l => quota l | LimitRedis l => quota l end;
  epoch_at b := match b with LimitInMemory l => epoch_at l | LimitRedis l => epoch_at l end;
  used b := match b with LimitInMemory l => used l | LimitRedis l => used l end;
|}.
Next Obligation.
  intros ? b clock i n r b' Hok Hn. unfold try_consume, LimitBackend_limiter. destruct b as [l|l].
  - destruct (try_consume clock i n l) as [r1 l1] eqn:Hr. intros [= <- <-].
    eapply (limiter_step (R := InMemoryRateLimiter)); eassumption.
  - destruct (try_consume clock i n l) as [r1 l1] eqn:Hr. intros [= <- <-].
    eapply (limiter_step (R := RedisRateLimiter)); eassumption.
Qed.

End redis_laws.
