(* ===== verification/RedisTime.v ===== *)
(** * Redis over time: the expiry of keys under cli/src/store.rs

A Redis server has a clock, and a key may have a deadline at which it vanishes.
[RedisClock] and its laws add both to the commands of Store; over them, what
the spent set and the quota counters keep while time passes, and what they
lose.  [RedisReliable] is a server that answers every command. *)

From S2P Require Import Prelude RustStr Externals RateLimit Spend Store.

(** ** The server's clock *)

(** The time in seconds, and the server some seconds later. *)
Class RedisClock `{Redis} := {
  r_now : rstate -> Z;
  r_elapse : N -> rstate -> rstate;
}.

Definition r_absent `{RedisLaws} (s : rstate) (k : bytes) : Prop :=
  (forall m, ~ r_member s k m) /\ r_counter s k = 0%Z.

(** The contents of the key [k] are as they were. *)
Definition r_same `{RedisLaws} (s s' : rstate) (k : bytes) : Prop :=
  (forall m, r_member s' k m <-> r_member s k m) /\ r_counter s' k = r_counter s k.

(** The most seconds EXPIRE takes either way: it counts in milliseconds, as an [i64]. *)
Definition expire_max : N := 9223372036854775.

(** What Redis documents: only EXPIRE changes a deadline; a time to live that is
    not positive deletes the key, and one out of range is an error that changes
    nothing; a key is there before its deadline and not after it.  (At the deadline itself nothing is promised, the server counts
    in milliseconds.) *)
Class RedisClockLaws `{RedisClock, !RedisLaws} := {
  (** [None]: the key does not expire, or is absent. *)
  r_deadline : rstate -> bytes -> option Z;
  r_timed (s s' : rstate) : Prop :=
    r_now s' = r_now s /\ forall k, r_deadline s' k = r_deadline s k;
  r_conn_timed s r s' : r_conn s = (r, s') -> r_timed s s';
  r_sadd_timed k m s r s' : r_sadd k m s = (r, s') -> r_timed s s';
  r_incrby_timed k n s r s' : r_incrby k n s = (r, s') -> r_timed s s';
  r_decrby_timed k n s r s' : r_decrby k n s = (r, s') -> r_timed s s';
  r_expire_timed k t s r s' : (0 < t)%Z -> r_expire k t s = (r, s') ->
    r_now s' = r_now s
    /\ (forall k', k' <> k -> r_deadline s' k' = r_deadline s k')
    /\ (r_deadline s' k = r_deadline s k \/ r_deadline s' k = Some (r_now s + t)%Z)
    /\ (r = Ok tt -> r_deadline s' k = Some (r_now s + t)%Z \/ r_absent s' k);
  r_expire_gone k t s s' : (t <= 0)%Z -> r_expire k t s = (Ok tt, s') -> r_absent s' k;
  r_expire_refused k t s r s' : (Z.of_N expire_max < Z.abs t)%Z -> r_expire k t s = (r, s') ->
    r <> Ok tt /\ r_neutral s s' /\ r_timed s s';
  r_elapse_now d s : r_now (r_elapse d s) = (r_now s + Z.of_N d)%Z;
  r_elapse_law d s k :
    r_same s (r_elapse d s) k /\ r_deadline (r_elapse d s) k = r_deadline s k
    \/ r_absent (r_elapse d s) k /\ r_deadline (r_elapse d s) k = None;
  r_elapse_keeps d s k :
    (forall t, r_deadline s k = Some t -> (r_now s + Z.of_N d < t)%Z) ->
    r_same s (r_elapse d s) k /\ r_deadline (r_elapse d s) k = r_deadline s k;
  r_elapse_drops d s k t :
    r_deadline s k = Some t -> (t < r_now s + Z.of_N d)%Z -> r_absent (r_elapse d s) k;
}.

(** A server that answers: connections are made, and the commands succeed within
    the ranges Redis accepts (a counter is 64 bits wide; a deadline up to 2^50
    seconds away fits whatever the time). *)
Class RedisReliable `{RedisLaws} : Prop := {
  r_conn_ok s : exists s', r_conn s = (Ok tt, s');
  r_sadd_ok k m s : exists v s', r_sadd k m s = (Ok v, s');
  r_expire_ok k t s : (- Z.of_N expire_max <= t <= 2 ^ 50)%Z -> exists s', r_expire k t s = (Ok tt, s');
  r_incrby_ok k n s : (- 2 ^ 63 <= r_counter s k + n < 2 ^ 63)%Z ->
    exists v s', r_incrby k n s = (Ok v, s');
  r_decrby_ok k n s : (- 2 ^ 63 <= r_counter s k - n < 2 ^ 63)%Z ->
    exists v s', r_decrby k n s = (Ok v, s');
  r_invoke_ok script s v s' : script s = (Ok v, s') -> r_invoke script s = (Ok v, s');
}.

(** ** The spent set *)

Section spent_set.
Context `{RedisClockLaws, HexLaws}.

(** What happens to a store: redemptions, and time passing between them. *)
Inductive spend_event :=
| SpendMark (k : N) (n : bytes)
| SpendElapse (d : N).

Definition store_elapse (d : N) (st : RedisSpentStore) : RedisSpentStore :=
  {| rs_server := r_elapse d (rs_server st); rs_ttl_secs := rs_ttl_secs st |}.

Fixpoint run_spend (l : list spend_event) (st : RedisSpentStore) :
    list ((N * bytes) * result SpendError unit) * RedisSpentStore :=
  match l with
  | [] => ([], st)
  | SpendMark k n :: l =>
      let '(r, st) := check_and_mark k n st in
      let '(h, st) := run_spend l st in
      (((k, n), r) :: h, st)
  | SpendElapse d :: l => run_spend l (store_elapse d st)
  end.

(** Between two redemptions under [k], less than [ttl] seconds pass; [idle] is
    the time since the last one. *)
Fixpoint quiet (ttl k : N) (idle : option N) (l : list spend_event) : bool :=
  match l with
  | [] => true
  | SpendMark k' _ :: l => quiet ttl k (if decide (k' = k) then Some 0 else idle) l
  | SpendElapse d :: l =>
      match idle with
      | None => quiet ttl k None l
      | Some i => (i + d <? ttl) && quiet ttl k (Some (i + d)) l
      end
  end.

Lemma as_i64_pos n : n < 2 ^ 64 -> (0 < as_i64 n)%Z -> as_i64 n = Z.of_N n.
Proof.
  unfold as_i64. change (2 ^ 63) with 9223372036854775808. change (2 ^ 64) with 18446744073709551616.
  change (2 ^ 64)%Z with 18446744073709551616%Z. destruct (N.ltb_spec n 9223372036854775808); lia.
Qed.

(** A redemption, command by command, on a server that answers. *)
Lemma redis_mark_reliable `{!RedisReliable} ttl k n s :
  (- Z.of_N expire_max <= as_i64 ttl <= 2 ^ 50)%Z ->
  exists v s1 s2 s3, r_conn s = (Ok tt, s1)
    /\ r_sadd (spent_key k) (hex_encode n) s1 = (Ok v, s2)
    /\ r_expire (spent_key k) (as_i64 ttl) s2 = (Ok tt, s3)
    /\ redis_check_and_mark ttl k n s
       = ((if (v =? 1)%Z then Ok tt else Err SEDoubleSpend), s3).
Proof.
  intros Ht. destruct (r_conn_ok s) as [s1 E1].
  destruct (r_sadd_ok (spent_key k) (hex_encode n) s1) as (v & s2 & E2).
  destruct (r_expire_ok (spent_key k) (as_i64 ttl) s2 Ht) as [s3 E3].
  exists v, s1, s2, s3. split_and!; [done..|]. unfold redis_check_and_mark. by rewrite E1, E2, E3.
Qed.

(** After a redemption under [k] that was served, the set of [k] has its
    deadline [ttl] seconds away; the sets of other epochs keep theirs. *)
Lemma redis_mark_deadline `{!RedisReliable} ttl k n s r s' :
  (0 < as_i64 ttl <= 2 ^ 50)%Z -> redis_check_and_mark ttl k n s = (r, s') ->
  r_now s' = r_now s
  /\ r_deadline s' (spent_key k) = Some (r_now s + as_i64 ttl)%Z
  /\ (forall k', k' <> k -> r_deadline s' (spent_key k') = r_deadline s (spent_key k')).
Proof.
  intros Ht Hr. destruct (redis_mark_reliable ttl k n s) as (v & s1 & s2 & s3 & E1 & E2 & E3 & E4); [lia|].
  rewrite E4 in Hr. injection Hr as _ <-.
  apply r_conn_timed in E1 as [N1 D1]. pose proof (r_sadd_timed _ _ _ _ _ E2) as [N2 D2].
  pose proof (r_expire_law _ _ _ _ _ (proj1 Ht) E3) as [Hm _].
  apply r_sadd_law in E2 as (_ & _ & _ & Hv). destruct (Hv v eq_refl) as [Hin _].
  apply r_expire_timed in E3 as (N3 & D3 & _ & Hd); [|lia].
  split_and!; [congruence| |].
  - destruct (Hd eq_refl) as [->|[Hno _]]; [by rewrite N2, N1|].
    destruct (Hno (hex_encode n)). by apply Hm.
  - intros k' Hk. rewrite D3 by (by intros ?%spent_key_inj). by rewrite D2, D1.
Qed.

(** How long the set of [k] is safe: it never expires, or not before [ttl]
    seconds after the last redemption. *)
Definition kept_for (ttl k : N) (idle : option N) (s : rstate) : Prop :=
  match idle with
  | None => r_deadline s (spent_key k) = None
  | Some i => forall t, r_deadline s (spent_key k) = Some t ->
      (r_now s + Z.of_N ttl <= t + Z.of_N i)%Z
  end.

Lemma kept_for_mark `{!RedisReliable} ttl k idle k' n s r s' :
  ttl < 2 ^ 64 -> (0 < as_i64 ttl <= 2 ^ 50)%Z -> kept_for ttl k idle s ->
  redis_check_and_mark ttl k' n s = (r, s') ->
  kept_for ttl k (if decide (k' = k) then Some 0 else idle) s'.
Proof.
  intros Hw Ht Hk Hr. apply redis_mark_deadline in Hr as (Hn & Hd & Ho); [|done].
  rewrite as_i64_pos in Hd by (done || lia). case_decide as Heq.
  - subst k'. intros t. rewrite Hd, Hn. intros [= <-]. lia.
  - unfold kept_for in *. destruct idle as [i|]; rewrite Ho by done; [|done]. by rewrite Hn.
Qed.

Lemma kept_for_elapse ttl k idle d s :
  kept_for ttl k idle s ->
  match idle with Some i => i + d < ttl | None => True end ->
  kept_for ttl k ((fun i => i + d) <$> idle) (r_elapse d s)
  /\ r_same s (r_elapse d s) (spent_key k).
Proof.
  intros Hk Hd. destruct (r_elapse_keeps d s (spent_key k)) as [Hs He].
  { intros t Ht. unfold kept_for in Hk. destruct idle as [i|]; [|congruence]. specialize (Hk t Ht). lia. }
  split; [|done]. unfold kept_for in *. destruct idle as [i|]; cbn [fmap option_fmap option_map]; rewrite He; [|done].
  intros t Ht. specialize (Hk t Ht). rewrite r_elapse_now. lia.
Qed.

Lemma run_spend_quiet `{!RedisReliable} ttl k idle l s h st' :
  ttl < 2 ^ 64 -> (0 < as_i64 ttl <= 2 ^ 50)%Z -> kept_for ttl k idle s -> quiet ttl k idle l = true ->
  run_spend l {| rs_server := s; rs_ttl_secs := ttl |} = (h, st') ->
  NoDup (filter (fun x => x.1 = k) (accepted h))
  /\ (forall n, (k, n) ∈ accepted h -> ~ r_member s (spent_key k) (hex_encode n)).
Proof.
  intros Hw Ht. revert idle s h st'. induction l as [|[k' n|d] l IH]; intros idle s h st' Hk Hq; cbn [run_spend].
  { intros [= <- _]. split; [constructor|set_solver]. }
  - unfold check_and_mark, RedisSpentStore_store. cbn [rs_server rs_ttl_secs].
    destruct (redis_check_and_mark ttl k' n s) as [r s1] eqn:Hr.
    destruct (run_spend l _) as [h1 st1] eqn:Hl. intros [= <- _].
    pose proof (kept_for_mark _ _ _ _ _ _ _ _ Hw Ht Hk Hr) as Hk1.
    destruct (IH _ _ _ _ Hk1 Hq Hl) as [Hd Hf].
    apply redis_check_and_mark_step in Hr as (Hmono & _ & Hok & _); [|lia].
    rewrite accepted_cons. destruct (decide (r = Ok tt)) as [Hr|_];
      [|split; [done|]; intros m Hm Hin; by eapply Hf, Hmono].
    destruct (Hok Hr) as [Hn Hin]. rewrite filter_cons. cbn [fst].
    destruct (decide (k' = k)) as [Heq|Heq].
    + subst k'. split.
      * constructor; [|done]. rewrite list_elem_of_filter. intros [_ Hx]. by eapply Hf.
      * intros m [[= ->]|Hm]%elem_of_cons; [done|]. intros Hx. by eapply Hf, Hmono.
    + split; [done|]. intros m [[= ->]|Hm]%elem_of_cons; [done|]. intros Hx. by eapply Hf, Hmono.
  - intros Hl. cbn [quiet] in Hq.
    assert (Hi : match idle with Some i => i + d < ttl | None => True end
      /\ quiet ttl k ((fun i => i + d) <$> idle) l = true).
    { destruct idle as [i|]; [|done]. apply andb_true_iff in Hq as [?%N.ltb_lt ?]. done. }
    destruct Hi as [Hi Hq']. destruct (kept_for_elapse ttl k idle d s Hk Hi) as [Hk' [Hs _]].
    destruct (IH _ _ _ _ Hk' Hq' Hl) as [Hd Hf]. split; [done|].
    intros m Hm Hin. eapply Hf; [done|]. by apply Hs.
Qed.

(** The cast of a time to live, by range. *)
Lemma as_i64_small n : n < 2 ^ 63 -> as_i64 n = Z.of_N n.
Proof. unfold as_i64. by intros ->%N.ltb_lt. Qed.

Lemma as_i64_big n : n < 2 ^ 64 -> 2 ^ 63 <= n -> as_i64 n = (Z.of_N n - 2 ^ 64)%Z.
Proof. unfold as_i64. by intros _ ->%N.ltb_ge. Qed.

Lemma as_i64_refused n :
  expire_max < n < 2 ^ 64 - expire_max -> (Z.of_N expire_max < Z.abs (as_i64 n))%Z.
Proof.
  unfold as_i64, expire_max. change (2 ^ 63) with 9223372036854775808.
  change (2 ^ 64) with 18446744073709551616. change (2 ^ 64)%Z with 18446744073709551616%Z.
  destruct (N.ltb_spec n 9223372036854775808); lia.
Qed.

(** A redemption whose EXPIRE is refused keeps the nonce, and the deadline of the
    set as it was. *)
Lemma redis_mark_refused ttl k n s r s' :
  (Z.of_N expire_max < Z.abs (as_i64 ttl))%Z ->
  redis_check_and_mark ttl k n s = (r, s') -> r = Ok tt ->
  r_member s' (spent_key k) (hex_encode n)
  /\ r_deadline s' (spent_key k) = r_deadline s (spent_key k).
Proof.
  intros Ht Hr ->. unfold redis_check_and_mark in Hr.
  destruct (r_conn s) as [[u|e|] s1] eqn:E1; [|done..]. apply r_conn_timed in E1 as [_ D1].
  destruct (r_sadd _ _ s1) as [[v|e|] s2] eqn:E2; [|done..].
  pose proof (r_sadd_timed _ _ _ _ _ E2) as [_ D2]. apply r_sadd_law in E2 as (_ & _ & _ & Hv).
  destruct (r_expire _ _ s2) as [q s3] eqn:E3. injection Hr as _ <-.
  apply r_expire_refused in E3 as (_ & [Hm _] & [_ D3]); [|done].
  split; [|by rewrite D3, D2, D1]. apply Hm. by destruct (Hv v eq_refl).
Qed.

(** A nonce that is in its set is refused. *)
Lemma redis_mark_again `{!RedisReliable} ttl k n s :
  r_member s (spent_key k) (hex_encode n) ->
  exists s', redis_check_and_mark ttl k n s = (Err SEDoubleSpend, s').
Proof.
  intros Hin. unfold redis_check_and_mark. destruct (r_conn_ok s) as [s1 E1]. rewrite E1.
  apply r_conn_law in E1 as [Hm _].
  destruct (r_sadd_ok (spent_key k) (hex_encode n) s1) as (v & s2 & E2). rewrite E2.
  apply r_sadd_law in E2 as (_ & _ & _ & Hv). destruct (Hv v eq_refl) as (_ & Hv1 & _).
  destruct (r_expire _ _ s2) as [q s3]. destruct (Z.eqb_spec v 1) as [->|]; [|by eexists].
  destruct (proj1 Hv1 eq_refl). by apply Hm.
Qed.

(** A nonce whose set is absent is accepted. *)
Lemma redis_mark_absent `{!RedisReliable} ttl k n s :
  (- Z.of_N expire_max <= as_i64 ttl <= 2 ^ 50)%Z -> r_absent s (spent_key k) ->
  exists s', redis_check_and_mark ttl k n s = (Ok tt, s').
Proof.
  intros Ht [Hno _]. destruct (redis_mark_reliable ttl k n s Ht) as (v & s1 & s2 & s3 & E1 & E2 & _ & ->).
  exists s3. apply r_conn_law in E1 as [Hm _]. apply r_sadd_law in E2 as (_ & _ & _ & Hv).
  destruct (Hv v eq_refl) as (_ & Hv1 & _). rewrite (proj2 Hv1) by (rewrite Hm; apply Hno). done.
Qed.

End spent_set.

(** ** The quota counters *)

Section quota.
Context `{RedisClockLaws, HexLaws}.

(** The script gives its own key a deadline [ttl] away, or leaves it as it is. *)
Lemma CONSUME_LUA_timed key n ttl max s r s' :
  (0 < ttl)%Z -> CONSUME_LUA key n ttl max s = (r, s') ->
  r_now s' = r_now s /\ forall k, r_deadline s' k = r_deadline s k
    \/ k = key /\ r_deadline s' k = Some (r_now s + ttl)%Z.
Proof.
  intros Ht Hr. set (P s1 s2 := r_now s2 = r_now s1 /\ forall k, r_deadline s2 k = r_deadline s1 k
    \/ k = key /\ r_deadline s2 k = Some (r_now s1 + ttl)%Z).
  assert (Hnow : forall s1 s2, P s1 s2 -> r_now s2 = r_now s1) by (intros s1 s2 []; done).
  assert (Htr : forall s1 s2 s3, P s1 s2 -> r_timed s2 s3 -> P s1 s3).
  { intros s1 s2 s3 [N1 D1] [N2 D2]. split; [congruence|]. intros k. rewrite D2. apply D1. }
  assert (Hi : forall q s1, r_incrby key n s = (q, s1) -> P s s1).
  { intros q s1 Hi%r_incrby_timed. eapply Htr; [|done]. split; [done|by left]. }
  change (P s s'). unfold CONSUME_LUA in Hr.
  apply run_bind_cases in Hr as [(v & s1 & Hv & Hr)|[(e & Hv & _)|[Hv _]]]; [|by eapply Hi..].
  apply r_incrby_timed in Hv as [N1 D1].
  assert (HE : forall q s2, (if (v =? n)%Z then r_expire key ttl else mret tt) s1 = (q, s2) -> P s s2).
  { intros q s2. destruct (v =? n)%Z; [|intros [= _ <-]; split; [done|by left]].
    intros (N2 & D2 & Hd & _)%r_expire_timed; [|done]. split; [congruence|]. intros k.
    destruct (decide (k = key)) as [->|Hk]; [|left; by rewrite D2, D1 by done].
    rewrite <- N1, <- (D1 key). destruct Hd; auto. }
  apply run_bind_cases in Hr as [([] & s3 & He & Hr)|[(e & He & _)|[He _]]]; [|by eapply HE..].
  specialize (HE _ _ He). destruct (max <? v)%Z; [|by injection Hr as _ <-].
  apply run_bind_cases in Hr as [(w & s4 & Hd & Hr)|[(e & Hd & _)|[Hd _]]];
    pose proof (r_decrby_timed _ _ _ _ _ Hd); [|by eapply Htr..].
  injection Hr as _ <-. by eapply Htr.
Qed.

(** What happens to a limiter: batches, each at the clock of the issuer that
    serves it, and time passing on the server between them. *)
Inductive limit_event :=
| LimitConsume (clock : option N) (i : bytes) (n : N)
| LimitElapse (d : N).

Definition limiter_elapse (d : N) (l : RedisRateLimiter) : RedisRateLimiter :=
  {| rr_server := r_elapse d (rr_server l); rr_max_per_epoch := rr_max_per_epoch l;
     rr_epoch_secs := rr_epoch_secs l |}.

Fixpoint run_limit (evs : list limit_event) (l : RedisRateLimiter) :
    list (consume_req * result RateLimitError unit) * RedisRateLimiter :=
  match evs with
  | [] => ([], l)
  | LimitConsume clock i n :: evs =>
      let '(r, l') := try_consume clock i n l in
      let '(h, l'') := run_limit evs l' in
      (((clock, i, n), r) :: h, l'')
  | LimitElapse d :: evs => run_limit evs (limiter_elapse d l)
  end.

(** Batches of 32-bit sizes, at clocks at most [skew] seconds from the server's,
    which shows [now]. *)
Fixpoint in_step (skew : N) (now : Z) (evs : list limit_event) : Prop :=
  match evs with
  | [] => True
  | LimitConsume clock _ n :: evs =>
      n < 2 ^ 32 /\ (Z.abs (Z.of_N (secs_since_epoch clock) - now) <= Z.of_N skew)%Z
      /\ in_step skew now evs
  | LimitElapse d :: evs => in_step skew (now + Z.of_N d) evs
  end.

(** The server's time from which on no clock shows the epoch any more, and
    counters that last until then. *)
Definition epoch_past (skew : N) (l : RedisRateLimiter) (e : N) : Z :=
  Z.of_N ((e + 1) * rr_epoch_secs l + skew).

Definition counters_outlive (skew : N) (l : RedisRateLimiter) : Prop :=
  forall e i t, r_deadline (rr_server l) (limit_key e i) = Some t -> (epoch_past skew l e <= t)%Z.

Record limiter_timed (skew : N) (l : RedisRateLimiter) : Prop := {
  lt_ok : limiter_ok l;
  lt_skew : 4 * skew <= rr_epoch_secs l;
  lt_secs : 0 < rr_epoch_secs l;
  lt_outlive : counters_outlive skew l;
}.

(** The time at which a clock shows an epoch. *)
Lemma epoch_now skew l clock now :
  0 < rr_epoch_secs l -> (Z.abs (Z.of_N (secs_since_epoch clock) - now) <= Z.of_N skew)%Z ->
  (now < epoch_past skew l (redis_current_epoch l clock))%Z
  /\ (epoch_past skew l (redis_current_epoch l clock)
      <= now + Z.of_N (rr_epoch_secs l + 2 * skew))%Z.
Proof.
  intros Hs Hn. unfold epoch_past, redis_current_epoch.
  set (c := secs_since_epoch clock) in *. set (q := rr_epoch_secs l) in *. clearbody c q.
  pose proof (N.div_mod c q ltac:(lia)). pose proof (N.mod_lt c q ltac:(lia)).
  replace ((c / q + 1) * q) with (q * (c / q) + q) by lia. lia.
Qed.

Lemma rr_ttl_covers l skew :
  (0 < as_i64 (rr_ttl l))%Z -> 4 * skew <= rr_epoch_secs l ->
  (Z.of_N (rr_epoch_secs l + 2 * skew) <= as_i64 (rr_ttl l))%Z.
Proof.
  intros Hp Hk. assert (Hw : rr_ttl l < 2 ^ 64).
  { unfold rr_ttl, sat_add64. change u64_max with 18446744073709551615.
    change (2 ^ 64) with 18446744073709551616. lia. }
  revert Hp. unfold as_i64. change (2 ^ 63) with 9223372036854775808.
  change (2 ^ 64)%Z with 18446744073709551616%Z. change (2 ^ 64) with 18446744073709551616 in Hw.
  destruct (N.ltb_spec (rr_ttl l) 9223372036854775808) as [Hlt|]; [|lia]. intros _.
  assert (Hhalf : 2 * skew <= rr_epoch_secs l / 2) by (apply N.div_le_lower_bound; lia).
  revert Hlt. unfold rr_ttl, sat_add64. change u64_max with 18446744073709551615. lia.
Qed.

(** A batch keeps the invariant. *)
Lemma limiter_timed_consume skew l clock i n r l' :
  limiter_timed skew l -> n < 2 ^ 32 ->
  (Z.abs (Z.of_N (secs_since_epoch clock) - r_now (rr_server l)) <= Z.of_N skew)%Z ->
  try_consume clock i n l = (r, l') ->
  limiter_timed skew l' /\ r_now (rr_server l') = r_now (rr_server l)
  /\ rr_epoch_secs l' = rr_epoch_secs l.
Proof.
  intros [Hok Hsk Hs Ho] Hw Hn Hr.
  pose proof (limiter_step _ _ _ _ _ _ Hok Hw Hr) as (Hok' & _ & _ & _ & _).
  assert (Ht : r_now (rr_server l') = r_now (rr_server l) /\ rr_epoch_secs l' = rr_epoch_secs l
    /\ forall k, r_deadline (rr_server l') k = r_deadline (rr_server l) k
         \/ k = limit_key (redis_current_epoch l clock) i
            /\ r_deadline (rr_server l') k = Some (r_now (rr_server l) + as_i64 (rr_ttl l))%Z).
  { revert Hr. unfold try_consume, RedisRateLimiter_limiter.
    destruct (r_conn (rr_server l)) as [q s1] eqn:Hc. apply r_conn_timed in Hc as [N1 D1].
    destruct q as [u|e|]; [|intros [= _ <-]; cbn; split_and!; [done|done|by intros; left]..].
    set (script := CONSUME_LUA _ _ _ _). destruct (r_invoke script s1) as [q2 s2] eqn:Hi.
    assert (HT : r_now s2 = r_now (rr_server l) /\ forall k, r_deadline s2 k = r_deadline (rr_server l) k
         \/ k = limit_key (redis_current_epoch l clock) i
            /\ r_deadline s2 k = Some (r_now (rr_server l) + as_i64 (rr_ttl l))%Z).
    { apply r_invoke_law in Hi as [_ [->| ->]]; [split; [done|]; by left|].
      destruct (script s1) as [q3 s3] eqn:Hq. apply CONSUME_LUA_timed in Hq as [N2 D2]; [|apply Hok].
      cbn. split; [congruence|]. intros k. rewrite <- (D1 k), <- N1. apply D2. }
    destruct HT. destruct q2; intros [= _ <-]; by split_and!. }
  destruct Ht as (Hn' & Hs' & Hd). split_and!; [|done..]. split; [done|congruence|congruence|].
  intros e j t Hj. unfold epoch_past. rewrite Hs'. destruct (Hd (limit_key e j)) as [Heq|[Heq Hv]].
  - rewrite Heq in Hj. by apply Ho in Hj.
  - rewrite Hv in Hj. injection Hj as <-. apply limit_key_inj in Heq as [-> _].
    pose proof (epoch_now skew l clock _ Hs Hn) as [_ He].
    pose proof (rr_ttl_covers l skew (proj1 Hok) Hsk). unfold epoch_past in He. lia.
Qed.

(** Time passing keeps it too, and the counters of epochs that are not over. *)
Lemma limiter_timed_elapse skew l d :
  limiter_timed skew l -> limiter_timed skew (limiter_elapse d l)
  /\ forall e i, (r_now (rr_server l) + Z.of_N d < epoch_past skew l e)%Z ->
     used (limiter_elapse d l) e i = used l e i.
Proof.
  intros [[Ht Hpos] Hsk Hs Ho]. split; [split; [split; [done|]|done|done|]|].
  - intros e i. destruct (r_elapse_law d (rr_server l) (limit_key e i)) as [[[_ Hc] _]|[[_ Hc] _]];
      cbn [rr_server limiter_elapse]; rewrite Hc; [apply Hpos|done].
  - intros e i t. cbn [rr_server limiter_elapse]. destruct (r_elapse_law d (rr_server l) (limit_key e i)) as [[_ Hd]|[_ Hd]];
      rewrite Hd; [apply Ho|done].
  - intros e i Hlt. cbn [used RedisRateLimiter_laws rr_server limiter_elapse].
    destruct (r_elapse_keeps d (rr_server l) (limit_key e i)) as [[_ Hc] _].
    + intros t Hd. apply Ho in Hd. lia.
    + by rewrite Hc.
Qed.

Lemma granted_cons l clock i n r e j h :
  granted l e j (((clock, i, n), r) :: h)
  = if decide (r = Ok tt /\ l clock = e /\ i = j) then n + granted l e j h else granted l e j h.
Proof. done. Qed.

(** Nothing is granted in an epoch that is past, and what is granted in another
    fits what is left of the quota; a run keeps the invariant. *)
Lemma run_limit_granted skew l evs e i h l' f :
  limiter_timed skew l -> in_step skew (r_now (rr_server l)) evs ->
  (forall clock, f clock = redis_current_epoch l clock) -> run_limit evs l = (h, l') ->
  limiter_timed skew l'
  /\ ((epoch_past skew l e <= r_now (rr_server l))%Z -> granted f e i h = 0)
  /\ (0 < granted f e i h -> used l e i + granted f e i h <= quota l).
Proof.
  revert l h l'. induction evs as [|[clock j n|d] evs IH]; intros l h l' Hl Hw Hf; cbn [run_limit in_step] in *.
  { intros [= <- <-]. split_and!; [done|done|cbn; lia]. }
  - destruct Hw as (Hn & Hclk & Hw). destruct (try_consume clock j n l) as [r l1] eqn:Hr.
    destruct (run_limit evs l1) as [h1 l2] eqn:Hrun. intros [= <- <-].
    destruct (limiter_timed_consume _ _ _ _ _ _ _ Hl Hn Hclk Hr) as (Hl1 & Hn1 & Hs1).
    destruct (limiter_step _ _ _ _ _ _ (lt_ok _ _ Hl) Hn Hr) as (_ & Hq & _ & Hmono & Hg).
    specialize (Hmono e i). rewrite <- Hn1 in Hw.
    destruct (IH l1 h1 l2 Hl1 Hw) as (Hl2 & Hpast & Hsum); [|done|].
    { intros c. rewrite Hf. unfold redis_current_epoch. by rewrite Hs1. }
    assert (Hep : epoch_past skew l1 e = epoch_past skew l e) by (unfold epoch_past; by rewrite Hs1).
    rewrite Hep, Hn1 in Hpast. rewrite Hq in Hsum.
    pose proof (epoch_now skew l clock _ (lt_secs _ _ Hl) Hclk) as [Hlt _].
    rewrite <- Hf in Hlt. rewrite granted_cons. split_and!; [done| |].
    + intros Hp. rewrite decide_False; [by apply Hpast|]. intros (_ & <- & _). lia.
    + case_decide as Hd; [|lia]. destruct Hd as (-> & <- & ->). destruct (Hg eq_refl) as [Hu Hle].
      cbn [epoch_at RedisRateLimiter_laws] in Hu, Hle. rewrite <- Hf in Hu, Hle.
      destruct (decide (granted f (f clock) i h1 = 0)); lia.
  - intros Hrun. destruct (limiter_timed_elapse skew l d Hl) as [Hl1 Hu].
    destruct (IH (limiter_elapse d l) h l' Hl1) as (Hl2 & Hpast & Hsum); [by cbn; rewrite r_elapse_now|done|done|].
    change (epoch_past skew (limiter_elapse d l) e) with (epoch_past skew l e) in Hpast.
    cbn [rr_server limiter_elapse] in Hpast. rewrite r_elapse_now in Hpast.
    split_and!; [done|intros; apply Hpast; lia|]. intros Hpos.
    destruct (Z.ltb_spec (r_now (rr_server l) + Z.of_N d) (epoch_past skew l e)) as [Hlt|Hge].
    + rewrite <- (Hu e i) by done. by apply Hsum.
    + rewrite Hpast in Hpos by done. lia.
Qed.

End quota.

(** ** The two backends, command for command *)

Section agreement.
Context `{BuildProfile, RedisLaws, HexLaws, !RedisReliable}.

(** The same nonces are marked. *)
Definition spend_related (m : InMemorySpentStore) (st : RedisSpentStore) : Prop :=
  (0 < as_i64 (rs_ttl_secs st) <= 2 ^ 50)%Z
  /\ forall k n, (k, n) ∈ seen m <-> r_member (rs_server st) (spent_key k) (hex_encode n).

Lemma spend_related_mark m st k n :
  spend_related m st ->
  (check_and_mark k n m).1 = (check_and_mark k n st).1
  /\ spend_related (check_and_mark k n m).2 (check_and_mark k n st).2.
Proof.
  intros [Ht Hm]. rewrite check_and_mark_memory. unfold check_and_mark, RedisSpentStore_store.
  destruct (r_conn_ok (rs_server st)) as [s1 E1].
  destruct (r_sadd_ok (spent_key k) (hex_encode n) s1) as (v & s2 & E2).
  destruct (r_expire_ok (spent_key k) (as_i64 (rs_ttl_secs st)) s2) as [s3 E3]; [lia|].
  unfold redis_check_and_mark. rewrite E1, E2, E3. cbn [fst snd].
  apply r_conn_law in E1 as [M1 _]. apply r_expire_law in E3 as [M3 _]; [|lia].
  apply r_sadd_law in E2 as (Hg & Hb & _ & Hv). destruct (Hv v eq_refl) as (Hin & Hnew & _).
  assert (Hset : forall k' n', r_member s3 (spent_key k') (hex_encode n')
    <-> (k', n') ∈ seen m \/ (k', n') = (k, n)).
  { intros k' n'. rewrite M3, Hm, <- (M1 (spent_key k')). split.
    - intros [?|[= Hk Hn]]%Hb; [by left|right]. apply display_N_inj in Hk as ->.
      by apply hex_encode_inj in Hn as ->.
    - intros [?|[= -> ->]]; [by apply Hg|done]. }
  assert (Hd : v = 1%Z <-> (k, n) ∉ seen m) by (rewrite Hnew, M1, Hm; done).
  destruct (Z.eqb_spec v 1) as [Hv1|Hv1]; case_decide as Hc; cbn [fst snd].
  - by apply Hd in Hv1.
  - split; [done|]. split; [done|]. intros k' n'. cbn [seen rs_server]. rewrite Hset. set_solver.
  - split; [done|]. split; [done|]. intros k' n'. cbn [seen rs_server]. rewrite Hset. set_solver.
  - by apply Hd in Hc.
Qed.

(** The same permits are counted, under the same settings. *)
Record limit_related (m : InMemoryRateLimiter) (l : RedisRateLimiter) : Prop := {
  lr_ok : memory_ok m;
  lr_max : rr_max_per_epoch l = max_per_epoch m;
  lr_secs : rr_epoch_secs l = epoch_secs m;
  lr_ttl : (0 < as_i64 (rr_ttl l) <= 2 ^ 50)%Z;
  lr_counts e i : r_counter (rr_server l) (limit_key e i) = Z.of_N (counted m e i);
}.

(** The script on a server that answers. *)
Lemma CONSUME_LUA_reliable key n ttl max s :
  (0 <= n < 2 ^ 32)%Z -> (0 < ttl <= 2 ^ 50)%Z -> (0 <= r_counter s key < 2 ^ 32)%Z ->
  exists s', CONSUME_LUA key n ttl max s
    = (Ok (if (max <? r_counter s key + n)%Z then 0%Z else 1%Z), s').
Proof.
  intros Hn Ht Hc. change (2 ^ 32)%Z with 4294967296%Z in *. unfold CONSUME_LUA.
  destruct (r_incrby_ok key n s) as (v & s1 & E1).
  { change (2 ^ 63)%Z with 9223372036854775808%Z. lia. }
  rewrite (run_bind_step _ _ _ _ _ E1). apply r_incrby_law in E1 as (Hv & _).
  destruct (Hv v eq_refl) as [-> Hc1].
  assert (HE : exists s2, (if (r_counter s key + n =? n)%Z then r_expire key ttl else mret tt) s1
    = (Ok tt, s2) /\ r_counter s2 key = r_counter s1 key).
  { destruct (_ =? _)%Z; [|by exists s1]. destruct (r_expire_ok key ttl s1) as [s2 E2]; [lia|].
    exists s2. split; [done|]. apply r_expire_law in E2 as [_ ->]; [done|lia]. }
  destruct HE as (s2 & E2 & Hc2). rewrite (run_bind_step _ _ _ _ _ E2).
  destruct (max <? r_counter s key + n)%Z; [|by exists s2].
  destruct (r_decrby_ok key n s2) as (w & s3 & E3).
  { change (2 ^ 63)%Z with 9223372036854775808%Z. lia. }
  rewrite (run_bind_step _ _ _ _ _ E3). by exists s3.
Qed.

Lemma limit_related_consume m l clock i n :
  limit_related m l -> n < 2 ^ 32 ->
  (try_consume clock i n m).1 = (try_consume clock i n l).1
  /\ limit_related (try_consume clock i n m).2 (try_consume clock i n l).2.
Proof.
  intros [Hok Hmax Hsecs Httl Hcnt] Hn.
  destruct (try_consume clock i n m) as [r m'] eqn:Hm. cbn [fst snd].
  apply memory_step in Hm as (Hok' & Hmax' & Hsecs' & Ho & Hcase); [|done..].
  set (e := current_epoch m clock) in *.
  assert (He : redis_current_epoch l clock = e) by (unfold redis_current_epoch; by rewrite Hsecs).
  unfold try_consume, RedisRateLimiter_limiter. rewrite He.
  destruct (r_conn_ok (rr_server l)) as [s1 E1]. rewrite E1. apply r_conn_law in E1 as [_ C1].
  pose proof (memory_counts _ Hok e i) as Hle. pose proof (memory_max _ Hok) as Hlt.
  rewrite u32_max_spec in Hlt. change (2 ^ 32) with 4294967296 in *.
  destruct (CONSUME_LUA_reliable (limit_key e i) (Z.of_N n) (as_i64 (rr_ttl l))
    (Z.of_N (rr_max_per_epoch l)) s1) as [s2 E2]; [..|rewrite C1, Hcnt|]; [|done|..];
    try (change (2 ^ 32)%Z with 4294967296%Z; lia).
  rewrite (r_invoke_ok _ _ _ _ E2). rewrite C1, Hcnt, Hmax in E2 |- *.
  apply CONSUME_LUA_exactly in E2 as (Hother & _ & Hyes & Hno); [|lia|lia].
  rewrite C1, Hcnt in Hyes, Hno.
  assert (Hrel : r_counter s2 (limit_key e i) = Z.of_N (counted m' e i) ->
    limit_related m' {| rr_server := s2; rr_max_per_epoch := max_per_epoch m;
                        rr_epoch_secs := rr_epoch_secs l |}).
  { intros Hk. split; cbn [rr_max_per_epoch rr_epoch_secs rr_server]; [done|done|congruence|done|].
    intros e' j. destruct (decide ((e', j) = (e, i))) as [[= -> ->]|Hne]; [done|].
    rewrite Hother, C1, Hcnt, Ho; [done..|]. by intros [-> ->]%limit_key_inj. }
  destruct Hcase as [(Hfit & -> & Hu)|(Hfit & -> & Hu)].
  - destruct (Z.ltb_spec (Z.of_N (max_per_epoch m)) (Z.of_N (counted m e i) + Z.of_N n)); [lia|].
    cbn [fst snd]. split; [done|]. apply Hrel. rewrite (proj1 (Hyes eq_refl)). lia.
  - destruct (Z.ltb_spec (Z.of_N (max_per_epoch m)) (Z.of_N (counted m e i) + Z.of_N n)); [|lia].
    cbn [fst snd]. split; [done|]. apply Hrel. rewrite (proj1 (Hno eq_refl)). lia.
Qed.

End agreement.

(** ** Properties *)

Section redis_properties.
Context `{RedisClockLaws, HexLaws, !RedisReliable}.

(** C20: whatever redemptions a Redis store serves while time passes, it accepts a
    nonce at most once under a key epoch, as long as the pauses between the
    redemptions of that epoch stay below the time to live: each redemption
    pushes the deadline of the whole epoch's set. *)
Theorem redis_once_within_ttl ttl k l s h st' :
  ttl < 2 ^ 64 -> (0 < as_i64 ttl <= 2 ^ 50)%Z ->
  r_deadline s (spent_key k) = None -> quiet ttl k None l = true ->
  run_spend l {| rs_server := s; rs_ttl_secs := ttl |} = (h, st') ->
  NoDup (filter (fun x => x.1 = k) (accepted h)).
Proof. intros Hw Ht Hk Hq Hl. by eapply (run_spend_quiet ttl k None l s). Qed.

(** C22: what a time to live does, over the whole range of the option but the gap
    below Redis's largest: up to 2^50 seconds, the store forgets the epoch's set
    when that long has passed since the last redemption and accepts the nonce
    again; in the last 9223372036854775 values of [u64], which the cast makes
    small negatives, EXPIRE deletes the set at once and every nonce is accepted
    on every try; in between Redis refuses the number, the code ignores the
    error, and a set that has no deadline keeps its nonces for good. *)
Theorem redis_forgets st k n :
  let ttl := rs_ttl_secs st in
  ttl < 2 ^ 64 ->
  (0 < ttl <= 2 ^ 50 -> forall st' d, check_and_mark k n st = (Ok tt, st') -> ttl < d ->
     exists st'', check_and_mark k n (store_elapse d st') = (Ok tt, st''))
  /\ (2 ^ 64 - expire_max <= ttl -> forall r st', check_and_mark k n st = (r, st') ->
     exists st'', check_and_mark k n st' = (Ok tt, st''))
  /\ (expire_max < ttl < 2 ^ 64 - expire_max -> r_deadline (rs_server st) (spent_key k) = None ->
     forall st' d, check_and_mark k n st = (Ok tt, st') ->
     exists st'', check_and_mark k n (store_elapse d st') = (Err SEDoubleSpend, st'')).
Proof.
  destruct st as [s ttl]. unfold check_and_mark, RedisSpentStore_store. cbn [rs_server rs_ttl_secs].
  intros Hw. split_and!.
  - intros Ht st' d. destruct (redis_check_and_mark ttl k n s) as [r s1] eqn:Hr. intros [= -> <-] Hd.
    pose proof (as_i64_small ttl ltac:(lia)) as Hi.
    apply redis_mark_deadline in Hr as (Hnow & Hdl & _); [|lia]. rewrite Hi in Hdl.
    destruct (redis_mark_absent ttl k n (r_elapse d s1)) as [s2 E]; [unfold expire_max; lia| |].
    + eapply r_elapse_drops; [done|]. lia.
    + unfold store_elapse. cbn [rs_server rs_ttl_secs]. rewrite E. by eexists.
  - intros Ht r st'. unfold expire_max in Ht. pose proof (as_i64_big ttl Hw ltac:(lia)) as Hi.
    assert (Hrange : (- Z.of_N expire_max <= as_i64 ttl <= 2 ^ 50)%Z) by (unfold expire_max; lia).
    destruct (redis_mark_reliable ttl k n s Hrange) as (v & s1 & s2 & s3 & _ & _ & E3 & E).
    rewrite E. intros [= _ <-]. cbn [rs_server rs_ttl_secs].
    destruct (redis_mark_absent ttl k n s3) as [s4 E4]; [done| |rewrite E4; by eexists].
    eapply r_expire_gone; [|done]. lia.
  - intros Ht Hnone st' d. destruct (redis_check_and_mark ttl k n s) as [r s1] eqn:Hr. intros [= -> <-].
    pose proof (as_i64_refused ttl Ht) as Hi.
    destruct (redis_mark_refused ttl k n s _ _ Hi Hr eq_refl) as (Hin & Hd1).
    rewrite Hnone in Hd1. destruct (r_elapse_keeps d s1 (spent_key k)) as [[Hm _] _]; [by rewrite Hd1|].
    unfold store_elapse. cbn [rs_server rs_ttl_secs].
    destruct (redis_mark_again ttl k n (r_elapse d s1)) as [s2 ->]; [by apply Hm|by eexists].
Qed.

End redis_properties.

(** C19: issuers that share a Redis limiter never grant an identity more than its
    quota in an epoch, however their batches and time interleave and whichever
    counters expire, as long as every issuer's clock is within a quarter of an
    epoch of the server's: a counter lives an epoch and a half from its first
    batch, so it outlasts the last clock that shows its epoch.  The limiter that
    such a run leaves is as fit to go on. *)
Theorem redis_quota_over_time `{RedisClockLaws, HexLaws} skew l evs e i h l' :
  limiter_timed skew l -> in_step skew (r_now (rr_server l)) evs ->
  run_limit evs l = (h, l') ->
  granted (redis_current_epoch l) e i h <= rr_max_per_epoch l /\ limiter_timed skew l'.
Proof.
  intros Hl Hw Hr. destruct (run_limit_granted skew l evs e i h l' (redis_current_epoch l) Hl Hw
    (fun _ => eq_refl) Hr) as (Hl' & _ & Hg). split; [|done]. cbn [quota RedisRateLimiter_laws] in Hg.
  destruct (decide (granted (redis_current_epoch l) e i h = 0)); lia.
Qed.

(** C21: the in-memory and the Redis backends are interchangeable: started from the
    same marks and counts, over a server that answers, they give the same
    answer to every sequence of redemptions and of batches (as long as no key
    expires in between). *)
Theorem backends_agree `{BuildProfile, RedisLaws, HexLaws, !RedisReliable} :
  (forall l m st, spend_related m st ->
     (mark_all l (SpendInMemory m)).1 = (mark_all l (SpendRedis st)).1)
  /\ (forall l m lr, limit_related m lr -> Forall (fun q : consume_req => q.2 < 2 ^ 32) l ->
     (consume_all l (LimitInMemory m)).1 = (consume_all l (LimitRedis lr)).1).
Proof.
  split.
  - induction l as [|[k n] l IH]; intros m st Hr; [done|]. cbn [mark_all].
    unfold check_and_mark, SpendBackend_store.
    destruct (spend_related_mark m st k n Hr) as [Hq Hr'].
    destruct (check_and_mark k n m) as [r1 m'], (check_and_mark k n st) as [r2 st'].
    cbn [fst snd] in *. subst r2. specialize (IH m' st' Hr').
    destruct (mark_all l (SpendInMemory m')), (mark_all l (SpendRedis st')). cbn in *. by subst.
  - induction l as [|[[clock i] n] l IH]; intros m lr Hr Hw; [done|]. cbn [consume_all].
    apply Forall_cons in Hw as [Hn Hw]. unfold try_consume, LimitBackend_limiter.
    destruct (limit_related_consume m lr clock i n Hr Hn) as [Hq Hr'].
    destruct (try_consume clock i n m) as [r1 m'], (try_consume clock i n lr) as [r2 lr'].
    cbn [fst snd] in *. subst r2. specialize (IH m' lr' Hr' Hw).
    destruct (consume_all l (LimitInMemory m')), (consume_all l (LimitRedis lr')). cbn in *. by subst.
Qed.
