(* ===== verification/Wire.v ===== *)
(** * The HTTP bodies and the transport policy: cli/src/wire.rs and tls.rs

A handler is given the decoded body and answers with a value or with a status
code and an [ErrorBody]; decoding the request and encoding the answer is axum's. *)

From S2P Require Import Prelude RustStr Externals Core Authorize Transparency Policy Appraise.

(** [SignBody] of wire.rs. *)
Record SignBodyWire := {
  sb_req : SignRequest;
  sb_authorization_b64 : str;
}.

Record AuthorizeBody := {
  ab_eat_b64 : str;
  ab_binding : str;
  ab_max_batch : N;
}.

Record AuthorizeResponse := {
  aresp_authorization_b64 : str;
  aresp_appraisal : AppraisalResult;
}.

Record PubkeyResponse := { pubkey_hex : str }.

Record ErrorBody := { error : str }.

Record KtResponse := {
  kt_log_pub_hex : str;
  kt_records : list KeyRecord;
  kt_signed_head : SignedHead;
}.

Record RotateResponse := {
  rr_key_version : N;
  rr_token_key_id : str;
  rr_kt_seq : N;
  rr_head : str;
}.

Record RedeemBody := { rb_key_epoch : N; rb_nonce : str }.

(** A refusal: the status code and its body. *)
Definition Reject : Type := N * ErrorBody.

Definition err (code : N) (msg : str) : Reject := (code, {| error := msg |}).

Definition OK : N := 200.
Definition BAD_REQUEST : N := 400.
Definition UNAUTHORIZED : N := 401.
Definition FORBIDDEN : N := 403.
Definition NOT_FOUND : N := 404.
Definition CONFLICT : N := 409.
Definition TOO_MANY_REQUESTS : N := 429.
Definition INTERNAL_SERVER_ERROR : N := 500.
Definition SERVICE_UNAVAILABLE : N := 503.

(** ** tls.rs *)

(** What [serve] does before it accepts a connection. *)
Inductive Transport :=
| RefuseCleartext
| RefuseLoopback
| ServeTls (cert key : str)
| ServePlain.

Record TlsPaths := { cert_pem : str; key_pem : str }.

Definition serve_mode (loopback : bool) (tls : option TlsPaths) (insecure_http : bool) : Transport :=
  match loopback, tls, insecure_http with
  | false, None, _ => RefuseCleartext
  | true, None, false => RefuseLoopback
  | _, Some paths, _ => ServeTls (cert_pem paths) (key_pem paths)
  | true, None, true => ServePlain
  end.

Lemma serve_mode_cases loopback tls insecure_http :
  match serve_mode loopback tls insecure_http with
  | ServePlain => loopback = true /\ tls = None /\ insecure_http = true
  | ServeTls c k => tls = Some {| cert_pem := c; key_pem := k |}
  | RefuseCleartext => loopback = false /\ tls = None
  | RefuseLoopback => loopback = true /\ tls = None /\ insecure_http = false
  end.
Proof. by destruct loopback, tls as [[]|], insecure_http. Qed.
