(* ===== verification/Redeemer.v ===== *)
(** * The central redeemer: cli/src/redeemer.rs

The handler of [POST /redeem] over a spent store. *)

From S2P Require Import Prelude RustStr Externals Policy Spend Store Wire.

Section redeemer.
Context `{Hex} {S : Type} `{!SpentStore S}.

(** The handler answers the status code; it is run with [S := SpendBackend]. *)
Definition redeem (body : RedeemBody) : run S Reject N := fun s =>
  match hex32 (rb_nonce body) with
  | None => (Err (err BAD_REQUEST (B "nonce must be 32-byte hex")), s)
  | Some nonce =>
      let '(r, s) := check_and_mark (rb_key_epoch body) nonce s in
      (match r with
       | Ok _ => Ok OK
       | Err SEDoubleSpend => Err (err CONFLICT (B "token already spent (double-spend)"))
       | Err (SEBackend e) =>
           Err (err SERVICE_UNAVAILABLE (B "spend backend unavailable: " ++ e))
       | Panic => Panic
       end, s)
  end.

Lemma hex32_Some s n : hex32 s = Some n <-> hex_decode (trim s) = inr n /\ length n = 32%nat.
Proof.
  unfold hex32. destruct (hex_decode (trim s)) as [e|v]; [naive_solver|].
  rewrite array32_Some. naive_solver.
Qed.

Lemma hex32_encode `{!HexLaws} n : length n = 32%nat -> hex32 (hex_encode n) = Some n.
Proof. intros. apply hex32_Some. by rewrite trim_hex_encode, hex_decode_encode. Qed.

Lemma redeem_cases body s r s' :
  redeem body s = (r, s') ->
  (hex32 (rb_nonce body) = None /\ s' = s
   /\ r = Err (err BAD_REQUEST (B "nonce must be 32-byte hex")))
  \/ exists n q, hex32 (rb_nonce body) = Some n
     /\ check_and_mark (rb_key_epoch body) n s = (q, s')
     /\ (r = Ok OK <-> q = Ok tt)
     /\ (q = Err SEDoubleSpend ->
         r = Err (err CONFLICT (B "token already spent (double-spend)")))
     /\ (forall e, q = Err (SEBackend e) ->
         r = Err (err SERVICE_UNAVAILABLE (B "spend backend unavailable: " ++ e))).
Proof.
  unfold redeem. destruct (hex32 _) as [n|].
  - destruct (check_and_mark _ n s) as [q s1] eqn:Hc. intros [= <- <-]. right.
    exists n, q. destruct q as [[]|[|e]|]; split_and!; try done; naive_solver.
  - intros [= <- <-]. by left.
Qed.

(** A refusal is never answered with the code of success. *)
Lemma redeem_Err_code body s c e s' : redeem body s = (Err (c, e), s') -> c <> OK.
Proof.
  unfold redeem. destruct (hex32 _) as [n|]; [|by intros [= <- _ _]].
  destruct (check_and_mark _ n s) as [[[]|[|m]|] s1]; intros [=]; by subst c.
Qed.

(** Requests served in order. *)
Fixpoint redeem_all (l : list RedeemBody) (s : S) : list (RedeemBody * result Reject N) * S :=
  match l with
  | [] => ([], s)
  | b :: l =>
      let '(r, s) := redeem b s in
      let '(rs, s) := redeem_all l s in
      ((b, r) :: rs, s)
  end.

(** What a request names: the epoch and the decoded nonce. *)
Definition redeem_key (b : RedeemBody) : option (N * bytes) :=
  (fun n => (rb_key_epoch b, n)) <$> hex32 (rb_nonce b).

Definition redeemed (h : list (RedeemBody * result Reject N)) : list (N * bytes) :=
  omap (fun x => redeem_key x.1) (filter (fun x => is_ok x.2 = true) h).

Lemma redeem_Ok body s s' c :
  redeem body s = (Ok c, s') <->
  c = OK /\ exists n, hex32 (rb_nonce body) = Some n
    /\ check_and_mark (rb_key_epoch body) n s = (Ok tt, s').
Proof.
  unfold redeem. destruct (hex32 _) as [n|]; [|split; [done|by intros (_ & ? & ? & _)]].
  destruct (check_and_mark _ n s) as [q s1] eqn:Hc. split.
  - intros Hr. destruct q as [[]|[|]|]; simplify_eq. eauto.
  - intros (-> & n' & [= <-] & Hx). rewrite Hc in Hx. by injection Hx as -> ->.
Qed.

(** Serving requests marks exactly the nonces the well-formed ones name. *)
Lemma redeem_all_marks l s h s' :
  redeem_all l s = (h, s') ->
  exists h', mark_all (omap redeem_key l) s = (h', s') /\ accepted h' = redeemed h.
Proof.
  revert s h s'. induction l as [|b l IH]; intros s h s'; cbn [redeem_all].
  { intros [= <- <-]. by exists []. }
  destruct (redeem b s) as [r s1] eqn:Hr.
  destruct (redeem_all l s1) as [rs s2] eqn:Hl. intros [= <- <-].
  destruct (IH _ _ _ Hl) as (h' & Hm & Ha).
  unfold redeemed. rewrite filter_cons. cbn [snd].
  change (omap redeem_key (b :: l)) with
    (match redeem_key b with Some y => y :: omap redeem_key l | None => omap redeem_key l end).
  unfold redeem in Hr. unfold redeem_key at 1. destruct (hex32 (rb_nonce b)) as [n|] eqn:Hn; cbn [fmap option_fmap option_map].
  - destruct (check_and_mark (rb_key_epoch b) n s) as [q s3] eqn:Hc. injection Hr as Hr <-.
    exists (((rb_key_epoch b, n), q) :: h'). cbn [mark_all]. rewrite Hc, Hm. split; [done|].
    unfold accepted. rewrite filter_cons. cbn [snd].
    destruct q as [[]|[|e]|]; subst r; cbn [is_ok].
    + rewrite !decide_True by done. rewrite fmap_cons. cbn [fst].
      change (filter _ h').*1 with (accepted h'). rewrite Ha. unfold redeemed. cbn.
      unfold redeem_key at 2. by rewrite Hn.
    + by rewrite !decide_False by done.
    + by rewrite !decide_False by done.
    + by rewrite !decide_False by done.
  - injection Hr as <- <-. exists h'. rewrite decide_False by done. done.
Qed.

(** Whatever requests the central redeemer serves, over any store
    that keeps the store's promise, it answers success at most once per key epoch
    and nonce, never for one marked before, and leaves every one it answered
    marked. *)
Theorem redeem_all_once `{!SpentStoreLaws S} l s h s' :
  store_ok s -> redeem_all l s = (h, s') -> NoDup (redeemed h) /\
  (forall k n, (k, n) ∈ redeemed h -> ~ spent s k n /\ spent s' k n).
Proof.
  intros Hok (h' & Hm & <-)%redeem_all_marks.
  apply mark_all_spent in Hm as (_ & Hd & Hf & _ & Hs); [|done]. split; [done|]. eauto.
Qed.

End redeemer.
