(* ===== verification/IssuerService.v ===== *)
(** * The issuer service: cli/src/issuer.rs

The state behind the handlers, the handlers, and [rotate] both as one request
and as the two critical sections it consists of, since other requests run
between reading the current version and publishing the new key. *)

From S2P Require Import Prelude RustStr Externals Pomfrit Core RateLimit Gate Authorize Transparency.
From S2P Require Import Store Wire.

Section service.
Context `{Sha256, Hex, Faest, Base64, BlindSig, Redis, BuildProfile, Features}
  `{Json IssuanceAuthorization}.

(** ** State *)

Record Rotating := {
  rot_current : Issuer;
  rot_history : gmap N IssuerPublicKey;
  rot_log : KeyLog;
  rot_signed_head : SignedHead;
}.

(** [rot] is behind a [tokio::sync::RwLock], which a panic does not poison. *)
Record IssuerState := {
  is_rot : Rotating;
  is_attester_pub : faest_vk;
  is_limiter : LimitBackend;
  is_log_signer : LogSigner;
  is_kt_log_pub : bytes;
  is_admin_token : option str;
}.

Definition set_rot (st : IssuerState) (r : Rotating) : IssuerState :=
  {| is_rot := r; is_attester_pub := is_attester_pub st; is_limiter := is_limiter st;
     is_log_signer := is_log_signer st; is_kt_log_pub := is_kt_log_pub st;
     is_admin_token := is_admin_token st |}.

Definition set_limiter (st : IssuerState) (l : LimitBackend) : IssuerState :=
  {| is_rot := is_rot st; is_attester_pub := is_attester_pub st; is_limiter := l;
     is_log_signer := is_log_signer st; is_kt_log_pub := is_kt_log_pub st;
     is_admin_token := is_admin_token st |}.

(** ** Startup *)

(** A required 32-byte hex variable, as [kt_seed_from_env] reads it. *)
Definition kt_seed_from_env (var : option str) : result str bytes :=
  h ← ok_or var (B "EATPASS_KT_SEED is required (64 hex chars): it is the stable key-transparency log signing seed that clients pin. Generate one with `openssl rand -hex 32` and persist it across restarts.");
  b ← map_err (fun e => B "EATPASS_KT_SEED bad hex: " ++ e) (of_sum (hex_decode (trim h)));
  ok_or (array32 b) (B "EATPASS_KT_SEED must be exactly 32 bytes (64 hex chars)").

(** [run] up to serving: the environment's variables and the clock are
    arguments. *)
Definition issuer_run (attester_pub_hex : str) (max_per_epoch epoch_secs : N)
    (rate_backend kt_seed_var admin_var : option str) (now : N) :
    run rng str IssuerState := fun g =>
  match map_err (fun e => B "--attester-pub: " ++ GateError_display e)
          (attester_pubkey_from_hex attester_pub_hex) with
  | Ok attester_pub =>
      let '(issuer, g) := Issuer_generate 1 g in
      let pk := Issuer_public issuer in
      (_ ← map_err Error_display (IssuerPublicKey_token_key_id pk);
       limiter ← LimitBackend_from_url rate_backend max_per_epoch epoch_secs;
       log_seed ← kt_seed_from_env kt_seed_var;
       log_signer ← map_err TransparencyError_display (LogSigner_from_seed log_seed);
       '(_, key_log) ← map_err (fun e => B "kt append: " ++ TransparencyError_display e)
                         (KeyLog_append KeyLog_new pk now);
       sh ← map_err TransparencyError_display (LogSigner_sign log_signer key_log);
       Ok {| is_rot := {| rot_current := issuer;
                          rot_history := {[ pk_key_version pk := pk ]};
                          rot_log := key_log; rot_signed_head := sh |};
             is_attester_pub := attester_pub; is_limiter := limiter;
             is_log_signer := log_signer; is_kt_log_pub := LogSigner_public log_signer;
             is_admin_token :=
               match admin_var with Some (b :: s) => Some (b :: s) | _ => None end |}, g)
  | Err e => (Err e, g)
  | Panic => (Panic, g)
  end.

(** ** Handlers *)

Definition keys (st : IssuerState) : IssuerPublicKey := Issuer_public (rot_current (is_rot st)).

Definition keys_version (version : N) (st : IssuerState) : result Reject IssuerPublicKey :=
  ok_or (rot_history (is_rot st) !! version)
    (err NOT_FOUND (B "no such key_version " ++ display_N version)).

Definition kt (st : IssuerState) : KtResponse :=
  {| kt_log_pub_hex := hex_encode (is_kt_log_pub st);
     kt_records := kl_records (rot_log (is_rot st));
     kt_signed_head := rot_signed_head (is_rot st) |}.

(** The status of a refusal by the gate. *)
Definition gate_code (e : GateError) : N :=
  match e with GQuotaExceeded => TOO_MANY_REQUESTS | _ => FORBIDDEN end.

(** The part of [sign] under the read lock. *)
Definition sign_authorized (req : SignRequest) (auth : IssuanceAuthorization) (now : N)
    (clock : option N) : run (IssuerState * rng) Reject SignResponse := fun s =>
  let '(r, (l, g)) := issue_authorized_with_limit (rot_current (is_rot s.1))
                        (is_attester_pub s.1) req auth now clock (is_limiter s.1, s.2) in
  (map_err (fun e => err (gate_code e) (GateError_display e)) r, (set_limiter s.1 l, g)).

Definition sign (body : SignBodyWire) (now : N) (clock : option N) :
    run (IssuerState * rng) Reject SignResponse :=
  auth_bytes ← lift (map_err
    (fun e => err BAD_REQUEST (B "authorization_b64 is not valid base64: " ++ e))
    (of_sum (b64_decode STANDARD (sb_authorization_b64 body))));
  auth ← lift (map_err (fun e => err BAD_REQUEST (B "authorization JSON: " ++ e))
    (of_sum (json_from_slice (T := IssuanceAuthorization) auth_bytes)));
  sign_authorized (sb_req body) auth now clock.

(** The checks of [rotate] before it generates a key. *)
Definition rotate_check (presented : option str) (st : IssuerState) : result Reject unit :=
  match is_admin_token st with
  | None => Err (err NOT_FOUND (B "rotation disabled (no admin token configured)"))
  | Some expected =>
      let presented := default [] presented in
      if decide (presented = [] \/ presented <> expected) then
        Err (err FORBIDDEN (B "bad or missing x-admin-token"))
      else Ok tt
  end.

(** The first critical section, under the read lock. *)
Definition rotate_next (st : IssuerState) : result Reject N :=
  add_w 32 (pk_key_version (Issuer_public (rot_current (is_rot st)))) 1.

(** The second one, under the write lock. *)
Definition rotate_commit (new_issuer : Issuer) (now : N) : run IssuerState Reject (N * str) :=
  fun st =>
  let new_pk := Issuer_public new_issuer in
  let r := is_rot st in
  match KeyLog_append (rot_log r) new_pk now with
  | Ok (seq, log) =>
      match LogSigner_sign (is_log_signer st) log with
      | Ok sh =>
          (Ok (seq, sh_head sh),
           set_rot st {| rot_current := new_issuer;
                         rot_history := <[pk_key_version new_pk := new_pk]> (rot_history r);
                         rot_log := log; rot_signed_head := sh |})
      | _ =>
          (Panic,
           set_rot st {| rot_current := rot_current r; rot_history := rot_history r;
                         rot_log := log; rot_signed_head := rot_signed_head r |})
      end
  | Err e => (Err (err INTERNAL_SERVER_ERROR (B "kt append: " ++ TransparencyError_display e)), st)
  | Panic => (Panic, st)
  end.

(** [rotate] with nothing in between. *)
Definition rotate (presented : option str) (now : N) :
    run (IssuerState * rng) Reject RotateResponse := fun s =>
  match (_ ← rotate_check presented s.1; rotate_next s.1) with
  | Ok next_version =>
      let '(new_issuer, g) := Issuer_generate next_version s.2 in
      match map_err (fun e => err INTERNAL_SERVER_ERROR (B "token_key_id: " ++ Error_display e))
              (IssuerPublicKey_token_key_id (Issuer_public new_issuer)) with
      | Ok new_tkid =>
          let '(r, st) := rotate_commit new_issuer now s.1 in
          ((fun '(seq, head_hex) =>
              {| rr_key_version := next_version; rr_token_key_id := hex_encode new_tkid;
                 rr_kt_seq := seq; rr_head := head_hex |}) <$> r, (st, g))
      | Err e => (Err e, (s.1, g))
      | Panic => (Panic, (s.1, g))
      end
  | Err e => (Err e, s)
  | Panic => (Panic, s)
  end.

(** ** Interleavings

    A configuration: the state, the rotations that have read a version and
    generated a key but not yet published it, and the randomness. *)
Record config := {
  cf_state : IssuerState;
  cf_pending : list Issuer;
  cf_rng : rng;
}.

Inductive cstep : config -> config -> Prop :=
| c_begin st ps g presented v i g' :
    rotate_check presented st = Ok tt ->
    rotate_next st = Ok v ->
    Issuer_generate v g = (i, g') ->
    cstep {| cf_state := st; cf_pending := ps; cf_rng := g |}
          {| cf_state := st; cf_pending := ps ++ [i]; cf_rng := g' |}
| c_commit st ps qs i g now r st' :
    rotate_commit i now st = (r, st') ->
    cstep {| cf_state := st; cf_pending := ps ++ i :: qs; cf_rng := g |}
          {| cf_state := st'; cf_pending := ps ++ qs; cf_rng := g |}
| c_sign st ps g body now clock r st' g' :
    sign body now clock (st, g) = (r, (st', g')) ->
    cstep {| cf_state := st; cf_pending := ps; cf_rng := g |}
          {| cf_state := st'; cf_pending := ps; cf_rng := g' |}.

(** What every interleaving keeps: the log is the records of the published
    keys, the head signs it, the served key is the last one published, and the
    history serves published keys under their versions. *)
Record published (st : IssuerState) (ks : list (IssuerPublicKey * N)) : Prop := {
  pub_log : kl_records (rot_log (is_rot st)) = key_records 0 ks;
  pub_head : LogSigner_sign (is_log_signer st) (rot_log (is_rot st)) = Ok (rot_signed_head (is_rot st));
  pub_log_pub : is_kt_log_pub st = LogSigner_public (is_log_signer st);
  pub_current : exists ks' nb, ks = ks' ++ [(keys st, nb)];
  pub_served : rot_history (is_rot st) !! pk_key_version (keys st) = Some (keys st);
  pub_history v pk : rot_history (is_rot st) !! v = Some pk ->
    pk_key_version pk = v /\ exists nb, (pk, nb) ∈ ks;
}.

(** The key published last under a version: the one the history keeps, whatever the
    interleaving. *)
Definition last_of_version (v : N) (ks : list (IssuerPublicKey * N)) : option IssuerPublicKey :=
  fst <$> last (filter (fun x => pk_key_version x.1 = v) ks).

Definition served_last (st : IssuerState) (ks : list (IssuerPublicKey * N)) : Prop :=
  forall v, rot_history (is_rot st) !! v = last_of_version v ks.

(** What rotations one after the other keep besides: the versions count up from
    1, and every published key is served under its version. *)
Record sequential (st : IssuerState) (ks : list (IssuerPublicKey * N)) : Prop := {
  seq_versions i pk nb : ks !! i = Some (pk, nb) -> pk_key_version pk = 1 + N.of_nat i;
  seq_served pk nb : (pk, nb) ∈ ks ->
    rot_history (is_rot st) !! pk_key_version pk = Some pk;
}.

End service.

(** ** Facts *)

Section facts.
Context `{Sha256Laws, HexLaws, FaestLaws, Base64Laws, BlindSig, Redis, BuildProfile, Features}
  `{Json IssuanceAuthorization}.

Lemma sign_limiter_only body now clock st g r st' g' :
  sign body now clock (st, g) = (r, (st', g')) ->
  is_rot st' = is_rot st /\ is_log_signer st' = is_log_signer st
  /\ is_kt_log_pub st' = is_kt_log_pub st /\ is_admin_token st' = is_admin_token st.
Proof.
  unfold sign. intros [(b & s1 & [_ ->]%lift_Ok & Hr)|[(e & Hl & ->)|[Hl ->]]]%run_bind_cases;
    [|by injection Hl as _ <- _..].
  apply run_bind_cases in Hr as [(a & s2 & [_ ->]%lift_Ok & Hr)|[(e & Hl & ->)|[Hl ->]]];
    [|by injection Hl as _ <- _..].
  unfold sign_authorized in Hr. cbn [fst snd] in Hr.
  destruct (issue_authorized_with_limit _ _ _ _ _ _ _) as [q [l h]]. by injection Hr as _ <- _.
Qed.

(** [sign] has an effect only with an authorization that verifies, for this
    batch, and [rotate] only with the configured admin token. *)
Lemma sign_effect body now clock st g r st' g' :
  sign body now clock (st, g) = (r, (st', g')) ->
  (st', g') = (st, g)
  \/ exists v auth, b64_decode STANDARD (sb_authorization_b64 body) = inr v /\ json_from_slice v = inr auth
     /\ IssuanceAuthorization_verify auth (is_attester_pub st) now = Ok tt
     /\ auth_binding auth = binding_of (blinded (req_body (sb_req body))).
Proof.
  unfold sign. intros [(v & s1 & [Hv%map_err_Ok%of_sum_Ok ->]%lift_Ok & Hr)|[(e & Hl & _)|[Hl _]]]%run_bind_cases;
    [|injection Hl as _ <- <-; by left..].
  apply run_bind_cases in Hr as [(a & s2 & [Ha%map_err_Ok%of_sum_Ok ->]%lift_Ok & Hr)|[(e & Hl & _)|[Hl _]]];
    [|injection Hl as _ <- <-; by left..].
  unfold sign_authorized in Hr. cbn [fst snd] in Hr.
  destruct (issue_authorized_with_limit _ _ _ _ _ _ _) as [q [l h]] eqn:Hi. injection Hr as _ <- <-.
  apply issue_authorized_effect in Hi as [[= -> ->]|[Hok Hb]]; [left; by destruct st|right].
  by exists v, a.
Qed.

Lemma rotate_effect pr now st g r st' g' :
  rotate pr now (st, g) = (r, (st', g')) ->
  (st', g') = (st, g)
  \/ is_limiter st' = is_limiter st
     /\ exists t, is_admin_token st = Some t /\ t <> [] /\ pr = Some t.
Proof.
  unfold rotate. cbn [fst snd]. destruct (rotate_check pr st) as [[]|e|] eqn:Hc;
    [|intros [= _ <- <-]; by left..].
  intros Hr. right. split.
  - cbn [mbind result_bind] in Hr. destruct (rotate_next st) as [v|e|]; [|by injection Hr as _ <- _..].
    destruct (Issuer_generate v g) as [i h]. cbn [IssuerPublicKey_token_key_id map_err] in Hr.
    destruct (rotate_commit i now st) as [q st1] eqn:Hcm. injection Hr as _ <- _.
    unfold rotate_commit in Hcm. repeat case_match; by injection Hcm as _ <-.
  - unfold rotate_check in Hc. destruct (is_admin_token st) as [t|]; [|done]. case_decide as Hd; [done|].
    exists t. destruct pr as [p|]; cbn in Hd; [|tauto].
    destruct (decide (p = t)) as [->|Hne]; [|tauto]. split_and!; [done|tauto|done].
Qed.

(** Decoding aside, [sign] is the issuance behind the authorization. *)
Lemma sign_decoded req v auth now clock s :
  json_from_slice v = inr auth ->
  sign {| sb_req := req; sb_authorization_b64 := b64_encode STANDARD v |} now clock s
  = sign_authorized req auth now clock s.
Proof.
  intros Hj. unfold sign. cbn [sb_req sb_authorization_b64].
  erewrite run_bind_step by (unfold lift; rewrite b64_decode_encode; done).
  by erewrite run_bind_step by (unfold lift; rewrite Hj; done).
Qed.

Lemma sign_authorized_Ok req auth now clock st g resp l' g' :
  IssuanceAuthorization_verify auth (is_attester_pub st) now = Ok tt ->
  binding (req_body req) = binding_of (blinded (req_body req)) ->
  auth_binding auth = binding (req_body req) ->
  wrap 32 (len (blinded (req_body req))) <= auth_max_batch auth ->
  req_key_version req = issuer_key_version (rot_current (is_rot st)) ->
  try_consume clock (auth_rate_limit_id auth) (wrap 32 (len (blinded (req_body req)))) (is_limiter st)
    = (Ok tt, l') ->
  issuer_sign (issuer_sk (rot_current (is_rot st))) (req_body req) g = (resp, g') ->
  sign_authorized req auth now clock (st, g) = (Ok resp, (set_limiter st l', g')).
Proof.
  intros Hv Hb Ha Hm Hk Hc Hs. unfold sign_authorized. cbn [fst snd].
  rewrite (proj2 (issue_authorized_Ok _ _ _ _ _ _ _ _ resp l' g')); [done|].
  split_and!; try done. congruence.
Qed.

Lemma published_limiter st ks l : published st ks -> published (set_limiter st l) ks.
Proof. by intros []. Qed.

Lemma sequential_limiter st ks l : sequential st ks -> sequential (set_limiter st l) ks.
Proof. by intros []. Qed.

Lemma rotate_commit_Ok i now st r st' ks :
  published st ks -> rotate_commit i now st = (r, st') ->
  exists sh, r = Ok (len ks, sh_head sh)
    /\ st' = set_rot st {| rot_current := i;
         rot_history := <[issuer_key_version i := Issuer_public i]> (rot_history (is_rot st));
         rot_log := {| kl_records := key_records 0 (ks ++ [(Issuer_public i, now)]) |};
         rot_signed_head := sh |}
    /\ LogSigner_sign (is_log_signer st)
         {| kl_records := key_records 0 (ks ++ [(Issuer_public i, now)]) |} = Ok sh.
Proof.
  intros [Hlog _ _ _ _ _] Hr. unfold rotate_commit in Hr.
  pose proof (KeyLog_append_all_spec (rot_log (is_rot st)) [(Issuer_public i, now)]) as Ha.
  cbn [KeyLog_append_all] in Ha.
  unfold KeyLog_append, IssuerPublicKey_token_key_id in Hr. cbn [map_err mbind result_bind] in Hr.
  rewrite Hlog in Hr.
  assert (Hl : len (key_records 0 ks) = len ks) by (unfold len; by rewrite length_key_records).
  rewrite Hl in Hr.
  assert (Hrec : key_records 0 ks ++ [ {| kr_seq := len ks; kr_key_version := pk_key_version (Issuer_public i);
       kr_token_key_id := hex_encode (Scheme_token_key_id (pk_key (Issuer_public i)));
       kr_not_before := now |} ] = key_records 0 (ks ++ [(Issuer_public i, now)]))
    by (rewrite key_records_app; reflexivity).
  rewrite Hrec in Hr.
  assert (exists sh, LogSigner_sign (is_log_signer st)
    {| kl_records := key_records 0 (ks ++ [(Issuer_public i, now)]) |} = Ok sh) as [sh Hs].
  { destruct (LogSigner_sign_spec (is_log_signer st)
      {| kl_records := key_records 0 (ks ++ [(Issuer_public i, now)]) |}) as (head & _ & ->);
      [apply key_records_have_id|by eexists]. }
  rewrite Hs in Hr. injection Hr as <- <-. by exists sh.
Qed.

Lemma published_commit i now st r st' ks :
  published st ks -> rotate_commit i now st = (r, st') ->
  published st' (ks ++ [(Issuer_public i, now)]).
Proof.
  intros Hp Hr. pose proof Hp as [_ _ Hpub _ _ Hh].
  apply (rotate_commit_Ok _ _ _ _ _ _ Hp) in Hr as (sh & -> & -> & Hs).
  split; cbn [is_rot set_rot rot_log rot_signed_head is_log_signer is_kt_log_pub kl_records
    rot_history keys rot_current Issuer_public pk_key_version]; try done.
  - by exists ks, now.
  - apply lookup_insert_eq.
  - intros v pk [[<- <-]|[_ Hv]]%lookup_insert_Some.
    + split; [done|]. exists now. set_solver.
    + apply Hh in Hv as [? [nb ?]]. split; [done|]. exists nb. set_solver.
Qed.

(** ** The key published last under a version *)

Lemma last_of_version_snoc v ks pk nb :
  last_of_version v (ks ++ [(pk, nb)])
  = if decide (pk_key_version pk = v) then Some pk else last_of_version v ks.
Proof.
  unfold last_of_version. rewrite filter_app, filter_cons, filter_nil. cbn [fst].
  case_decide; [by rewrite last_snoc|by rewrite app_nil_r].
Qed.

Lemma last_of_version_Some v ks pk :
  last_of_version v ks = Some pk ->
  pk_key_version pk = v /\ exists i nb, ks !! i = Some (pk, nb)
    /\ forall j pk' nb', ks !! j = Some (pk', nb') -> pk_key_version pk' = v -> (j <= i)%nat.
Proof.
  induction ks as [|[pk' nb'] ks IH] using rev_ind; [done|]. rewrite last_of_version_snoc.
  case_decide as Hv.
  - intros [= ->]. split; [done|]. exists (length ks), nb'. split; [by rewrite list_lookup_middle|].
    intros j q m Hj _. apply lookup_lt_Some in Hj. rewrite length_app in Hj. cbn in Hj. lia.
  - intros (Hpk & i & nb & Hi & Hlast)%IH. split; [done|]. exists i, nb.
    split; [by apply lookup_app_l_Some|]. intros j q m [Hj|[Hge Hj]]%lookup_app_Some Hq; [by eapply Hlast|].
    destruct (j - length ks)%nat; [|done]. by injection Hj as -> ->.
Qed.

Lemma last_of_version_elem ks pk nb :
  (pk, nb) ∈ ks -> exists pk', last_of_version (pk_key_version pk) ks = Some pk'.
Proof.
  intros Hin. unfold last_of_version.
  destruct (last _) as [[pk' nb']|] eqn:Hl; [by eexists|]. apply last_None in Hl.
  exfalso. apply (not_elem_of_nil (pk, nb)). rewrite <- Hl. by apply list_elem_of_filter.
Qed.

Lemma served_last_single st pk nb : published st [(pk, nb)] -> served_last st [(pk, nb)].
Proof.
  intros [_ _ _ (ks' & nb' & Hks) Hs Hh] v. destruct ks' as [|? [|]]; [|done..]. injection Hks as -> ->.
  change [?x] with ([] ++ [x]). rewrite last_of_version_snoc. case_decide as Hv; [by subst v|].
  destruct (rot_history (is_rot st) !! v) as [q|] eqn:Hq; [|done].
  apply Hh in Hq as [Hqv [m Hin]]. apply list_elem_of_singleton in Hin as [= -> _]. done.
Qed.

Lemma served_last_commit i now st r st' ks :
  published st ks -> served_last st ks -> rotate_commit i now st = (r, st') ->
  served_last st' (ks ++ [(Issuer_public i, now)]).
Proof.
  intros Hp Hs Hr v. apply (rotate_commit_Ok _ _ _ _ _ _ Hp) in Hr as (sh & _ & -> & _).
  cbn [is_rot set_rot rot_history]. rewrite last_of_version_snoc, lookup_insert. cbn [Issuer_public pk_key_version].
  by rewrite Hs.
Qed.

Lemma published_step c c' ks :
  published (cf_state c) ks -> cstep c c' ->
  exists more, published (cf_state c') (ks ++ more).
Proof.
  intros Hp Hs. destruct Hs as [st ps g pr v i g' _ _ _|st ps qs i g now r st' Hr
    |st ps g body now clock r st' g' Hr]; cbn [cf_state] in *.
  - exists []. by rewrite app_nil_r.
  - exists [(Issuer_public i, now)]. by eapply published_commit.
  - exists []. rewrite app_nil_r. apply sign_limiter_only in Hr as (Hrot & Hls & Hpub & _).
    destruct Hp. split; unfold keys in *; rewrite ?Hrot, ?Hls, ?Hpub; done.
Qed.

Lemma published_reach c c' ks :
  published (cf_state c) ks -> rtc cstep c c' ->
  exists more, published (cf_state c') (ks ++ more).
Proof.
  intros Hp Hr. revert ks Hp. induction Hr as [c|c c1 c2 Hs Hr IH]; intros ks Hp.
  { exists []. by rewrite app_nil_r. }
  destruct (published_step _ _ _ Hp Hs) as [m Hp1]. destruct (IH _ Hp1) as [m' Hp2].
  exists (m ++ m'). by rewrite app_assoc.
Qed.

(** ** What a client sees *)

Lemma key_records_nonempty n ks : ks <> [] -> key_records n ks <> [].
Proof. by destruct ks as [|[]]. Qed.

Lemma to_ascii_lowercase_hex b : to_ascii_lowercase (hex_encode b) = hex_encode b.
Proof. apply lowercase_hex_lower, hex_encode_lower. Qed.

Lemma inclusion_of_key ks pk nb :
  (pk, nb) ∈ ks ->
  exists n, verify_inclusion (key_records 0 ks) (Scheme_token_key_id (pk_key pk)) = Ok n.
Proof.
  intros [i Hi]%list_elem_of_lookup. apply (key_records_lookup 0) in Hi.
  unfold verify_inclusion.
  destruct (list_find _ (key_records 0 ks)) as [[j r]|] eqn:Hf; [by eexists|].
  exfalso. apply list_find_None in Hf. rewrite Forall_forall in Hf.
  eapply Hf; [by eapply list_elem_of_lookup_2|]. apply Is_true_true, eq_ignore_ascii_case_refl.
Qed.

Lemma published_kt st ks :
  published st ks -> len ks < 2 ^ 64 ->
  verify_log (is_kt_log_pub st) (kt_records (kt st)) (kt_signed_head (kt st)) = Ok tt
  /\ (exists n, verify_inclusion (kt_records (kt st)) (Scheme_token_key_id (pk_key (keys st))) = Ok n).
Proof.
  intros [Hlog Hhead Hpub (ks' & nb & Hks) _ _] Hlen. unfold kt. cbn [kt_records kt_signed_head].
  assert (Hne : kl_records (rot_log (is_rot st)) <> [])
    by (rewrite Hlog; apply key_records_nonempty; subst ks; by destruct ks').
  split.
  - rewrite Hpub. apply sign_verify_log; try done.
    + rewrite Hlog. apply key_records_have_id.
    + rewrite Hlog. unfold len in *. by rewrite length_key_records.
  - rewrite Hlog. apply (inclusion_of_key _ _ nb). subst ks. set_solver.
Qed.

Lemma published_consistent st ks st' more :
  published st ks -> published st' (ks ++ more) ->
  is_log_signer st' = is_log_signer st ->
  verify_consistency (kt_signed_head (kt st)) (kt_records (kt st')) = Ok tt.
Proof.
  intros [Hlog Hhead _ (ks' & nb & Hks) _ _] [Hlog' _ _ _ _ _] Hs. unfold kt.
  cbn [kt_records kt_signed_head]. rewrite Hlog', key_records_app.
  apply (sign_consistent (is_log_signer st)).
  - apply Forall_app. split; apply key_records_have_id.
  - apply key_records_nonempty. subst ks. by destruct ks'.
  - rewrite <- Hlog, <- Hhead. by destruct (rot_log (is_rot st)).
Qed.

Lemma reach_signer c c' : rtc cstep c c' -> is_log_signer (cf_state c') = is_log_signer (cf_state c).
Proof.
  induction 1 as [c|c c1 c2 Hs Hr IH]; [done|]. rewrite IH.
  destruct Hs as [|? ? ? i ? now r st' Hr'|? ? ? ? ? ? ? ? ? Hr']; cbn [cf_state]; [done| |].
  - unfold rotate_commit in Hr'.
    repeat case_match; by injection Hr' as _ <-.
  - by apply sign_limiter_only in Hr' as (_ & ? & _).
Qed.

(** ** One rotation after the other *)

Lemma rotate_Ok pr now st g resp st' g' ks :
  published st ks -> issuer_key_version (rot_current (is_rot st)) + 1 < 2 ^ 32 ->
  rotate pr now (st, g) = (resp, (st', g')) ->
  (exists e, rotate_check pr st = Err e /\ resp = Err e /\ st' = st /\ g' = g)
  \/ exists i sh, rotate_check pr st = Ok tt
     /\ Issuer_generate (pk_key_version (keys st) + 1) g = (i, g')
     /\ rotate_commit i now st = (Ok (len ks, sh_head sh), st')
     /\ resp = Ok {| rr_key_version := pk_key_version (keys st) + 1;
                     rr_token_key_id := hex_encode (Scheme_token_key_id (issuer_pk i));
                     rr_kt_seq := len ks; rr_head := sh_head sh |}.
Proof.
  intros Hp Hv. unfold rotate. cbn [fst snd].
  destruct (rotate_check pr st) as [[]|e|] eqn:Hc; cbn [mbind result_bind].
  2:{ intros [= <- <- <-]. left. by exists e. }
  2:{ unfold rotate_check in Hc. destruct (is_admin_token st); [|done]. by case_decide. }
  unfold rotate_next. cbn [Issuer_public pk_key_version]. rewrite add_w_small by done.
  destruct (Issuer_generate _ g) as [i g1] eqn:Hg.
  unfold IssuerPublicKey_token_key_id. cbn [map_err].
  destruct (rotate_commit i now st) as [r st1] eqn:Hr.
  destruct (rotate_commit_Ok _ _ _ _ _ _ Hp Hr) as (sh & -> & _ & _).
  intros [= <- <- <-]. right. exists i, sh. done.
Qed.

Lemma sequential_current st ks :
  published st ks -> sequential st ks -> pk_key_version (keys st) = len ks.
Proof.
  intros [_ _ _ (ks' & nb & ->) _ _] [Hv _]. rewrite (Hv (length ks') (keys st) nb).
  - unfold len. rewrite length_app. cbn. lia.
  - by rewrite list_lookup_middle.
Qed.

(** Publishing the next version keeps the versions in sequence. *)
Lemma sequential_commit i now st r st' ks :
  published st ks -> sequential st ks -> issuer_key_version i = len ks + 1 ->
  rotate_commit i now st = (r, st') -> sequential st' (ks ++ [(Issuer_public i, now)]).
Proof.
  intros Hp [Hv Hs] Hi Hr. apply (rotate_commit_Ok _ _ _ _ _ _ Hp) in Hr as (sh & _ & -> & _). split.
  - intros j pk n [Hj|[Hge Hj]]%lookup_app_Some; [by eapply Hv|].
    destruct (j - length ks)%nat as [|m] eqn:Hm; [|by destruct m]. injection Hj as <- _. cbn.
    rewrite Hi. unfold len. lia.
  - cbn [is_rot set_rot rot_history]. intros pk n [Hin|Hin]%elem_of_app.
    + rewrite lookup_insert_ne; [by eapply Hs|].
      apply list_elem_of_lookup in Hin as [j Hj]. pose proof (lookup_lt_Some _ _ _ Hj).
      rewrite Hi, (Hv _ _ _ Hj). unfold len. lia.
    + apply list_elem_of_singleton in Hin as [= -> ->]. apply lookup_insert_eq.
Qed.

Lemma Issuer_generate_version v g i g' : Issuer_generate v g = (i, g') -> issuer_key_version i = v.
Proof. unfold Issuer_generate. destruct (Scheme_keygen g). by intros [= <- _]. Qed.

(** Rotations one after the other keep the versions counting up from
    one and every published key served under its version; each adds at most one
    record to the log. *)
Theorem sequential_rotate pr now st g resp st' g' ks :
  published st ks -> sequential st ks -> len ks + 1 < 2 ^ 32 ->
  rotate pr now (st, g) = (resp, (st', g')) ->
  exists more, published st' (ks ++ more) /\ sequential st' (ks ++ more)
    /\ (length more <= 1)%nat.
Proof.
  intros Hp Hs Hlen Hr. pose proof (sequential_current _ _ Hp Hs) as Hcur.
  apply (rotate_Ok _ _ _ _ _ _ _ _ Hp) in Hr as [(e & _ & _ & -> & _)|(i & sh & _ & Hg & Hr & _)];
    [| |by unfold keys in Hcur; cbn in Hcur; rewrite Hcur].
  { exists []. rewrite app_nil_r. split_and!; [done|done|cbn; lia]. }
  exists [(Issuer_public i, now)]. split; [by eapply published_commit|]. split; [|done].
  eapply sequential_commit; [done..| |exact Hr].
  apply Issuer_generate_version in Hg. by rewrite Hg, Hcur.
Qed.

(** ** Startup *)

(** A started issuer serves one key, the first of its log. *)
Lemma issuer_run_published pub max secs url seed admin now g st g' :
  issuer_run pub max secs url seed admin now g = (Ok st, g') ->
  exists i, Issuer_generate 1 g = (i, g') /\ rot_current (is_rot st) = i
    /\ attester_pubkey_from_hex pub = Ok (is_attester_pub st)
    /\ LimitBackend_from_url url max secs = Ok (is_limiter st)
    /\ is_admin_token st = match admin with Some (b :: s) => Some (b :: s) | _ => None end
    /\ published st [(keys st, now)] /\ sequential st [(keys st, now)].
Proof.
  unfold issuer_run. destruct (map_err _ (attester_pubkey_from_hex pub)) as [vk|e|] eqn:Hvk; [|done..].
  apply map_err_Ok in Hvk. destruct (Issuer_generate 1 g) as [i g1] eqn:Hg. intros Hq.
  assert (Hr := f_equal fst Hq). assert (Hs := f_equal snd Hq). cbn [fst snd] in Hr, Hs.
  subst g1. clear Hq. apply bind_Ok in Hr as (k & _ & Hr).
  apply bind_Ok in Hr as (lim & Hlim & Hr). apply bind_Ok in Hr as (b & _ & Hr).
  apply bind_Ok in Hr as (ls & _ & Hr). apply bind_Ok in Hr as ([n log] & Hlog%map_err_Ok & Hr).
  apply bind_Ok in Hr as (sh & Hsh%map_err_Ok & [= <-]).
  assert (log = {| kl_records := key_records 0 [(Issuer_public i, now)] |}) as ->.
  { unfold KeyLog_append, IssuerPublicKey_token_key_id in Hlog. cbn in Hlog. injection Hlog as _ <-.
    reflexivity. }
  pose proof (Issuer_generate_version _ _ _ _ Hg) as Hi1.
  exists i. split_and!; [done..| |].
  - split; cbn [is_rot rot_log rot_signed_head is_log_signer is_kt_log_pub kl_records keys
      rot_current rot_history pk_key_version Issuer_public]; try done.
    + by exists [], now.
    + apply lookup_insert_eq.
    + intros v pk [<- <-]%lookup_singleton_Some. split; [done|]. exists now. set_solver.
  - split; cbn [is_rot rot_history keys rot_current].
    + intros j pk nb [-> [= <- _]]%list_lookup_singleton_Some. cbn. by rewrite Hi1.
    + intros pk nb [= -> _]%list_elem_of_singleton. apply lookup_insert_eq.
Qed.

(** It starts whenever its arguments parse (and a backend, if one is named,
    answers). *)
Lemma issuer_run_total pub max secs url seed admin now g vk lim b :
  attester_pubkey_from_hex pub = Ok vk -> LimitBackend_from_url url max secs = Ok lim ->
  kt_seed_from_env seed = Ok b ->
  exists st g', issuer_run pub max secs url seed admin now g = (Ok st, g').
Proof.
  intros Hvk Hlim Hseed. unfold issuer_run. rewrite Hvk. cbn [map_err].
  destruct (Issuer_generate 1 g) as [i g1]. cbn [IssuerPublicKey_token_key_id map_err mbind result_bind].
  rewrite Hlim. cbn [mbind result_bind]. rewrite Hseed. cbn [mbind result_bind].
  unfold LogSigner_from_seed, signing_key_from_seed. cbn [expect map_err mbind result_bind].
  pose proof (KeyLog_append_all_spec KeyLog_new [(Issuer_public i, now)]) as Ha.
  cbn [KeyLog_append_all] in Ha.
  destruct (KeyLog_append KeyLog_new (Issuer_public i) now) as [[n log]|e|]; [|done..].
  cbn [map_err mbind result_bind] in *.
  destruct (LogSigner_sign_spec {| ls_sk := faest_generate b |} log) as (head & _ & Hs).
  { injection Ha as ->. apply (key_records_have_id 0 [(Issuer_public i, now)]). }
  rewrite Hs. cbn [map_err mbind result_bind]. by do 2 eexists.
Qed.

End facts.

(** ** Properties *)

Section properties.
Context `{Sha256Laws, HexLaws, FaestLaws, Base64Laws, BlindSig, Redis, BuildProfile, Features}
  `{Json IssuanceAuthorization}.

(** C24: from startup on, whatever the interleaving of rotations and requests to
    sign, the log the issuer serves verifies under its log key, holds the key it
    serves, and is consistent with the head it served at any earlier moment. *)
Theorem served_log_always_verifies pub max secs url seed admin now g st g' st1 ps1 g1 st2 ps2 g2 :
  issuer_run pub max secs url seed admin now g = (Ok st, g') ->
  rtc cstep {| cf_state := st; cf_pending := []; cf_rng := g' |}
            {| cf_state := st1; cf_pending := ps1; cf_rng := g1 |} ->
  rtc cstep {| cf_state := st1; cf_pending := ps1; cf_rng := g1 |}
            {| cf_state := st2; cf_pending := ps2; cf_rng := g2 |} ->
  len (kl_records (rot_log (is_rot st2))) < 2 ^ 64 ->
  verify_log (is_kt_log_pub st2) (kt_records (kt st2)) (kt_signed_head (kt st2)) = Ok tt
  /\ (exists n, verify_inclusion (kt_records (kt st2)) (Scheme_token_key_id (pk_key (keys st2))) = Ok n)
  /\ verify_consistency (kt_signed_head (kt st1)) (kt_records (kt st2)) = Ok tt.
Proof.
  intros (i & _ & _ & _ & _ & _ & Hp & _)%issuer_run_published Hr1 Hr2 Hlen.
  edestruct published_reach as [m1 Hp1]; [|exact Hr1|]; [exact Hp|]. cbn [cf_state] in Hp1.
  edestruct published_reach as [m2 Hp2]; [|exact Hr2|]; [exact Hp1|]. cbn [cf_state] in Hp2.
  assert (Hl : len ((([(keys st, now)] ++ m1) ++ m2)) < 2 ^ 64).
  { rewrite (pub_log _ _ Hp2) in Hlen. unfold len in *. by rewrite length_key_records in Hlen. }
  destruct (published_kt _ _ Hp2 Hl) as [Hv Hi]. split; [done|]. split; [done|].
  eapply published_consistent; [done..|]. by apply (reach_signer _ _ Hr2).
Qed.

End properties.
