(* ===== verification/GateVerifiers.v ===== *)
(** * The hardware verifiers: gate/src/lib.rs

The seven attestation verifiers over the unified-quote library, which is not
under src/: its token and bundle types, decoders and verification functions are
the class [UnifiedQuote]. *)

From S2P Require Import Prelude RustStr Externals Core Gate.

(** [unified_quote::quote::Platform], matched on by [platform_label]. *)
Inductive Platform := Nitro | SevSnp | Tdx.

(** The fields the code reads of each verdict. *)
Record AzureVerdict := {
  az_verdict : str;
  az_value_x : option str;
  az_measurement : str;
}.

Record MobileVerdict := { mob_verdict : str; mob_app_id_hash : str }.

Record DesktopVerdict := {
  dt_verdict : str;
  dt_platform : str;
  dt_identity_hash : str;
  dt_ima_verified : bool;
  dt_boot_aggregate : option str;
}.

Record TpmVerifierOptions := {
  ek_root_sha256 : list str;
  activation_pubkeys : list bytes;
}.

(** A verification may read the clock. *)
Class UnifiedQuote `{Chrono} := {
  EatToken : Type;
  eat_from_cbor : bytes -> str + EatToken;
  eat_nonce : EatToken -> bytes;
  eat_platform : EatToken -> N;
  eat_platform_enum : EatToken -> option Platform;
  eat_platform_quote : EatToken -> bytes;
  eat_binding_bytes : EatToken -> bytes;
  eat_value_x : EatToken -> bytes;
  verify_platform_quote : DateTime -> Platform -> bytes -> bytes -> str + unit;
  AzureBundle : Type;
  azure_bundle_json : bytes -> str + AzureBundle;
  tls_spki_is_some : AzureBundle -> bool;
  azure_verify_bundle : DateTime -> AzureBundle -> str + AzureVerdict;
  verify_attested_cert : DateTime -> bytes -> str + AzureVerdict;
  AndroidBundle : Type;
  android_bundle_json : bytes -> str + AndroidBundle;
  android_verify_bundle : DateTime -> AndroidBundle -> bytes -> str + MobileVerdict;
  ANDROID_PLATFORM : str;
  IosBundle : Type;
  ios_bundle_json : bytes -> str + IosBundle;
  ios_verify_bundle : DateTime -> IosBundle -> bytes -> str + MobileVerdict;
  IOS_PLATFORM : str;
  TpmBundle : Type;
  tpm_bundle_json : bytes -> str + TpmBundle;
  tpm_verify_bundle : DateTime -> TpmBundle -> bytes -> TpmVerifierOptions -> str + DesktopVerdict;
  MacBundle : Type;
  mac_bundle_json : bytes -> str + MacBundle;
  mac_verify_bundle : DateTime -> MacBundle -> bytes -> str + DesktopVerdict;
}.

(** What the library documents of a verified bundle: the value its quote
    commits to is in the bundle, and is the binding it was checked against. *)
Class UnifiedQuoteLaws `{UnifiedQuote} : Prop := {
  azure_value_x_fixed now now' b v v' :
    azure_verify_bundle now b = inr v -> azure_verify_bundle now' b = inr v' ->
    az_value_x v = az_value_x v';
  cert_value_x_fixed now now' c v v' :
    verify_attested_cert now c = inr v -> verify_attested_cert now' c = inr v' ->
    az_value_x v = az_value_x v';
  android_binds now now' b x x' v v' :
    android_verify_bundle now b x = inr v -> android_verify_bundle now' b x' = inr v' ->
    mob_verdict v = B "verified" -> mob_verdict v' = B "verified" -> x = x';
  ios_binds now now' b x x' v v' :
    ios_verify_bundle now b x = inr v -> ios_verify_bundle now' b x' = inr v' ->
    mob_verdict v = B "verified" -> mob_verdict v' = B "verified" -> x = x';
  tpm_binds now now' b x x' o v v' :
    tpm_verify_bundle now b x o = inr v -> tpm_verify_bundle now' b x' o = inr v' ->
    dt_verdict v = B "verified" -> dt_verdict v' = B "verified" -> x = x';
  mac_binds now now' b x x' v v' :
    mac_verify_bundle now b x = inr v -> mac_verify_bundle now' b x' = inr v' ->
    dt_verdict v = B "verified" -> dt_verdict v' = B "verified" -> x = x';
}.

Definition platform_label (p : Platform) : str :=
  match p with Nitro => B "nitro" | SevSnp => B "sev-snp" | Tdx => B "tdx" end.

(** [hex::decode] with an error that names the field. *)
Definition decode_field `{Hex} (what s : str) : result GateError bytes :=
  map_err (fun e => GAttestationInvalid (what ++ B ": " ++ e)) (of_sum (hex_decode s)).

(** An external call whose error is reported after [what]. *)
Definition invalid {T} (what : str) (r : str + T) : result GateError T :=
  map_err (fun e => GAttestationInvalid (what ++ B ": " ++ e)) (of_sum r).

Section verifiers.
Context `{Hex, UnifiedQuote}.

Record UqVerifier := {}.

Definition UqVerifier_verify (v : UqVerifier) (now : DateTime) (eat expected : bytes) :
    result GateError Measurement :=
  token ← invalid (B "eat decode") (eat_from_cbor eat);
  if decide (eat_nonce token <> expected) then Err GBindingMismatch
  else
    platform ← ok_or (eat_platform_enum token)
      (GAttestationInvalid (B "unknown platform " ++ display_N (eat_platform token)));
    _ ← invalid (B "platform quote")
          (verify_platform_quote now platform (eat_platform_quote token) (eat_binding_bytes token));
    Ok (Measurement_new (platform_label platform) (eat_value_x token)).

#[export] Instance UqVerifier_verifier : AttestationVerifier UqVerifier := UqVerifier_verify.

(** The end of both Azure verifiers: the value bound must be the expected one,
    and the identity is the launch measurement. *)
Definition azure_verdict (unbound : str) (v : AzureVerdict) (expected : bytes) :
    result GateError Measurement :=
  if decide (az_verdict v <> B "verified") then
    Err (GAttestationInvalid (B "azure verdict: " ++ az_verdict v))
  else
    bound_hex ← ok_or (az_value_x v) (GAttestationInvalid unbound);
    bound ← decode_field (B "value_x hex") bound_hex;
    if decide (bound <> expected) then Err GBindingMismatch
    else
      measurement ← decode_field (B "measurement hex") (az_measurement v);
      Ok (Measurement_new (B "azure-sev-snp-vtpm") measurement).

Record AzureUqVerifier := {}.

Definition AzureUqVerifier_verify (v : AzureUqVerifier) (now : DateTime) (eat expected : bytes) :
    result GateError Measurement :=
  bundle ← invalid (B "azure bundle parse") (azure_bundle_json eat);
  if tls_spki_is_some bundle then
    Err (GAttestationInvalid
      (B "azure bundle carries tls_spki (attested-TLS shape); use the cert verifier"))
  else
    verdict ← invalid (B "azure verify") (azure_verify_bundle now bundle);
    azure_verdict (B "azure bundle not value_x-bound (no AK quote)") verdict expected.

#[export] Instance AzureUqVerifier_verifier : AttestationVerifier AzureUqVerifier :=
  AzureUqVerifier_verify.

Record AzureTlsVerifier := {}.

Definition AzureTlsVerifier_verify (v : AzureTlsVerifier) (now : DateTime) (eat expected : bytes) :
    result GateError Measurement :=
  verdict ← invalid (B "azure attested-tls") (verify_attested_cert now eat);
  azure_verdict (B "attested-tls bundle not value_x-bound") verdict expected.

#[export] Instance AzureTlsVerifier_verifier : AttestationVerifier AzureTlsVerifier :=
  AzureTlsVerifier_verify.

Record AndroidKeyAttestationVerifier := {}.

Definition AndroidKeyAttestationVerifier_verify (v : AndroidKeyAttestationVerifier)
    (now : DateTime) (eat expected : bytes) : result GateError Measurement :=
  bundle ← invalid (B "android bundle") (android_bundle_json eat);
  verdict ← invalid (B "android verify") (android_verify_bundle now bundle expected);
  if decide (mob_verdict verdict <> B "verified") then
    Err (GAttestationInvalid (B "android verdict: " ++ mob_verdict verdict))
  else
    app_id ← decode_field (B "app_id_hash") (mob_app_id_hash verdict);
    Ok (Measurement_new ANDROID_PLATFORM app_id).

#[export] Instance AndroidKeyAttestationVerifier_verifier :
  AttestationVerifier AndroidKeyAttestationVerifier := AndroidKeyAttestationVerifier_verify.

Record IosAppAttestVerifier := {}.

Definition IosAppAttestVerifier_verify (v : IosAppAttestVerifier) (now : DateTime)
    (eat expected : bytes) : result GateError Measurement :=
  bundle ← invalid (B "ios bundle") (ios_bundle_json eat);
  verdict ← invalid (B "ios verify") (ios_verify_bundle now bundle expected);
  if decide (mob_verdict verdict <> B "verified") then
    Err (GAttestationInvalid (B "ios verdict: " ++ mob_verdict verdict))
  else
    app_id ← decode_field (B "app_id_hash") (mob_app_id_hash verdict);
    Ok (Measurement_new IOS_PLATFORM app_id).

#[export] Instance IosAppAttestVerifier_verifier :
  AttestationVerifier IosAppAttestVerifier := IosAppAttestVerifier_verify.

Record DesktopTpmVerifier := {
  tpm_require_ima : bool;
  tpm_boot_aggregates : list bytes;
  tpm_options : TpmVerifierOptions;
}.

Definition DesktopTpmVerifier_with_policy (require_ima : bool) (boot_aggregates : list bytes)
    (ek_roots : list str) (pubkeys : list bytes) : DesktopTpmVerifier :=
  {| tpm_require_ima := require_ima; tpm_boot_aggregates := boot_aggregates;
     tpm_options := {| ek_root_sha256 := ek_roots; activation_pubkeys := pubkeys |} |}.

(** The quoted boot state is one of the allowed ones. *)
Definition boot_matches (allowed : list bytes) (boot : option str) : bool :=
  match boot with
  | Some h => match hex_decode h with
              | inr b => existsb (fun a => bool_decide (a = b)) allowed
              | inl _ => false
              end
  | None => false
  end.

Definition DesktopTpmVerifier_verify (v : DesktopTpmVerifier) (now : DateTime)
    (eat expected : bytes) : result GateError Measurement :=
  bundle ← invalid (B "desktop tpm bundle") (tpm_bundle_json eat);
  verdict ← invalid (B "desktop tpm") (tpm_verify_bundle now bundle expected (tpm_options v));
  if decide (dt_verdict verdict <> B "verified") then
    Err (GAttestationInvalid (B "desktop tpm verdict: " ++ dt_verdict verdict))
  else if tpm_require_ima v && negb (dt_ima_verified verdict) then
    Err (GAttestationInvalid
      (B "policy requires IMA-measured attestation but bundle is channel-bound only"))
  else if bool_decide (tpm_boot_aggregates v <> [])
          && negb (boot_matches (tpm_boot_aggregates v) (dt_boot_aggregate verdict)) then
    Err GMeasurementNotAllowed
  else
    x ← decode_field (B "identity_hash") (dt_identity_hash verdict);
    Ok (with_ima_verified (Measurement_new (dt_platform verdict) x) (dt_ima_verified verdict)).

#[export] Instance DesktopTpmVerifier_verifier :
  AttestationVerifier DesktopTpmVerifier := DesktopTpmVerifier_verify.

Record MacOsAppAttestVerifier := {}.

Definition MacOsAppAttestVerifier_verify (v : MacOsAppAttestVerifier) (now : DateTime)
    (eat expected : bytes) : result GateError Measurement :=
  bundle ← invalid (B "macos bundle") (mac_bundle_json eat);
  verdict ← invalid (B "macos app attest") (mac_verify_bundle now bundle expected);
  if decide (dt_verdict verdict <> B "verified") then
    Err (GAttestationInvalid (B "macos verdict: " ++ dt_verdict verdict))
  else
    x ← decode_field (B "app_id_hash") (dt_identity_hash verdict);
    Ok (Measurement_new (dt_platform verdict) x).

#[export] Instance MacOsAppAttestVerifier_verifier :
  AttestationVerifier MacOsAppAttestVerifier := MacOsAppAttestVerifier_verify.

(** ** What an accepted attestation commits to *)

Lemma invalid_Ok {T} what (r : str + T) x : invalid what r = Ok x <-> r = inr x.
Proof. unfold invalid. by rewrite map_err_Ok, of_sum_Ok. Qed.

Lemma decode_field_Ok what s b : decode_field what s = Ok b <-> hex_decode s = inr b.
Proof. unfold decode_field. by rewrite map_err_Ok, of_sum_Ok. Qed.

Lemma UqVerifier_verify_Ok v now eat b m :
  UqVerifier_verify v now eat b = Ok m <->
  exists token platform, eat_from_cbor eat = inr token /\ eat_nonce token = b
    /\ eat_platform_enum token = Some platform
    /\ verify_platform_quote now platform (eat_platform_quote token) (eat_binding_bytes token)
       = inr tt
    /\ m = {| platform := platform_label platform; value_x := eat_value_x token;
              ima_verified := false |}.
Proof.
  unfold UqVerifier_verify. rewrite bind_Ok. setoid_rewrite invalid_Ok. split.
  - intros (t & Ht & Hr). case_decide as Hn; [done|].
    apply bind_Ok in Hr as (p & Hp%ok_or_Ok & Hr).
    apply bind_Ok in Hr as ([] & Hv%invalid_Ok & [= <-]). exists t, p. by split_and!.
  - intros (t & p & Ht & <- & Hp & Hv & ->). exists t. split; [done|].
    rewrite decide_False by naive_solver. rewrite Hp. cbn [ok_or mbind result_bind].
    by rewrite Hv.
Qed.

Lemma azure_verdict_Ok unbound v b m :
  azure_verdict unbound v b = Ok m <->
  az_verdict v = B "verified" /\ (exists h, az_value_x v = Some h /\ hex_decode h = inr b)
  /\ hex_decode (az_measurement v) = inr (value_x m)
  /\ platform m = B "azure-sev-snp-vtpm" /\ ima_verified m = false.
Proof.
  unfold azure_verdict. case_decide as Hv; [naive_solver|]. split.
  - intros (h & Hh%ok_or_Ok & Hr)%bind_Ok.
    apply bind_Ok in Hr as (x & Hx%decode_field_Ok & Hr). case_decide as Hb; [done|]. subst x.
    apply bind_Ok in Hr as (y & Hy%decode_field_Ok & [= <-]). split_and!; eauto.
  - intros (_ & (h & Hh & Hd) & Hm & Hp & Hi). rewrite Hh. cbn [ok_or mbind result_bind].
    apply bind_Ok. exists b. split; [by apply decode_field_Ok|].
    rewrite decide_False by naive_solver. apply bind_Ok. exists (value_x m).
    split; [by apply decode_field_Ok|]. destruct m as [p y i]. cbn in *. by subst.
Qed.

#[export] Instance UqVerifier_commits : BindingCommits UqVerifier.
Proof.
  intros v now now' eat b b' m m' (t & p & Ht & <- & _)%UqVerifier_verify_Ok
    (t' & p' & Ht' & <- & _)%UqVerifier_verify_Ok. congruence.
Qed.

Context `{!UnifiedQuoteLaws}.

#[export] Instance AzureUqVerifier_commits : BindingCommits AzureUqVerifier.
Proof.
  intros v now now' eat b b' m m' Hv Hv'.
  apply bind_Ok in Hv as (x & Hx%invalid_Ok & Hv), Hv' as (x' & Hx'%invalid_Ok & Hv').
  destruct (tls_spki_is_some x); [done|]. destruct (tls_spki_is_some x'); [done|].
  apply bind_Ok in Hv as (w & Hw%invalid_Ok & Hv), Hv' as (w' & Hw'%invalid_Ok & Hv').
  apply azure_verdict_Ok in Hv as (_ & (h & Hh & Hd) & _), Hv' as (_ & (h' & Hh' & Hd') & _).
  assert (x = x') as <- by congruence.
  pose proof (azure_value_x_fixed _ _ _ _ _ Hw Hw'). congruence.
Qed.

#[export] Instance AzureTlsVerifier_commits : BindingCommits AzureTlsVerifier.
Proof.
  intros v now now' eat b b' m m' Hv Hv'.
  apply bind_Ok in Hv as (w & Hw%invalid_Ok & Hv), Hv' as (w' & Hw'%invalid_Ok & Hv').
  apply azure_verdict_Ok in Hv as (_ & (h & Hh & Hd) & _), Hv' as (_ & (h' & Hh' & Hd') & _).
  pose proof (cert_value_x_fixed _ _ _ _ _ Hw Hw'). congruence.
Qed.

#[export] Instance AndroidKeyAttestationVerifier_commits :
  BindingCommits AndroidKeyAttestationVerifier.
Proof.
  intros v now now' eat b b' m m' Hv Hv'.
  apply bind_Ok in Hv as (x & Hx%invalid_Ok & Hv), Hv' as (x' & Hx'%invalid_Ok & Hv').
  apply bind_Ok in Hv as (w & Hw%invalid_Ok & Hv), Hv' as (w' & Hw'%invalid_Ok & Hv').
  assert (x = x') as <- by congruence.
  case_decide; [done|]. case_decide; [done|]. eapply android_binds; [exact Hw|exact Hw'|done..].
Qed.

#[export] Instance IosAppAttestVerifier_commits : BindingCommits IosAppAttestVerifier.
Proof.
  intros v now now' eat b b' m m' Hv Hv'.
  apply bind_Ok in Hv as (x & Hx%invalid_Ok & Hv), Hv' as (x' & Hx'%invalid_Ok & Hv').
  apply bind_Ok in Hv as (w & Hw%invalid_Ok & Hv), Hv' as (w' & Hw'%invalid_Ok & Hv').
  assert (x = x') as <- by congruence.
  case_decide; [done|]. case_decide; [done|]. eapply ios_binds; [exact Hw|exact Hw'|done..].
Qed.

#[export] Instance DesktopTpmVerifier_commits : BindingCommits DesktopTpmVerifier.
Proof.
  intros v now now' eat b b' m m' Hv Hv'.
  apply bind_Ok in Hv as (x & Hx%invalid_Ok & Hv), Hv' as (x' & Hx'%invalid_Ok & Hv').
  apply bind_Ok in Hv as (w & Hw%invalid_Ok & Hv), Hv' as (w' & Hw'%invalid_Ok & Hv').
  assert (x = x') as <- by congruence.
  case_decide; [done|]. case_decide; [done|]. eapply tpm_binds; [exact Hw|exact Hw'|done..].
Qed.

#[export] Instance MacOsAppAttestVerifier_commits : BindingCommits MacOsAppAttestVerifier.
Proof.
  intros v now now' eat b b' m m' Hv Hv'.
  apply bind_Ok in Hv as (x & Hx%invalid_Ok & Hv), Hv' as (x' & Hx'%invalid_Ok & Hv').
  apply bind_Ok in Hv as (w & Hw%invalid_Ok & Hv), Hv' as (w' & Hw'%invalid_Ok & Hv').
  assert (x = x') as <- by congruence.
  case_decide; [done|]. case_decide; [done|]. eapply mac_binds; [exact Hw|exact Hw'|done..].
Qed.

(** A desktop attestation that verifies meets the posture of the
    operator's policy: the bundle verified for the binding under the policy's
    roots and keys, its IMA log too where the policy requires one, its boot
    aggregate is a pinned one where any is pinned, and the measurement is the
    verdict's identity. *)
Theorem DesktopTpmVerifier_posture v now eat b m :
  DesktopTpmVerifier_verify v now eat b = Ok m ->
  (tpm_require_ima v = true -> ima_verified m = true)
  /\ exists bundle verdict, tpm_bundle_json eat = inr bundle
     /\ tpm_verify_bundle now bundle b (tpm_options v) = inr verdict
     /\ dt_verdict verdict = B "verified" /\ ima_verified m = dt_ima_verified verdict
     /\ platform m = dt_platform verdict /\ hex_decode (dt_identity_hash verdict) = inr (value_x m)
     /\ (tpm_boot_aggregates v <> [] -> exists h a, dt_boot_aggregate verdict = Some h
         /\ hex_decode h = inr a /\ a ∈ tpm_boot_aggregates v).
Proof.
  intros (x & Hx%invalid_Ok & Hv)%bind_Ok. apply bind_Ok in Hv as (w & Hw%invalid_Ok & Hv).
  case_decide as Hd; [done|].
  destruct (tpm_require_ima v && negb (dt_ima_verified w)) eqn:Hi; [done|].
  destruct (bool_decide _ && _) eqn:Hb; [done|].
  apply bind_Ok in Hv as (y & Hy%decode_field_Ok & [= <-]). split.
  { intros Hr. rewrite Hr in Hi. cbn in *. by destruct (dt_ima_verified w). }
  exists x, w. split_and!; try done.
  intros Hne. rewrite bool_decide_true in Hb by done. unfold boot_matches in Hb.
  destruct (dt_boot_aggregate w) as [h|]; [|done].
  destruct (hex_decode h) as [|a] eqn:Ha; [done|]. exists h, a. split_and!; try done.
  cbn in Hb. apply negb_false_iff, existsb_exists in Hb as (a' & Hin & Heq).
  apply bool_decide_eq_true in Heq as ->. by apply list_elem_of_In.
Qed.

End verifiers.
