(* ===== verification/AttesterService.v ===== *)
(** * The attester service: cli/src/attester.rs

The policy-gated verifier of each backend, startup from the policy file and
the environment, and the handlers. *)

From S2P Require Import Prelude RustStr Externals Pomfrit Core RateLimit Gate Authorize Policy Appraise.
From S2P Require Import GateVerifiers Transparency Store Wire Redeemer IssuerService.

(** [Backend] of issuer.rs. *)
Inductive Backend :=
| BackendUq
| BackendAzure
| BackendAzureTls
| BackendAndroidKey
| BackendIosAppAttest
| BackendDesktopTpm
| BackendMacOsAppAttest.

Section service.
Context `{Sha256, Hex, Base64, Faest, Chrono} `{!UnifiedQuote, Tiers}.

(** [Gate]. *)
Inductive AttGate :=
| GateUq (v : PolicyGated UqVerifier)
| GateAzure (v : PolicyGated AzureUqVerifier)
| GateAzureTls (v : PolicyGated AzureTlsVerifier)
| GateAndroidKey (v : PolicyGated AndroidKeyAttestationVerifier)
| GateIosAppAttest (v : PolicyGated IosAppAttestVerifier)
| GateDesktopTpm (v : PolicyGated DesktopTpmVerifier)
| GateMacOsAppAttest (v : PolicyGated MacOsAppAttestVerifier).

Definition gate_policy (g : AttGate) : VerificationPolicy :=
  match g with
  | GateUq v => pg_policy v
  | GateAzure v => pg_policy v
  | GateAzureTls v => pg_policy v
  | GateAndroidKey v => pg_policy v
  | GateIosAppAttest v => pg_policy v
  | GateDesktopTpm v => pg_policy v
  | GateMacOsAppAttest v => pg_policy v
  end.

Definition gate_verify_with_appraisal (g : AttGate) (now : DateTime) (eat expected : bytes) :
    result GateError (Measurement * AppraisalResult) :=
  match g with
  | GateUq v => verify_with_appraisal v now eat expected
  | GateAzure v => verify_with_appraisal v now eat expected
  | GateAzureTls v => verify_with_appraisal v now eat expected
  | GateAndroidKey v => verify_with_appraisal v now eat expected
  | GateIosAppAttest v => verify_with_appraisal v now eat expected
  | GateDesktopTpm v => verify_with_appraisal v now eat expected
  | GateMacOsAppAttest v => verify_with_appraisal v now eat expected
  end.

(** [Gate::policy_label]. *)
Definition gate_policy_label (g : AttGate) : str :=
  policy_label (measurement_class (gate_policy g)).

#[export] Instance AttGate_verifier : AttestationVerifier AttGate := fun g now eat expected =>
  fst <$> gate_verify_with_appraisal g now eat expected.

(** The verifier a backend gets, for a policy. *)
Definition gate_of_backend (b : Backend) (p : VerificationPolicy) : AttGate :=
  match b with
  | BackendUq => GateUq {| pg_inner := Build_UqVerifier; pg_policy := p |}
  | BackendAzure => GateAzure {| pg_inner := Build_AzureUqVerifier; pg_policy := p |}
  | BackendAzureTls => GateAzureTls {| pg_inner := Build_AzureTlsVerifier; pg_policy := p |}
  | BackendAndroidKey => GateAndroidKey {| pg_inner := Build_AndroidKeyAttestationVerifier; pg_policy := p |}
  | BackendIosAppAttest => GateIosAppAttest {| pg_inner := Build_IosAppAttestVerifier; pg_policy := p |}
  | BackendDesktopTpm =>
      GateDesktopTpm
        {| pg_inner := DesktopTpmVerifier_with_policy (vp_require_ima p) (boot_aggregates_bytes p)
                         (desktop_tpm_ek_roots_bytes p) (desktop_tpm_activation_pubkeys_bytes p);
           pg_policy := p |}
  | BackendMacOsAppAttest => GateMacOsAppAttest {| pg_inner := Build_MacOsAppAttestVerifier; pg_policy := p |}
  end.

Definition attester_seed_from_env (var : option str) : result str bytes :=
  h ← ok_or var (B "EATPASS_ATTESTER_SEED is required (64 hex chars): stable ed25519 seed for issuance-authorization signatures. Generate with `openssl rand -hex 32`.");
  b ← map_err (fun e => B "EATPASS_ATTESTER_SEED bad hex: " ++ e) (of_sum (hex_decode (trim h)));
  ok_or (array32 b) (B "EATPASS_ATTESTER_SEED must be exactly 32 bytes (64 hex chars)").

Record AttesterState := { at_authorizer : Authorizer AttGate }.

(** [run] up to serving. *)
Definition attester_run `{Json VerificationPolicy, Fs} (backend : Backend) (policy_path : Path)
    (gate_name : str) (ttl : N) (trusted_var seed_var : option str) (now : DateTime) :
    result str AttesterState :=
  trusted ← map_err PolicyError_display (trusted_pubs_from_env trusted_var);
  policy ← map_err PolicyError_display (load_for_attester policy_path gate_name trusted now);
  let label := policy_label (measurement_class policy) in
  let gate := gate_of_backend backend policy in
  seed ← attester_seed_from_env seed_var;
  z ← map_err GateError_display (Authorizer_new seed gate label ttl);
  Ok {| at_authorizer := z |}.

Definition pubkey (st : AttesterState) : PubkeyResponse :=
  {| pubkey_hex := hex_encode (Authorizer_verifying_key (at_authorizer st)) |}.

Definition gate_err (e : GateError) : Reject := err (gate_code e) (GateError_display e).

Definition parse_hex32 (s what : str) : result Reject bytes :=
  ok_or (hex32 s) (err BAD_REQUEST (what ++ B " must be 32-byte hex (64 chars)")).

(** [POST /authorize]; the clock is read as seconds and by the verifiers. *)
Definition handle_authorize `{Json IssuanceAuthorization} (st : AttesterState)
    (body : AuthorizeBody) (now : N) (clock : DateTime) : result Reject AuthorizeResponse :=
  eat ← map_err (fun e => err BAD_REQUEST (B "eat_b64 is not valid base64: " ++ e))
          (of_sum (b64_decode STANDARD (ab_eat_b64 body)));
  b ← parse_hex32 (ab_binding body) (B "binding");
  if ab_max_batch body =? 0 then Err (err BAD_REQUEST (B "max_batch must be non-zero"))
  else
    '(measurement, appraisal) ← map_err gate_err
      (gate_verify_with_appraisal (az_verifier (at_authorizer st)) clock eat b);
    auth ← map_err gate_err
      (sign_authorization (at_authorizer st) measurement b (ab_max_batch body) now);
    v ← map_err (fun e => err INTERNAL_SERVER_ERROR (B "encode authorization: " ++ e))
          (of_sum (json_to_vec auth));
    Ok {| aresp_authorization_b64 := b64_encode STANDARD v; aresp_appraisal := appraisal |}.

(** ** Facts *)

(** What any backend's gate accepts passed its policy. *)
Lemma gate_verify_Ok g now eat b m r :
  gate_verify_with_appraisal g now eat b = Ok (m, r) ->
  is_expired (gate_policy g) now = false /\ ar_pass r = true /\ ar_measurement r = Some m
  /\ exists e, e ∈ vp_allow (gate_policy g)
     /\ (ae_measurement e = Some (value_x m) \/ ae_app_id_hash e = Some (value_x m)).
Proof.
  intros Hv.
  assert (Hg : exists c, r = appraise (gate_policy g) c now /\ passes (gate_policy g) c now
    /\ ac_identity c = Some (value_x m) /\ ar_pass r = true /\ ar_measurement r = Some m).
  { destruct g; cbn in Hv; apply verify_with_appraisal_Ok in Hv as (_ & ? & ? & c & ? & ? & ? & _);
      by exists c. }
  destruct Hg as (c & -> & Hp & Hid & Hpass & Hm). split.
  { unfold is_expired. destruct (vp_valid_until _) as [u|] eqn:Hu; [|done]. by eapply passes_expiry. }
  split; [done|]. split; [done|].
  destruct (passes_allow _ _ _ Hp) as (id & e & Hid' & He & Hmatch). exists e. split; [done|].
  by assert (id = value_x m) as <- by congruence.
Qed.

#[export] Instance AttGate_commits `{!UnifiedQuoteLaws} : BindingCommits AttGate.
Proof.
  intros g now now' eat b b' m m' Hv Hv'. unfold verify_eat, AttGate_verifier in Hv, Hv'.
  destruct g as [v|v|v|v|v|v|v]; exact (binding_commits v now now' eat b b' m m' Hv Hv').
Qed.

(** C35: a successful [POST /authorize] is an authorization: the body
    decoded, the gate accepted the evidence for the binding under the policy, and
    the answer is the JSON of what the attester signed for that measurement,
    binding and batch size; the appraisal returned passed. *)
Theorem handle_authorize_Ok `{Json IssuanceAuthorization} st body now clock resp :
  handle_authorize st body now clock = Ok resp ->
  exists eat b m auth v, b64_decode STANDARD (ab_eat_b64 body) = inr eat
    /\ hex32 (ab_binding body) = Some b
    /\ gate_verify_with_appraisal (az_verifier (at_authorizer st)) clock eat b
       = Ok (m, aresp_appraisal resp)
    /\ ar_pass (aresp_appraisal resp) = true
    /\ is_expired (gate_policy (az_verifier (at_authorizer st))) clock = false
    /\ (exists e, e ∈ vp_allow (gate_policy (az_verifier (at_authorizer st)))
        /\ (ae_measurement e = Some (value_x m) \/ ae_app_id_hash e = Some (value_x m)))
    /\ sign_authorization (at_authorizer st) m b (ab_max_batch body) now = Ok auth
    /\ json_to_vec auth = inr v
    /\ aresp_authorization_b64 resp = b64_encode STANDARD v.
Proof.
  intros (eat & Heat%map_err_Ok%of_sum_Ok & Hr)%bind_Ok.
  apply bind_Ok in Hr as (b & Hb%ok_or_Ok & Hr).
  destruct (N.eqb_spec (ab_max_batch body) 0) as [|Hn]; [done|].
  apply bind_Ok in Hr as ([m r] & Hv%map_err_Ok & Hr).
  apply bind_Ok in Hr as (a & Ha%map_err_Ok & Hr).
  apply bind_Ok in Hr as (v & Hj%map_err_Ok%of_sum_Ok & [= <-]).
  pose proof (gate_verify_Ok _ _ _ _ _ _ Hv) as (Hx & Hp & _ & He).
  exists eat, b, m, a, v. by split_and!.
Qed.

(** A refused [POST /authorize] says why: 400 for a body that does not
    decode or a batch of zero, 500 when the authorization cannot be encoded, and
    otherwise the status and text of the gate's error. *)
Theorem handle_authorize_Err `{Json IssuanceAuthorization} st body now clock c e :
  handle_authorize st body now clock = Err (c, e) ->
  (c = BAD_REQUEST /\ ((exists m, b64_decode STANDARD (ab_eat_b64 body) = inl m)
      \/ hex32 (ab_binding body) = None \/ ab_max_batch body = 0))
  \/ (c = INTERNAL_SERVER_ERROR /\ exists auth m, json_to_vec (T := IssuanceAuthorization) auth = inl m)
  \/ (exists eat b ge, b64_decode STANDARD (ab_eat_b64 body) = inr eat
      /\ hex32 (ab_binding body) = Some b /\ ab_max_batch body <> 0
      /\ authorize (at_authorizer st) clock eat b (ab_max_batch body) now = Err ge
      /\ c = gate_code ge /\ error e = GateError_display ge).
Proof.
  unfold handle_authorize, parse_hex32.
  destruct (b64_decode STANDARD (ab_eat_b64 body)) as [m|eat]; cbn [of_sum map_err mbind result_bind];
    [intros [= <- <-]; left; eauto|].
  destruct (hex32 (ab_binding body)) as [b|]; cbn [ok_or mbind result_bind];
    [|intros [= <- <-]; left; eauto].
  destruct (N.eqb_spec (ab_max_batch body) 0) as [Hz|Hn]; [intros [= <- <-]; left; eauto|].
  assert (Hauth : authorize (at_authorizer st) clock eat b (ab_max_batch body) now
    = '(m, _) ← gate_verify_with_appraisal (az_verifier (at_authorizer st)) clock eat b;
      sign_authorization (at_authorizer st) m b (ab_max_batch body) now).
  { unfold authorize. rewrite (proj2 (N.eqb_neq _ _) Hn).
    unfold verify_eat, AttGate_verifier. by destruct (gate_verify_with_appraisal _ _ _ _) as [[? ?]| |]. }
  destruct (gate_verify_with_appraisal _ _ _ _) as [[m r]|ge|];
    cbn [map_err mbind result_bind] in *; [|intros [= <- <-]; right; right; eauto 10|done].
  destruct (sign_authorization _ _ _ _ _) as [a|ge|]; cbn [map_err mbind result_bind] in *;
    [|intros [= <- <-]; right; right; eauto 10|done].
  destruct (json_to_vec a) as [m'|v] eqn:Hj; cbn [of_sum map_err mbind result_bind]; [|done].
  intros [= <- <-]. right. left. eauto.
Qed.

(** An accepted evidence is answered with an authorization the issuer of this
    attester accepts. *)
Lemma handle_authorize_accepts `{Json IssuanceAuthorization} `{!JsonLaws IssuanceAuthorization,
    !HexLaws, !Base64Laws, !FaestLaws} st eat b n now clock m r :
  gate_verify_with_appraisal (az_verifier (at_authorizer st)) clock eat b = Ok (m, r) ->
  length b = 32%nat -> n <> 0 -> now < 2 ^ 64 ->
  exists resp auth v,
    handle_authorize st {| ab_eat_b64 := b64_encode STANDARD eat; ab_binding := hex_encode b;
                           ab_max_batch := n |} now clock = Ok resp
    /\ aresp_authorization_b64 resp = b64_encode STANDARD v
    /\ json_from_slice v = inr auth
    /\ IssuanceAuthorization_verify auth (faest_verifying_key (az_signer (at_authorizer st))) now = Ok tt
    /\ auth_binding auth = b /\ auth_max_batch auth = n /\ auth_rate_limit_id auth = rate_limit_id m.
Proof.
  intros Hv Hb Hn Hnow.
  assert (exists auth, sign_authorization (at_authorizer st) m b n now = Ok auth) as [auth Ha].
  { unfold sign_authorization. rewrite (proj2 (N.eqb_neq n 0) Hn). by eexists. }
  destruct (json_total auth) as [v Hj]. do 2 eexists. exists v.
  unfold handle_authorize, parse_hex32. cbn [ab_eat_b64 ab_binding ab_max_batch].
  rewrite b64_decode_encode, hex32_encode by done. cbn [of_sum map_err ok_or mbind result_bind].
  rewrite (proj2 (N.eqb_neq n 0) Hn), Hv. cbn [map_err mbind result_bind].
  rewrite Ha. cbn [map_err mbind result_bind]. rewrite Hj. cbn [of_sum map_err mbind result_bind].
  split; [done|]. split; [done|]. split; [by apply json_roundtrip|].
  pose proof Ha as (_ & _ & Hab & Hai & _ & Ham & Hax & _)%sign_authorization_Ok.
  split_and!; [|done..]. eapply sign_authorization_verify; [done|].
  rewrite Hax. unfold sat_add64, u64_max. lia.
Qed.

(** C36: what a successful [POST /authorize] hands out is well typed and
    short-lived: every field of the authorization keeps its machine width, so
    that its signature covers all of them; the issuer accepts it at any time up
    to its expiry, which is the lifetime after now (or the largest [u64], where
    the sum does not fit), and refuses it from then on. *)
Theorem handle_authorize_typed `{Json IssuanceAuthorization}
    `{!Sha256Laws, !HexLaws, !FaestLaws} st body now clock resp :
  ab_max_batch body < 2 ^ 32 -> now < 2 ^ 64 -> len (az_policy_label (at_authorizer st)) < 2 ^ 32 ->
  handle_authorize st body now clock = Ok resp ->
  exists a v, json_to_vec a = inr v /\ aresp_authorization_b64 resp = b64_encode STANDARD v
    /\ wf_auth a /\ auth_iat a = now
    /\ auth_exp a = N.min (now + az_ttl_secs (at_authorizer st)) u64_max
    /\ forall t, IssuanceAuthorization_verify a (faest_verifying_key (az_signer (at_authorizer st))) t
                 = Ok tt <-> t <= auth_exp a.
Proof.
  intros Hn Hnow Hlab (eat & _ & Hr)%bind_Ok.
  apply bind_Ok in Hr as (b & Hb%ok_or_Ok%hex32_Some & Hr). destruct Hb as [_ Hb].
  destruct (N.eqb_spec (ab_max_batch body) 0) as [|Hz]; [done|].
  apply bind_Ok in Hr as ([m r] & _ & Hr). apply bind_Ok in Hr as (a & Ha%map_err_Ok & Hr).
  apply bind_Ok in Hr as (v & Hj%map_err_Ok%of_sum_Ok & [= <-]).
  pose proof Ha as (_ & Hver & Hab & Hai & Hal & Ham & Hax & Hat & _)%sign_authorization_Ok.
  exists a, v. split_and!; [done|done| |done|done|].
  - split; rewrite ?Hver, ?Hab, ?Hai, ?Hal, ?Ham, ?Hax, ?Hat; [done|done| |done..| |done].
    + unfold rate_limit_id, len. by rewrite sha256_length.
    + unfold sat_add64, u64_max. change (2 ^ 64) with 18446744073709551616 in *. lia.
  - intros t. split.
    + by intros (_ & _ & ? & _)%IssuanceAuthorization_verify_Ok.
    + intros Ht. by eapply sign_authorization_verify.
Qed.

End service.
