(* ===== verification/Origin.v ===== *)
(** * The origin: cli/src/origin.rs

A resource server that spends a token per request.  The issuer and the central
redeemer it calls over HTTP are an interface ([Upstream]) on a world state;
the handler [resource] runs on the origin's state, that world and the
randomness. *)

From S2P Require Import Prelude RustStr Externals Pomfrit Core Http Spend Transparency Policy Store.
From S2P Require Import Wire Redeemer.

(** ** The services called *)

(** Each call returns the decoded body of a successful answer, or the text of
    the failure; [up_redeem] returns the status code. *)
Class Upstream (W : Type) := {
  (** [GET {base}/keys]. *)
  up_keys : str -> run W str IssuerPublicKey;
  (** [GET {base}/keys/{version}]. *)
  up_keys_version : str -> N -> run W str IssuerPublicKey;
  (** [GET {base}/kt]. *)
  up_kt : str -> run W str KtResponse;
  (** [POST {url}/redeem]. *)
  up_redeem : str -> RedeemBody -> run W str N;
}.

(** What the origin relies on for double spends: while its settings are sound
    ([up_ok]), the redeemer answers 200 for a pair only when it had not before,
    and forgets none. *)
Class UpstreamOnce (W : Type) `{Hex, Upstream W} := {
  up_ok : W -> Prop;
  up_spent : W -> N -> bytes -> Prop;
  up_le (w w' : W) : Prop :=
    up_ok w -> up_ok w' /\ forall k n, up_spent w k n -> up_spent w' k n;
  up_keys_version_spent b v w r w' : up_keys_version b v w = (r, w') -> up_le w w';
  up_kt_spent b w r w' : up_kt b w = (r, w') -> up_le w w';
  up_redeem_spent url k n w r w' : length n = 32%nat ->
    up_redeem url {| rb_key_epoch := k; rb_nonce := hex_encode n |} w = (r, w') ->
    up_le w w' /\ (up_ok w -> r = Ok OK -> ~ up_spent w k n /\ up_spent w' k n);
}.

Section origin.
Context `{Sha256, Hex, Base64, Faest, BlindSig, BuildProfile} {W : Type} `{!Upstream W}.

(** ** State *)

Definition MAX_RECENT_CHALLENGES : nat := 64.

Record KeyEntry := { ke_verifier : Verifier; ke_epoch : N }.

(** The two [std::sync::RwLock]s guard no code that panics, so they are never
    poisoned. *)
Record OriginState := {
  or_base : str;
  or_issuer_name : str;
  or_origin_info : str;
  or_advertised_pk : IssuerPublicKey;
  or_recent : list TokenChallenge;
  or_require_context : bool;
  or_keys : gmap bytes KeyEntry;
  or_kt_log_pub : bytes;
  or_redeemer : str;
}.

(** What a handler runs on. *)
Record OriginWorld := {
  ow_state : OriginState;
  ow_world : W;
  ow_rng : rng;
}.

Definition set_recent (st : OriginState) (l : list TokenChallenge) : OriginState :=
  {| or_base := or_base st; or_issuer_name := or_issuer_name st;
     or_origin_info := or_origin_info st; or_advertised_pk := or_advertised_pk st;
     or_recent := l; or_require_context := or_require_context st; or_keys := or_keys st;
     or_kt_log_pub := or_kt_log_pub st; or_redeemer := or_redeemer st |}.

Definition set_keys (st : OriginState) (m : gmap bytes KeyEntry) : OriginState :=
  {| or_base := or_base st; or_issuer_name := or_issuer_name st;
     or_origin_info := or_origin_info st; or_advertised_pk := or_advertised_pk st;
     or_recent := or_recent st; or_require_context := or_require_context st; or_keys := m;
     or_kt_log_pub := or_kt_log_pub st; or_redeemer := or_redeemer st |}.

(** Operations of the parts, on the whole. *)
Definition with_state {E T} (f : OriginState -> T * OriginState) : run OriginWorld E T := fun w =>
  let '(x, st) := f (ow_state w) in
  (Ok x, {| ow_state := st; ow_world := ow_world w; ow_rng := ow_rng w |}).
Definition call {E T} (m : run W E T) : run OriginWorld E T := fun w =>
  let '(r, u) := m (ow_world w) in
  (r, {| ow_state := ow_state w; ow_world := u; ow_rng := ow_rng w |}).
Definition draw {E T} (m : run rng E T) : run OriginWorld E T := fun w =>
  let '(r, g) := m (ow_rng w) in
  (r, {| ow_state := ow_state w; ow_world := ow_world w; ow_rng := g |}).

(** ** Startup *)

(** [run] up to serving. *)
Definition origin_run (issuer_url issuer_name origin_info redeemer : str) (kt_log_pub : bytes)
    (require_context : bool) : run W str OriginState := fun w =>
  let base := trim_end_matches x2f issuer_url in
  match up_keys base w with
  | (Ok pk, w) =>
      (cur_tkid ← map_err Error_display (IssuerPublicKey_token_key_id pk);
       Ok {| or_base := base; or_issuer_name := issuer_name; or_origin_info := origin_info;
             or_advertised_pk := pk; or_recent := []; or_require_context := require_context;
             or_keys := {[ cur_tkid := {| ke_verifier := Verifier_new pk;
                                          ke_epoch := pk_key_version pk |} ]};
             or_kt_log_pub := kt_log_pub;
             or_redeemer := trim_end_matches x2f redeemer |}, w)
  | (Err e, w) => (Err e, w)
  | (Panic, w) => (Panic, w)
  end.

(** ** Challenges *)

(** [recent.push(ch)], then the oldest are dropped. *)
Definition push_recent (l : list TokenChallenge) (ch : TokenChallenge) : list TokenChallenge :=
  let l := l ++ [ch] in drop (length l - MAX_RECENT_CHALLENGES) l.

Definition issue_fresh_challenge : run OriginWorld str (TokenChallenge * str) := fun w =>
  let st := ow_state w in
  let ch := TokenChallenge_new (or_issuer_name st) (or_origin_info st) in
  (ch ← (if or_require_context st then
           draw (fun g => let '(r, g) := with_random_redemption_context ch g in
                          (map_err (fun e => B "redemption context: " ++ Error_display e) r, g))
         else mret ch);
   _ ← with_state (fun st => (tt, set_recent st (push_recent (or_recent st) ch)));
   www ← lift (map_err (fun e => B "www-authenticate: " ++ Error_display e)
                 (www_authenticate (TokenChallenge_to_bytes ch) (or_advertised_pk st)));
   mret (ch, www)) w.

Definition challenge_for_digest (st : OriginState) (digest : bytes) : option TokenChallenge :=
  snd <$> list_find (fun c => TokenChallenge_digest c = digest) (or_recent st).

(** ** Keys *)

Definition resolve_via_kt (tkid : bytes) : run OriginWorld str (option KeyEntry) := fun w =>
  let st := ow_state w in
  let pin := or_kt_log_pub st in
  let want := hex_encode tkid in
  (kt ← call (up_kt (or_base st));
   let served := match hex_decode (trim (kt_log_pub_hex kt)) with inr b => b | inl _ => [] end in
   if decide (served <> pin) then
     throw (B "kt log pubkey " ++ kt_log_pub_hex kt ++ B " does not match the pinned key "
       ++ hex_encode pin)
   else
     _ ← lift (map_err (fun e => B "kt log does not verify under pinned key: "
                 ++ TransparencyError_display e)
               (verify_log pin (kt_records kt) (kt_signed_head kt)));
     match list_find (fun r => eq_ignore_ascii_case (kr_token_key_id r) want) (kt_records kt) with
     | None => mret None
     | Some (_, rec) =>
         let version := kr_key_version rec in
         pk ← call (up_keys_version (or_base st) version);
         let epoch := pk_key_version pk in
         kid ← lift (map_err Error_display (IssuerPublicKey_token_key_id pk));
         if decide (kid <> tkid) then
           throw (B "/keys/" ++ display_N version
             ++ B " token_key_id disagrees with the transparency log")
         else mret (Some {| ke_verifier := Verifier_new pk; ke_epoch := epoch |})
     end) w.

Definition key_for (tkid : bytes) : run OriginWorld Empty_set (option KeyEntry) := fun w =>
  match or_keys (ow_state w) !! tkid with
  | Some e => (Ok (Some e), w)
  | None =>
      match resolve_via_kt tkid w with
      | (Ok (Some entry), w) =>
          with_state (fun st => (Some entry, set_keys st (<[tkid := entry]> (or_keys st)))) w
      | (Ok None, w) => (Ok None, w)
      | (Err _, w) => (Ok None, w)
      | (Panic, w) => (Panic, w)
      end
  end.

(** ** The handler *)

Record Response := {
  status : N;
  www_authenticate_header : option str;
  resp_body : str;
}.

Definition reply (code : N) (body : str) : Response :=
  {| status := code; www_authenticate_header := None; resp_body := body |}.

Definition challenge_response : run OriginWorld Empty_set Response := fun w =>
  match issue_fresh_challenge w with
  | (Ok (_, www), w) =>
      (Ok {| status := UNAUTHORIZED; www_authenticate_header := Some www;
             resp_body := B "PrivateToken required" ++ [x0a] |}, w)
  | (Err e, w) =>
      (Ok (reply INTERNAL_SERVER_ERROR (B "could not issue challenge: " ++ e ++ [x0a])), w)
  | (Panic, w) => (Panic, w)
  end.

Definition spend_centrally (url : str) (key_epoch : N) (nonce : bytes) :
    run W Empty_set bool := fun w =>
  match up_redeem url {| rb_key_epoch := key_epoch; rb_nonce := hex_encode nonce |} w with
  | (Ok code, w) => (Ok (bool_decide (code = OK)), w)
  | (Err _, w) => (Ok false, w)
  | (Panic, w) => (Panic, w)
  end.

(** [resource] once the token's key and challenge are known. *)
Definition redeem_token (entry : KeyEntry) (token : SpendToken) (challenge : TokenChallenge) :
    run OriginWorld Empty_set Response := fun w =>
  match Verifier_verify (ke_verifier entry) token challenge with
  | Ok nonce =>
      (spent_ok ← call (spend_centrally (or_redeemer (ow_state w)) (ke_epoch entry) nonce);
       mret (if spent_ok : bool then
               reply OK (B "access granted: valid attested, unlinkable, one-time token" ++ [x0a])
             else reply CONFLICT (B "token already spent (double-spend)" ++ [x0a]))) w
  | Err e => (Ok (reply FORBIDDEN (B "token rejected: " ++ Error_display e ++ [x0a])), w)
  | Panic => (Panic, w)
  end.

(** [resource] once the token's key is known. *)
Definition redeem_with_key (token : SpendToken) (entry : KeyEntry) :
    run OriginWorld Empty_set Response := fun w =>
  match challenge_for_digest (ow_state w) (challenge_digest token) with
  | None => (Ok (reply FORBIDDEN
      (B "token challenge unknown or expired (mint against a fresh WWW-Authenticate)"
         ++ [x0a])), w)
  | Some challenge =>
      if or_require_context (ow_state w) && negb (has_redemption_context challenge) then
        (Ok (reply FORBIDDEN
          (B "origin requires a 32-byte redemption context on the challenge" ++ [x0a])), w)
      else redeem_token entry token challenge w
  end.

(** The [authorization] header is given where it is present and ASCII. *)
Definition resource (auth : option str) : run OriginWorld Empty_set Response :=
  match auth with
  | None => challenge_response
  | Some auth =>
      match parse_authorization auth with
      | Ok token =>
          entry ← key_for (token_key_id token);
          match entry with
          | None => mret (reply FORBIDDEN
              (B "token signed by an unknown or unaccepted issuer key" ++ [x0a]))
          | Some entry => redeem_with_key token entry
          end
      | Err _ => challenge_response
      | Panic => lift Panic
      end
  end.

End origin.

(** ** What the handler keeps and grants *)

Section facts.
Context `{Sha256, Hex, Base64, Faest, BlindSig, BuildProfile} {W : Type} `{!Upstream W}.

Implicit Types w : (OriginWorld (W := W)).

(** An entry is the verifier of the key it is filed under. *)
Definition entry_ok (tkid : bytes) (e : KeyEntry) : Prop :=
  tkid = Scheme_token_key_id (pk_key (v_pk (ke_verifier e)))
  /\ ke_epoch e = pk_key_version (v_pk (ke_verifier e))
  /\ v_epk (ke_verifier e) = Scheme_expand_pk (pk_key (v_pk (ke_verifier e))).

Record origin_ok (st : OriginState) : Prop := {
  origin_recent : (length (or_recent st) <= MAX_RECENT_CHALLENGES)%nat;
  origin_challenges : Forall (fun c => exists ctx, c = with_redemption_context
      (TokenChallenge_new (or_issuer_name st) (or_origin_info st)) ctx
    /\ (or_require_context st = true -> length ctx = 32%nat)) (or_recent st);
  origin_keys : map_Forall entry_ok (or_keys st);
}.

(** A record of the log under its pinned key that names [tkid]. *)
Definition in_verified_log (pin tkid : bytes) (version : N) : Prop :=
  exists records sh i r, verify_log pin records sh = Ok tt /\ records !! i = Some r
    /\ kr_key_version r = version
    /\ to_ascii_lowercase (kr_token_key_id r) = to_ascii_lowercase (hex_encode tkid).

Lemma push_recent_length l c : (length (push_recent l c) <= MAX_RECENT_CHALLENGES)%nat.
Proof. unfold push_recent, MAX_RECENT_CHALLENGES. rewrite length_drop. lia. Qed.

(** The newest challenges are the ones kept. *)
Lemma push_recent_last l c : last (push_recent l c) = Some c.
Proof.
  unfold push_recent, MAX_RECENT_CHALLENGES. rewrite length_app. cbn [length].
  rewrite drop_app_le by lia. apply last_snoc.
Qed.

Lemma challenge_for_digest_Some st d c :
  challenge_for_digest st d = Some c -> c ∈ or_recent st /\ TokenChallenge_digest c = d.
Proof.
  unfold challenge_for_digest. destruct (list_find _ _) as [[i x]|] eqn:Hf; [|done].
  intros [= ->]. apply list_find_Some in Hf as (Hi & Hd & _). split; [|done].
  by eapply list_elem_of_lookup_2.
Qed.

Lemma issue_fresh_challenge_spec `{!RngLaws} w r w' :
  issue_fresh_challenge w = (r, w') ->
  ow_world w' = ow_world w
  /\ ((exists ch www, r = Ok (ch, www)
       /\ ow_state w' = set_recent (ow_state w) (push_recent (or_recent (ow_state w)) ch)
       /\ www_authenticate (TokenChallenge_to_bytes ch) (or_advertised_pk (ow_state w)) = Ok www
       /\ exists ctx, ch = with_redemption_context
            (TokenChallenge_new (or_issuer_name (ow_state w)) (or_origin_info (ow_state w))) ctx
          /\ (or_require_context (ow_state w) = true -> length ctx = 32%nat))
      \/ (exists e, r = Err e) /\ ow_state w' = ow_state w).
Proof.
  unfold issue_fresh_challenge. set (ch0 := TokenChallenge_new _ _).
  intros [(ch & w1 & Hd & Hr)|[(e & Hd & ->)|[Hd ->]]]%run_bind_cases.
  - assert (ow_world w1 = ow_world w /\ ow_state w1 = ow_state w /\
      exists ctx, ch = with_redemption_context ch0 ctx
        /\ (or_require_context (ow_state w) = true -> length ctx = 32%nat)) as (Hw1 & Hst & Hctx).
    { destruct (or_require_context (ow_state w)).
      - unfold draw, with_random_redemption_context, random_nonce in Hd.
        destruct (getrandom32 (ow_rng w)) as [[e|b] g] eqn:Hg; [done|].
        injection Hd as <- <-. split_and!; [done..|]. exists b. split; [done|].
        intros _. by eapply getrandom32_length.
      - injection Hd as <- <-. split_and!; [done..|]. exists []. by split. }
    apply run_bind_cases in Hr as [([] & w2 & Hs & Hr)|[(e & Hs & ->)|[Hs ->]]]; [|done..].
    unfold with_state in Hs. injection Hs as <-.
    apply run_bind_cases in Hr as [(www & w3 & Hl & Hr)|[(e & Hl & ->)|[Hl ->]]]; [|done..].
    apply lift_Ok in Hl as [Hl%map_err_Ok ->]. injection Hr as <- <-. cbn.
    split; [done|]. left. exists ch, www. rewrite Hst. by split_and!.
  - unfold draw in Hd. destruct (or_require_context (ow_state w)); [|done].
    destruct (with_random_redemption_context _ _) as [q g]. injection Hd as _ <-. cbn.
    split; [done|]. right. split; [by exists e|done].
  - unfold draw in Hd. destruct (or_require_context (ow_state w)); [|done].
    unfold with_random_redemption_context, random_nonce in Hd.
    destruct (getrandom32 (ow_rng w)) as [[e|b] g]; done.
Qed.

Lemma origin_ok_push st ch ctx :
  origin_ok st ->
  ch = with_redemption_context (TokenChallenge_new (or_issuer_name st) (or_origin_info st)) ctx ->
  (or_require_context st = true -> length ctx = 32%nat) ->
  origin_ok (set_recent st (push_recent (or_recent st) ch)).
Proof.
  intros [Hl Hc Hk] Hch Hctx. split; cbn; [apply push_recent_length| |done].
  unfold push_recent. apply Forall_drop, Forall_app. split; [done|].
  apply Forall_singleton. by exists ctx.
Qed.

Lemma challenge_response_spec `{!RngLaws} w r w' :
  challenge_response w = (r, w') ->
  ow_world w' = ow_world w /\ or_keys (ow_state w') = or_keys (ow_state w)
  /\ (origin_ok (ow_state w) -> origin_ok (ow_state w'))
  /\ exists resp, r = Ok resp /\ status resp <> OK.
Proof.
  unfold challenge_response. destruct (issue_fresh_challenge w) as [q w1] eqn:Hi.
  apply issue_fresh_challenge_spec in Hi as (Hw & [(ch & www & -> & Hst & _ & ctx & Hch & Hctx)
    |[[e ->] Hst]]); intros [= <- <-]; rewrite Hst; split_and!; try done.
  - intros Hok. by eapply origin_ok_push.
  - by eexists.
  - by eexists.
Qed.

Lemma resolve_via_kt_Ok tkid w e w' :
  resolve_via_kt tkid w = (Ok (Some e), w') ->
  ow_state w' = ow_state w /\ entry_ok tkid e
  /\ exists v b u u', in_verified_log (or_kt_log_pub (ow_state w)) tkid v
     /\ up_keys_version b v u = (Ok (v_pk (ke_verifier e)), u').
Proof.
  unfold resolve_via_kt. intros (kt & w1 & Hkt & Hr)%run_bind_Ok.
  unfold call in Hkt. destruct (up_kt _ _) as [q u1]. injection Hkt as -> <-.
  case_decide as Hpin; [done|].
  apply run_bind_Ok in Hr as ([] & w2 & [Hlog%map_err_Ok ->]%lift_Ok & Hr).
  destruct (list_find _ (kt_records kt)) as [[i rec]|] eqn:Hf; [|done].
  apply run_bind_Ok in Hr as (pk & w3 & Hpk & Hr).
  unfold call in Hpk. cbn [ow_world ow_state] in Hpk.
  destruct (up_keys_version _ _ u1) as [q u2] eqn:Hup. injection Hpk as -> <-.
  apply run_bind_Ok in Hr as (kid & w4 & [Hkid%map_err_Ok ->]%lift_Ok & Hr).
  unfold IssuerPublicKey_token_key_id in Hkid. injection Hkid as <-.
  case_decide as Hk; [done|]. injection Hr as <- <-. cbn.
  split; [done|]. split; [by split_and!|].
  exists (kr_key_version rec), (or_base (ow_state w)), u1, u2. split; [|done].
  apply list_find_Some in Hf as (Hi & Hp & _). exists (kt_records kt), (kt_signed_head kt), i, rec.
  split_and!; try done. by apply eq_ignore_ascii_case_spec, Is_true_true.
Qed.

Lemma resolve_via_kt_state tkid w r w' :
  resolve_via_kt tkid w = (r, w') -> ow_state w' = ow_state w.
Proof.
  assert (Hcall : forall T (m : run W str T) v q v', call m v = (q, v') -> ow_state v' = ow_state v).
  { intros T m v q v'. unfold call. destruct (m _). by intros [= _ <-]. }
  unfold resolve_via_kt. intros [(kt & w1 & Hkt & Hr)|[(e & Hkt & _)|[Hkt _]]]%run_bind_cases;
    apply Hcall in Hkt; [|done..]. rewrite <- Hkt.
  case_decide; [by injection Hr as _ <-|].
  apply run_bind_cases in Hr as [(q & w2 & Hl & Hr)|[(e & Hl & _)|[Hl _]]];
    injection Hl as _ <-; [|done..].
  destruct (list_find _ _) as [[i rec]|]; [|by injection Hr as _ <-].
  apply run_bind_cases in Hr as [(pk & w3 & Hpk & Hr)|[(e & Hpk & _)|[Hpk _]]];
    apply Hcall in Hpk; [|done..]. rewrite <- Hpk.
  apply run_bind_cases in Hr as [(k & w4 & Hl & Hr)|[(e & Hl & _)|[Hl _]]];
    injection Hl as _ <-; [|done..].
  case_decide; by injection Hr as _ <-.
Qed.

(** The cache only grows, and what it gains comes from the verified log. *)
Lemma key_for_spec tkid w r w' :
  key_for tkid w = (r, w') ->
  or_keys (ow_state w) ⊆ or_keys (ow_state w')
  /\ set_keys (ow_state w') (or_keys (ow_state w)) = ow_state w
  /\ (origin_ok (ow_state w) -> origin_ok (ow_state w'))
  /\ (forall e, r = Ok (Some e) -> or_keys (ow_state w') !! tkid = Some e)
  /\ (forall k e, or_keys (ow_state w') !! k = Some e -> or_keys (ow_state w) !! k = None ->
      k = tkid /\ exists v b u u', in_verified_log (or_kt_log_pub (ow_state w)) tkid v
        /\ up_keys_version b v u = (Ok (v_pk (ke_verifier e)), u')).
Proof.
  assert (Hsame : forall st : OriginState, set_keys st (or_keys st) = st) by by intros [].
  unfold key_for. destruct (or_keys (ow_state w) !! tkid) as [e|] eqn:Hk.
  { intros [= <- <-]. split_and!; [done|done|done|by intros ? [= <-]|intros; congruence]. }
  destruct (resolve_via_kt tkid w) as [q w1] eqn:Hr.
  pose proof (resolve_via_kt_state _ _ _ _ Hr) as Hst.
  destruct q as [[e|]|e|]; [|intros [= <- <-]; rewrite Hst; split_and!;
    [done|done|done|done|intros; congruence]..].
  apply resolve_via_kt_Ok in Hr as (_ & He & Hlog).
  unfold with_state. rewrite Hst. intros [= <- <-]. cbn [ow_state set_keys or_keys].
  split_and!.
  - by apply insert_subseteq.
  - by destruct (ow_state w).
  - intros [Hl Hc Hm]. split; cbn; [done|done|]. by apply map_Forall_insert_2.
  - intros ? [= <-]. apply lookup_insert_eq.
  - intros k e' [[<- <-]|[_ ?]]%lookup_insert_Some Hn; [done|congruence].
Qed.

(** A grant: the header parsed, a cached key accepted the token for a challenge
    this origin issued, and the redeemer answered 200 for its nonce. *)
Lemma resource_grant `{!RngLaws} auth w resp w' :
  resource auth w = (Ok resp, w') -> status resp = OK ->
  exists h token entry c w1,
    auth = Some h /\ parse_authorization h = Ok token
    /\ key_for (token_key_id token) w = (Ok (Some entry), w1)
    /\ or_keys (ow_state w') !! token_key_id token = Some entry
    /\ c ∈ or_recent (ow_state w)
    /\ Verifier_verify (ke_verifier entry) token c = Ok (nonce token)
    /\ up_redeem (or_redeemer (ow_state w))
         {| rb_key_epoch := ke_epoch entry; rb_nonce := hex_encode (nonce token) |} (ow_world w1)
       = (Ok OK, ow_world w').
Proof.
  unfold resource. intros Hr Hs. destruct auth as [h|].
  2:{ apply challenge_response_spec in Hr as (_ & _ & _ & ? & [= <-] & ?). done. }
  destruct (parse_authorization h) as [token|e|] eqn:Hp; [| |done].
  2:{ apply challenge_response_spec in Hr as (_ & _ & _ & ? & [= <-] & ?). done. }
  apply run_bind_Ok in Hr as (o & w1 & Hk & Hr).
  destruct (key_for_spec _ _ _ _ Hk) as (_ & Hst & _ & Hin & _).
  destruct o as [entry|]; [|injection Hr as <- _; done].
  specialize (Hin entry eq_refl). unfold redeem_with_key in Hr.
  destruct (challenge_for_digest _ _) as [c|] eqn:Hc; [|injection Hr as <- _; done].
  apply challenge_for_digest_Some in Hc as [Hrec _].
  destruct (_ && _); [injection Hr as <- _; done|]. unfold redeem_token in Hr.
  destruct (Verifier_verify _ token c) as [n|e|] eqn:Hv; [|injection Hr as <- _; done|done].
  assert (n = nonce token) as -> by (apply Verifier_verify_Ok in Hv; naive_solver).
  apply run_bind_Ok in Hr as (ok & w2 & Hcall & Hr). unfold call, spend_centrally in Hcall.
  destruct (up_redeem _ _ _) as [[code|e|] u2] eqn:Hup; [| |done]; injection Hcall as <- <-.
  2:{ injection Hr as <- _. done. }
  injection Hr as <- <-. destruct (bool_decide (code = OK)) eqn:Hcode; [|done].
  apply bool_decide_eq_true in Hcode as ->.
  exists h, token, entry, c, w1. cbn [ow_state ow_world].
  assert (Hrr : or_recent (ow_state w1) = or_recent (ow_state w)
    /\ or_redeemer (ow_state w1) = or_redeemer (ow_state w)) by (rewrite <- Hst; done).
  destruct Hrr as [Hrr1 Hrr2]. rewrite <- Hrr1, <- Hrr2. by split_and!.
Qed.

Lemma redeem_with_key_state token entry w r w' :
  redeem_with_key token entry w = (r, w') -> ow_state w' = ow_state w.
Proof.
  unfold redeem_with_key. destruct (challenge_for_digest _ _) as [c|]; [|by intros [= _ <-]].
  destruct (_ && _); [by intros [= _ <-]|]. unfold redeem_token.
  destruct (Verifier_verify _ _ _); [|by intros [= _ <-]..].
  intros [(ok & w2 & Hc & Hr)|[(e & Hc & _)|[Hc _]]]%run_bind_cases;
    unfold call in Hc; destruct (spend_centrally _ _ _ _); injection Hc as _ <-; [|done..].
  by injection Hr as _ <-.
Qed.

(** Every request keeps the invariant, and the cache grows from the log only. *)
Lemma resource_keeps `{!RngLaws} auth w r w' :
  resource auth w = (r, w') ->
  or_keys (ow_state w) ⊆ or_keys (ow_state w')
  /\ or_kt_log_pub (ow_state w') = or_kt_log_pub (ow_state w)
  /\ or_redeemer (ow_state w') = or_redeemer (ow_state w)
  /\ (origin_ok (ow_state w) -> origin_ok (ow_state w'))
  /\ (forall k e, or_keys (ow_state w') !! k = Some e -> or_keys (ow_state w) !! k = None ->
      exists v b u u', in_verified_log (or_kt_log_pub (ow_state w)) k v
        /\ up_keys_version b v u = (Ok (v_pk (ke_verifier e)), u')).
Proof.
  assert (Hcr : challenge_response w = (r, w') ->
    or_keys (ow_state w') = or_keys (ow_state w)
    /\ or_kt_log_pub (ow_state w') = or_kt_log_pub (ow_state w)
    /\ or_redeemer (ow_state w') = or_redeemer (ow_state w)
    /\ (origin_ok (ow_state w) -> origin_ok (ow_state w'))).
  { unfold challenge_response. destruct (issue_fresh_challenge w) as [q w1] eqn:Hi.
    apply issue_fresh_challenge_spec in Hi as (_ & [(ch & www & -> & Hst & _ & ctx & Hch & Hctx)
      |[[e ->] Hst]]); intros [= _ <-]; rewrite Hst; split_and!; try done.
    intros Hok. by eapply origin_ok_push. }
  unfold resource. intros Hr. destruct auth as [h|].
  2:{ apply Hcr in Hr as (-> & ? & ? & ?). split_and!; try done. intros; congruence. }
  destruct (parse_authorization h) as [token|e|] eqn:Hp.
  2:{ apply Hcr in Hr as (-> & ? & ? & ?). split_and!; try done. intros; congruence. }
  2:{ by apply parse_authorization_no_panic in Hp. }
  assert (Hkf : forall o w1, key_for (token_key_id token) w = (o, w1) ->
    or_keys (ow_state w) ⊆ or_keys (ow_state w1)
    /\ or_kt_log_pub (ow_state w1) = or_kt_log_pub (ow_state w)
    /\ or_redeemer (ow_state w1) = or_redeemer (ow_state w)
    /\ (origin_ok (ow_state w) -> origin_ok (ow_state w1))
    /\ (forall k e, or_keys (ow_state w1) !! k = Some e -> or_keys (ow_state w) !! k = None ->
      exists v b u u', in_verified_log (or_kt_log_pub (ow_state w)) k v
        /\ up_keys_version b v u = (Ok (v_pk (ke_verifier e)), u'))).
  { intros o w1 Hk. apply key_for_spec in Hk as (Hsub & Hst & Hok & _ & Hnew).
    split_and!; [done|by rewrite <- Hst|by rewrite <- Hst|done|].
    intros k e He Hn. destruct (Hnew k e He Hn) as [-> ?]. done. }
  apply run_bind_cases in Hr as [(o & w1 & Hk & Hr)|[(e & Hk & _)|[Hk _]]];
    [|by eapply Hkf..]. specialize (Hkf _ _ Hk).
  enough (ow_state w' = ow_state w1) as -> by done.
  destruct o as [entry|]; [|by injection Hr as _ <-].
  by eapply redeem_with_key_state.
Qed.

End facts.

(** ** One grant per token *)

Section once.
Context `{Sha256, HexLaws, Base64, Faest, RngLaws, !BlindSig, BuildProfile}
  {W : Type} `{!Upstream W, !UpstreamOnce W}.
Implicit Types w : (OriginWorld (W := W)).

#[export] Instance up_le_preorder : PreOrder up_le.
Proof.
  split; [by intros u Hu|]. intros u v x Huv Hvx Hu.
  destruct (Huv Hu) as [Hv Hm]. destruct (Hvx Hv) as [Hx Hm']. split; [done|]. auto.
Qed.

(** A run of the origin that only takes the world further. *)
Definition world_le (w w' : OriginWorld (W := W)) : Prop := up_le (ow_world w) (ow_world w').

#[export] Instance world_le_preorder : PreOrder world_le.
Proof. unfold world_le. split; [by intros w|]. intros w1 w2 w3. by etrans. Qed.

Lemma call_le {T} (m : run W str T) w r w' :
  (forall q u', m (ow_world w) = (q, u') -> up_le (ow_world w) u') ->
  call m w = (r, w') -> world_le w w'.
Proof.
  intros Hm. unfold call, world_le. destruct (m (ow_world w)) as [q u].
  intros [= _ <-]. by eapply Hm.
Qed.

Lemma lift_le {E T} (x : result E T) w r w' : lift x w = (r, w') -> world_le w w'.
Proof. by intros [= _ <-]. Qed.

Lemma run_bind_le {E T U} (m : run (OriginWorld (W := W)) E T)
    (f : T -> run (OriginWorld (W := W)) E U) w r w' :
  (forall q v, m w = (q, v) -> world_le w v) ->
  (forall x v q v', m w = (Ok x, v) -> f x v = (q, v') -> world_le v v') ->
  (m ≫= f) w = (r, w') -> world_le w w'.
Proof.
  intros Hm Hf [(x & v & Hx & Hr)|[(e & Hx & _)|[Hx _]]]%run_bind_cases; [|by eapply Hm..].
  etrans; [by eapply Hm|by eapply Hf].
Qed.

Lemma resolve_via_kt_le tkid w r w' : resolve_via_kt tkid w = (r, w') -> world_le w w'.
Proof.
  apply run_bind_le.
  { intros q v. apply call_le, up_kt_spent. }
  intros kt v q v' _. cbn beta zeta. case_decide; [by intros [= _ <-]|]. apply run_bind_le.
  { intros ? ?. apply lift_le. }
  intros [] v1 q1 v1' _. cbn beta. destruct (list_find _ _) as [[i rec]|]; [|by intros [= _ <-]].
  apply run_bind_le.
  { intros ? ?. apply call_le, up_keys_version_spent. }
  intros pk v2 q2 v2' _. apply run_bind_le.
  { intros ? ?. apply lift_le. }
  intros kid v3 q3 v3' _. cbn beta zeta. case_decide; by intros [= _ <-].
Qed.

Lemma key_for_le tkid w r w' : key_for tkid w = (r, w') -> world_le w w'.
Proof.
  unfold key_for. destruct (or_keys _ !! tkid); [by intros [= _ <-]|].
  destruct (resolve_via_kt tkid w) as [q w1] eqn:Hr. apply resolve_via_kt_le in Hr.
  destruct q as [[e|]|e|]; [unfold with_state|..]; intros [= _ <-]; exact Hr.
Qed.

Lemma parse_authorization_nonce h t : parse_authorization h = Ok t -> length (nonce t) = 32%nat.
Proof.
  unfold parse_authorization. intros (rest & _ & Hr)%bind_Ok.
  apply bind_Ok in Hr as (b64 & _ & Hr). apply bind_Ok in Hr as (b & _ & Hr).
  apply map_err_Ok, from_bytes_Ok in Hr as (_ & [_ ? _ _] & _). done.
Qed.

Lemma spend_centrally_le url k n u r u' :
  length n = 32%nat -> spend_centrally url k n u = (r, u') -> up_le u u'.
Proof.
  intros Hn. unfold spend_centrally.
  destruct (up_redeem _ _ _) as [[code|e|] v] eqn:Hu; intros [= _ <-];
    by apply up_redeem_spent in Hu as [Hm _].
Qed.

Lemma redeem_with_key_le token entry w r w' :
  length (nonce token) = 32%nat ->
  redeem_with_key token entry w = (r, w') -> world_le w w'.
Proof.
  intros Hn. unfold redeem_with_key. destruct (challenge_for_digest _ _) as [c|]; [|by intros [= _ <-]].
  destruct (_ && _); [by intros [= _ <-]|]. unfold redeem_token.
  destruct (Verifier_verify _ _ _) as [m|?|] eqn:Hv; [|by intros [= _ <-]..].
  assert (m = nonce token) as -> by (apply Verifier_verify_Ok in Hv; naive_solver).
  apply run_bind_le; [|by intros ok v q v' _ [= _ <-]].
  intros q v. unfold call, world_le. destruct (spend_centrally _ _ _ _) as [q' u] eqn:Hs.
  intros [= _ <-]. by eapply spend_centrally_le.
Qed.

Lemma resource_le auth w r w' : resource auth w = (r, w') -> world_le w w'.
Proof.
  intros Hr. unfold resource in Hr.
  assert (Hcr : challenge_response w = (r, w') -> world_le w w').
  { intros Hc. apply challenge_response_spec in Hc as [Heq _]. unfold world_le. by rewrite Heq. }
  destruct auth as [h|]; [|auto].
  destruct (parse_authorization h) as [token|e|] eqn:Hp; [|auto|by eapply lift_le].
  revert Hr. apply run_bind_le; [intros ? ?; apply key_for_le|].
  intros [entry|] v q v' _; [|by intros [= _ <-]].
  apply redeem_with_key_le. by eapply parse_authorization_nonce.
Qed.

(** What a grant names: the key entry of the token and its nonce, which the
    redeemer had not seen before and has seen since. *)
Lemma resource_grant_spent auth w resp w' :
  up_ok (ow_world w) -> resource auth w = (Ok resp, w') -> status resp = OK ->
  exists h token entry, auth = Some h /\ parse_authorization h = Ok token
    /\ or_keys (ow_state w') !! token_key_id token = Some entry
    /\ ~ up_spent (ow_world w) (ke_epoch entry) (nonce token)
    /\ up_spent (ow_world w') (ke_epoch entry) (nonce token).
Proof.
  intros Hw Hr Hs. destruct (resource_grant _ _ _ _ Hr Hs)
    as (h & token & entry & c & w1 & -> & Hp & Hk & Hin & _ & _ & Hup).
  exists h, token, entry. apply key_for_le in Hk. destruct (Hk Hw) as [Hw1 Hm].
  apply up_redeem_spent in Hup as [_ Hok]; [|by eapply parse_authorization_nonce].
  destruct (Hok Hw1 eq_refl) as [Hn Hy]. split_and!; try done. auto.
Qed.

(** Requests to one origin, in order. *)
Fixpoint resource_all (l : list (option str)) w :
    list (option str * result Empty_set Response) * OriginWorld :=
  match l with
  | [] => ([], w)
  | a :: l =>
      let '(r, w) := resource a w in
      let '(h, w) := resource_all l w in
      ((a, r) :: h, w)
  end.

(** The key id and nonce of the token of a granted request. *)
Definition granted_token (x : option str * result Empty_set Response) : option (bytes * bytes) :=
  match x with
  | (Some h, Ok resp) =>
      if decide (status resp = OK) then
        match parse_authorization h with
        | Ok t => Some (token_key_id t, nonce t)
        | _ => None
        end
      else None
  | _ => None
  end.

(** Whatever requests an origin serves, against a redeemer that answers
    success for a pair at most once, no token is granted twice: the granted
    pairs of key id and nonce are distinct, were not spent before, and the
    redeemer forgets none. *)
Theorem resource_all_once l w h w' :
  up_ok (ow_world w) -> resource_all l w = (h, w') ->
  NoDup (omap granted_token h)
  /\ (forall kid n e, (kid, n) ∈ omap granted_token h -> or_keys (ow_state w') !! kid = Some e ->
      ~ up_spent (ow_world w) (ke_epoch e) n)
  /\ or_keys (ow_state w) ⊆ or_keys (ow_state w')
  /\ (forall k n, up_spent (ow_world w) k n -> up_spent (ow_world w') k n).
Proof.
  revert w h w'. induction l as [|a l IH]; intros w h w' Hw; cbn [resource_all].
  { intros [= <- <-]. split_and!; [constructor|set_solver|done|done]. }
  destruct (resource a w) as [r w1] eqn:Hr.
  destruct (resource_all l w1) as [hs w2] eqn:Hl. intros [= <- <-].
  destruct (resource_le _ _ _ _ Hr Hw) as [Hw1 Hm1].
  destruct (IH _ _ _ Hw1 Hl) as (Hd & Hf & Hsub & Hm).
  pose proof (resource_keeps _ _ _ _ Hr) as (Hsub1 & _).
  change (omap granted_token ((a, r) :: hs)) with
    (match granted_token (a, r) with
     | Some y => y :: omap granted_token hs | None => omap granted_token hs end).
  destruct (granted_token (a, r)) as [[kid n]|] eqn:Hg.
  - unfold granted_token in Hg. destruct a as [x|]; [|done]. destruct r as [resp| |]; [|done..].
    case_decide as Hs; [|done]. destruct (parse_authorization x) as [t| |] eqn:Hp; [|done..].
    injection Hg as <- <-.
    apply (resource_grant_spent _ _ _ _ Hw Hr) in Hs as (x' & t' & e & [= <-] & Hp' & He & Hn & Hy).
    assert (t' = t) as -> by congruence.
    assert (He2 : or_keys (ow_state w2) !! token_key_id t = Some e)
      by (by eapply lookup_weaken).
    split_and!.
    + constructor; [|done]. intros Hin. by eapply Hf.
    + intros kid n e' [[= -> ->]|Hin]%elem_of_cons He'.
      * assert (e' = e) as -> by congruence. done.
      * intros Hsp. eapply Hf; [done..|]. by apply Hm1.
    + by etrans.
    + auto.
  - split_and!; [done| |by etrans|auto].
    intros kid n e Hin He Hsp. eapply Hf; [done..|]. by apply Hm1.
Qed.

End once.

(** ** Properties *)

Section properties.
Context `{Sha256, Hex, Base64, Faest, RngLaws, !BlindSig, BuildProfile} {W : Type} `{!Upstream W}.
Implicit Types w : (OriginWorld (W := W)).

(** C10: what a grant certifies: the header parsed, the key filed under the
    token's key id is the one hashed to that id and accepts the token for a
    challenge this origin issued, with a 32-byte redemption context where one is
    required, and the redeemer answered 200 for the nonce under the key's epoch. *)
Theorem origin_grants_only auth w resp w' :
  origin_ok (ow_state w) -> resource auth w = (Ok resp, w') -> status resp = OK ->
  exists h token entry c u, auth = Some h /\ parse_authorization h = Ok token
    /\ or_keys (ow_state w') !! token_key_id token = Some entry
    /\ token_key_id token = Scheme_token_key_id (pk_key (v_pk (ke_verifier entry)))
    /\ c ∈ or_recent (ow_state w)
    /\ issuer_name c = or_issuer_name (ow_state w) /\ origin_info c = or_origin_info (ow_state w)
    /\ (or_require_context (ow_state w) = true -> length (redemption_context c) = 32%nat)
    /\ Verifier_verify (ke_verifier entry) token c = Ok (nonce token)
    /\ up_redeem (or_redeemer (ow_state w))
         {| rb_key_epoch := pk_key_version (v_pk (ke_verifier entry));
            rb_nonce := hex_encode (nonce token) |} u = (Ok OK, ow_world w').
Proof.
  intros Hok Hr Hs. pose proof (resource_keeps _ _ _ _ Hr) as (_ & _ & _ & Hk & _).
  destruct (resource_grant _ _ _ _ Hr Hs) as (h & token & entry & c & w1 & -> & Hp & _ & Hin & Hc & Hv & Hup).
  pose proof (origin_keys _ (Hk Hok) _ _ Hin) as (Hid & He & _).
  pose proof (origin_challenges _ Hok) as Hch. rewrite Forall_forall in Hch.
  destruct (Hch _ Hc) as (ctx & -> & Hctx).
  eexists h, token, entry, _, (ow_world w1). rewrite <- He. by split_and!.
Qed.

(** From startup on, whatever requests are served, the origin holds at most
    64 challenges, all of its own name and with a context where one is required;
    each cached key is filed under its own key id; and each but the one fetched
    at startup was named by a record of a log that verifies under the pinned key. *)
Theorem origin_reachable issuer_url name info redeemer pin ctx u0 st u1 g l h w' :
  origin_run issuer_url name info redeemer pin ctx u0 = (Ok st, u1) ->
  resource_all l {| ow_state := st; ow_world := u1; ow_rng := g |} = (h, w') ->
  origin_ok (ow_state w')
  /\ forall kid e, or_keys (ow_state w') !! kid = Some e ->
     kid = Scheme_token_key_id (pk_key (or_advertised_pk st))
     \/ exists v b u u', in_verified_log pin kid v
          /\ up_keys_version b v u = (Ok (v_pk (ke_verifier e)), u').
Proof.
  intros Hrun. unfold origin_run in Hrun. destruct (up_keys _ u0) as [[pk|e|] u2]; [|done..].
  injection Hrun as <- <-. cbn [IssuerPublicKey_token_key_id or_advertised_pk].
  set (st := Build_OriginState _ _ _ _ _ _ _ _ _).
  assert (Hstart : origin_ok st /\ or_kt_log_pub st = pin /\ forall kid e, or_keys st !! kid = Some e ->
    kid = Scheme_token_key_id (pk_key pk) \/ exists v b u u', in_verified_log pin kid v
          /\ up_keys_version b v u = (Ok (v_pk (ke_verifier e)), u')).
  { split; [|split; [done|]].
    - split; cbn; [unfold MAX_RECENT_CHALLENGES; lia|constructor|].
      intros k e [<- <-]%lookup_singleton_Some. by split_and!.
    - intros k e Hke. unfold st in Hke. cbn [or_keys] in Hke.
      apply lookup_singleton_Some in Hke as [<- _]. by left. }
  assert (Hst : ow_state {| ow_state := st; ow_world := u2; ow_rng := g |} = st) by done. revert Hst Hstart.
  generalize {| ow_state := st; ow_world := u2; ow_rng := g |} as w. generalize st as s. clear st.
  revert h w'. induction l as [|a l IH]; intros h w' s w <- (Hok & Hpin & Hkeys); cbn [resource_all].
  { intros [= <- <-]. done. }
  destruct (resource a w) as [r w3] eqn:Hr. destruct (resource_all l w3) as [hs w4] eqn:Hl.
  intros [= <- <-]. pose proof (resource_keeps _ _ _ _ Hr) as (_ & Hp & _ & Hk & Hnew).
  eapply IH; [done| |done]. split_and!; [by apply Hk|congruence|].
  intros k e He. destruct (or_keys (ow_state w) !! k) as [e0|] eqn:Hold.
  - destruct (Hkeys _ _ Hold) as [->|(v & b & u & u' & Hlog & Hu)]; [by left|right].
    assert (Hsub : or_keys (ow_state w) ⊆ or_keys (ow_state w3))
      by (by apply resource_keeps in Hr as (? & _)).
    assert (e = e0) as -> by (eapply lookup_weaken in Hold; [|exact Hsub]; congruence).
    exists v, b, u, u'. done.
  - right. rewrite <- Hpin. by eapply Hnew.
Qed.

End properties.
