(* ===== verification/OriginSteps.v ===== *)
(** * Origins at work: the handler of cli/src/origin.rs as interleaved steps

An axum service runs its handlers concurrently.  Here a request to an origin is
a progress through the handler's atomic parts, cut where the code takes a lock,
draws randomness or awaits a call ([req_step]); a cluster is several origins
that share the services they call, with the requests they are serving
([cl_step]).  A request that runs undisturbed is [resource] ([req_run_resource]).
The waiting for locks and for replies is modelled in OriginLocks. *)

From S2P Require Import Prelude RustStr Externals Pomfrit Core Http Spend Transparency Policy Store.
From S2P Require Import Wire Redeemer Origin.

(** ** A request *)

(** Where a request is, with what its handler holds in local variables. *)
Inductive Progress :=
| RqStart (auth : option str)
| RqFresh
| RqPush (ch : TokenChallenge)
| RqLookup (t : SpendToken)
| RqLog (t : SpendToken)
| RqFetch (t : SpendToken) (version : N)
| RqCache (t : SpendToken) (e : KeyEntry)
| RqRecent (t : SpendToken) (e : KeyEntry)
| RqSpend (t : SpendToken) (e : KeyEntry) (n : bytes)
| RqDone (resp : Response).

Definition finished (p : Progress) : bool := match p with RqDone _ => true | _ => false end.

Section steps.
Context `{Sha256, Hex, Base64, Faest, BlindSig, BuildProfile} {W : Type} `{!Upstream W}.

(** [resolve_via_kt] between its two calls: the version to fetch. *)
Definition log_version (st : OriginState) (tkid : bytes) (kt : KtResponse) : result str (option N) :=
  let served := match hex_decode (trim (kt_log_pub_hex kt)) with inr b => b | inl _ => [] end in
  if decide (served <> or_kt_log_pub st) then
    Err (B "kt log pubkey " ++ kt_log_pub_hex kt ++ B " does not match the pinned key "
       ++ hex_encode (or_kt_log_pub st))
  else
    _ ← map_err (fun e => B "kt log does not verify under pinned key: "
          ++ TransparencyError_display e)
        (verify_log (or_kt_log_pub st) (kt_records kt) (kt_signed_head kt));
    Ok ((fun x => kr_key_version x.2) <$>
        list_find (fun r => eq_ignore_ascii_case (kr_token_key_id r) (hex_encode tkid))
          (kt_records kt)).

(** [resolve_via_kt] after them. *)
Definition fetched_entry (tkid : bytes) (version : N) (pk : IssuerPublicKey) : result str KeyEntry :=
  kid ← map_err Error_display (IssuerPublicKey_token_key_id pk);
  if decide (kid <> tkid) then
    Err (B "/keys/" ++ display_N version
      ++ B " token_key_id disagrees with the transparency log")
  else Ok {| ke_verifier := Verifier_new pk; ke_epoch := pk_key_version pk |}.

(** [challenge_response] around its two parts. *)
Definition challenge_failed (e : str) : Response :=
  reply INTERNAL_SERVER_ERROR (B "could not issue challenge: " ++ e ++ [x0a]).

Definition challenge_sent (st : OriginState) (ch : TokenChallenge) : result Empty_set Response :=
  match www_authenticate (TokenChallenge_to_bytes ch) (or_advertised_pk st) with
  | Ok www => Ok {| status := UNAUTHORIZED; www_authenticate_header := Some www;
                    resp_body := B "PrivateToken required" ++ [x0a] |}
  | Err e => Ok (challenge_failed (B "www-authenticate: " ++ Error_display e))
  | Panic => Panic
  end.

Definition unknown_key : Response :=
  reply FORBIDDEN (B "token signed by an unknown or unaccepted issuer key" ++ [x0a]).

(** [resource] from the challenge's lookup to the verification. *)
Definition verified_nonce (st : OriginState) (token : SpendToken) (entry : KeyEntry) :
    result Empty_set (Response + bytes) :=
  match challenge_for_digest st (challenge_digest token) with
  | None => Ok (inl (reply FORBIDDEN
      (B "token challenge unknown or expired (mint against a fresh WWW-Authenticate)" ++ [x0a])))
  | Some challenge =>
      if or_require_context st && negb (has_redemption_context challenge) then
        Ok (inl (reply FORBIDDEN
          (B "origin requires a 32-byte redemption context on the challenge" ++ [x0a])))
      else
        match Verifier_verify (ke_verifier entry) token challenge with
        | Ok nonce => Ok (inr nonce)
        | Err e => Ok (inl (reply FORBIDDEN (B "token rejected: " ++ Error_display e ++ [x0a])))
        | Panic => Panic
        end
  end.

Definition spend_reply (spent_ok : bool) : Response :=
  if spent_ok then reply OK (B "access granted: valid attested, unlinkable, one-time token" ++ [x0a])
  else reply CONFLICT (B "token already spent (double-spend)" ++ [x0a]).

(** What the request does next: each part touches the shared state at one point. *)
Definition req_step (p : Progress) : run (OriginWorld (W := W)) Empty_set Progress := fun w =>
  let st := ow_state w in
  match p with
  | RqStart None => (Ok RqFresh, w)
  | RqStart (Some auth) =>
      match parse_authorization auth with
      | Ok t => (Ok (RqLookup t), w)
      | Err _ => (Ok RqFresh, w)
      | Panic => (Panic, w)
      end
  | RqFresh =>
      let ch := TokenChallenge_new (or_issuer_name st) (or_origin_info st) in
      if or_require_context st then
        match draw (with_random_redemption_context ch) w with
        | (Ok ch, w) => (Ok (RqPush ch), w)
        | (Err e, w) =>
            (Ok (RqDone (challenge_failed (B "redemption context: " ++ Error_display e))), w)
        | (Panic, w) => (Panic, w)
        end
      else (Ok (RqPush ch), w)
  | RqPush ch =>
      (resp ← challenge_sent st ch; Ok (RqDone resp),
       {| ow_state := set_recent st (push_recent (or_recent st) ch);
          ow_world := ow_world w; ow_rng := ow_rng w |})
  | RqLookup t =>
      (Ok match or_keys st !! token_key_id t with Some e => RqRecent t e | None => RqLog t end, w)
  | RqLog t =>
      match call (up_kt (or_base st)) w with
      | (Ok kt, w) =>
          (match log_version st (token_key_id t) kt with
           | Ok (Some v) => Ok (RqFetch t v)
           | Ok None | Err _ => Ok (RqDone unknown_key)
           | Panic => Panic
           end, w)
      | (Err _, w) => (Ok (RqDone unknown_key), w)
      | (Panic, w) => (Panic, w)
      end
  | RqFetch t v =>
      match call (up_keys_version (or_base st) v) w with
      | (Ok pk, w) =>
          (match fetched_entry (token_key_id t) v pk with
           | Ok e => Ok (RqCache t e)
           | Err _ => Ok (RqDone unknown_key)
           | Panic => Panic
           end, w)
      | (Err _, w) => (Ok (RqDone unknown_key), w)
      | (Panic, w) => (Panic, w)
      end
  | RqCache t e =>
      (Ok (RqRecent t e),
       {| ow_state := set_keys st (<[token_key_id t := e]> (or_keys st));
          ow_world := ow_world w; ow_rng := ow_rng w |})
  | RqRecent t e =>
      (match verified_nonce st t e with
       | Ok (inr n) => Ok (RqSpend t e n)
       | Ok (inl resp) => Ok (RqDone resp)
       | Err x => match x with end
       | Panic => Panic
       end, w)
  | RqSpend t e n =>
      let '(r, w) := call (spend_centrally (or_redeemer st) (ke_epoch e) n) w in
      (ok ← r; Ok (RqDone (spend_reply ok)), w)
  | RqDone resp => (Ok (RqDone resp), w)
  end.

(** Steps of one request, undisturbed, until it is done. *)
Fixpoint req_run (fuel : nat) (p : Progress) : run (OriginWorld (W := W)) Empty_set Progress :=
  match fuel with
  | O => mret p
  | S fuel => if finished p then mret p else p' ← req_step p; req_run fuel p'
  end.

(** ** A request undisturbed *)

Implicit Types w : (OriginWorld (W := W)).

(** A handler's run, with its answer as the progress it ends in. *)
Definition answered (m : run (OriginWorld (W := W)) Empty_set Response) :
  run OriginWorld Empty_set Progress := resp ← m; mret (RqDone resp).

Lemma req_run_done n resp w : req_run n (RqDone resp) w = (Ok (RqDone resp), w).
Proof. by destruct n. Qed.

Lemma req_run_step n p w :
  finished p = false ->
  req_run (S n) p w = (p' ← req_step p; req_run n p') w.
Proof. intros Hp. cbn [req_run]. by rewrite Hp. Qed.

Lemma req_run_recent n t e w :
  req_run (S (S n)) (RqRecent t e) w = answered (redeem_with_key t e) w.
Proof.
  unfold answered, mbind, run_bind, redeem_with_key, redeem_token, verified_nonce.
  rewrite req_run_step by done. unfold mbind, run_bind. cbn [req_step]. unfold verified_nonce.
  destruct (challenge_for_digest _ _) as [c|]; [|apply req_run_done].
  destruct (_ && _); [apply req_run_done|].
  destruct (Verifier_verify _ _ _) as [m|x|]; [|apply req_run_done|done].
  rewrite req_run_step by done. unfold mbind, run_bind. cbn [req_step].
  destruct (call _ w) as [[[]|[]|] w']; [apply req_run_done..|done].
Qed.

(** The challenge is pushed, and its header sent if it can be built. *)
Lemma req_run_push n ch st u g :
  (p' ← req_step (RqPush ch); req_run n p') {| ow_state := st; ow_world := u; ow_rng := g |}
  = (match www_authenticate (TokenChallenge_to_bytes ch) (or_advertised_pk st) with
     | Ok www => Ok (RqDone {| status := UNAUTHORIZED; www_authenticate_header := Some www;
                               resp_body := B "PrivateToken required" ++ [x0a] |})
     | Err e => Ok (RqDone (challenge_failed (B "www-authenticate: " ++ Error_display e)))
     | Panic => Panic
     end, {| ow_state := set_recent st (push_recent (or_recent st) ch); ow_world := u; ow_rng := g |}).
Proof.
  unfold mbind, run_bind. cbn [req_step ow_state ow_world ow_rng]. unfold challenge_sent.
  destruct (www_authenticate _ _); apply req_run_done || done.
Qed.

Lemma req_run_fresh n w : req_run (S (S n)) RqFresh w = answered challenge_response w.
Proof.
  rewrite req_run_step by done. unfold answered, mbind, run_bind. cbn [req_step].
  unfold challenge_response, issue_fresh_challenge, draw. unfold mbind, run_bind.
  set (ch := TokenChallenge_new _ _). destruct (or_require_context (ow_state w)).
  - destruct (with_random_redemption_context ch (ow_rng w)) as [[ch'|e|] g];
      cbn [map_err]; [|apply req_run_done|done].
    rewrite req_run_step by done. apply req_run_push.
  - rewrite req_run_step by done. apply req_run_push.
Qed.

(** The parts between the calls make up [resolve_via_kt]. *)
Lemma resolve_via_kt_steps tkid w :
  resolve_via_kt tkid w
  = (kt ← call (up_kt (or_base (ow_state w)));
     v ← lift (log_version (ow_state w) tkid kt);
     match v with
     | None => mret None
     | Some v =>
         pk ← call (up_keys_version (or_base (ow_state w)) v);
         e ← lift (fetched_entry tkid v pk);
         mret (Some e)
     end) w.
Proof.
  unfold resolve_via_kt, mbind, run_bind. destruct (call _ w) as [[kt|e|] w1]; [|done..].
  unfold log_version. case_decide as Hpin; [done|]. cbn [lift].
  destruct (verify_log _ _ _) as [[]|e|]; [|done..]. cbn [map_err mbind result_bind].
  destruct (list_find _ _) as [[i rec]|]; [|done]. cbn [fmap option_fmap option_map snd].
  destruct (call _ w1) as [[pk|e|] w2]; [|done..].
  unfold fetched_entry. cbn [lift IssuerPublicKey_token_key_id map_err mbind result_bind].
  by case_decide.
Qed.

Lemma req_run_lookup n t w :
  req_run (S (S (S (S (S (S n)))))) (RqLookup t) w
  = answered (entry ← key_for (token_key_id t);
      match entry with
      | None => mret unknown_key
      | Some entry => redeem_with_key t entry
      end) w.
Proof.
  rewrite req_run_step by done. unfold answered, mbind, run_bind. cbn [req_step].
  unfold key_for. destruct (or_keys (ow_state w) !! token_key_id t) as [e|].
  { rewrite req_run_recent. unfold answered, mbind, run_bind. done. }
  rewrite resolve_via_kt_steps, req_run_step by done. unfold mbind, run_bind. cbn [req_step].
  unfold call. destruct (up_kt (or_base (ow_state w)) (ow_world w)) as [[kt|x|] u];
    [|apply req_run_done|done].
  cbn [ow_state]. destruct (log_version _ _ kt) as [[v|]|x|]; cbn [lift];
    [|apply req_run_done|apply req_run_done|done].
  rewrite req_run_step by done. unfold mbind, run_bind. cbn [req_step]. unfold call.
  cbn [ow_state ow_world ow_rng]. destruct (up_keys_version (or_base (ow_state w)) v u) as [[pk|x|] u'];
    [|apply req_run_done|done].
  destruct (fetched_entry _ v pk) as [e|x|]; cbn [lift]; [|apply req_run_done|done].
  rewrite req_run_step by done. unfold mbind, run_bind. cbn [req_step ow_state ow_world ow_rng].
  rewrite req_run_recent. unfold answered, mbind, run_bind, with_state. done.
Qed.

(** ** The steps of a request end *)

(** How many are left at most. *)
Definition steps_left (p : Progress) : nat :=
  match p with
  | RqStart _ => 7 | RqLookup _ => 6 | RqLog _ => 5 | RqFetch _ _ => 4 | RqCache _ _ => 3
  | RqRecent _ _ => 2 | RqFresh => 2 | RqPush _ => 1 | RqSpend _ _ _ => 1 | RqDone _ => 0
  end.

Lemma finished_left p : finished p = true <-> steps_left p = O.
Proof. by destruct p. Qed.

Lemma req_step_left p w p' w' :
  finished p = false -> req_step p w = (Ok p', w') -> (steps_left p' < steps_left p)%nat.
Proof.
  intros Hp. destruct p as [[h|]| |ch|t|t|t v|t e|t e|t e m|resp]; cbn [req_step]; [..|done].
  - destruct (parse_authorization h); [| |done]; intros [= <- _]; cbn; lia.
  - intros [= <- _]. cbn. lia.
  - destruct (or_require_context _); [|intros [= <- _]; cbn; lia].
    destruct (draw _ w) as [[x|x|] w1]; [| |done]; intros [= <- _]; cbn; lia.
  - unfold challenge_sent. destruct (www_authenticate _ _); [| |done]; intros [= <- _]; cbn; lia.
  - destruct (or_keys _ !! _); intros [= <- _]; cbn; lia.
  - destruct (call _ w) as [[kt|x|] w1]; [|intros [= <- _]; cbn; lia|done].
    destruct (log_version _ _ kt) as [[v|]|x|]; [| | |done]; intros [= <- _]; cbn; lia.
  - destruct (call _ w) as [[pk|x|] w1]; [|intros [= <- _]; cbn; lia|done].
    destruct (fetched_entry _ _ pk) as [e|x|]; [| |done]; intros [= <- _]; cbn; lia.
  - intros [= <- _]. cbn. lia.
  - destruct (verified_nonce _ t e) as [[resp|m]|[]|]; [| |done]; intros [= <- _]; cbn; lia.
  - destruct (call _ w) as [[ok|[]|] w1]; [|done]. intros [= <- _]. cbn. lia.
Qed.

(** ** What a step keeps and grants *)

(** An entry the issuer serves for a version that a verified log gives the key id. *)
Definition served_under (pin kid : bytes) (e : KeyEntry) : Prop :=
  exists v b (u u' : W), in_verified_log pin kid v
    /\ up_keys_version b v u = (Ok (v_pk (ke_verifier e)), u').

(** A state of an origin: its challenges and cache are well formed, and each key
    but the one advertised since startup was named by the log. *)
Record origin_sound (st : OriginState) : Prop := {
  os_ok : origin_ok st;
  os_keys kid e : or_keys st !! kid = Some e ->
    kid = Scheme_token_key_id (pk_key (or_advertised_pk st))
    \/ served_under (or_kt_log_pub st) kid e;
}.

(** The settings no handler changes. *)
Definition same_settings (st st' : OriginState) : Prop :=
  or_issuer_name st' = or_issuer_name st /\ or_origin_info st' = or_origin_info st
  /\ or_advertised_pk st' = or_advertised_pk st
  /\ or_require_context st' = or_require_context st
  /\ or_kt_log_pub st' = or_kt_log_pub st
  /\ or_base st' = or_base st /\ or_redeemer st' = or_redeemer st.

(** What a request at an origin holds is what its steps found. *)
Definition progress_ok (st : OriginState) (p : Progress) : Prop :=
  match p with
  | RqPush ch => exists ctx,
      ch = with_redemption_context (TokenChallenge_new (or_issuer_name st) (or_origin_info st)) ctx
      /\ (or_require_context st = true -> length ctx = 32%nat)
  | RqLookup t | RqLog t => length (nonce t) = 32%nat
  | RqFetch t v => length (nonce t) = 32%nat /\ in_verified_log (or_kt_log_pub st) (token_key_id t) v
  | RqCache t e => length (nonce t) = 32%nat /\ entry_ok (token_key_id t) e
      /\ served_under (or_kt_log_pub st) (token_key_id t) e
  | RqRecent t e => length (nonce t) = 32%nat /\ entry_ok (token_key_id t) e
  | RqSpend t e n =>
      length (nonce t) = 32%nat /\ entry_ok (token_key_id t) e /\ n = nonce t
      /\ exists c, Verifier_verify (ke_verifier e) t c = Ok n
  | _ => True
  end.

(** The token and the key entry of a step that answers 200. *)
Definition grant_of (p : Progress) (r : result Empty_set Progress) : option (SpendToken * KeyEntry) :=
  match p, r with
  | RqSpend t e _, Ok (RqDone resp) => if decide (status resp = OK) then Some (t, e) else None
  | _, _ => None
  end.

Lemma log_version_Some st tkid kt v :
  log_version st tkid kt = Ok (Some v) -> in_verified_log (or_kt_log_pub st) tkid v.
Proof.
  unfold log_version. case_decide; [done|]. intros ([] & Hlog%map_err_Ok & Hf)%bind_Ok.
  destruct (list_find _ _) as [[i rec]|] eqn:Hl; [|done]. injection Hf as <-.
  apply list_find_Some in Hl as (Hi & Hp & _). exists (kt_records kt), (kt_signed_head kt), i, rec.
  split_and!; try done. by apply eq_ignore_ascii_case_spec, Is_true_true.
Qed.

Lemma fetched_entry_Ok tkid v pk e :
  fetched_entry tkid v pk = Ok e -> entry_ok tkid e /\ v_pk (ke_verifier e) = pk.
Proof.
  unfold fetched_entry. cbn [IssuerPublicKey_token_key_id map_err mbind result_bind].
  case_decide as Hk; [done|]. intros [= <-]. split; [|done]. by split_and!.
Qed.

Lemma verified_nonce_Ok st t e n :
  verified_nonce st t e = Ok (inr n) ->
  n = nonce t /\ exists c, Verifier_verify (ke_verifier e) t c = Ok n.
Proof.
  unfold verified_nonce. destruct (challenge_for_digest _ _) as [c|]; [|done].
  destruct (_ && _); [done|]. destruct (Verifier_verify _ _ _) eqn:Hv; [|done..].
  intros [= <-]. split; [|by exists c]. apply Verifier_verify_Ok in Hv. naive_solver.
Qed.

End steps.

Section sound.
Context `{Sha256, HexLaws, Base64, Faest, RngLaws, !BlindSig, BuildProfile}
  {W : Type} `{!Upstream W}.
Implicit Types w : (OriginWorld (W := W)).

#[export] Instance same_settings_preorder : PreOrder same_settings.
Proof. unfold same_settings. split; [by intros st|]. intros a b c. naive_solver congruence. Qed.

Lemma progress_ok_settings st st' p :
  same_settings st st' -> progress_ok st p -> progress_ok st' p.
Proof.
  intros (E1 & E2 & E3 & E4 & E5 & _). destruct p; cbn [progress_ok]; rewrite ?E1, ?E2, ?E4, ?E5; done.
Qed.

Lemma origin_sound_push st ch ctx :
  origin_sound st ->
  ch = with_redemption_context (TokenChallenge_new (or_issuer_name st) (or_origin_info st)) ctx ->
  (or_require_context st = true -> length ctx = 32%nat) ->
  origin_sound (set_recent st (push_recent (or_recent st) ch)).
Proof. intros [Hok Hk] Hch Hctx. split; [by eapply origin_ok_push|done]. Qed.

(** A step keeps its origin sound, its settings, and what the request relies on. *)
Lemma req_step_sound p w r w' :
  origin_sound (ow_state w) -> progress_ok (ow_state w) p -> req_step p w = (r, w') ->
  origin_sound (ow_state w') /\ same_settings (ow_state w) (ow_state w')
  /\ forall p', r = Ok p' -> progress_ok (ow_state w') p'.
Proof.
  intros Hs Hp. assert (Hsame : forall st, same_settings st st) by done.
  destruct p as [[h|]| |ch|t|t|t v|t e|t e|t e m|resp]; cbn [req_step progress_ok] in *.
  - destruct (parse_authorization h) eqn:Ha; intros [= <- <-]; split_and!; try done; intros ? [= <-]; [|done].
    by apply parse_authorization_nonce in Ha.
  - intros [= <- <-]. split_and!; try done. by intros ? [= <-].
  - destruct (or_require_context (ow_state w)) eqn:Hreq.
    + unfold draw, with_random_redemption_context, random_nonce.
      destruct (getrandom32 (ow_rng w)) as [[x|b] g] eqn:Hg; intros [= <- <-]; split_and!; try done;
        intros ? [= <-]; [done|]. exists b. split; [done|]. intros _. by eapply getrandom32_length.
    + intros [= <- <-]. split_and!; try done. intros ? [= <-]. exists []. by rewrite Hreq.
  - destruct Hp as (ctx & Hch & Hctx). unfold challenge_sent.
    destruct (www_authenticate _ _); intros [= <- <-]; cbn [ow_state];
      (split; [by eapply origin_sound_push|]); (split; [done|]); by intros ? [= <-].
  - destruct (or_keys _ !! _) as [e|] eqn:Hk; intros [= <- <-]; split_and!; try done; intros ? [= <-]; [|done].
    split; [done|]. by eapply (origin_keys _ (os_ok _ Hs)).
  - unfold call. destruct (up_kt _ _) as [[kt|x|] u]; [|intros [= <- <-]; split_and!; try done..];
      [|by intros ? [= <-]]. cbn [ow_state].
    destruct (log_version _ _ kt) as [[v|]|x|] eqn:Hl; intros [= <- <-]; split_and!; try done;
      intros ? [= <-]; try done. split; [done|]. by eapply log_version_Some.
  - destruct Hp as [Hn Hv]. unfold call.
    destruct (up_keys_version _ v _) as [[pk|x|] u] eqn:Hu; [|intros [= <- <-]; split_and!; try done..];
      [|by intros ? [= <-]]. cbn [ow_state].
    destruct (fetched_entry _ v pk) as [e|x|] eqn:Hf; intros [= <- <-]; split_and!; try done;
      intros ? [= <-]; [|done]. apply fetched_entry_Ok in Hf as [He Hpk]. split_and!; [done..|].
    exists v, (or_base (ow_state w)), (ow_world w), u. by rewrite Hpk.
  - destruct Hp as (Hn & He & Hsv). intros [= <- <-]. cbn [ow_state]. split_and!; [|done|by intros ? [= <-]].
    destruct Hs as [[Hl Hc Hm] Hk]. split; [split; cbn; [done..|by apply map_Forall_insert_2]|].
    cbn. intros kid e' [[<- <-]|[_ Hin]]%lookup_insert_Some; [by right|by apply Hk].
  - destruct (verified_nonce _ t e) as [[resp|m]|[]|] eqn:Hv; intros [= <- <-]; split_and!; try done;
      intros ? [= <-]; [done|]. apply verified_nonce_Ok in Hv as [-> Hc]. destruct Hp. by split_and!.
  - unfold call. destruct (spend_centrally _ _ _ _) as [[ok|[]|] u]; intros [= <- <-]; split_and!; try done;
      by intros ? [= <-].
  - intros [= <- <-]. split_and!; try done. by intros ? [= <-].
Qed.

End sound.

(** ** Origins that share their services *)

Section cluster.
Context `{Sha256, HexLaws, Base64, Faest, RngLaws, !BlindSig, BuildProfile}
  {W : Type} `{!Upstream W, !UpstreamOnce W}.
Implicit Types w : (OriginWorld (W := W)).

(** A request at one of the origins; no progress is left of a handler that panicked. *)
Record Request := { rq_origin : nat; rq_progress : option Progress }.

Record Cluster := {
  cl_origins : list OriginState;
  cl_requests : list Request;
  cl_world : W;
  cl_rng : rng;
}.

Definition cl_arrive (i : nat) (auth : option str) (c : Cluster) : Cluster := {|
  cl_origins := cl_origins c;
  cl_requests := cl_requests c ++ [{| rq_origin := i; rq_progress := Some (RqStart auth) |}];
  cl_world := cl_world c;
  cl_rng := cl_rng c;
|}.

(** One step of the request [j], if it is not finished, with what it grants. *)
Definition cl_advance (j : nat) (c : Cluster) : option (option (SpendToken * KeyEntry) * Cluster) :=
  rq ← cl_requests c !! j;
  p ← rq_progress rq;
  st ← cl_origins c !! rq_origin rq;
  if finished p then None else
  let '(r, w) := req_step p {| ow_state := st; ow_world := cl_world c; ow_rng := cl_rng c |} in
  Some (grant_of p r, {|
    cl_origins := <[rq_origin rq := ow_state w]> (cl_origins c);
    cl_requests := <[j := {| rq_origin := rq_origin rq; rq_progress := ok r |}]> (cl_requests c);
    cl_world := ow_world w;
    cl_rng := ow_rng w;
  |}).

(** A request arrives, one takes its next step, or something else changes the
    services: a rotation, another party's redemption, the passage of time. *)
Inductive cl_event :=
| Arrive (i : nat) (auth : option str)
| Advance (j : nat)
| Elsewhere.

Inductive cl_step : Cluster -> cl_event -> option (SpendToken * KeyEntry) -> Cluster -> Prop :=
| step_arrive c i auth :
    (i < length (cl_origins c))%nat -> cl_step c (Arrive i auth) None (cl_arrive i auth c)
| step_advance c j g c' :
    cl_advance j c = Some (g, c') -> cl_step c (Advance j) g c'
| step_elsewhere c u r :
    up_le (cl_world c) u ->
    cl_step c Elsewhere None {| cl_origins := cl_origins c; cl_requests := cl_requests c;
                                cl_world := u; cl_rng := r |}.

Inductive cl_run : Cluster -> list (cl_event * option (SpendToken * KeyEntry)) -> Cluster -> Prop :=
| run_nil c : cl_run c [] c
| run_cons c ev g c1 tr c' : cl_step c ev g c1 -> cl_run c1 tr c' -> cl_run c ((ev, g) :: tr) c'.

(** A run by a schedule, with nothing else happening to the services. *)
Fixpoint cl_schedule (l : list cl_event) (c : Cluster) :
    option (list (cl_event * option (SpendToken * KeyEntry)) * Cluster) :=
  match l with
  | [] => Some ([], c)
  | ev :: l =>
      '(g, c1) ← match ev with
                 | Arrive i auth =>
                     if (i <? length (cl_origins c))%nat then Some (None, cl_arrive i auth c) else None
                 | Advance j => cl_advance j c
                 | Elsewhere => Some (None, c)
                 end;
      '(tr, c') ← cl_schedule l c1;
      Some ((ev, g) :: tr, c')
  end.

Lemma cl_schedule_run l c tr c' : cl_schedule l c = Some (tr, c') -> cl_run c tr c'.
Proof.
  revert c tr c'. induction l as [|ev l IH]; intros c tr c'; cbn [cl_schedule].
  { intros [= <- <-]. constructor. }
  intros ([g c1] & Hs & Hr)%bind_Some. apply bind_Some in Hr as ([tr1 c2] & Hl & [= <- <-]).
  econstructor; [|by apply IH]. destruct ev as [i auth|j|].
  - destruct (Nat.ltb_spec i (length (cl_origins c))); [|done]. injection Hs as <- <-. by constructor.
  - by constructor.
  - injection Hs as <- <-. destruct c as [os rs u r]. by apply (step_elsewhere (Build_Cluster os rs u r)).
Qed.

(** What a run granted, and how many steps a request took. *)
Definition grants (tr : list (cl_event * option (SpendToken * KeyEntry))) : list (SpendToken * KeyEntry) :=
  omap snd tr.

Definition steps_of (j : nat) (tr : list (cl_event * option (SpendToken * KeyEntry))) : nat :=
  length (filter (fun x => match x.1 with Advance k => k =? j | _ => false end%nat = true) tr).

Record cluster_ok (c : Cluster) : Prop := {
  co_origins : Forall origin_sound (cl_origins c);
  co_requests : Forall (fun rq => exists st, cl_origins c !! rq_origin rq = Some st
    /\ forall p, rq_progress rq = Some p -> progress_ok st p) (cl_requests c);
}.

(** ** What a step does to the services *)

Lemma req_step_le p w r w' :
  progress_ok (ow_state w) p -> req_step p w = (r, w') -> up_le (ow_world w) (ow_world w').
Proof.
  intros Hp. assert (Hrefl : forall u : W, up_le u u) by done.
  destruct p as [[h|]| |ch|t|t|t v|t e|t e|t e m|resp]; cbn [req_step progress_ok] in *.
  - destruct (parse_authorization h); by intros [= _ <-].
  - by intros [= _ <-].
  - destruct (or_require_context _); [|by intros [= _ <-]]. unfold draw.
    destruct (with_random_redemption_context _ _) as [[x|x|] g]; by intros [= _ <-].
  - by intros [= _ <-].
  - by intros [= _ <-].
  - unfold call. destruct (up_kt _ _) as [[kt|x|] u] eqn:Hu; intros [= _ <-]; by apply up_kt_spent in Hu.
  - unfold call. destruct (up_keys_version _ _ _) as [[pk|x|] u] eqn:Hu; intros [= _ <-];
      by apply up_keys_version_spent in Hu.
  - by intros [= _ <-].
  - by intros [= _ <-].
  - destruct Hp as (Hn & _ & -> & _). unfold call. destruct (spend_centrally _ _ _ _) as [q u] eqn:Hu.
    intros [= _ <-]. by eapply spend_centrally_le.
  - by intros [= _ <-].
Qed.

Lemma req_step_grant p w r w' t e :
  up_ok (ow_world w) -> progress_ok (ow_state w) p -> req_step p w = (r, w') ->
  grant_of p r = Some (t, e) ->
  entry_ok (token_key_id t) e /\ (exists c, Verifier_verify (ke_verifier e) t c = Ok (nonce t))
  /\ ~ up_spent (ow_world w) (ke_epoch e) (nonce t) /\ up_spent (ow_world w') (ke_epoch e) (nonce t).
Proof.
  intros Hw Hp Hr Hg. destruct p as [h| |ch|t'|t'|t' v|t' e'|t' e'|t' e' m|resp]; try done.
  destruct Hp as (Hn & He & -> & Hv). cbn [req_step] in Hr. unfold call, spend_centrally in Hr.
  destruct (up_redeem _ _ _) as [[code|x|] u] eqn:Hu; injection Hr as <- <-; [| |done];
    cbn [grant_of mbind result_bind spend_reply] in Hg; [|done].
  unfold spend_reply in Hg. destruct (bool_decide (code = OK)) eqn:Hc; [|done].
  apply bool_decide_eq_true in Hc as ->. case_decide; [|done]. injection Hg as <- <-.
  apply up_redeem_spent in Hu as [_ Hs]; [|done]. by split_and!; [| |apply Hs..].
Qed.

(** [cl_advance] unfolded: the request, its origin, its step. *)
Lemma cl_advance_Some j c g c' :
  cl_advance j c = Some (g, c') ->
  exists i p st r w, cl_requests c !! j = Some {| rq_origin := i; rq_progress := Some p |}
    /\ cl_origins c !! i = Some st /\ finished p = false
    /\ req_step p {| ow_state := st; ow_world := cl_world c; ow_rng := cl_rng c |} = (r, w)
    /\ g = grant_of p r
    /\ c' = {| cl_origins := <[i := ow_state w]> (cl_origins c);
               cl_requests := <[j := {| rq_origin := i; rq_progress := ok r |}]> (cl_requests c);
               cl_world := ow_world w; cl_rng := ow_rng w |}.
Proof.
  unfold cl_advance. intros ([i o] & Hj & Hr)%bind_Some. apply bind_Some in Hr as (p & Hp & Hr).
  apply bind_Some in Hr as (st & Hst & Hr). cbn [rq_progress rq_origin] in *. subst o.
  destruct (finished p) eqn:Hf; [done|]. destruct (req_step p _) as [r w] eqn:Hs.
  injection Hr as <- <-. exists i, p, st, r, w. by split_and!.
Qed.

(** A step of the cluster keeps it well formed, its origins' settings, and what
    the redeemer remembers. *)
Lemma cl_step_sound c ev g c' :
  cluster_ok c -> cl_step c ev g c' ->
  cluster_ok c' /\ Forall2 same_settings (cl_origins c) (cl_origins c')
  /\ up_le (cl_world c) (cl_world c').
Proof.
  assert (Hsame : forall l, Forall2 same_settings l l) by reflexivity.
  intros [Ho Hq]. destruct 1 as [c i auth Hi|c j g c' Hj|c u r Hu]; [| |by split].
  - split; [|done]. split; [done|]. cbn. apply Forall_app. split; [done|]. apply Forall_singleton.
    apply lookup_lt_is_Some in Hi as [st Hst]. exists st. cbn. split; [done|]. by intros ? [= <-].
  - apply cl_advance_Some in Hj as (i & p & st & r & w & Hj & Hst & _ & Hs & _ & ->). cbn.
    pose proof (proj1 (Forall_lookup _ _) Hq _ _ Hj) as (st' & Hst' & Hp). cbn in Hst', Hp.
    assert (st' = st) as -> by congruence. specialize (Hp p eq_refl).
    pose proof (proj1 (Forall_lookup _ _) Ho _ _ Hst) as Hsound.
    set (v := {| ow_state := st; ow_world := cl_world c; ow_rng := cl_rng c |}) in Hs.
    destruct (req_step_sound p v _ _ Hsound Hp Hs) as (Hs1 & Hset & Hp1). cbn in Hset.
    pose proof (req_step_le p v _ _ Hp Hs) as Hle. cbn in Hle.
    assert (Hall : Forall2 same_settings (cl_origins c) (<[i := ow_state w]> (cl_origins c))).
    { rewrite <- (list_insert_id _ _ _ Hst) at 1. by apply Forall2_insert. }
    split; [|done]. split; cbn; [by apply Forall_insert|]. apply Forall_insert.
    + apply Forall_lookup. intros k rq Hk.
      pose proof (proj1 (Forall_lookup _ _) Hq _ _ Hk) as (st1 & Hst1 & Hp'). cbn.
      destruct (Forall2_lookup_l _ _ _ _ _ Hall Hst1) as (st2 & Hst2 & Hset2).
      exists st2. split; [done|]. intros p' Hp2. eapply progress_ok_settings; eauto.
    + exists (ow_state w). cbn. split.
      * apply list_lookup_insert_eq. by eapply lookup_lt_Some.
      * intros p' Hok. apply Hp1. by destruct r; [injection Hok as ->|..].
Qed.

Lemma cl_run_sound c tr c' :
  cluster_ok c -> cl_run c tr c' ->
  cluster_ok c' /\ Forall2 same_settings (cl_origins c) (cl_origins c')
  /\ up_le (cl_world c) (cl_world c').
Proof.
  intros Hc. induction 1 as [c|c ev g c1 tr c' Hs _ IH].
  - split_and!; [done|reflexivity|done].
  - destruct (cl_step_sound _ _ _ _ Hc Hs) as (Hc1 & Hset & Hle).
    destruct (IH Hc1) as (Hc' & Hset' & Hle'). split_and!; [done| |by etrans].
    by etrans.
Qed.

(** A grant of the cluster is one of a redemption step. *)
Lemma cl_step_grant c ev t e c' :
  cluster_ok c -> up_ok (cl_world c) -> cl_step c ev (Some (t, e)) c' ->
  entry_ok (token_key_id t) e /\ (exists ch, Verifier_verify (ke_verifier e) t ch = Ok (nonce t))
  /\ ~ up_spent (cl_world c) (ke_epoch e) (nonce t)
  /\ up_spent (cl_world c') (ke_epoch e) (nonce t).
Proof.
  intros [Ho Hq] Hw Hs. inversion Hs as [|? j g ? Hj|]; subst.
  apply cl_advance_Some in Hj as (i & p & st & r & w & Hj & Hst & _ & Hstep & Hg & ->). cbn.
  pose proof (proj1 (Forall_lookup _ _) Hq _ _ Hj) as (st' & Hst' & Hp). cbn in Hst', Hp.
  assert (st' = st) as -> by congruence.
  eapply (req_step_grant p {| ow_state := st; ow_world := cl_world c; ow_rng := cl_rng c |}); eauto.
Qed.

Lemma steps_of_cons j x tr : steps_of j (x :: tr) = (steps_of j [x] + steps_of j tr)%nat.
Proof. unfold steps_of. rewrite !filter_cons. by case_decide. Qed.

(** What a run grants: no pair of an epoch and a nonce twice, none that was marked
    before, and only tokens that verify under the key hashed to their key id. *)
Lemma cl_run_grants c tr c' :
  cluster_ok c -> up_ok (cl_world c) -> cl_run c tr c' ->
  NoDup ((fun x => (ke_epoch x.2, nonce x.1)) <$> grants tr)
  /\ Forall (fun x => ~ up_spent (cl_world c) (ke_epoch x.2) (nonce x.1)) (grants tr)
  /\ Forall (fun x => entry_ok (token_key_id x.1) x.2
      /\ exists ch, Verifier_verify (ke_verifier x.2) x.1 ch = Ok (nonce x.1)) (grants tr).
Proof.
  intros Hc Hw Hr. induction Hr as [c|c ev g c1 tr c' Hs _ IH]; [split_and!; constructor|].
  destruct (cl_step_sound _ _ _ _ Hc Hs) as (Hc1 & _ & Hle). destruct (Hle Hw) as [Hw1 Hm].
  destruct (IH Hc1 Hw1) as (Hd & Hf & Hv).
  assert (Hf0 : Forall (fun x => ~ up_spent (cl_world c) (ke_epoch x.2) (nonce x.1)) (grants tr)).
  { eapply Forall_impl; [exact Hf|]. intros x Hx Hsp. by apply Hx, Hm. }
  destruct g as [[t e]|]; [|done]. apply cl_step_grant in Hs as (He & Hver & Hn & Hy); [|done..].
  split_and!; [|by constructor|by constructor]. change (grants _) with ((t, e) :: grants tr).
  rewrite fmap_cons. apply NoDup_cons. split; [|done].
  intros ([t' e'] & [= Hek Hnn] & Hin)%list_elem_of_fmap. cbn [fst snd] in *.
  rewrite Forall_forall in Hf. specialize (Hf _ Hin). cbn in Hf. by rewrite <- Hek, <- Hnn in Hf.
Qed.

(** ** Properties *)

(** C4: origins that share a redeemer, serving any requests in any interleaving
    while anything else happens to the services, never grant the same nonce
    twice under one key epoch; a token granted twice all the same (by one
    origin or by two) was accepted under two keys of one key id that the issuer
    served with different versions; and each grant is of a token that verifies
    under the key hashed to its key id. *)
Theorem origins_grant_once c tr c' :
  cluster_ok c -> up_ok (cl_world c) -> cl_run c tr c' ->
  NoDup ((fun x => (ke_epoch x.2, nonce x.1)) <$> grants tr)
  /\ (forall a b t e t' e', grants tr !! a = Some (t, e) -> grants tr !! b = Some (t', e') -> a <> b ->
      token_key_id t = token_key_id t' -> nonce t = nonce t' ->
      Scheme_token_key_id (pk_key (v_pk (ke_verifier e)))
        = Scheme_token_key_id (pk_key (v_pk (ke_verifier e')))
      /\ pk_key_version (v_pk (ke_verifier e)) <> pk_key_version (v_pk (ke_verifier e')))
  /\ Forall (fun x => entry_ok (token_key_id x.1) x.2
      /\ exists ch, Verifier_verify (ke_verifier x.2) x.1 ch = Ok (nonce x.1)) (grants tr).
Proof.
  intros Hc Hw Hr.
  destruct (cl_run_grants _ _ _ Hc Hw Hr) as (Hd & _ & Hv). split_and!; [done| |done].
  intros a b t e t' e' Ha Hb Hab Hkid Hnn.
  destruct (proj1 (Forall_lookup _ _) Hv _ _ Ha) as [(Hk & Hep & _) _].
  destruct (proj1 (Forall_lookup _ _) Hv _ _ Hb) as [(Hk' & Hep' & _) _]. cbn [fst snd] in *.
  split; [congruence|]. intros Heq. apply Hab.
  eapply (NoDup_lookup _ a b (ke_epoch e, nonce t) Hd); rewrite list_lookup_fmap, ?Ha, ?Hb; cbn; [done|].
  f_equal. f_equal; congruence.
Qed.

(** C11: from startup on, however requests interleave and whatever the services
    answer, every origin of a cluster keeps its settings, at most 64
    challenges, all of its own name and with a context where one is required,
    and a cache in which each key is filed under its own key id and, but for
    the one advertised since startup, was named by a log that verifies under the
    pinned key. *)
Theorem cluster_reachable c tr c' :
  cl_requests c = [] ->
  Forall (fun st => exists url name info redeemer pin ctx u u',
    origin_run url name info redeemer pin ctx u = (Ok st, u')) (cl_origins c) ->
  cl_run c tr c' ->
  Forall2 same_settings (cl_origins c) (cl_origins c') /\ Forall origin_sound (cl_origins c').
Proof.
  intros Hq Ho Hr. assert (Hc : cluster_ok c).
  { split; [|by rewrite Hq]. eapply Forall_impl; [exact Ho|]. clear. cbv beta.
    intros st (url & name & info & redeemer & pin & ctx & u & u' & Hrun). unfold origin_run in Hrun.
    destruct (up_keys _ u) as [[pk|e|] u2]; [|done..]. injection Hrun as <- _.
    split; [split; cbn; [unfold MAX_RECENT_CHALLENGES; lia|constructor|]|].
    - intros k e [<- <-]%lookup_singleton_Some. by split_and!.
    - cbn. intros k e [<- _]%lookup_singleton_Some. by left. }
  destruct (cl_run_sound _ _ _ Hc Hr) as ([Ho' _] & Hset & _). done.
Qed.

End cluster.

(** C12: a request that runs undisturbed is the handler [resource]: seven steps
    suffice, and they give its answer, leave its state and panic when it does. *)
Theorem req_run_resource `{Sha256, Hex, Base64, Faest, BlindSig, BuildProfile}
    {W : Type} `{!Upstream W} auth (w : OriginWorld (W := W)) :
  req_run 7 (RqStart auth) w = answered (resource auth) w.
Proof.
  unfold resource. destruct auth as [h|].
  - rewrite req_run_step by done. unfold mbind at 1, run_bind at 1. cbn [req_step].
    destruct (parse_authorization h) as [t|e|]; [apply req_run_lookup|apply req_run_fresh|done].
  - rewrite req_run_step by done. unfold mbind at 1, run_bind at 1. cbn [req_step]. apply req_run_fresh.
Qed.
