(* ===== verification/OriginLocks.v ===== *)
(** * The locks and the waiting of cli/src/origin.rs

An origin keeps its challenges and its keys under two [std::sync::RwLock]s, and
its handler awaits up to three calls that may never return.  Here each part of a
request ([Progress] of OriginSteps) is split into the actions the code performs
for it, in its order ([actions]): taking a lock, which may have to wait, the
work, dropping the guard, sending a call, its effect at the service, its reply.
A guard is held from the action that takes it to the one that drops it, whatever
comes between.  Runs of this system are runs of the cluster with the same
grants ([lk_run_cluster]), and no request waits for another's call ([requests_end]). *)

From S2P Require Import Prelude RustStr Externals Pomfrit Core Http Spend Transparency Policy Store.
From S2P Require Import Wire Redeemer Origin OriginSteps.

(** ** Actions *)

(** [recent_challenges] and [keys]. *)
Inductive Lock := LkRecent | LkKeys.
Inductive Mode := Shared | Exclusive.

#[export] Instance Lock_eq_dec : EqDecision Lock.
Proof. solve_decision. Defined.
#[export] Instance Mode_eq_dec : EqDecision Mode.
Proof. solve_decision. Defined.

Definition Guard : Type := Lock * Mode.

Inductive Action :=
| AAcquire (l : Lock) (m : Mode)
| ADo
| ARelease (l : Lock)
| ASend
| AServe
| AReceive.

(** Those of the services, which may never come. *)
Definition external (a : Action) : bool := match a with AServe | AReceive => true | _ => false end.

(** What the handler does for each part: the push under the write guard of the
    inner block, the lookups under a guard that is dropped with its statement.  What
    follows from a lookup or a push is counted with it, as work under the guard; the
    code computes it (and may panic in it) after the drop, which waits for nothing. *)
Definition actions (p : Progress) : list Action :=
  match p with
  | RqStart _ | RqFresh => [ADo]
  | RqPush _ => [AAcquire LkRecent Exclusive; ADo; ARelease LkRecent]
  | RqLookup _ => [AAcquire LkKeys Shared; ADo; ARelease LkKeys]
  | RqLog _ | RqFetch _ _ => [ASend; AServe; AReceive]
  | RqCache _ _ => [AAcquire LkKeys Exclusive; ADo; ARelease LkKeys]
  | RqRecent _ _ => [AAcquire LkRecent Shared; ADo; ARelease LkRecent]
  | RqSpend _ _ _ => [ASend; AServe; AReceive]
  | RqDone _ => []
  end.

(** A guard excludes another unless both are shared. *)
Definition conflict (g g' : Guard) : bool :=
  bool_decide (g.1 = g'.1 /\ (g.2 = Exclusive \/ g'.2 = Exclusive)).

(** A request being served: the actions ahead of it, the guards it holds. *)
Record Thread := { th_todo : list Action; th_held : list Guard }.

Section locks.
Context `{Sha256, HexLaws, Base64, Faest, RngLaws, !BlindSig, BuildProfile}
  {W : Type} `{!Upstream W, !UpstreamOnce W}.

(** A cluster with a thread for each request. *)
Record Locked := { lk_cluster : Cluster (W := W); lk_threads : list Thread }.

Implicit Types (s : Locked) (c : Cluster (W := W)).

(** The guards held at an origin. *)
Definition guards (i : nat) s : list Guard :=
  concat (zip_with (fun rq t => if (rq_origin rq =? i)%nat then th_held t else [])
            (cl_requests (lk_cluster s)) (lk_threads s)).

(** A lock is given when no guard in use excludes it. *)
Definition available (i : nat) (g : Guard) s : bool := forallb (fun g' => negb (conflict g g')) (guards i s).

Definition set_thread (j : nat) (t : Thread) s : Locked :=
  {| lk_cluster := lk_cluster s; lk_threads := <[j := t]> (lk_threads s) |}.

(** The parts of a request from now on. *)
Definition ahead (o : option Progress) : list Action := from_option actions [] o.

(** The next action of request [j], where it is possible, with what it grants. *)
Definition lk_act (j : nat) s : option (option (SpendToken * KeyEntry) * Locked) :=
  t ← lk_threads s !! j;
  rq ← cl_requests (lk_cluster s) !! j;
  match th_todo t with
  | [] => None
  | AAcquire l m :: k =>
      if available (rq_origin rq) (l, m) s
      then Some (None, set_thread j {| th_todo := k; th_held := (l, m) :: th_held t |} s)
      else None
  | (ADo | AServe) :: k =>
      '(g, c) ← cl_advance j (lk_cluster s);
      rq ← cl_requests c !! j;
      Some (g, set_thread j {| th_todo := k ++ ahead (rq_progress rq); th_held := th_held t |}
                 {| lk_cluster := c; lk_threads := lk_threads s |})
  | ARelease l :: k =>
      Some (None, set_thread j {| th_todo := k; th_held := filter (fun g => g.1 <> l) (th_held t) |} s)
  | (ASend | AReceive) :: k => Some (None, set_thread j {| th_todo := k; th_held := th_held t |} s)
  end.

Definition lk_arrive (i : nat) (auth : option str) s : Locked := {|
  lk_cluster := cl_arrive i auth (lk_cluster s);
  lk_threads := lk_threads s ++ [{| th_todo := actions (RqStart auth); th_held := [] |}];
|}.

Inductive lk_step : Locked -> cl_event -> option (SpendToken * KeyEntry) -> Locked -> Prop :=
| lk_arrives s i auth :
    (i < length (cl_origins (lk_cluster s)))%nat -> lk_step s (Arrive i auth) None (lk_arrive i auth s)
| lk_acts s j g s' : lk_act j s = Some (g, s') -> lk_step s (Advance j) g s'
| lk_elsewhere s u r :
    up_le (cl_world (lk_cluster s)) u ->
    lk_step s Elsewhere None {|
      lk_cluster := {| cl_origins := cl_origins (lk_cluster s); cl_requests := cl_requests (lk_cluster s);
                       cl_world := u; cl_rng := r |};
      lk_threads := lk_threads s |}.

Inductive lk_run : Locked -> list (cl_event * option (SpendToken * KeyEntry)) -> Locked -> Prop :=
| lk_nil s : lk_run s [] s
| lk_cons s ev g s1 tr s' : lk_step s ev g s1 -> lk_run s1 tr s' -> lk_run s ((ev, g) :: tr) s'.

(** A run by a schedule, with nothing else happening to the services. *)
Fixpoint lk_schedule (l : list cl_event) s :
    option (list (cl_event * option (SpendToken * KeyEntry)) * Locked) :=
  match l with
  | [] => Some ([], s)
  | ev :: l =>
      '(g, s1) ← match ev with
                 | Arrive i auth =>
                     if (i <? length (cl_origins (lk_cluster s)))%nat then Some (None, lk_arrive i auth s) else None
                 | Advance j => lk_act j s
                 | Elsewhere => Some (None, s)
                 end;
      '(tr, s') ← lk_schedule l s1;
      Some ((ev, g) :: tr, s')
  end.

Lemma lk_schedule_run l s tr s' : lk_schedule l s = Some (tr, s') -> lk_run s tr s'.
Proof.
  revert s tr s'. induction l as [|ev l IH]; intros s tr s'; cbn [lk_schedule].
  { intros [= <- <-]. constructor. }
  intros ([g s1] & Hs & Hr)%bind_Some. apply bind_Some in Hr as ([tr1 s2] & Hl & [= <- <-]).
  econstructor; [|by apply IH]. destruct ev as [i auth|j|].
  - destruct (Nat.ltb_spec i (length (cl_origins (lk_cluster s)))); [|done]. injection Hs as <- <-. by constructor.
  - by constructor.
  - injection Hs as <- <-. destruct s as [[os rs u r] ts].
    by apply (lk_elsewhere (Build_Locked (Build_Cluster os rs u r) ts)).
Qed.

(** ** Where a request can be *)

(** Before a part; inside a guard, with the work ahead or behind; in a call, before
    or after its effect. *)
Inductive at_point : option Progress -> list Action -> list Guard -> Prop :=
| at_part o : at_point o (ahead o) []
| at_work p l m : finished p = false -> at_point (Some p) [ADo; ARelease l] [(l, m)]
| at_release o l m : at_point o (ARelease l :: ahead o) [(l, m)]
| at_serve p : finished p = false -> at_point (Some p) [AServe; AReceive] []
| at_receive o : at_point o (AReceive :: ahead o) [].

(** Where every thread is, and that no two guards in use exclude each other. *)
Record locks_ok s : Prop := {
  lo_length : length (lk_threads s) = length (cl_requests (lk_cluster s));
  lo_at j rq t : cl_requests (lk_cluster s) !! j = Some rq -> lk_threads s !! j = Some t ->
    at_point (rq_progress rq) (th_todo t) (th_held t);
  lo_apart j k rq rq' t t' g g' : j <> k ->
    cl_requests (lk_cluster s) !! j = Some rq -> lk_threads s !! j = Some t -> g ∈ th_held t ->
    cl_requests (lk_cluster s) !! k = Some rq' -> lk_threads s !! k = Some t' -> g' ∈ th_held t' ->
    rq_origin rq = rq_origin rq' -> conflict g g' = false;
}.

Lemma actions_cases p :
  actions p = [] /\ finished p = true
  \/ finished p = false /\ (actions p = [ADo] \/ actions p = [ASend; AServe; AReceive]
     \/ exists l m, actions p = [AAcquire l m; ADo; ARelease l]).
Proof. destruct p; cbn; eauto 7. Qed.

Lemma actions_length p : (length (actions p) <= 3 * Nat.min 1 (steps_left p))%nat.
Proof. destruct p; cbn; lia. Qed.

Lemma elem_of_guards i g s :
  g ∈ guards i s <-> exists j rq t, cl_requests (lk_cluster s) !! j = Some rq /\ lk_threads s !! j = Some t
    /\ rq_origin rq = i /\ g ∈ th_held t.
Proof.
  unfold guards. rewrite list_elem_of_In, in_concat. split.
  - intros (x & Hx & Hg). rewrite <- list_elem_of_In in Hx. rewrite <- list_elem_of_In in Hg. apply elem_of_lookup_zip_with in Hx as (j & rq & t & -> & Hj & Ht).
    destruct (Nat.eqb_spec (rq_origin rq) i) as [Hi|Hi]; [|by apply elem_of_nil in Hg]. eauto 8.
  - intros (j & rq & t & Hj & Ht & Hi & Hg). exists (th_held t). rewrite <- !list_elem_of_In. split; [|done].
    apply elem_of_lookup_zip_with. exists j, rq, t. split; [|done]. by rewrite (proj2 (Nat.eqb_eq _ _) Hi).
Qed.

Lemma available_spec i g s :
  available i g s = true <-> forall j rq t g', cl_requests (lk_cluster s) !! j = Some rq ->
    lk_threads s !! j = Some t -> rq_origin rq = i -> g' ∈ th_held t -> conflict g g' = false.
Proof.
  unfold available. rewrite forallb_forall. split.
  - intros Ha j rq t g' Hj Ht Hi Hg. apply negb_true_iff, Ha. rewrite <- list_elem_of_In. apply elem_of_guards. eauto 8.
  - intros Ha g' Hg. apply negb_true_iff. rewrite <- list_elem_of_In in Hg. apply elem_of_guards in Hg as (j & rq & t & ? & ? & ? & ?).
    by eapply Ha.
Qed.

(** ** What an action does *)

Lemma lk_act_Some j s g s' :
  lk_act j s = Some (g, s') ->
  exists rq t a k, cl_requests (lk_cluster s) !! j = Some rq /\ lk_threads s !! j = Some t
    /\ th_todo t = a :: k
    /\ ((exists held, g = None /\ s' = set_thread j {| th_todo := k; th_held := held |} s
          /\ ((exists l m, a = AAcquire l m /\ available (rq_origin rq) (l, m) s = true /\ held = (l, m) :: th_held t)
              \/ (exists l, a = ARelease l /\ held = filter (fun g => g.1 <> l) (th_held t))
              \/ (a = ASend \/ a = AReceive) /\ held = th_held t))
        \/ ((a = ADo \/ a = AServe) /\ exists c rq', cl_advance j (lk_cluster s) = Some (g, c)
             /\ cl_requests c !! j = Some rq'
             /\ s' = {| lk_cluster := c; lk_threads := <[j := {| th_todo := k ++ ahead (rq_progress rq');
                                                                th_held := th_held t |}]> (lk_threads s) |})).
Proof.
  unfold lk_act. intros (t & Ht & Hr)%bind_Some. apply bind_Some in Hr as (rq & Hrq & Hr).
  exists rq, t. destruct (th_todo t) as [|a k] eqn:Htodo; [done|]. exists a, k. split_and!; [done..|].
  assert (Hdo : ('(g, c) ← cl_advance j (lk_cluster s); rq ← cl_requests c !! j;
      Some (g, set_thread j {| th_todo := k ++ ahead (rq_progress rq); th_held := th_held t |}
                 {| lk_cluster := c; lk_threads := lk_threads s |})) = Some (g, s') ->
    exists c rq', cl_advance j (lk_cluster s) = Some (g, c) /\ cl_requests c !! j = Some rq'
      /\ s' = {| lk_cluster := c; lk_threads := <[j := {| th_todo := k ++ ahead (rq_progress rq');
                                                          th_held := th_held t |}]> (lk_threads s) |}).
  { clear. intros ([g1 c] & Hc & Hr)%bind_Some. apply bind_Some in Hr as (rq' & Hrq & [= <- <-]). by exists c, rq'. }
  destruct a as [l m| |l| | |]; [|right; split; [by left|by apply Hdo]| |
    |right; split; [by right|by apply Hdo]|]; left.
  - destruct (available _ _ _) eqn:Ha; [|done]. injection Hr as <- <-. eexists. split_and!; [done..|]. left. by exists l, m.
  - injection Hr as <- <-. eexists. split_and!; [done..|]. right. left. by exists l.
  - injection Hr as <- <-. eexists. split_and!; [done..|]. right. right. by split; [left|].
  - injection Hr as <- <-. eexists. split_and!; [done..|]. right. right. by split; [right|].
Qed.

(** A request changes; what it holds, it held or was given. *)
Lemma locks_ok_update j rq rq' t t' s s' :
  locks_ok s -> cl_requests (lk_cluster s) !! j = Some rq -> lk_threads s !! j = Some t ->
  rq_origin rq' = rq_origin rq -> at_point (rq_progress rq') (th_todo t') (th_held t') ->
  (forall g, g ∈ th_held t' -> g ∈ th_held t \/ available (rq_origin rq) g s = true) ->
  cl_requests (lk_cluster s') = <[j := rq']> (cl_requests (lk_cluster s)) ->
  lk_threads s' = <[j := t']> (lk_threads s) -> locks_ok s'.
Proof.
  intros [Hlen Hat Hap] Hrq Ht Ho Hpt Hheld Er Et. split; rewrite Er, Et.
  - by rewrite !length_insert.
  - intros k rq1 t1 Q1 Q2. destruct (decide (k = j)) as [->|Hne].
    + rewrite list_lookup_insert_eq in Q1 by (by eapply lookup_lt_Some).
      rewrite list_lookup_insert_eq in Q2 by (by eapply lookup_lt_Some).
      by injection Q1 as <-; injection Q2 as <-.
    + rewrite list_lookup_insert_ne in Q1 by done; rewrite list_lookup_insert_ne in Q2 by done. by eapply Hat.
  - assert (Hone : forall k rq1 t1 g g1, k <> j -> cl_requests (lk_cluster s) !! k = Some rq1 ->
      lk_threads s !! k = Some t1 -> g1 ∈ th_held t1 -> g ∈ th_held t' -> rq_origin rq = rq_origin rq1 ->
      conflict g g1 = false).
    { intros k rq1 t1 g g1 Hne Q1 Q2 Q3 Q4 Q5. destruct (Hheld _ Q4) as [Hg|Hav].
      - by eapply (Hap j k).
      - by eapply (proj1 (available_spec _ _ _) Hav k). }
    assert (Hsym : forall g g1, conflict g g1 = false -> conflict g1 g = false).
    { intros g g1. unfold conflict. rewrite !bool_decide_eq_false. intros Hn [He Hm].
      apply Hn. split; [done|tauto]. }
    intros a b ra rb ta tb ga gb Hab Ha1 Ha2 Ha3 Hb1 Hb2 Hb3 Hor.
    destruct (decide (a = j)) as [->|Hna], (decide (b = j)) as [->|Hnb]; [done|..].
    + rewrite list_lookup_insert_eq in Ha1 by (by eapply lookup_lt_Some).
      rewrite list_lookup_insert_eq in Ha2 by (by eapply lookup_lt_Some).
      rewrite list_lookup_insert_ne in Hb1 by done; rewrite list_lookup_insert_ne in Hb2 by done. injection Ha1 as <-. injection Ha2 as <-.
      refine (Hone b rb tb ga gb Hnb Hb1 Hb2 Hb3 Ha3 _). by rewrite <- Ho.
    + rewrite list_lookup_insert_eq in Hb1 by (by eapply lookup_lt_Some).
      rewrite list_lookup_insert_eq in Hb2 by (by eapply lookup_lt_Some).
      rewrite list_lookup_insert_ne in Ha1 by done; rewrite list_lookup_insert_ne in Ha2 by done. injection Hb1 as <-. injection Hb2 as <-.
      apply Hsym. refine (Hone a ra ta gb ga Hna Ha1 Ha2 Ha3 Hb3 _). by rewrite <- Ho.
    + rewrite list_lookup_insert_ne in Ha1 by done; rewrite list_lookup_insert_ne in Ha2 by done; rewrite list_lookup_insert_ne in Hb1 by done; rewrite list_lookup_insert_ne in Hb2 by done. by eapply (Hap a b).
Qed.

(** The next action of a point, and what goes with it. *)
Definition next_ok (o : option Progress) (todo : list Action) (held : list Guard) : Prop :=
  match todo with
  | [] => held = [] /\ forall p, o = Some p -> finished p = true
  | AAcquire l m :: k => held = [] /\ k = [ADo; ARelease l] /\ exists p, o = Some p /\ finished p = false
  | ADo :: k => (exists p, o = Some p /\ finished p = false)
      /\ (k = [] /\ held = [] \/ exists l m, k = [ARelease l] /\ held = [(l, m)])
  | ARelease l :: k => k = ahead o /\ exists m, held = [(l, m)]
  | ASend :: k => held = [] /\ k = [AServe; AReceive] /\ exists p, o = Some p /\ finished p = false
  | AServe :: k => held = [] /\ k = [AReceive] /\ exists p, o = Some p /\ finished p = false
  | AReceive :: k => held = [] /\ k = ahead o
  end.

Lemma at_point_next o todo held : at_point o todo held -> next_ok o todo held.
Proof.
  destruct 1 as [o|p l m Hp|o l m|p Hp|o]; cbn [next_ok].
  - destruct o as [p|]; [|done]. cbn [ahead from_option].
    destruct (actions_cases p) as [[-> Hf]|(Hf & [->|[->|(l & m & ->)]])]; cbn [next_ok].
    + split; [done|]. by intros ? [= <-].
    + split; [by exists p|by left].
    + split_and!; [done..|by exists p].
    + split_and!; [done..|by exists p].
  - split; [by exists p|]. right. by exists l, m.
  - split; [done|by exists m].
  - split_and!; [done..|by exists p].
  - done.
Qed.

(** The work of a part, after which the next one is ahead. *)
Lemma lk_act_ok j s g s' : locks_ok s -> lk_act j s = Some (g, s') -> locks_ok s'.
Proof.
  intros Hok (rq & t & a & k & Hrq & Ht & Htodo & Hcase)%lk_act_Some.
  pose proof (at_point_next _ _ _ (lo_at _ Hok _ _ _ Hrq Ht)) as Hn. rewrite Htodo in Hn.
  destruct Hcase as [(held & _ & -> & Hcase)|(Ha & c & rq' & Hc & Hrq' & ->)].
  - apply (locks_ok_update j rq rq t {| th_todo := k; th_held := held |} s); try done;
      [| |by rewrite list_insert_id]; cbn [th_todo th_held set_thread lk_cluster];
      destruct Hcase as [(l & m & -> & Hav & ->)|[(l & -> & ->)|[[-> | ->] ->]]]; cbn in Hn.
    + destruct Hn as (-> & -> & p & -> & Hp). by constructor.
    + destruct Hn as (-> & m & ->). rewrite filter_cons, decide_False by (cbn; tauto). constructor.
    + destruct Hn as (-> & -> & p & -> & Hp). by constructor.
    + destruct Hn as (-> & ->). constructor.
    + intros g' [-> |Hg]%elem_of_cons; [by right|by left].
    + intros g' [_ Hg]%list_elem_of_filter. by left.
    + by left.
    + by left.
  - pose proof Hc as (i & p & st & r & w & Hj & _ & _ & _ & _ & ->)%cl_advance_Some.
    cbn [cl_requests] in Hrq'. rewrite list_lookup_insert_eq in Hrq' by (by eapply lookup_lt_Some).
    rewrite Hj in Hrq. injection Hrq as <-. injection Hrq' as <-.
    eapply (locks_ok_update j _ _ t _ s); [done|exact Hj|exact Ht|..|reflexivity|reflexivity]; [done| |by left].
    cbn [rq_progress th_todo th_held]. destruct Ha as [-> | ->]; cbn in Hn.
    + destruct Hn as (_ & [[-> ->]|(l & m & -> & ->)]); constructor.
    + destruct Hn as (-> & -> & _). constructor.
Qed.

Lemma lk_step_ok s ev g s' : locks_ok s -> lk_step s ev g s' -> locks_ok s'.
Proof.
  intros Hok. destruct 1 as [s i auth Hi|s j g s' Hj|s u r Hu]; [|by eapply lk_act_ok|by destruct Hok].
  destruct Hok as [Hlen Hat Hap]. assert (Hnew : forall k rq t,
    cl_requests (cl_arrive i auth (lk_cluster s)) !! k = Some rq ->
    (lk_threads s ++ [{| th_todo := actions (RqStart auth); th_held := [] |}]) !! k = Some t ->
    (cl_requests (lk_cluster s) !! k = Some rq /\ lk_threads s !! k = Some t)
    \/ (rq_progress rq = Some (RqStart auth) /\ t = {| th_todo := actions (RqStart auth); th_held := [] |})).
  { intros k rq t Q1 Q2. cbn in Q1. apply lookup_app_Some in Q1 as [Q1|[Hk Q1]], Q2 as [Q2|[Hk' Q2]].
    - by left.
    - apply lookup_lt_Some in Q1. lia.
    - apply lookup_lt_Some in Q2. lia.
    - apply list_lookup_singleton_Some in Q1 as [_ <-], Q2 as [_ <-]. by right. }
  split; cbn [lk_arrive lk_cluster lk_threads].
  - cbn. rewrite !length_app. cbn. lia.
  - intros k rq t Q1 Q2. destruct (Hnew _ _ _ Q1 Q2) as [[Q3 Q4]|[-> ->]]; [by eapply Hat|].
    apply (at_part (Some (RqStart auth))).
  - intros a b ra rb ta tb ga gb Hab Q1 Q2 Q3 Q4 Q5 Q6 Q7.
    destruct (Hnew _ _ _ Q1 Q2) as [[Q8 Q9]|[_ ->]]; [|by apply elem_of_nil in Q3].
    destruct (Hnew _ _ _ Q4 Q5) as [[Qa Qb]|[_ ->]]; [|by apply elem_of_nil in Q6].
    by eapply (Hap a b).
Qed.

(** ** Runs with locks are runs of the cluster *)

Lemma lk_step_cluster s ev g s' :
  lk_step s ev g s' ->
  (lk_cluster s' = lk_cluster s /\ g = None) \/ cl_step (lk_cluster s) ev g (lk_cluster s').
Proof.
  destruct 1 as [s i auth Hi|s j g s' Hj|s u r Hu].
  - right. by constructor.
  - apply lk_act_Some in Hj as (rq & t & a & k & _ & _ & _ & [(held & -> & -> & _)|(_ & c & rq' & Hc & _ & ->)]);
      [by left|right]. by constructor.
  - right. by constructor.
Qed.

Lemma lk_run_cluster s tr s' :
  lk_run s tr s' -> exists tr', cl_run (lk_cluster s) tr' (lk_cluster s') /\ grants tr' = grants tr.
Proof.
  induction 1 as [s|s ev g s1 tr s' Hs _ (tr' & Hr & Hg)]; [by exists []; split; [constructor|]|].
  apply lk_step_cluster in Hs as [[<- ->]|Hs]; [by exists tr'|].
  exists ((ev, g) :: tr'). split; [by econstructor|]. unfold grants in *. cbn. by rewrite Hg.
Qed.

(** What every run keeps. *)
Definition lk_ok s : Prop := locks_ok s /\ cluster_ok (lk_cluster s).

Lemma lk_run_ok s tr s' : lk_ok s -> lk_run s tr s' -> lk_ok s'.
Proof.
  intros [Hok Hc] Hr. split.
  - clear Hc. induction Hr as [|s ev g s1 tr s' Hs _ IH]; [done|]. by apply IH; eapply lk_step_ok.
  - apply lk_run_cluster in Hr as (tr' & Hr & _). by apply (cl_run_sound _ _ _ Hc Hr).
Qed.

Lemma lk_run_app s tr s1 tr' s' : lk_run s tr s1 -> lk_run s1 tr' s' -> lk_run s (tr ++ tr') s'.
Proof. induction 1; [done|]. intros. cbn. econstructor; eauto. Qed.

Lemma lk_run_one j s g s' : lk_act j s = Some (g, s') -> lk_run s [(Advance j, g)] s'.
Proof. intros Hj. econstructor; [by constructor|constructor]. Qed.

(** ** The actions of a request are bounded *)

Definition work_left (o : option Progress) (todo : list Action) : nat :=
  (length todo + 3 * pred (from_option steps_left 0 o))%nat.

(** A request at its point: its progress and its thread. *)
Definition serving (j : nat) (rq : Request) (t : Thread) s : Prop :=
  cl_requests (lk_cluster s) !! j = Some rq /\ lk_threads s !! j = Some t.

Lemma req_work p w r w' :
  finished p = false -> req_step p w = (r, w') ->
  (length (ahead (ok r)) + 3 * pred (from_option steps_left 0%nat (ok r)) <= 3 * pred (steps_left p))%nat.
Proof.
  intros Hf Hs. destruct r as [p'|[]|]; cbn [ok ahead from_option]; [|cbn; lia].
  pose proof (req_step_left _ _ _ _ Hf Hs). pose proof (actions_length p'). lia.
Qed.

Lemma lk_act_left j s g s' rq t :
  lk_act j s = Some (g, s') -> serving j rq t s ->
  (exists rq' t', serving j rq' t' s'
    /\ (work_left (rq_progress rq') (th_todo t') < work_left (rq_progress rq) (th_todo t))%nat)
  /\ forall k, k <> j -> cl_requests (lk_cluster s') !! k = cl_requests (lk_cluster s) !! k
       /\ lk_threads s' !! k = lk_threads s !! k.
Proof.
  intros (rq0 & t0 & a & k & Hrq & Ht & Htodo & Hcase)%lk_act_Some [Hrq1 Ht1].
  rewrite Hrq in Hrq1. injection Hrq1 as <-. rewrite Ht in Ht1. injection Ht1 as <-.
  destruct Hcase as [(held & _ & -> & _)|(_ & c & rq' & Hc & Hrq' & ->)].
  - split; [|intros k' Hne; split; [done|by apply list_lookup_insert_ne]].
    eexists rq0, _. split; [split; [done|by apply list_lookup_insert_eq; eapply lookup_lt_Some]|].
    unfold work_left. cbn [th_todo]. rewrite Htodo. cbn [length]. lia.
  - apply cl_advance_Some in Hc as (i & p & st & r & w & Hj & _ & Hf & Hstep & _ & ->).
    rewrite Hrq in Hj. injection Hj as ->. cbn [cl_requests lk_cluster lk_threads] in *.
    rewrite list_lookup_insert_eq in Hrq' by (by eapply lookup_lt_Some). injection Hrq' as <-.
    split; [|intros k' Hne; split; by apply list_lookup_insert_ne].
    eexists _, _. split; [split; by apply list_lookup_insert_eq; eapply lookup_lt_Some|].
    unfold work_left. cbn [th_todo rq_progress]. rewrite Htodo, length_app.
    pose proof (req_work _ _ _ _ Hf Hstep). cbn [length from_option] in *. lia.
Qed.

Lemma lk_step_left s ev g s' j rq t :
  lk_step s ev g s' -> serving j rq t s ->
  exists rq' t', serving j rq' t' s'
    /\ (steps_of j [(ev, g)] + work_left (rq_progress rq') (th_todo t')
        <= work_left (rq_progress rq) (th_todo t))%nat.
Proof.
  intros Hs Hj. destruct Hs as [s i auth Hi|s k g s' Hk|s u r Hu]; [| |by exists rq, t].
  - exists rq, t. destruct Hj as [Q1 Q2]. split; [|done]. by split; apply lookup_app_l_Some.
  - unfold steps_of. rewrite filter_cons. cbn [fst filter list_filter]. destruct (decide (k = j)) as [->|Hne].
    + rewrite decide_True by apply Nat.eqb_refl. cbn [length].
      destruct (lk_act_left _ _ _ _ _ _ Hk Hj) as [(rq' & t' & Hj' & Hlt) _]. exists rq', t'. split; [done|lia].
    + rewrite decide_False by by intros ?%Nat.eqb_eq. cbn [length]. exists rq, t. split; [|lia].
      pose proof Hk as (rq0 & t0 & _ & _ & Q1 & Q2 & _)%lk_act_Some.
      destruct (lk_act_left _ _ _ _ _ _ Hk (conj Q1 Q2)) as [_ Hoth]. destruct (Hoth j) as [E1 E2]; [done|].
      unfold serving. by rewrite E1, E2.
Qed.

Lemma lk_run_left s tr s' j rq t :
  lk_run s tr s' -> serving j rq t s ->
  exists rq' t', serving j rq' t' s'
    /\ (steps_of j tr + work_left (rq_progress rq') (th_todo t') <= work_left (rq_progress rq) (th_todo t))%nat.
Proof.
  intros Hr. revert rq t. induction Hr as [s|s ev g s1 tr s' Hs _ IH]; intros rq t Hj; [by exists rq, t|].
  destruct (lk_step_left _ _ _ _ _ _ _ Hs Hj) as (rq1 & t1 & Hj1 & Hle1).
  destruct (IH _ _ Hj1) as (rq' & t' & Hj' & Hle). exists rq', t'. split; [done|].
  rewrite steps_of_cons. lia.
Qed.

(** Nineteen actions from its arrival. *)
Lemma lk_run_bound s tr s' j rq t :
  locks_ok s -> cl_requests (lk_cluster s) !! j = None -> lk_run s tr s' -> serving j rq t s' ->
  (steps_of j tr + work_left (rq_progress rq) (th_todo t) <= 19)%nat.
Proof.
  intros Hok Hnone Hr Hj. induction Hr as [s|s ev g s1 tr s' Hs Hr IH].
  { destruct Hj as [Hj _]. congruence. }
  specialize (IH (lk_step_ok _ _ _ _ Hok Hs)). rewrite steps_of_cons.
  assert (Hother : cl_requests (lk_cluster s1) !! j = None -> (steps_of j [(ev, g)] = 0)%nat ->
    (steps_of j [(ev, g)] + steps_of j tr + work_left (rq_progress rq) (th_todo t) <= 19)%nat).
  { intros Hn ->. by apply IH. }
  destruct Hs as [s i auth Hi|s k g s1 Hk|s u r Hu]; [|..|by apply Hother].
  - destruct (decide (j = length (cl_requests (lk_cluster s)))) as [->|Hne].
    + assert (Hj1 : serving (length (cl_requests (lk_cluster s)))
        {| rq_origin := i; rq_progress := Some (RqStart auth) |}
        {| th_todo := actions (RqStart auth); th_held := [] |} (lk_arrive i auth s)).
      { split; [by apply list_lookup_middle|]. rewrite <- (lo_length _ Hok). by apply list_lookup_middle. }
      destruct (lk_run_left _ _ _ _ _ _ Hr Hj1) as (rq' & t' & [Q1 Q2] & Hle). destruct Hj as [Q3 Q4].
      rewrite Q1 in Q3. injection Q3 as ->. rewrite Q2 in Q4. injection Q4 as ->.
      unfold steps_of at 1. rewrite filter_cons, decide_False by done. cbn in Hle |- *. exact Hle.
    + apply Hother; [|done]. cbn. apply lookup_ge_None in Hnone. apply lookup_ge_None.
      rewrite length_app. cbn. lia.
  - pose proof Hk as (rq0 & t0 & _ & _ & Q1 & Q2 & _)%lk_act_Some. assert (Hne : j <> k) by congruence.
    destruct (lk_act_left _ _ _ _ _ _ Hk (conj Q1 Q2)) as [_ Hoth]. destruct (Hoth j Hne) as [E1 _].
    apply Hother; [by rewrite E1|]. unfold steps_of. rewrite filter_cons. cbn [fst].
    rewrite decide_False; [done|]. by intros ?%Nat.eqb_eq.
Qed.

(** ** No action waits, but one that takes a lock in use *)

Lemma lk_next s j rq t a k :
  lk_ok s -> serving j rq t s -> th_todo t = a :: k ->
  (forall l m, a = AAcquire l m -> available (rq_origin rq) (l, m) s = true) -> is_Some (lk_act j s).
Proof.
  intros [Hok Hc] [Hrq Ht] Htodo Hav. pose proof (at_point_next _ _ _ (lo_at _ Hok _ _ _ Hrq Ht)) as Hn.
  unfold lk_act. rewrite Ht. cbn [mbind option_bind]. rewrite Hrq. cbn [mbind option_bind]. rewrite Htodo in *.
  assert (Hdo : (exists p, rq_progress rq = Some p /\ finished p = false) ->
    is_Some ('(g, c) ← cl_advance j (lk_cluster s); rq ← cl_requests c !! j;
      Some (g, set_thread j {| th_todo := k ++ ahead (rq_progress rq); th_held := th_held t |}
                 {| lk_cluster := c; lk_threads := lk_threads s |}))).
  { intros (p & Hp & Hf). destruct (proj1 (Forall_lookup _ _) (co_requests _ Hc) _ _ Hrq) as (st & Hst & _).
    unfold cl_advance. rewrite Hrq. cbn [mbind option_bind]. rewrite Hp. cbn [mbind option_bind].
    rewrite Hst. cbn [mbind option_bind]. rewrite Hf. destruct (req_step p _) as [r w].
    cbn [mbind option_bind cl_requests]. rewrite list_lookup_insert_eq by (by eapply lookup_lt_Some). by eexists. }
  destruct a as [l m| |l| | |]; cbn [next_ok] in Hn.
  - rewrite (Hav _ _ eq_refl). by eexists.
  - apply Hdo, Hn.
  - by eexists.
  - by eexists.
  - apply Hdo. by destruct Hn as (_ & _ & ?).
  - by eexists.
Qed.

(** A guard's holder is at work under it or about to drop it. *)
Lemma holder_next s j rq t g :
  lk_ok s -> serving j rq t s -> g ∈ th_held t ->
  (exists l k, th_todo t = ADo :: ARelease l :: k \/ th_todo t = ARelease l :: k) /\ is_Some (lk_act j s).
Proof.
  intros Hok Hj Hg. pose proof Hj as [Hrq Ht].
  pose proof (at_point_next _ _ _ (lo_at _ (proj1 Hok) _ _ _ Hrq Ht)) as Hn.
  destruct (th_todo t) as [|a k] eqn:Htodo; [destruct Hn as [Hn _]; by rewrite Hn in Hg; apply elem_of_nil in Hg|].
  assert (Hact : (forall l m, a <> AAcquire l m) -> is_Some (lk_act j s)).
  { intros Hne. eapply lk_next; [done..|]. intros l m ->. by destruct (Hne l m). }
  destruct a as [l m| |l| | |]; cbn [next_ok] in Hn;
    try (destruct Hn as [Hn _]; rewrite Hn in Hg; by apply elem_of_nil in Hg).
  - split; [|by apply Hact]. destruct Hn as (_ & [[_ Hn]|(l & m & -> & _)]); [rewrite Hn in Hg; by apply elem_of_nil in Hg|].
    exists l, []. by left.
  - split; [|by apply Hact]. exists l, k. by right.
Qed.

(** The guard behind: dropped. *)
Lemma act_release s j rq t l k m :
  serving j rq t s -> th_todo t = ARelease l :: k -> th_held t = [(l, m)] ->
  exists s', lk_act j s = Some (None, s') /\ lk_threads s' !! j = Some {| th_todo := k; th_held := [] |}.
Proof.
  intros [Hrq Ht] Htodo Hheld. eexists. split.
  - unfold lk_act. rewrite Ht. cbn [mbind option_bind]. rewrite Hrq. cbn [mbind option_bind].
    rewrite Htodo. reflexivity.
  - cbn [set_thread lk_threads]. rewrite Hheld, filter_cons, decide_False by (cbn; tauto).
    apply list_lookup_insert_eq. by eapply lookup_lt_Some.
Qed.

(** The guard ahead: the work, which leaves the guard to be dropped. *)
Lemma act_work s j rq t l m :
  lk_ok s -> serving j rq t s -> th_todo t = [ADo; ARelease l] -> th_held t = [(l, m)] ->
  exists g s' rq' k, lk_act j s = Some (g, s')
    /\ serving j rq' {| th_todo := ARelease l :: k; th_held := [(l, m)] |} s'.
Proof.
  intros Hok Hj Htodo Hheld. pose proof Hj as [Hrq Ht].
  destruct (lk_next s j rq t _ _ Hok Hj Htodo) as [[g s'] Hact]; [done|].
  pose proof Hact as (rq0 & t0 & a & k & _ & Q2 & Q3 & Q4)%lk_act_Some.
  rewrite Ht in Q2. injection Q2 as <-. rewrite Htodo in Q3. injection Q3 as <- <-.
  destruct Q4 as [(h & _ & _ & [(? & ? & [=] & _)|[(? & [=] & _)|[[[=]|[=]] _]]])|(_ & c & rq' & _ & Hrq' & ->)].
  eexists g, _, rq', _. split; [exact Hact|]. split; [done|]. cbn [lk_threads]. rewrite Hheld.
  apply list_lookup_insert_eq. by eapply lookup_lt_Some.
Qed.

Lemma act_others s j g s' :
  lk_act j s = Some (g, s') -> forall k, k <> j -> lk_threads s' !! k = lk_threads s !! k.
Proof.
  intros Hact k Hne. pose proof Hact as (rq & t & _ & _ & Q1 & Q2 & _)%lk_act_Some.
  by apply (proj2 (lk_act_left _ _ _ _ _ _ Hact (conj Q1 Q2))).
Qed.

(** The guards of one request, dropped by its own actions. *)
Lemma drop_guards s j :
  lk_ok s -> exists tr s', lk_run s tr s' /\ (length tr <= 2)%nat
    /\ (forall k, k <> j -> lk_threads s' !! k = lk_threads s !! k)
    /\ (forall t, lk_threads s' !! j = Some t -> th_held t = [])
    /\ (forall t, lk_threads s !! j = Some t -> th_held t = [] -> lk_threads s' !! j = Some t).
Proof.
  intros Hok. destruct (lk_threads s !! j) as [t|] eqn:Ht;
    [|exists [], s; split_and!; [apply lk_nil|cbn; lia|done|congruence|congruence]].
  destruct (decide (th_held t = [])) as [Hh|Hh].
  { exists [], s. split_and!; [apply lk_nil|cbn; lia|done|congruence|congruence]. }
  assert (is_Some (cl_requests (lk_cluster s) !! j)) as [rq Hrq].
  { apply lookup_lt_is_Some. rewrite <- (lo_length _ (proj1 Hok)). by eapply lookup_lt_Some. }
  assert (Hj : serving j rq t s) by done.
  pose proof (at_point_next _ _ _ (lo_at _ (proj1 Hok) _ _ _ Hrq Ht)) as Hn.
  destruct (th_todo t) as [|[l m| |l| | |] k] eqn:Htodo; cbn [next_ok] in Hn; try (by destruct Hn).
  - destruct Hn as (_ & [[_ ?]|(l & m & -> & Hg)]); [done|].
    destruct (act_work _ _ _ _ _ _ Hok Hj Htodo Hg) as (g & s1 & rq1 & k & Hact & Hj1).
    destruct (act_release _ _ _ _ _ _ _ Hj1 eq_refl eq_refl) as (s' & Hact1 & Hs').
    exists [(Advance j, g); (Advance j, None)], s'. split_and!; [|done| | |by intros t1 [= <-]].
    + econstructor; [by constructor|]. by apply lk_run_one.
    + intros i Hne. rewrite (act_others _ _ _ _ Hact1) by done. by apply (act_others _ _ _ _ Hact).
    + rewrite Hs'. by intros t1 [= <-].
  - destruct Hn as (_ & m & Hg). destruct (act_release _ _ _ _ _ _ _ Hj Htodo Hg) as (s' & Hact & Hs').
    exists [(Advance j, None)], s'. split_and!; [by apply lk_run_one|cbn; lia| | |by intros t1 [= <-]].
    + by apply (act_others _ _ _ _ Hact).
    + rewrite Hs'. by intros t1 [= <-].
Qed.

(** All guards dropped; whoever held none is where it was. *)
Lemma drop_all s n :
  lk_ok s -> exists tr s', lk_run s tr s' /\ (length tr <= 2 * n)%nat
    /\ (forall k t, (k < n)%nat -> lk_threads s' !! k = Some t -> th_held t = [])
    /\ (forall k, (n <= k)%nat -> lk_threads s' !! k = lk_threads s !! k)
    /\ (forall k t, lk_threads s !! k = Some t -> th_held t = [] -> lk_threads s' !! k = Some t).
Proof.
  intros Hok. induction n as [|n (tr & s1 & Hr & Hlen & Hlow & Hhigh & Hfree)].
  { exists [], s. split_and!; [apply lk_nil|done|lia|done|done]. }
  destruct (drop_guards s1 n (lk_run_ok _ _ _ Hok Hr)) as (tr1 & s' & Hr1 & Hlen1 & Hoth & Hheld & Hkeep).
  exists (tr ++ tr1), s'. split_and!; [by eapply lk_run_app|rewrite length_app; lia|..].
  - intros k t Hk. destruct (decide (k = n)) as [->|Hne]; [by apply Hheld|].
    rewrite Hoth by done. apply Hlow. lia.
  - intros k Hk. rewrite Hoth by lia. apply Hhigh. lia.
  - intros k t Q1 Q2. pose proof (Hfree _ _ Q1 Q2) as Q3.
    destruct (decide (k = n)) as [->|Hne]; [by apply Hkeep|by rewrite Hoth].
Qed.

(** A request alone with the locks runs to its end. *)
Lemma run_alone n s j rq t :
  lk_ok s -> serving j rq t s -> (work_left (rq_progress rq) (th_todo t) <= n)%nat ->
  (forall k t', k <> j -> lk_threads s !! k = Some t' -> th_held t' = []) ->
  exists tr s', lk_run s tr s' /\ (length tr <= n)%nat
    /\ (exists t', lk_threads s' !! j = Some t' /\ th_todo t' = [])
    /\ forall k, k <> j -> lk_threads s' !! k = lk_threads s !! k.
Proof.
  revert s rq t. induction n as [|n IH]; intros s rq t Hok Hj Hn Hfree.
  { exists [], s. split_and!; [apply lk_nil|done| |done]. exists t. split; [apply Hj|].
    unfold work_left in Hn. apply nil_length_inv. lia. }
  destruct (th_todo t) as [|a k] eqn:Htodo.
  { exists [], s. split_and!; [apply lk_nil|cbn; lia| |done]. exists t. split; [apply Hj|done]. }
  destruct (lk_next s j rq t a k Hok Hj Htodo) as [[g s1] Hact].
  { intros l m ->. apply available_spec. intros i rq1 t1 g' Q1 Q2 _ Hg.
    destruct (decide (i = j)) as [->|Hne]; [|rewrite (Hfree i t1) in Hg by done; by apply elem_of_nil in Hg].
    pose proof (at_point_next _ _ _ (lo_at _ (proj1 Hok) _ _ _ Q1 Q2)) as Hnext. destruct Hj as [_ Hj].
    assert (t1 = t) as -> by congruence. rewrite Htodo in Hnext. destruct Hnext as [Hnext _].
    rewrite Hnext in Hg. by apply elem_of_nil in Hg. }
  destruct (lk_act_left _ _ _ _ _ _ Hact Hj) as [(rq1 & t1 & Hj1 & Hlt) _].
  pose proof (act_others _ _ _ _ Hact) as Hoth. pose proof (lk_run_one _ _ _ _ Hact) as Hr1.
  destruct (IH s1 rq1 t1 (lk_run_ok _ _ _ Hok Hr1) Hj1) as (tr & s' & Hr & Hlen & Hdone & Hoth').
  { rewrite Htodo in Hlt. lia. }
  { intros i t' Hne. rewrite Hoth by done. by apply Hfree. }
  exists ((Advance j, g) :: tr), s'. split_and!; [by eapply lk_cons; [constructor|]|cbn; lia|done|].
  intros i Hne. by rewrite Hoth', Hoth.
Qed.

(** Request [j] at origin [i] waits for a lock: another one there has it, and can go
    on to drop it. *)
Definition waits (i j : nat) (g : Guard) s : Prop :=
  exists k rq t g', k <> j /\ serving k rq t s /\ rq_origin rq = i /\ g' ∈ th_held t /\ conflict g g' = true
    /\ (exists l rest, th_todo t = ADo :: ARelease l :: rest \/ th_todo t = ARelease l :: rest)
    /\ is_Some (lk_act k s).

Lemma acquire_waits s j rq t l m k :
  lk_ok s -> serving j rq t s -> th_todo t = AAcquire l m :: k ->
  is_Some (lk_act j s) \/ waits (rq_origin rq) j (l, m) s.
Proof.
  intros Hok Hj Htodo. destruct (available (rq_origin rq) (l, m) s) eqn:Hav.
  { left. eapply lk_next; [done..|]. by intros ? ? [= <- <-]. }
  right. unfold available in Hav. apply not_true_iff_false in Hav. rewrite forallb_forall in Hav.
  destruct (decide (Exists (fun g => conflict (l, m) g = true) (guards (rq_origin rq) s))) as [Hex|Hno].
  - apply Exists_exists in Hex as (g & (i & rq1 & t1 & Q1 & Q2 & Q3 & Q4)%elem_of_guards & Hg).
    exists i, rq1, t1, g. split; [|destruct (holder_next s i rq1 t1 g Hok (conj Q1 Q2) Q4); by split_and!].
    intros ->. destruct Hj as [Hrq Ht]. pose proof (at_point_next _ _ _ (lo_at _ (proj1 Hok) _ _ _ Hrq Ht)) as Hn.
    rewrite Htodo in Hn. destruct Hn as [Hn _]. assert (t1 = t) as -> by congruence.
    rewrite Hn in Q4. by apply elem_of_nil in Q4.
  - destruct Hav. intros g Hg. rewrite <- list_elem_of_In in Hg. apply negb_true_iff, not_true_iff_false.
    intros Hc. apply Hno, Exists_exists. by exists g.
Qed.

(** Where a request is when nothing is ahead of it. *)
Lemma done_at s j rq t :
  lk_ok s -> serving j rq t s -> th_todo t = [] ->
  th_held t = [] /\ (rq_progress rq = None \/ exists resp, rq_progress rq = Some (RqDone resp)).
Proof.
  intros [Hok _] [Hrq Ht] Htodo. pose proof (at_point_next _ _ _ (lo_at _ Hok _ _ _ Hrq Ht)) as Hn.
  rewrite Htodo in Hn. destruct Hn as [Hh Hp]. split; [done|].
  destruct (rq_progress rq) as [p|]; [right|by left]. specialize (Hp p eq_refl). destruct p; try done. by eexists.
Qed.

(** From any moment a request can be brought to its end. *)
Lemma can_end s j rq t n :
  lk_ok s -> serving j rq t s -> (work_left (rq_progress rq) (th_todo t) <= n)%nat ->
  exists tr s', lk_run s tr s' /\ (length tr <= 2 * length (lk_threads s) + n)%nat
    /\ (exists t', lk_threads s' !! j = Some t' /\ th_todo t' = [])
    /\ (forall k t', k <> j -> lk_threads s !! k = Some t' -> th_held t' = [] -> lk_threads s' !! k = Some t').
Proof.
  intros Hok Hj Hn. destruct (drop_all s (length (lk_threads s)) Hok)
    as (tr & s1 & Hr & Hlen & Hlow & Hhigh & Hfree).
  destruct (lk_run_left _ _ _ _ _ _ Hr Hj) as (rq1 & t1 & Hj1 & Hle).
  destruct (run_alone n s1 j rq1 t1 (lk_run_ok _ _ _ Hok Hr) Hj1) as (tr1 & s' & Hr1 & Hlen1 & Hdone & Hoth).
  { lia. }
  { intros k t' _ Hk. destruct (decide (k < length (lk_threads s))%nat) as [Hlt|Hge]; [by eapply Hlow|].
    rewrite Hhigh in Hk by lia. apply lookup_lt_Some in Hk. lia. }
  exists (tr ++ tr1), s'. split_and!; [by eapply lk_run_app|rewrite length_app; lia|done|].
  intros k t' Hne Q1 Q2. rewrite Hoth by done. by apply Hfree.
Qed.

(** ** Property *)

(** C13: requests end, and none waits for a call of another that hangs.  From the start on,
    in every interleaving: a request takes at most nineteen actions from its arrival,
    and one with nothing ahead is answered or has panicked; guards in use never
    exclude each other, and none is held while a call is sent or awaited; an action
    other than taking a lock can be taken at once (a service's, when it answers), and
    taking a lock waits only for another request of the same origin that can itself
    go on to drop it; so from any moment on the request can be brought to its end,
    in at most nineteen actions and two for each request, none of them of a request that
    holds no guard: the calls others await need never return.  And these runs are
    runs of the cluster, with the same grants. *)
Theorem requests_end s0 tr s :
  cluster_ok (lk_cluster s0) -> cl_requests (lk_cluster s0) = [] -> lk_threads s0 = [] -> lk_run s0 tr s ->
  (exists tr', cl_run (lk_cluster s0) tr' (lk_cluster s) /\ grants tr' = grants tr)
  /\ (forall j k rq rq' t t' g g', j <> k -> serving j rq t s -> serving k rq' t' s ->
       rq_origin rq = rq_origin rq' -> g ∈ th_held t -> g' ∈ th_held t' -> conflict g g' = false)
  /\ forall j rq t, serving j rq t s ->
     (steps_of j tr + length (th_todo t) <= 19)%nat
     /\ match th_todo t with
        | [] => th_held t = [] /\ (rq_progress rq = None \/ exists resp, rq_progress rq = Some (RqDone resp))
        | AAcquire l m :: _ => th_held t = [] /\ (is_Some (lk_act j s) \/ waits (rq_origin rq) j (l, m) s)
        | a :: _ => (a = ASend \/ external a = true -> th_held t = []) /\ is_Some (lk_act j s)
        end
     /\ exists tr' s', lk_run s tr' s' /\ (length tr' <= 2 * length (lk_threads s) + 19)%nat
        /\ (exists t', lk_threads s' !! j = Some t' /\ th_todo t' = [])
        /\ (forall k t', k <> j -> lk_threads s !! k = Some t' -> th_held t' = [] -> lk_threads s' !! k = Some t').
Proof.
  intros Hc Hq Hth Hr. assert (Hok0 : lk_ok s0).
  { split; [|done]. split; rewrite ?Hq, ?Hth; done. }
  pose proof (lk_run_ok _ _ _ Hok0 Hr) as Hok. split_and!; [by apply lk_run_cluster| |].
  { intros j k rq rq' t t' g g' Hne [Q1 Q2] [Q3 Q4] Ho Hg Hg'. by eapply (lo_apart _ (proj1 Hok) j k). }
  intros j rq t Hj. assert (Hb : (steps_of j tr + work_left (rq_progress rq) (th_todo t) <= 19)%nat).
  { eapply lk_run_bound; [apply Hok0|by rewrite Hq|done..]. }
  split_and!; [unfold work_left in Hb; lia| |eapply can_end; [done..|lia]].
  pose proof Hj as [Hrq Ht]. pose proof (at_point_next _ _ _ (lo_at _ (proj1 Hok) _ _ _ Hrq Ht)) as Hn.
  destruct (th_todo t) as [|a k] eqn:Htodo; [by eapply done_at|].
  assert (Hact : (forall l m, a <> AAcquire l m) -> is_Some (lk_act j s)).
  { intros Hne. eapply lk_next; [done..|]. intros l m ->. by destruct (Hne l m). }
  destruct a as [l m| |l| | |]; cbn [next_ok] in Hn.
  - split; [by destruct Hn|]. by eapply acquire_waits.
  - split; [by intros [?|?]|by apply Hact].
  - split; [by intros [?|?]|by apply Hact].
  - split; [by destruct Hn|by apply Hact].
  - split; [by destruct Hn|by apply Hact].
  - split; [by destruct Hn|by apply Hact].
Qed.

End locks.
