(* ===== verification/Restart.v ===== *)
(** * An issuer that restarts

The issuer keeps its keys and its transparency log in memory: [run] generates
version 1 and begins a log anew.  Under the log seed it is told to persist, a
restart therefore signs a second log with the key that clients and origins
have pinned. *)

From S2P Require Import Prelude RustStr Externals Pomfrit Core Http RateLimit Spend Gate Authorize.
From S2P Require Import Transparency Policy Appraise GateVerifiers Store Wire Redeemer IssuerService Origin OriginSteps.

Section restart.
Context `{Sha256Laws, HexLaws, FaestLaws, Base64Laws, BlindSig, Redis, BuildProfile, Features}
  `{Json IssuanceAuthorization}.

(** The log signer is a function of the seed. *)
Lemma issuer_run_signer pub max secs url seed admin now g st g' :
  issuer_run pub max secs url seed admin now g = (Ok st, g') ->
  exists b, kt_seed_from_env seed = Ok b /\ LogSigner_from_seed b = Ok (is_log_signer st)
    /\ is_kt_log_pub st = LogSigner_public (is_log_signer st).
Proof.
  unfold issuer_run. destruct (map_err _ _) as [vk|e|]; [|done..].
  destruct (Issuer_generate 1 g) as [i g1]. intros Hq. apply (f_equal fst) in Hq. cbn [fst] in Hq.
  apply bind_Ok in Hq as (k & _ & Hr). apply bind_Ok in Hr as (lim & _ & Hr).
  apply bind_Ok in Hr as (b & Hb & Hr). apply bind_Ok in Hr as (ls & Hls%map_err_Ok & Hr).
  apply bind_Ok in Hr as ([n log] & _ & Hr). apply bind_Ok in Hr as (sh & _ & [= <-]).
  by exists b.
Qed.

(** A search for another key id than that of the only record. *)
Lemma find_other pk nb tkid :
  tkid <> Scheme_token_key_id (pk_key pk) ->
  list_find (fun r => eq_ignore_ascii_case (kr_token_key_id r) (hex_encode tkid)) (key_records 0 [(pk, nb)]) = None.
Proof.
  intros Hne. apply list_find_None. constructor; [|constructor].
  intros Hx%Is_true_true%eq_ignore_ascii_case_spec. cbn [kr_token_key_id key_record] in Hx.
  rewrite !to_ascii_lowercase_hex in Hx. by apply hex_encode_inj in Hx.
Qed.

(** The head of a log that has grown is past the end of a new one. *)
Lemma grown_head_refused st ks records :
  published st ks -> (length records < length ks)%nat ->
  verify_consistency (kt_signed_head (kt st)) records = Err TNotConsistent.
Proof.
  intros [Hlog Hhead _ _ _ _] Hl. cbn [kt kt_signed_head].
  destruct (LogSigner_sign_spec (is_log_signer st) (rot_log (is_rot st))) as (h & _ & Hs);
    [rewrite Hlog; apply key_records_have_id|].
  assert (Hsh : rot_signed_head (is_rot st) = _) by (rewrite Hhead in Hs; injection Hs as Hs; exact Hs).
  unfold verify_consistency. rewrite Hsh. cbn [sh_seq]. rewrite decide_True; [done|].
  rewrite Hlog. unfold len. rewrite length_key_records. lia.
Qed.

(** Two logs of one key each that are consistent are the same, up to a collision. *)
Lemma single_logs_agree st pk nb pk' nb' :
  published st [(pk, nb)] -> nb < 2 ^ 64 -> nb' < 2 ^ 64 ->
  pk_key_version pk = 1 -> pk_key_version pk' = 1 ->
  verify_consistency (kt_signed_head (kt st)) (key_records 0 [(pk', nb')]) = Ok tt ->
  (nb' = nb /\ Scheme_token_key_id (pk_key pk') = Scheme_token_key_id (pk_key pk))
  \/ collides (chain_messages (key_records 0 [(pk, nb)])) (chain_messages (key_records 0 [(pk', nb')])).
Proof.
  intros Hp Hnb Hnb' Hv Hv' (hs & h & _ & Hh & Hi & Hph)%verify_consistency_Ok.
  assert (Hlen : len [(pk, nb)] < 2 ^ 64) by done.
  destruct (published_kt _ _ Hp Hlen) as [Hlog _]. cbn [kt kt_records] in Hlog. rewrite (pub_log _ _ Hp) in Hlog.
  assert (Hseq : sh_seq (kt_signed_head (kt st)) = 0).
  { destruct (LogSigner_sign_spec (is_log_signer st) (rot_log (is_rot st))) as (h' & _ & Hs);
      [rewrite (pub_log _ _ Hp); apply key_records_have_id|].
    rewrite (pub_head _ _ Hp) in Hs. injection Hs as Hs. cbn [kt kt_signed_head]. rewrite Hs. cbn [sh_seq].
    by rewrite (pub_log _ _ Hp). }
  rewrite Hseq in Hi. apply verify_log_Ok in Hlog as (_ & h1 & _ & _ & Hh1 & Hp1 & _); [|by rewrite Hseq].
  assert (h1 = h) as -> by congruence.
  assert (Hh' : head_of (key_records 0 [(pk', nb')]) = Ok h).
  { unfold head_of. rewrite Hh. cbn [mbind result_bind].
    assert (length hs = 1%nat) as Hhl by (by apply chain_heads_from_length in Hh).
    destruct hs as [|x [|]]; [done| |done]. cbn in Hi |- *. by injection Hi as ->. }
  assert (Hwf : forall pk nb, pk_key_version pk = 1 -> nb < 2 ^ 64 -> Forall wf_record (key_records 0 [(pk, nb)]))
    by (intros k n Hk Hn; constructor; [split; cbn; rewrite ?Hk; done|constructor]).
  destruct (head_of_pins (key_records 0 [(pk, nb)]) (key_records 0 [(pk', nb')]) h) as [Hs|?];
    [by apply Hwf|by apply Hwf|done|done|done| |by right].
  left. apply Forall2_cons_1 in Hs as [(_ & _ & Hn & Ht) _]. cbn [kr_not_before key_record] in Hn.
  split; [done|]. rewrite !key_record_id in Ht. by injection Ht.
Qed.

(** C25: a restart forks the log: an issuer started again under the seed it was
    told to persist, after any rotations and requests, serves a new log of one key
    that verifies under the log key everyone has pinned.  A client that remembers
    a head of the old log refuses it, for certain when the old log had grown, and
    otherwise unless key and time are the same or a collision is found; and no key
    of the old log is in it, so that an origin under that pin accepts no token of
    an earlier key that it has not cached. *)
Theorem restart_forks_log pub max secs url seed admin now g st g1 st1 ps1 h1
    pub' max' secs' url' admin' now' g2 st' g3 :
  issuer_run pub max secs url seed admin now g = (Ok st, g1) ->
  rtc cstep {| cf_state := st; cf_pending := []; cf_rng := g1 |}
            {| cf_state := st1; cf_pending := ps1; cf_rng := h1 |} ->
  issuer_run pub' max' secs' url' seed admin' now' g2 = (Ok st', g3) ->
  now < 2 ^ 64 -> now' < 2 ^ 64 ->
  let head := kt_signed_head (kt st1) in
  let log := kt_records (kt st') in
  is_kt_log_pub st' = is_kt_log_pub st1
  /\ length log = 1%nat
  /\ verify_log (is_kt_log_pub st1) log (kt_signed_head (kt st')) = Ok tt
  /\ ((1 < length (kt_records (kt st1)))%nat -> verify_consistency head log = Err TNotConsistent)
  /\ (verify_consistency head log = Ok tt ->
      (now' = now /\ Scheme_token_key_id (pk_key (keys st')) = Scheme_token_key_id (pk_key (keys st)))
      \/ collides (chain_messages (kt_records (kt st1))) (chain_messages log))
  /\ (forall tkid, tkid <> Scheme_token_key_id (pk_key (keys st')) ->
      verify_inclusion log tkid = Err TNotIncluded
      /\ forall o, or_kt_log_pub o = is_kt_log_pub st1 -> log_version o tkid (kt st') = Ok None).
Proof.
  intros Hrun Hreach Hrun' Hnow Hnow' head log.
  destruct (issuer_run_signer _ _ _ _ _ _ _ _ _ _ Hrun) as (b & Hb & Hls & Hpub0).
  destruct (issuer_run_signer _ _ _ _ _ _ _ _ _ _ Hrun') as (b' & Hb' & Hls' & Hpub').
  assert (b' = b) as -> by congruence.
  assert (Hsig : is_log_signer st' = is_log_signer st) by congruence.
  apply issuer_run_published in Hrun as (_ & _ & _ & _ & _ & _ & Hp & Hseq).
  apply issuer_run_published in Hrun' as (_ & _ & _ & _ & _ & _ & Hp' & Hseq').
  edestruct published_reach as [more Hp1]; [|exact Hreach|]; [exact Hp|]. cbn [cf_state] in Hp1.
  pose proof (reach_signer _ _ Hreach) as Hsig1. cbn [cf_state] in Hsig1.
  assert (Hpin : is_kt_log_pub st' = is_kt_log_pub st1) by (rewrite Hpub', (pub_log_pub _ _ Hp1); congruence).
  assert (Hlog : log = key_records 0 [(keys st', now')]) by exact (pub_log _ _ Hp').
  assert (Hold : kt_records (kt st1) = key_records 0 ([(keys st, now)] ++ more)) by exact (pub_log _ _ Hp1).
  destruct (published_kt _ _ Hp' ltac:(done)) as [Hv _].
  split; [done|]. split; [by rewrite Hlog|]. split; [by rewrite <- Hpin|]. split; [|split].
  - rewrite Hold, length_key_records. intros Hl. eapply grown_head_refused; [exact Hp1|].
    rewrite Hlog. exact Hl.
  - intros Hc. destruct more as [|x more].
    + rewrite Hold, Hlog. rewrite Hlog in Hc. eapply single_logs_agree; try done.
      * by apply (seq_versions _ _ Hseq 0 _ now).
      * by apply (seq_versions _ _ Hseq' 0 _ now').
    + unfold head, log in Hc. rewrite (grown_head_refused _ _ _ Hp1) in Hc; [done|].
      fold log. rewrite Hlog. cbn. lia.
  - intros tkid Hne. split.
    + unfold verify_inclusion. by rewrite Hlog, find_other.
    + intros o Ho. unfold log_version. rewrite Ho. cbn [kt kt_log_pub_hex].
      rewrite trim_hex_encode, hex_decode_encode, Hpin. rewrite decide_False by tauto.
      rewrite <- Hpin, Hv. cbn [map_err mbind result_bind]. fold log. by rewrite Hlog, find_other.
Qed.

End restart.
