(* ===== verification/Mobile.v ===== *)
(** * The mobile client: mobile/src/lib.rs and src/bin/eat-pass-mobile-ffi.rs

The client object the phone bindings hold, and the stdio helper that keeps such
objects by session id. *)

From S2P Require Import Prelude RustStr Externals Pomfrit Core Http.

Inductive MobileError :=
| MBadIssuerKey (msg : str)
| MBadSignResponse (msg : str)
| MNoPendingRequest
| MCore (msg : str).

Definition MobileError_display (e : MobileError) : str :=
  match e with
  | MBadIssuerKey m => B "invalid issuer public key json: " ++ m
  | MBadSignResponse m => B "invalid sign response json: " ++ m
  | MNoPendingRequest => B "begin() must be called before finalize()"
  | MCore m => B "eat-pass core error: " ++ m
  end.

Record BeginResult := { request_json : str; binding_hex : str }.

(** The two hashes of unified-quote the bindings export. *)
Class UqHashes := {
  desktop_build_id_hash : bytes -> bytes;
  ios_client_data_hash : bytes -> bytes;
}.

Section mobile.
Context `{Sha256, Hex, Base64, BlindSig}
  `{Json IssuerPublicKey, Json SignRequest, Json SignResponse}.

(** [pending] is behind a mutex that guards only the exchange of its content. *)
Record EatPassClient := {
  mc_pk : IssuerPublicKey;
  mc_challenge : TokenChallenge;
  mc_pending : option PendingTokens;
}.

Definition set_pending (c : EatPassClient) (p : option PendingTokens) : EatPassClient :=
  {| mc_pk := mc_pk c; mc_challenge := mc_challenge c; mc_pending := p |}.

Definition EatPassClient_new (issuer_pk_json issuer_name origin_info : str) :
    result MobileError EatPassClient :=
  pk ← map_err MBadIssuerKey (of_sum (json_from_slice (T := IssuerPublicKey) issuer_pk_json));
  Ok {| mc_pk := pk; mc_challenge := TokenChallenge_new issuer_name origin_info;
        mc_pending := None |}.

Definition token_key_id_hex (c : EatPassClient) : result MobileError str :=
  map_err (fun e => MCore (Error_display e))
    (hex_encode <$> IssuerPublicKey_token_key_id (mc_pk c)).

(** [begin]; [count] is a [u32]. *)
Definition EatPassClient_begin (count : N) : run (EatPassClient * rng) MobileError BeginResult :=
  fun '(c, g) =>
  let '(r, g) := Client_begin (mc_pk c) (mc_challenge c) (N.to_nat count) g in
  match map_err (fun e => MCore (Error_display e)) r with
  | Ok (req, pending) =>
      match of_sum (json_to_vec req) with
      | Ok j => (Ok {| request_json := j; binding_hex := hex_encode (SignRequest_binding req) |},
                 (set_pending c (Some pending), g))
      | Err e => (Err (MCore e), (c, g))
      | Panic => (Panic, (c, g))
      end
  | Err e => (Err e, (c, g))
  | Panic => (Panic, (c, g))
  end.

Definition EatPassClient_finalize (sign_response_json : str) :
    run (EatPassClient * rng) MobileError (list str) := fun '(c, g) =>
  match of_sum (json_from_slice (T := SignResponse) sign_response_json) with
  | Err e => (Err (MBadSignResponse e), (c, g))
  | Panic => (Panic, (c, g))
  | Ok resp =>
      match mc_pending c with
      | None => (Err MNoPendingRequest, (c, g))
      | Some pending =>
          let c := set_pending c None in
          let '(r, g) := PendingTokens_finalize pending (mc_pk c) resp g in
          ((fun ts : list SpendToken => authorization <$> ts) <$> map_err (fun e => MCore (Error_display e)) r, (c, g))
      end
  end.

Definition mobile_parse_hex32 (hex_str field : str) : result MobileError bytes :=
  v ← map_err (fun e => MCore (field ++ B ": " ++ e)) (of_sum (hex_decode (trim hex_str)));
  ok_or (array32 v) (MCore (field ++ B " must be 32 bytes (64 hex chars)")).

Definition desktop_build_id_hash_hex `{UqHashes} (build_digest_hex : str) : result MobileError str :=
  digest ← mobile_parse_hex32 build_digest_hex (B "build_digest");
  Ok (hex_encode (desktop_build_id_hash digest)).

Definition ios_client_data_hash_hex `{UqHashes} (binding_hex : str) : result MobileError str :=
  b ← mobile_parse_hex32 binding_hex (B "binding");
  Ok (hex_encode (ios_client_data_hash b)).

(** ** The stdio helper *)

Record FfiLine := {
  op : str;
  line_id : N;
  line_issuer_pk_json : str;
  line_issuer_name : str;
  line_origin_info : str;
  line_count : N;
  line_sign_response_json : str;
}.

(** The one line of JSON written back. *)
Inductive FfiReply :=
| FfiId (id : N)
| FfiBegin (request_json binding_hex : str)
| FfiHeader (authorization_header : str)
| FfiDone
| FfiError (msg : str).

Record FfiState := { next_id : N; clients : gmap N EatPassClient }.

Definition ffi_handle (line : FfiLine) : run (FfiState * rng) Empty_set FfiReply := fun '(st, g) =>
  let unknown := B "unknown session id; call new first" in
  if decide (op line = B "new") then
    let id := next_id st in
    let st := {| next_id := wrap 64 (id + 1); clients := clients st |} in
    match EatPassClient_new (line_issuer_pk_json line) (line_issuer_name line)
            (line_origin_info line) with
    | Ok c => (Ok (FfiId id), ({| next_id := next_id st; clients := <[id := c]> (clients st) |}, g))
    | Err e => (Ok (FfiError (MobileError_display e)), (st, g))
    | Panic => (Panic, (st, g))
    end
  else if decide (op line = B "begin") then
    match clients st !! line_id line with
    | None => (Ok (FfiError unknown), (st, g))
    | Some c =>
        let '(r, (c, g)) := EatPassClient_begin (N.max (line_count line) 1) (c, g) in
        let st := {| next_id := next_id st; clients := <[line_id line := c]> (clients st) |} in
        (match r with
         | Ok b => Ok (FfiBegin (request_json b) (binding_hex b))
         | Err e => Ok (FfiError (MobileError_display e))
         | Panic => Panic
         end, (st, g))
    end
  else if decide (op line = B "finalize") then
    match clients st !! line_id line with
    | None => (Ok (FfiError unknown), (st, g))
    | Some c =>
        let '(r, (c, g)) := EatPassClient_finalize (line_sign_response_json line) (c, g) in
        let st := {| next_id := next_id st; clients := <[line_id line := c]> (clients st) |} in
        (match r with
         | Ok headers => Ok (FfiHeader (default [] (head headers)))
         | Err e => Ok (FfiError (MobileError_display e))
         | Panic => Panic
         end, (st, g))
    end
  else if decide (op line = B "drop") then
    (Ok FfiDone, ({| next_id := next_id st; clients := delete (line_id line) (clients st) |}, g))
  else (Ok (FfiError (B "unknown op; use new, begin, finalize, drop")), (st, g)).

(** One line of standard input, or the error of reading it. *)
Definition ffi_line `{Json FfiLine} (input : str + str) :
    run (FfiState * rng) Empty_set (list FfiReply) :=
  match input with
  | inl e => mret [FfiError e]
  | inr line =>
      if decide (trim line = []) then mret []
      else
        match json_from_slice (T := FfiLine) line with
        | inl e => mret [FfiError (B "invalid json: " ++ e)]
        | inr v => reply ← ffi_handle v; mret [reply]
        end
  end.

(** The loop of [main] over standard input: the lines written back. *)
Fixpoint ffi_main `{Json FfiLine} (inputs : list (str + str)) :
    run (FfiState * rng) Empty_set (list FfiReply) :=
  match inputs with
  | [] => mret []
  | x :: inputs => out ← ffi_line x; rest ← ffi_main inputs; mret (out ++ rest)
  end.

Definition FfiState_new : FfiState := {| next_id := 1; clients := ∅ |}.

(** ** Facts *)

(** What the mobile bindings hand out can be minted: a request begun by
    the client object, honestly signed and finalized, gives one authorization
    header per token asked for, each of which parses to a token that verifies for
    the client's challenge; the request is consumed, and the binding exported is
    that of the blinded messages. *)
Theorem mobile_mint `{!Sha256Laws, !RngLaws, !BlindSigLaws, !Base64Laws}
    kv g0 i g1 c count g2 b c2 g3 req g4 resp g5 rj g6 r c3 g7 :
  Issuer_generate kv g0 = (i, g1) -> mc_pk c = Issuer_public i ->
  (forall x j, json_to_vec (T := SignRequest) x = inr j -> json_from_slice j = inr x) ->
  EatPassClient_begin count (c, g2) = (Ok b, (c2, g3)) ->
  json_from_slice (T := SignRequest) (request_json b) = inr req ->
  Issuer_blind_sign i req g4 = (Ok resp, g5) ->
  json_from_slice (T := SignResponse) rj = inr resp ->
  EatPassClient_finalize rj (c2, g6) = (r, (c3, g7)) ->
  binding_hex b = hex_encode (binding_of (blinded (req_body req)))
  /\ mc_pending c3 = None
  /\ exists headers, r = Ok headers /\ length headers = N.to_nat count
     /\ Forall (fun h => exists t, parse_authorization h = Ok t
          /\ Verifier_verify (Verifier_new (Issuer_public i)) t (mc_challenge c) = Ok (nonce t))
        headers.
Proof.
  intros Hi Hpk Hj Hb Hreq Hs Hresp Hf. unfold EatPassClient_begin in Hb. rewrite Hpk in Hb.
  destruct (Client_begin _ _ _ g2) as [q g2'] eqn:Hc.
  destruct q as [[req' p]|e|]; cbn [map_err] in Hb; [|done..].
  destruct (json_to_vec req') as [e|j] eqn:Hreqj; cbn [of_sum] in Hb; [done|].
  injection Hb as <- <- <-. cbn [request_json binding_hex] in *.
  apply Hj in Hreqj. assert (req' = req) as -> by congruence.
  unfold EatPassClient_finalize in Hf. rewrite Hresp in Hf. cbn [of_sum set_pending mc_pending mc_pk] in Hf.
  rewrite Hpk in Hf.
  destruct (PendingTokens_finalize p _ resp g6) as [qt g6'] eqn:Hfin. injection Hf as <- <- <-.
  split.
  { f_equal. unfold Client_begin, IssuerPublicKey_token_key_id in Hc.
    unfold client_begin in Hc. destruct (begin_items _ _ _ g2). injection Hc as <- _ _. done. }
  split; [done|].
  destruct (mint_run_complete _ _ _ _ _ _ _ _ _ _ _ _ _ _ _ _ Hi Hc Hs Hfin)
    as (ts & -> & Hl & Hts).
  exists (authorization <$> ts). split; [done|]. split; [by rewrite length_fmap|].
  apply Forall_fmap. eapply Forall_impl; [exact Hts|]. intros t (Hv & Hw & Ha). exists t.
  split; [|done]. rewrite parse_authorization_of, from_to_bytes by done. done.
Qed.

Lemma finalize_needs_begin rj c g r s :
  mc_pending c = None -> EatPassClient_finalize rj (c, g) = (r, s) ->
  s = (c, g) /\ (r = Err MNoPendingRequest
                 \/ exists e, json_from_slice (T := SignResponse) rj = inl e /\ r = Err (MBadSignResponse e)).
Proof.
  intros Hp. unfold EatPassClient_finalize.
  destruct (json_from_slice rj) as [e|resp]; cbn [of_sum]; [|rewrite Hp];
    intros [= <- <-]; split; eauto.
Qed.

(** The helper touches the session it names and no other. *)
Lemma ffi_other_sessions line st g r st' g' k :
  ffi_handle line (st, g) = (r, (st', g')) ->
  k <> line_id line -> (op line = B "new" -> k <> next_id st) ->
  clients st' !! k = clients st !! k.
Proof.
  unfold ffi_handle. intros Hr Hk Hn.
  case_decide as Hop1.
  { destruct (EatPassClient_new _ _ _); injection Hr as _ <- _; cbn; [|done..].
    rewrite lookup_insert_ne; [done|]. by intros <-; apply Hn. }
  case_decide as Hop2.
  { destruct (clients st !! line_id line) as [c|]; [|by injection Hr as _ <- _].
    destruct (EatPassClient_begin _ _) as [q [c' h]]. injection Hr as _ <- _. cbn.
    by rewrite lookup_insert_ne. }
  case_decide as Hop3.
  { destruct (clients st !! line_id line) as [c|]; [|by injection Hr as _ <- _].
    destruct (EatPassClient_finalize _ _) as [q [c' h]]. injection Hr as _ <- _. cbn.
    by rewrite lookup_insert_ne. }
  case_decide; injection Hr as _ <- _; [|done]. cbn. by rewrite lookup_delete_ne.
Qed.

(** The sessions a list of answers opened. *)
Definition opened (l : list FfiReply) : list N :=
  omap (fun r => match r with FfiId id => Some id | _ => None end) l.

Lemma EatPassClient_begin_no_panic n c g : fst (EatPassClient_begin n (c, g)) <> Panic.
Proof.
  unfold EatPassClient_begin, Client_begin. cbn [IssuerPublicKey_token_key_id].
  destruct (client_begin _ _ _ _ g) as [[body inner] g1]. cbn [map_err].
  by destruct (json_to_vec _).
Qed.

Lemma EatPassClient_finalize_no_panic rj c g : fst (EatPassClient_finalize rj (c, g)) <> Panic.
Proof.
  unfold EatPassClient_finalize. destruct (json_from_slice rj) as [e|resp]; [done|]. cbn [of_sum].
  destruct (mc_pending c) as [pend|]; [|done]. unfold PendingTokens_finalize, client_finalize.
  case_decide; [done|]. case_decide; [done|]. by destruct (finalize_items _ _ _ g).
Qed.

(** One request: it is answered, and opens the next session or none. *)
Lemma ffi_handle_opens line st g r st' g' :
  ffi_handle line (st, g) = (r, (st', g')) ->
  exists reply, r = Ok reply
  /\ ((next_id st' = next_id st /\ opened [reply] = []
        /\ forall k, is_Some (clients st' !! k) -> is_Some (clients st !! k))
      \/ (next_id st' = wrap 64 (next_id st + 1)
        /\ ((opened [reply] = [] /\ clients st' = clients st)
            \/ (opened [reply] = [next_id st]
                /\ forall k, is_Some (clients st' !! k) -> k = next_id st \/ is_Some (clients st !! k))))).
Proof.
  assert (Hins : forall (m : gmap N EatPassClient) k c c' j, m !! k = Some c ->
    is_Some (<[k := c']> m !! j) -> is_Some (m !! j)).
  { intros m k c c' j Hk. rewrite lookup_insert_is_Some'. by intros [<-|?]; [exists c|]. }
  assert (Hkeep : forall k, is_Some (clients st !! k) -> is_Some (clients st !! k)) by done.
  unfold ffi_handle. intros Hr. case_decide as Hop1.
  { unfold EatPassClient_new in Hr. destruct (json_from_slice _) as [e|pk]; cbn in Hr;
      injection Hr as <- <- _; (eexists; split; [reflexivity|]); right; (split; [done|]).
    - by left.
    - right. split; [done|]. cbn. intros k. rewrite lookup_insert_is_Some'. by intros [<-|?]; [left|right]. }
  case_decide as Hop2.
  { destruct (clients st !! line_id line) as [c|] eqn:Hc; [|injection Hr as <- <- _; eexists; split; [done|by left]].
    pose proof (EatPassClient_begin_no_panic (N.max (line_count line) 1) c g) as Hnp.
    destruct (EatPassClient_begin _ _) as [[b|e|] [c1 g1]]; injection Hr as <- <- _; [..|done];
      (eexists; split; [done|]); left; (split; [done|]); (split; [done|]); intros k; by eapply Hins. }
  case_decide as Hop3.
  { destruct (clients st !! line_id line) as [c|] eqn:Hc; [|injection Hr as <- <- _; eexists; split; [done|by left]].
    pose proof (EatPassClient_finalize_no_panic (line_sign_response_json line) c g) as Hnp.
    destruct (EatPassClient_finalize _ _) as [[b|e|] [c1 g1]]; injection Hr as <- <- _; [..|done];
      (eexists; split; [done|]); left; (split; [done|]); (split; [done|]); intros k; by eapply Hins. }
  case_decide; injection Hr as <- <- _; (eexists; split; [done|]); left; (split; [done|]); (split; [done|]); [|done].
  cbn. intros k. rewrite lookup_delete_is_Some. by intros [_ ?].
Qed.

Lemma opened_app l l' : opened (l ++ l') = opened l ++ opened l'.
Proof. apply omap_app. Qed.

(** The inputs that are answered: the others are blank. *)
Definition asks (x : str + str) : bool :=
  match x with inl _ => true | inr line => negb (bool_decide (trim line = [])) end.

(** What [n] inputs do to the sessions: new ones get fresh numbers, and only
    they are added. *)
Record sessions_step (n : nat) (st st' : FfiState) (out : list FfiReply) : Prop := {
  ss_next : next_id st <= next_id st' <= next_id st + N.of_nat n;
  ss_once : NoDup (opened out);
  ss_fresh : Forall (fun k => next_id st <= k < next_id st') (opened out);
  ss_live k : is_Some (clients st' !! k) -> k ∈ opened out \/ is_Some (clients st !! k);
}.

Lemma sessions_step_none n st out : opened out = [] -> sessions_step n st st out.
Proof. intros Ho. split; rewrite ?Ho; [lia|constructor|constructor|by right]. Qed.

Lemma sessions_step_app n m st st1 st2 out out' :
  sessions_step n st st1 out -> sessions_step m st1 st2 out' ->
  sessions_step (n + m) st st2 (out ++ out').
Proof.
  intros [Hn Ho Hf Hl] [Hn' Ho' Hf' Hl']. split; rewrite ?opened_app.
  - lia.
  - apply NoDup_app. split_and!; [done| |done]. intros k Hk Hk'.
    rewrite Forall_forall in Hf, Hf'. specialize (Hf _ Hk). specialize (Hf' _ Hk'). lia.
  - apply Forall_app. split; (eapply Forall_impl; [done|]); cbn; lia.
  - intros k Hk. rewrite elem_of_app. destruct (Hl' _ Hk) as [?|?%Hl]; tauto.
Qed.

Lemma ffi_line_sessions `{Json FfiLine} x st g r st' g' :
  next_id st + 1 < 2 ^ 64 -> ffi_line x (st, g) = (r, (st', g')) ->
  exists out, r = Ok out /\ length out = (if asks x then 1 else 0)%nat /\ sessions_step 1 st st' out.
Proof.
  intros Hlt. unfold ffi_line, asks. destruct x as [e|line].
  { intros [= <- <- _]. eexists. split_and!; [done|done|by apply sessions_step_none]. }
  destruct (decide (trim line = [])) as [Hb|Hb].
  { intros [= <- <- _]. rewrite bool_decide_true by done. eexists. split_and!; [done|done|by apply sessions_step_none]. }
  rewrite bool_decide_false by done. destruct (json_from_slice _) as [e|v].
  { intros [= <- <- _]. eexists. split_and!; [done|done|by apply sessions_step_none]. }
  unfold mbind, run_bind. destruct (ffi_handle v (st, g)) as [q [st1 g1]] eqn:Hh.
  apply ffi_handle_opens in Hh as (reply & -> & Hcase). intros [= <- <- _].
  exists [reply]. split_and!; [done|done|]. rewrite wrap_small in Hcase by lia.
  destruct Hcase as [(Hn & Ho & Hk)|(Hn & [[Ho Hk]|[Ho Hk]])]; split; rewrite ?Hn, ?Ho; try lia.
  1-2, 4-5: constructor.
  - by right; apply Hk.
  - rewrite Hk. by right.
  - by apply NoDup_singleton.
  - apply Forall_singleton. lia.
  - intros k [->|?]%Hk; [left; by apply list_elem_of_singleton|by right].
Qed.

Lemma ffi_main_from `{Json FfiLine} inputs st g r st' g' :
  next_id st + N.of_nat (length inputs) < 2 ^ 64 ->
  ffi_main inputs (st, g) = (r, (st', g')) ->
  exists replies, r = Ok replies /\ length replies = length (filter (fun x => asks x = true) inputs)
    /\ sessions_step (length inputs) st st' replies.
Proof.
  revert st g r st' g'. induction inputs as [|x inputs IH]; intros st g r st' g' Hlt; cbn [ffi_main length] in *.
  { intros [= <- <- _]. exists []. split_and!; [done|done|by apply sessions_step_none]. }
  unfold mbind at 1, run_bind at 1. destruct (ffi_line x (st, g)) as [q [st1 g1]] eqn:Hx.
  apply ffi_line_sessions in Hx as (out & -> & Hlen & Hs); [|lia].
  unfold mbind, run_bind. destruct (ffi_main inputs (st1, g1)) as [q [st2 g2]] eqn:Hm.
  apply IH in Hm as (rest & -> & Hlen' & Hs'); [|destruct Hs; lia]. intros [= <- <- _].
  exists (out ++ rest). split; [done|]. split; [|exact (sessions_step_app 1 _ _ _ _ _ _ Hs Hs')].
  rewrite length_app, Hlen, Hlen', filter_cons. by destruct (asks x).
Qed.

(** What a request is answered, from the sessions and the randomness at it: a new
    session's number, what its client gives for an open session, an error for
    one that is not. *)
Definition expected_reply (v : FfiLine) (s : FfiState * rng) : FfiReply :=
  let '(st, g) := s in
  let on_session (f : EatPassClient -> FfiReply) :=
    match clients st !! line_id v with
    | Some c => f c
    | None => FfiError (B "unknown session id; call new first")
    end in
  let or_error {T} (r : result MobileError T) (f : T -> FfiReply) :=
    match r with Ok x => f x | Err e => FfiError (MobileError_display e) | Panic => FfiError [] end in
  if decide (op v = B "new") then
    or_error (EatPassClient_new (line_issuer_pk_json v) (line_issuer_name v) (line_origin_info v))
      (fun _ => FfiId (next_id st))
  else if decide (op v = B "begin") then
    on_session (fun c => or_error (EatPassClient_begin (N.max (line_count v) 1) (c, g)).1
      (fun b => FfiBegin (request_json b) (binding_hex b)))
  else if decide (op v = B "finalize") then
    on_session (fun c => or_error (EatPassClient_finalize (line_sign_response_json v) (c, g)).1
      (fun headers => FfiHeader (default [] (head headers))))
  else if decide (op v = B "drop") then FfiDone
  else FfiError (B "unknown op; use new, begin, finalize, drop").

Lemma ffi_handle_reply v s : (ffi_handle v s).1 = Ok (expected_reply v s).
Proof.
  destruct s as [st g]. unfold ffi_handle, expected_reply. case_decide.
  { unfold EatPassClient_new. by destruct (json_from_slice _). }
  case_decide.
  { destruct (clients st !! line_id v) as [c|]; [|done].
    pose proof (EatPassClient_begin_no_panic (N.max (line_count v) 1) c g) as Hp.
    by destruct (EatPassClient_begin _ _) as [[b|e|] [c1 g1]]. }
  case_decide.
  { destruct (clients st !! line_id v) as [c|]; [|done].
    pose proof (EatPassClient_finalize_no_panic (line_sign_response_json v) c g) as Hp.
    by destruct (EatPassClient_finalize _ _) as [[b|e|] [c1 g1]]. }
  by case_decide.
Qed.

(** The same for a line of input that is not blank. *)
Definition answer_to `{Json FfiLine} (x : str + str) (s : FfiState * rng) : FfiReply :=
  match x with
  | inl e => FfiError e
  | inr line =>
      match json_from_slice (T := FfiLine) line with
      | inl e => FfiError (B "invalid json: " ++ e)
      | inr v => expected_reply v s
      end
  end.

Lemma ffi_line_answer `{Json FfiLine} x s :
  (ffi_line x s).1 = Ok (if asks x then [answer_to x s] else []).
Proof.
  unfold ffi_line, asks, answer_to. destruct x as [e|line]; [done|].
  destruct (decide (trim line = [])) as [Hb|Hb]; [by rewrite bool_decide_true|].
  rewrite bool_decide_false by done. cbn [negb]. destruct (json_from_slice line) as [e|v]; [done|].
  unfold mbind, run_bind. pose proof (ffi_handle_reply v s) as Hr.
  destruct (ffi_handle v s) as [r s']. cbn [fst] in Hr. by subst r.
Qed.

(** The loop over the lines before a line, that line, and the lines after it. *)
Lemma ffi_main_app `{Json FfiLine} l l' s :
  ffi_main (l ++ l') s = (out ← ffi_main l; rest ← ffi_main l'; mret (out ++ rest)) s.
Proof.
  revert s. induction l as [|x l IH]; intros s; cbn [app ffi_main].
  { unfold mbind, run_bind. cbn. by destruct (ffi_main l' s) as [[]]. }
  unfold mbind, run_bind in *. destruct (ffi_line x s) as [[out|e|] s1]; [|done..].
  rewrite IH. destruct (ffi_main l s1) as [[rest|e|] s2]; [|done..].
  cbn. destruct (ffi_main l' s2) as [[rest'|e|] s3]; [|done..]. cbn. by rewrite app_assoc.
Qed.

(** C38: the helper's loop answers every line that is not blank, once and in
    order, whatever it reads: it never panics; the reply to a line comes right
    after the replies to the lines before it, and is the one expected of the
    sessions those lines left (a new number, what the session's client gives, or
    the error of the client, of an unknown session, of reading or of decoding);
    every session gets a number of its own, and a session that is open was opened
    by one of the replies. *)
Theorem ffi_main_sessions `{Json FfiLine} inputs g r st' g' :
  N.of_nat (length inputs) + 1 < 2 ^ 64 ->
  ffi_main inputs (FfiState_new, g) = (r, (st', g')) ->
  exists replies, r = Ok replies /\ length replies = length (filter (fun x => asks x = true) inputs)
    /\ (forall k x, inputs !! k = Some x -> asks x = true ->
        exists before s, ffi_main (take k inputs) (FfiState_new, g) = (Ok before, s)
          /\ before ++ [answer_to x s] `prefix_of` replies)
    /\ NoDup (opened replies) /\ forall k, is_Some (clients st' !! k) -> k ∈ opened replies.
Proof.
  intros Hlt Hr.
  assert (Hn : next_id FfiState_new + N.of_nat (length inputs) < 2 ^ 64) by (change (next_id _) with 1; lia).
  destruct (ffi_main_from _ _ _ _ _ _ Hn Hr) as (replies & -> & Hlen & [_ Ho _ Hl]).
  exists replies. split_and!; [done..| |done|].
  - intros k x Hx Hask. rewrite <- (take_drop_middle _ _ _ Hx), ffi_main_app in Hr.
    apply run_bind_Ok in Hr as (before & s & Hb & Hr). exists before, s.
    apply run_bind_Ok in Hr as (rest & s1 & Hrest & [= <- _]). cbn [ffi_main] in Hrest.
    apply run_bind_Ok in Hrest as (out & s2 & Hline & Hrest).
    apply run_bind_Ok in Hrest as (rest' & s3 & _ & [= <- _]).
    pose proof (ffi_line_answer x s) as Ha. rewrite Hline, Hask in Ha. injection Ha as ->.
    split; [done|]. exists rest'. by rewrite <- app_assoc.
  - intros k Hk. destruct (Hl k Hk) as [?|[c Hc]]; [done|]. cbn in Hc. by rewrite lookup_empty in Hc.
Qed.

End mobile.
