(* ===== verification/ClientFlow.v ===== *)
(** * The command-line client: cli/src/client.rs

[client_run] mints tokens: the issuer's key is checked against the
transparency log, token inputs are blinded, evidence is collected for their
binding, and the attester's authorization is exchanged for signatures.  The
services and the machine are interfaces ([ClientHost], [Machine]) on a world
state. *)

From S2P Require Import Prelude RustStr Externals Pomfrit Core Http Gate Authorize Transparency.
From S2P Require Import Policy Appraise Wire.

(** What [run] calls: each request returns the decoded body of a successful
    answer or the text of the failure. *)
Class ClientHost (W : Type) := {
  get_keys : str -> run W str IssuerPublicKey;
  get_kt : str -> run W str KtResponse;
  post_authorize : str -> AuthorizeBody -> run W str AuthorizeResponse;
  (** The status and text of a refusal, or the response. *)
  post_sign : str -> SignBodyWire -> run W str ((N * str) + SignResponse);
  (** [GET] with an [authorization] header or none: the status, the ASCII
      [www-authenticate] header and the text. *)
  get_resource : str -> option str -> run W str (N * option str * str);
  (** A status as reqwest displays it, its code with the reason. *)
  status_text : N -> str;
}.

(** The machine the client runs on. *)
Class Machine (W : Type) := {
  read_stdin : run W str bytes;
  read_file : str -> run W str bytes;
  remove_file : str -> run W Empty_set unit;
  (** A program with its arguments and added environment: whether it succeeded
      and the text of its status. *)
  spawn : str -> list str -> list (str * str) -> run W str (bool * str);
  (** [getrandom] on 8 bytes. *)
  getrandom8 : run W str bytes;
  (** [temp_dir().join(name)]. *)
  temp_path : str -> str;
}.

Inductive EvidenceInput :=
| EvFile (path : str)
| EvAzureCommand (cmd : str)
| EvDesktopTpm (script build_digest : str).

Definition DEFAULT_UQ_COLLECT_CMD : str := B "uq azure collect".
Definition DEFAULT_DESKTOP_TPM_COLLECT_SCRIPT : str := B "scripts/collect-desktop-tpm.sh".

Section client.
Context `{Sha256, Hex, Base64, Faest, BlindSig, BuildProfile} {W : Type} `{!ClientHost W, !Machine W}.

(** ** Evidence *)

Definition mapping_err {E E' T} (f : E -> E') (m : run W E T) : run W E' T := fun w =>
  let '(r, w) := m w in (map_err f r, w).

Definition tempfile_path (prefix ext : str) : run W str str :=
  rnd ← mapping_err (fun e => B "rng: " ++ e) getrandom8;
  mret (temp_path (prefix ++ B "-" ++ hex_encode rnd ++ B "." ++ ext)).

Definition read_evidence_file (path : str) : run W str bytes :=
  if decide (path = B "-") then
    mapping_err (fun e => B "read evidence from stdin: " ++ e) read_stdin
  else mapping_err (fun e => B "read evidence " ++ path ++ B ": " ++ e) (read_file path).

Definition collect_evidence (input : EvidenceInput) (b : bytes) : run W str bytes :=
  match input with
  | EvFile path => read_evidence_file path
  | EvAzureCommand cmd =>
      out ← tempfile_path (B "eatpass-azure-bundle") (B "json");
      match split_whitespace cmd with
      | [] => throw (B "azure collect command is empty")
      | prog :: argv =>
          let binding_hex := hex_encode b in
          '(success, status) ← mapping_err (fun e => B "spawn `" ++ cmd ++ B "`: " ++ e)
            (spawn prog (argv ++ [B "--value-x"; binding_hex; B "-o"; out]) []);
          if negb success then
            throw (B "`" ++ cmd ++ B " --value-x " ++ binding_hex ++ B "` exited with " ++ status)
          else
            bs ← mapping_err (fun e => B "read collected bundle " ++ out ++ B ": " ++ e)
                      (read_file out);
            _ ← mapping_err (fun e : Empty_set => match e with end) (remove_file out);
            mret bs
      end
  | EvDesktopTpm script build_digest =>
      out ← tempfile_path (B "eatpass-desktop-tpm") (B "json");
      let binding_hex := hex_encode b in
      '(success, status) ← mapping_err
        (fun e => B "spawn desktop tpm collect `" ++ script ++ B "`: " ++ e)
        (spawn (B "bash") [script; B "-o"; out]
           [(B "BINDING", binding_hex); (B "BUILD_DIGEST", build_digest)]);
      if negb success then throw (B "desktop tpm collect exited with " ++ status)
      else mapping_err (fun e => B "read " ++ out ++ B ": " ++ e) (read_file out)
  end.

(** ** The mint *)

(** What [run] works on: the world, the randomness, the lines printed to
    standard output. *)
Record ClientWorld := {
  cw_world : W;
  cw_rng : rng;
  cw_out : list str;
}.

Definition in_world {T} (m : run W str T) : run ClientWorld str T := fun s =>
  let '(r, w) := m (cw_world s) in
  (r, {| cw_world := w; cw_rng := cw_rng s; cw_out := cw_out s |}).

Definition with_rng {E T} (conv : E -> str) (m : rng -> result E T * rng) :
    run ClientWorld str T := fun s =>
  let '(r, g) := m (cw_rng s) in
  (map_err conv r, {| cw_world := cw_world s; cw_rng := g; cw_out := cw_out s |}).

Definition println (line : str) : run ClientWorld str unit := fun s =>
  (Ok tt, {| cw_world := cw_world s; cw_rng := cw_rng s; cw_out := cw_out s ++ [line] |}).

Fixpoint println_all (lines : list str) : run ClientWorld str unit :=
  match lines with
  | [] => mret tt
  | l :: lines => _ ← println l; println_all lines
  end.

(** The block that checks the served log. *)
Definition check_transparency (kt : KtResponse) (log_pub tkid : bytes)
    (known_head : option SignedHead) : result str N :=
  let served_pub := match hex_decode (trim (kt_log_pub_hex kt)) with
                    | inr b => b | inl _ => [] end in
  if decide (served_pub <> log_pub) then
    Err (B "kt: issuer serves log pubkey " ++ kt_log_pub_hex kt ++ B " but client pinned "
      ++ hex_encode log_pub)
  else
    _ ← map_err (fun e => B "kt: log does not verify against pinned key: "
                   ++ TransparencyError_display e)
          (verify_log log_pub (kt_records kt) (kt_signed_head kt));
    seq ← map_err (fun e => B "kt: issuer key not in transparency log: "
                     ++ TransparencyError_display e)
            (verify_inclusion (kt_records kt) tkid);
    _ ← match known_head with
        | Some old => map_err (fun e => B "kt: new log is not consistent with the head you pinned: "
                        ++ TransparencyError_display e)
                        (verify_consistency old (kt_records kt))
        | None => Ok tt
        end;
    Ok seq.

Definition fetch_origin_challenge (resource_url : str) : run W str TokenChallenge :=
  '(code, header, _) ← get_resource resource_url None;
  if decide (code <> UNAUTHORIZED) then
    throw (B "expected 401 from origin at " ++ resource_url ++ B ", got "
      ++ status_text (W := W) code)
  else
    hdr ← lift (ok_or header (B "401 from " ++ resource_url
                  ++ B " missing WWW-Authenticate header"));
    lift (map_err (fun e => B "parse challenge: " ++ Error_display e) (parse_www_authenticate hdr)).

(** The key and the challenge a mint is for, with the log checked. *)
Definition mint_setup (issuer_base issuer_name origin_info : str) (present : option str)
    (log_pub : bytes) (known_head : option SignedHead) :
    run ClientWorld str (IssuerPublicKey * TokenChallenge) :=
  pk ← in_world (get_keys (issuer_base ++ B "/keys"));
  tkid ← lift (map_err Error_display (IssuerPublicKey_token_key_id pk));
  kt ← in_world (get_kt (issuer_base ++ B "/kt"));
  _ ← lift (check_transparency kt log_pub tkid known_head);
  challenge ← match present with
              | Some url => in_world (fetch_origin_challenge url)
              | None => mret (TokenChallenge_new issuer_name origin_info)
              end;
  mret (pk, challenge).

(** From a checked key to finalized tokens. *)
Definition mint (issuer_base attester_base : str) (evidence : EvidenceInput) (count : nat)
    (pk : IssuerPublicKey) (challenge : TokenChallenge) : run ClientWorld str (list SpendToken) :=
  '(req, pending) ← with_rng (fun e => B "begin: " ++ Error_display e)
                      (Client_begin pk challenge count);
  let b := SignRequest_binding req in
  eat ← in_world (collect_evidence evidence b);
  auth ← in_world (post_authorize (attester_base ++ B "/authorize")
    {| ab_eat_b64 := b64_encode STANDARD eat; ab_binding := hex_encode b;
       ab_max_batch := wrap 32 (N.of_nat count) |});
  answer ← in_world (post_sign (issuer_base ++ B "/sign")
    {| sb_req := req; sb_authorization_b64 := aresp_authorization_b64 auth |});
  match answer with
  | inl (code, text) =>
      throw (B "issuer rejected /sign (" ++ status_text (W := W) code ++ B "): " ++ text)
  | inr sign_resp =>
      with_rng (fun e => B "finalize: " ++ Error_display e)
        (PendingTokens_finalize pending pk sign_resp)
  end.

Definition present_first (tokens : list SpendToken) (resource_url : str) :
    run ClientWorld str unit :=
  first ← lift (ok_or (head tokens) (B "no tokens"));
  '(_, _, text) ← in_world (get_resource resource_url (Some (authorization first)));
  println text.

Definition client_run (issuer_url attester_url : str) (evidence : EvidenceInput) (count : nat)
    (issuer_name origin_info : str) (present : option str) (log_pub : bytes)
    (known_head : option SignedHead) : run ClientWorld str unit :=
  let issuer_base := trim_end_matches x2f issuer_url in
  let attester_base := trim_end_matches x2f attester_url in
  '(pk, challenge) ← mint_setup issuer_base issuer_name origin_info present log_pub known_head;
  tokens ← mint issuer_base attester_base evidence count pk challenge;
  _ ← println_all (authorization <$> tokens);
  match present with
  | Some url => present_first tokens url
  | None => mret tt
  end.

(** ** Facts *)

(** The checks [check_transparency] passes. *)
Definition trusted_log (kt : KtResponse) (log_pub tkid : bytes) (known : option SignedHead) : Prop :=
  hex_decode (trim (kt_log_pub_hex kt)) = inr log_pub
  /\ verify_log log_pub (kt_records kt) (kt_signed_head kt) = Ok tt
  /\ (exists n, verify_inclusion (kt_records kt) tkid = Ok n)
  /\ (forall old, known = Some old -> verify_consistency old (kt_records kt) = Ok tt).

Lemma check_transparency_Ok kt log_pub tkid known :
  log_pub <> [] ->
  (exists n, check_transparency kt log_pub tkid known = Ok n)
  <-> trusted_log kt log_pub tkid known.
Proof.
  intros Hne. unfold check_transparency, trusted_log. split.
  - intros (n & Hc). case_decide as Hp; [done|].
    apply bind_Ok in Hc as ([] & Hv%map_err_Ok & Hc).
    apply bind_Ok in Hc as (s & Hi%map_err_Ok & Hc).
    apply bind_Ok in Hc as ([] & Hk & _).
    split_and!; [|done|by exists s|].
    + destruct (hex_decode _) as [e|b] eqn:Hh; [|f_equal; tauto].
      exfalso. apply Hne. by destruct (decide (([] : bytes) = log_pub)).
    + intros old ->. by apply map_err_Ok in Hk.
  - intros (-> & Hv & [n Hi] & Hk). exists n. rewrite decide_False by tauto.
    rewrite Hv, Hi. cbn [map_err mbind result_bind].
    destruct known as [old|]; [by rewrite (Hk old eq_refl)|done].
Qed.

Lemma check_transparency_no_panic kt log_pub tkid known :
  sh_seq (kt_signed_head kt) + 1 < 2 ^ 64 ->
  check_transparency kt log_pub tkid known <> Panic.
Proof.
  intros Hs. unfold check_transparency. case_decide; [done|].
  rewrite bind_Panic. intros [Hp|([] & _ & Hp)].
  { apply map_err_Panic in Hp. by apply verify_log_no_panic in Hp. }
  apply bind_Panic in Hp as [Hp|(n & _ & Hp)].
  { apply map_err_Panic in Hp. unfold verify_inclusion in Hp. by apply ok_or_Panic in Hp. }
  apply bind_Panic in Hp as [Hp|([] & _ & Hp)]; [|done].
  destruct known as [old|]; [|done]. apply map_err_Panic in Hp.
  by apply verify_consistency_no_panic in Hp.
Qed.

Lemma mint_setup_Ok base name info present log_pub known s pk ch s' :
  log_pub <> [] ->
  mint_setup base name info present log_pub known s = (Ok (pk, ch), s') ->
  exists kt w1 w2, get_keys (base ++ B "/keys") (cw_world s) = (Ok pk, w1)
    /\ get_kt (base ++ B "/kt") w1 = (Ok kt, w2)
    /\ trusted_log kt log_pub (Scheme_token_key_id (pk_key pk)) known
    /\ match present with
       | None => ch = TokenChallenge_new name info
                 /\ s' = {| cw_world := w2; cw_rng := cw_rng s; cw_out := cw_out s |}
       | Some url => exists w3, fetch_origin_challenge url w2 = (Ok ch, w3)
                 /\ s' = {| cw_world := w3; cw_rng := cw_rng s; cw_out := cw_out s |}
       end.
Proof.
  intros Hne. unfold mint_setup. intros (pk' & s1 & Hk & Hr)%run_bind_Ok.
  apply run_bind_Ok in Hr as (tkid & s2 & [Ht ->]%lift_Ok & Hr).
  apply run_bind_Ok in Hr as (kt & s3 & Hkt & Hr).
  apply run_bind_Ok in Hr as (n & s4 & [Hc ->]%lift_Ok & Hr).
  apply run_bind_Ok in Hr as (ch' & s5 & Hp & [= <- <- <-]).
  unfold in_world in Hk. destruct (get_keys _ _) as [q w1] eqn:Hgk. injection Hk as -> <-.
  unfold in_world in Hkt. cbn [cw_world cw_rng cw_out] in Hkt.
  destruct (get_kt _ w1) as [q w2] eqn:Hgkt. injection Hkt as -> <-.
  injection Ht as <-. exists kt, w1, w2. split_and!; [done..| |].
  - by apply check_transparency_Ok; [|exists n].
  - destruct present as [url|].
    + unfold in_world in Hp. cbn [cw_world cw_rng cw_out] in Hp.
      destruct (fetch_origin_challenge url w2) as [q w3] eqn:Hf. injection Hp as -> <-. by exists w3.
    + by injection Hp as <- <-.
Qed.

(** C37: a client discloses nothing for an untrusted key: when the served
    log is not under the pinned key, does not verify, does not include the served
    key or is not consistent with the head the client remembers, the run fails
    after the two requests that fetched key and log; no evidence is collected, no
    attester or issuer is asked, and nothing is printed. *)
Theorem client_run_untrusted issuer_url attester_url evidence count name info present log_pub known
    s pk w1 kt w2 :
  log_pub <> [] ->
  let base := trim_end_matches x2f issuer_url in
  get_keys (base ++ B "/keys") (cw_world s) = (Ok pk, w1) ->
  get_kt (base ++ B "/kt") w1 = (Ok kt, w2) ->
  ~ trusted_log kt log_pub (Scheme_token_key_id (pk_key pk)) known ->
  exists r, client_run issuer_url attester_url evidence count name info present log_pub known s
      = (r, {| cw_world := w2; cw_rng := cw_rng s; cw_out := cw_out s |})
    /\ r <> Ok tt.
Proof.
  intros Hne base Hk Hkt Ht. unfold client_run. fold base.
  enough (exists r, mint_setup base name info present log_pub known s
      = (r, {| cw_world := w2; cw_rng := cw_rng s; cw_out := cw_out s |})
      /\ forall x, r <> Ok x) as (r & Hr & Hno).
  { unfold mbind at 1, run_bind at 1. rewrite Hr.
    destruct r as [x|e|]; [by destruct (Hno x)|by exists (Err e)|by exists Panic]. }
  unfold mint_setup, in_world, lift, mbind, run_bind. rewrite Hk.
  cbn [IssuerPublicKey_token_key_id map_err cw_world cw_rng cw_out]. rewrite Hkt.
  destruct (check_transparency kt log_pub (Scheme_token_key_id (pk_key pk)) known) as [n|e|] eqn:Hc.
  - exfalso. apply Ht, check_transparency_Ok; [done|]. by exists n.
  - by exists (Err e).
  - by exists Panic.
Qed.

Lemma println_all_spec lines s :
  println_all lines s
  = (Ok tt, {| cw_world := cw_world s; cw_rng := cw_rng s; cw_out := cw_out s ++ lines |}).
Proof.
  revert s. induction lines as [|l lines IH]; intros s; cbn [println_all].
  { rewrite app_nil_r. by destruct s. }
  unfold mbind, run_bind, println. rewrite IH. cbn [cw_world cw_rng cw_out].
  by rewrite <- app_assoc.
Qed.

(** The messages of an honest exchange. *)
Lemma mint_Ok base abase evidence count pk ch s ts s' :
  mint base abase evidence count pk ch s = (Ok ts, s') ->
  exists req pending eat auth resp g1 w1 w2 w3 g2,
    Client_begin pk ch count (cw_rng s) = (Ok (req, pending), g1)
    /\ collect_evidence evidence (SignRequest_binding req) (cw_world s) = (Ok eat, w1)
    /\ post_authorize (abase ++ B "/authorize")
         {| ab_eat_b64 := b64_encode STANDARD eat; ab_binding := hex_encode (SignRequest_binding req);
            ab_max_batch := wrap 32 (N.of_nat count) |} w1 = (Ok auth, w2)
    /\ post_sign (base ++ B "/sign")
         {| sb_req := req; sb_authorization_b64 := aresp_authorization_b64 auth |} w2
       = (Ok (inr resp), w3)
    /\ PendingTokens_finalize pending pk resp g1 = (Ok ts, g2)
    /\ s' = {| cw_world := w3; cw_rng := g2; cw_out := cw_out s |}.
Proof.
  unfold mint. intros ([req pending] & s1 & Hb & Hr)%run_bind_Ok.
  unfold with_rng in Hb. destruct (Client_begin pk ch count (cw_rng s)) as [q g1] eqn:Hcb.
  injection Hb as Hb <-. apply map_err_Ok in Hb as ->.
  apply run_bind_Ok in Hr as (eat & s2 & He & Hr). unfold in_world in He.
  cbn [cw_world cw_rng cw_out] in He.
  destruct (collect_evidence _ _ _) as [q w1] eqn:Hce. injection He as -> <-.
  apply run_bind_Ok in Hr as (auth & s3 & Ha & Hr). unfold in_world in Ha.
  cbn [cw_world cw_rng cw_out] in Ha.
  destruct (post_authorize _ _ _) as [q w2] eqn:Hpa. injection Ha as -> <-.
  apply run_bind_Ok in Hr as (answer & s4 & Hs & Hr). unfold in_world in Hs.
  cbn [cw_world cw_rng cw_out] in Hs.
  destruct (post_sign _ _ _) as [q w3] eqn:Hps. injection Hs as -> <-.
  destruct answer as [[code text]|resp]; [done|].
  unfold with_rng in Hr. cbn [cw_world cw_rng cw_out] in Hr.
  destruct (PendingTokens_finalize _ _ _ _) as [q g2] eqn:Hf. injection Hr as Hr <-.
  apply map_err_Ok in Hr as ->. by exists req, pending, eat, auth, resp, g1, w1, w2, w3, g2.
Qed.

(** What finalizing gives: one token per requested one, for the key and the
    challenge the mint was begun with. *)
Lemma begin_finalize_tokens pk ch count g req pending g1 resp g2 ts g3 :
  Client_begin pk ch count g = (Ok (req, pending), g1) ->
  PendingTokens_finalize pending pk resp g2 = (Ok ts, g3) ->
  length ts = count /\ Forall (fun t => token_key_id t = Scheme_token_key_id (pk_key pk)
    /\ challenge_digest t = TokenChallenge_digest ch /\ token_type t = TOKEN_TYPE) ts.
Proof.
  unfold Client_begin, PendingTokens_finalize, IssuerPublicKey_token_key_id, client_begin.
  destruct (begin_items _ _ count g) as [l g1'] eqn:Hl. intros [= _ <- _].
  cbn [pt_inner]. unfold client_finalize. cbn [pending_pk pending_items blind_sigs].
  rewrite decide_False by tauto. case_decide as Hlen; [done|].
  destruct (finalize_items _ _ _ g2) as [ts' g3'] eqn:Hf. intros [= <- _].
  apply finalize_items_spec in Hf. pose proof (Forall2_length _ _ _ Hf) as Hl2. split.
  - rewrite <- Hl2, length_zip. apply begin_items_length in Hl. rewrite length_fmap in *. lia.
  - eapply Forall2_Forall_r; [exact Hf|]. apply Forall_true.
    intros [item bsig] t (h & h' & Ht). unfold finalize_item in Ht.
    destruct (bs_sign_3 _ _ _ _ _ h) as [[pr r] k]. by injection Ht as <- _.
Qed.

(** What a finished run printed: the authorization headers of exactly
    the tokens asked for, made for a key whose log passed every check and for the
    run's challenge, and one more line where a resource was asked for. *)
Theorem client_run_Ok issuer_url attester_url evidence count name info present log_pub known s s' :
  log_pub <> [] ->
  client_run issuer_url attester_url evidence count name info present log_pub known s
    = (Ok tt, s') ->
  exists pk kt ch w1 w2 ts rest,
    get_keys (trim_end_matches x2f issuer_url ++ B "/keys") (cw_world s) = (Ok pk, w1)
    /\ get_kt (trim_end_matches x2f issuer_url ++ B "/kt") w1 = (Ok kt, w2)
    /\ trusted_log kt log_pub (Scheme_token_key_id (pk_key pk)) known
    /\ cw_out s' = cw_out s ++ (authorization <$> ts) ++ rest
    /\ (length rest = match present with Some _ => 1 | None => 0 end)%nat
    /\ length ts = count
    /\ Forall (fun t => token_key_id t = Scheme_token_key_id (pk_key pk)
         /\ challenge_digest t = TokenChallenge_digest ch /\ token_type t = TOKEN_TYPE) ts
    /\ (present = None -> ch = TokenChallenge_new name info).
Proof.
  intros Hne. unfold client_run. intros ([pk ch] & s1 & Hset & Hr)%run_bind_Ok.
  apply mint_setup_Ok in Hset as (kt & w1 & w2 & Hk & Hkt & Ht & Hch); [|done].
  assert (Hout : cw_out s1 = cw_out s).
  { destruct present; [destruct Hch as (w3 & _ & ->)|destruct Hch as [_ ->]]; done. }
  apply run_bind_Ok in Hr as (ts & s2 & Hm & Hr).
  apply mint_Ok in Hm as (req & pending & eat & auth & resp & g1 & w3 & w4 & w5 & g2 & Hb & _ & _
    & _ & Hf & ->).
  apply run_bind_Ok in Hr as ([] & s3 & Hp & Hr). rewrite println_all_spec in Hp.
  injection Hp as <-. cbn [cw_out] in Hr.
  pose proof (begin_finalize_tokens _ _ _ _ _ _ _ _ _ _ _ Hb Hf) as [Hlen Hts].
  exists pk, kt, ch, w1, w2, ts.
  destruct present as [url|].
  - unfold present_first in Hr. apply run_bind_Ok in Hr as (t & s4 & [_ ->]%lift_Ok & Hr).
    apply run_bind_Ok in Hr as ([[c h] text] & s5 & Hg & Hr).
    unfold in_world in Hg. cbn [cw_world cw_rng cw_out] in Hg.
    destruct (get_resource _ _ _) as [q w6]. injection Hg as -> <-.
    unfold println in Hr. injection Hr as <-. cbn [cw_out]. exists [text].
    rewrite Hout, <- app_assoc. by split_and!.
  - injection Hr as <-. exists []. cbn [cw_out]. rewrite Hout, app_nil_r.
    split_and!; try done. by intros _; destruct Hch.
Qed.

End client.
