(* ===== verification/Cli.v ===== *)
(** * The command line: cli/src/main.rs and policy.rs

What [main] makes of the arguments before it runs a role, and the commands
that need no service: verifying evidence and working on policy files.  A
command's printed lines are its result. *)

From S2P Require Import Prelude RustStr Externals Pomfrit Core Gate Transparency Policy Appraise.
From S2P Require Import GateVerifiers AttesterService Wire ClientFlow Mobile.

Section cli.
Context `{Hex}.

Definition parse_hex32 (s what : str) : result str bytes :=
  b ← map_err (fun e => what ++ B ": bad hex: " ++ e) (of_sum (hex_decode (trim s)));
  ok_or (array32 b) (what ++ B ": expected 32 bytes (64 hex chars)").

Definition parse_known_head (s : str) : result str SignedHead :=
  '(seq, head) ← ok_or (split_once x3a (trim s)) (B "kt-known-head must be <seq>:<head-hex>");
  seq ← map_err (fun e => B "kt-known-head seq: " ++ parse_int_error_display e)
          (parse_uint 64 seq);
  _ ← parse_hex32 head (B "kt-known-head head");
  Ok {| sh_seq := seq; sh_head := trim head; sh_sig := [] |}.

(** The line client.rs prints for the next run's [--kt-known-head]. *)
Definition print_head (h : SignedHead) : str := display_N (sh_seq h) ++ x3a :: sh_head h.

Definition parse_gate (gate : str) : result str Backend :=
  if decide (gate = B "uq") then Ok BackendUq
  else if decide (gate = B "azure") then Ok BackendAzure
  else if decide (gate = B "azure-tls") then Ok BackendAzureTls
  else if decide (gate = B "android-key" \/ gate = B "android") then Ok BackendAndroidKey
  else if decide (gate = B "ios-app-attest" \/ gate = B "ios") then Ok BackendIosAppAttest
  else if decide (gate = B "desktop-tpm" \/ gate = B "linux-tpm" \/ gate = B "windows-tpm")
       then Ok BackendDesktopTpm
  else if decide (gate = B "macos-app-attest" \/ gate = B "macos") then Ok BackendMacOsAppAttest
  else Err (B "unknown --gate '" ++ gate ++ B "' (expected uq, azure, azure-tls, android-key, ios-app-attest, desktop-tpm, macos-app-attest)").

Record ServeTlsArgs := { tls_cert : option str; tls_key : option str; insecure_http : bool }.

Definition tls_paths (tls : ServeTlsArgs) : result str (option TlsPaths) :=
  match tls_cert tls, tls_key tls with
  | Some cert, Some key => Ok (Some {| cert_pem := cert; key_pem := key |})
  | None, None => Ok None
  | _, _ => Err (B "--tls-cert and --tls-key must be set together")
  end.

(** The evidence a [token] command names. *)
Definition select_evidence (evidence desktop_bundle : option str) (attest_mode : str)
    (uq_collect desktop_collect build_digest : option str) : result str EvidenceInput :=
  match opt_or evidence desktop_bundle with
  | Some path => Ok (EvFile path)
  | None =>
      if decide (attest_mode = B "azure") then
        Ok (EvAzureCommand (default DEFAULT_UQ_COLLECT_CMD uq_collect))
      else if decide (attest_mode = B "desktop-tpm") then
        digest ← ok_or build_digest (B "--build-digest required for desktop-tpm attest mode");
        Ok (EvDesktopTpm (default DEFAULT_DESKTOP_TPM_COLLECT_SCRIPT desktop_collect) digest)
      else if decide (attest_mode = B "desktop-bundle") then
        Err (B "--desktop-bundle requires a file path; prefer --evidence FILE")
      else Err (B "unknown --attest-mode '" ++ attest_mode
                  ++ B "' (expected azure, desktop-tpm, desktop-bundle)")
  end.

(** [require_ctx] of the origin's arm. *)
Definition require_context_of (require_redemption_context allow_empty : bool) : bool :=
  require_redemption_context && negb allow_empty.

(** ** Commands *)

Context `{Chrono, !UnifiedQuote, Faest, Base64, Json VerificationPolicy}.

(** A verifier's outcome, as the [verify-*] commands print it. *)
Definition verify_command {V} `{!AttestationVerifier V} (v : V) (now : DateTime) (eat : bytes)
    (binding : str) (report : Measurement -> bytes -> list str) : result str (list str) :=
  b ← parse_hex32 binding (B "binding");
  match verify_eat v now eat b with
  | Ok m => Ok (B "VALID" :: report m b)
  | Err e => Err (B "INVALID: " ++ GateError_display e)
  | Panic => Panic
  end.

Definition VerifyEat (now : DateTime) (eat binding : str) : result str (list str) :=
  eat ← map_err (fun e => B "eat: bad hex: " ++ e) (of_sum (hex_decode (trim eat)));
  verify_command Build_UqVerifier now eat binding (fun m b =>
    [B "platform   " ++ platform m; B "value_x    " ++ hex_encode (value_x m);
     B "binding    " ++ hex_encode b ++ B " (== eat_nonce)"]).

Definition read_bundle `{Fs} (what : str) (p : Path) : result str bytes :=
  map_err (fun e => B "read " ++ what ++ B " " ++ path_display p ++ B ": " ++ e)
    (of_sum (fs_read p)).

Definition VerifyAzure `{Fs} (now : DateTime) (bundle : Path) (binding : str) :
    result str (list str) :=
  json ← read_bundle (B "bundle") bundle;
  verify_command Build_AzureUqVerifier now json binding (fun m b =>
    [B "platform     " ++ platform m; B "measurement  " ++ hex_encode (value_x m);
     B "value_x      " ++ hex_encode b ++ B " (== AK-quoted qualifyingData)"]).

Definition VerifyAzureTls `{Fs} (now : DateTime) (cert : Path) (binding : str) :
    result str (list str) :=
  der ← read_bundle (B "cert") cert;
  verify_command Build_AzureTlsVerifier now der binding (fun m b =>
    [B "platform     " ++ platform m; B "measurement  " ++ hex_encode (value_x m);
     B "value_x      " ++ hex_encode b ++ B " (== bound qualifyingData)"]).

Definition VerifyMacOsAppAttest `{Fs} (now : DateTime) (bundle : Path) (binding : str) :
    result str (list str) :=
  json ← read_bundle (B "bundle") bundle;
  verify_command Build_MacOsAppAttestVerifier now json binding (fun m _ =>
    [B "platform   " ++ platform m; B "value_x    " ++ hex_encode (value_x m)]).

Definition VerifyDesktopTpm `{Fs, Tiers} (now : DateTime) (bundle : Path) (binding : str)
    (policy : Path) : result str (list str) :=
  json ← read_bundle (B "bundle") bundle;
  b ← parse_hex32 binding (B "binding");
  p ← map_err (fun e => B "load policy " ++ path_display policy ++ B ": " ++ PolicyError_display e)
        (from_json_file policy);
  if decide (vp_evidence_profile p <> DesktopTpmClient) then
    Err (B "policy evidence_profile must be desktop-tpm-client, got "
      ++ EvidenceProfile_debug (vp_evidence_profile p))
  else
    let verifier := DesktopTpmVerifier_with_policy (vp_require_ima p) (boot_aggregates_bytes p)
                      (desktop_tpm_ek_roots_bytes p) (desktop_tpm_activation_pubkeys_bytes p) in
    verify_command {| pg_inner := verifier; pg_policy := p |} now json binding (fun m _ =>
      [B "platform   " ++ platform m; B "value_x    " ++ hex_encode (value_x m)]).

Definition DesktopHashBuild `{Fs, Sha256, UqHashes} (path : Path) : result str (list str) :=
  buf ← map_err (fun e => B "open " ++ path_display path ++ B ": " ++ e) (of_sum (fs_read path));
  let digest := sha256 buf in
  Ok [B "build_digest   " ++ hex_encode digest;
      B "build_id_hash  " ++ hex_encode (desktop_build_id_hash digest);
      B "policy allow.measurement = build_id_hash"].

(** policy.rs: the exit code of [simulate] and [diff], with what they print. *)
Definition policy_validate `{Fs} (file : Path) : result PolicyError VerificationPolicy :=
  from_json_file file.

Definition policy_simulate `{Fs, Json AppraisalClaims, Tiers} (policy claims : Path) (now : DateTime) :
    result str (AppraisalResult * N) :=
  p ← map_err PolicyError_display (from_json_file policy);
  json ← of_sum (fs_read claims);
  c ← of_sum (json_from_slice (T := AppraisalClaims) json);
  let r := appraise p c now in
  Ok (r, if ar_pass r then 0 else 1).

Definition diff_policies `{Fs} (left right : Path) : result PolicyError (PolicyDiff * N) :=
  l ← from_json_file left;
  r ← from_json_file right;
  let d := diff l r in
  Ok (d, if PolicyDiff_is_empty d then 0 else 1).

End cli.

(** ** Facts *)

Section facts.
Context `{Hex, !HexLaws}.

Lemma parse_hex32_Ok s what b :
  parse_hex32 s what = Ok b <-> hex_decode (trim s) = inr b /\ length b = 32%nat.
Proof.
  unfold parse_hex32. destruct (hex_decode (trim s)) as [e|v]; cbn [of_sum map_err mbind result_bind].
  { split; [done|by intros []]. }
  rewrite ok_or_Ok, array32_Some. naive_solver.
Qed.

Lemma display_N_graph n : forallb is_graph (display_N n) = true.
Proof. eapply forallb_mono, display_N_digits. intros b. by_bytes b. Qed.

Lemma display_N_no_colon n : x3a ∉ display_N n.
Proof. eapply not_in_class; [apply display_N_digits|done]. Qed.

(** A head printed by one run is read back by the next, and gives the same
    verdict on a log. *)
Lemma known_head_roundtrip seq head sig :
  seq < 2 ^ 64 -> length head = 32%nat ->
  parse_known_head (print_head {| sh_seq := seq; sh_head := hex_encode head; sh_sig := sig |})
  = Ok {| sh_seq := seq; sh_head := hex_encode head; sh_sig := [] |}.
Proof.
  intros Hs Hh. unfold print_head, parse_known_head. cbn [sh_seq sh_head].
  rewrite trim_graph.
  2:{ rewrite forallb_app. cbn [forallb]. rewrite display_N_graph. cbn [andb].
      eapply forallb_mono, hex_encode_lower. intros b Hb. by apply hex_digit_graph, hex_lower_digit. }
  rewrite split_once_app by apply display_N_no_colon. cbn [ok_or mbind result_bind].
  rewrite parse_uint_display by done. cbn [map_err mbind result_bind].
  unfold parse_hex32. rewrite trim_hex_encode, hex_decode_encode.
  cbn [of_sum map_err mbind result_bind]. by rewrite array32_id.
Qed.

Lemma verify_consistency_sig `{Sha256} seq head sig sig' records :
  verify_consistency {| sh_seq := seq; sh_head := head; sh_sig := sig |} records
  = verify_consistency {| sh_seq := seq; sh_head := head; sh_sig := sig' |} records.
Proof. done. Qed.

(** The backend of a [--gate] and the profile its policy must have come from
    the same table. *)
Definition backend_profile (b : Backend) : EvidenceProfile :=
  match b with
  | BackendUq => UqEat
  | BackendAzure => AzureSnpBundle
  | BackendAzureTls => AzureAttestedTls
  | BackendAndroidKey => AndroidKeyAttestation
  | BackendIosAppAttest => IosAppAttest
  | BackendDesktopTpm => DesktopTpmClient
  | BackendMacOsAppAttest => MacOsAppAttest
  end.

Lemma gate_tables_agree gate :
  match parse_gate gate, evidence_profile_for_gate gate with
  | Ok b, Ok p => p = backend_profile b
  | Err _, Err _ => True
  | _, _ => False
  end.
Proof.
  unfold parse_gate, evidence_profile_for_gate. repeat case_decide; done.
Qed.

(** Every way [serve] is started. *)
Lemma tls_paths_serve loopback args m :
  tls_paths args = Ok m ->
  match serve_mode loopback m (insecure_http args) with
  | ServePlain => loopback = true /\ insecure_http args = true
                  /\ tls_cert args = None /\ tls_key args = None
  | ServeTls c k => tls_cert args = Some c /\ tls_key args = Some k
  | _ => tls_cert args = None /\ tls_key args = None
  end.
Proof.
  unfold tls_paths. destruct (tls_cert args), (tls_key args); intros [= <-];
    destruct loopback, (insecure_http args); done.
Qed.

End facts.
