(* ===== verification/Main.v ===== *)
(** * The program: main of cli/src/main.rs

What the command line runs ([Cmd], [main]): each arm evaluates its arguments in
the order of the code, starts its role up to the point where it accepts
connections or runs its command to the end.  The process is a state, with the
files and the environment it reads as parameters. *)

From S2P Require Import Prelude RustStr Externals Pomfrit Core Gate Authorize Transparency Policy Appraise.
From S2P Require Import GateVerifiers Spend RateLimit Store Wire Redeemer IssuerService AttesterService.
From S2P Require Import Origin Mobile ClientFlow Cli.

(** ** Addresses and sockets *)

Inductive IpAddr :=
| V4 (a b c d : N)
| V6 (segments : list N).

Record SocketAddr := { sa_ip : IpAddr; sa_port : N }.

(** [IpAddr::is_loopback]: 127.0.0.0/8, or the address ::1. *)
Definition is_loopback (ip : IpAddr) : bool :=
  match ip with
  | V4 a _ _ _ => a =? 127
  | V6 s => bool_decide (s = [0; 0; 0; 0; 0; 0; 0; 1])
  end.

(** The operating system's sockets and the TLS library, with the text of their
    errors: a certificate and a key are loaded, a listener is bound. *)
Class Net := {
  sock_display : SocketAddr -> str;
  load_pem : str -> str -> str + unit;
  bind_listener : SocketAddr -> str + unit;
}.

(** [serve] of tls.rs up to accepting connections. *)
Definition serve `{Net} (listen : SocketAddr) (tls : option TlsPaths) (insecure_http : bool)
    (role : str) : result str Transport :=
  match serve_mode (is_loopback (sa_ip listen)) tls insecure_http with
  | RefuseCleartext =>
      Err (role ++ B ": refusing cleartext on non-loopback " ++ sock_display listen
           ++ B ". Pass --tls-cert and --tls-key (PEM files).")
  | RefuseLoopback =>
      Err (role ++ B ": plain HTTP on loopback requires --insecure-http for local dev, or pass --tls-cert and --tls-key")
  | ServeTls cert key =>
      _ ← map_err (fun e => role ++ B ": load TLS cert " ++ cert ++ B " / key " ++ key ++ B ": " ++ e)
            (of_sum (load_pem cert key));
      _ ← of_sum (bind_listener listen);
      Ok (ServeTls cert key)
  | ServePlain => _ ← of_sum (bind_listener listen); Ok ServePlain
  end.

(** [run] of redeemer.rs. *)
Definition redeemer_run `{Net, Redis, Features} (listen : SocketAddr) (backend : option str) (ttl_secs : N)
    (tls : option TlsPaths) (insecure_http : bool) : result str (SpendBackend * Transport) :=
  spent ← SpendBackend_from_url backend ttl_secs;
  tr ← serve listen tls insecure_http (B "eat-pass redeemer");
  Ok (spent, tr).

(** ** The command line *)

(** The arguments, as clap hands them over; its defaults are filled in. *)
Inductive PolicyCmd :=
| PolicyValidate (file : Path)
| PolicySimulate (policy claims : Path)
| PolicyDiffCmd (left right : Path)
| PolicySign (file : Path).

Inductive Cmd :=
| CmdAttester (tls : ServeTlsArgs) (listen : SocketAddr) (gate : str) (policy : Path)
    (auth_ttl_secs : N)
| CmdIssuer (tls : ServeTlsArgs) (listen : SocketAddr) (attester_pub : str) (max_per_epoch epoch_secs : N)
    (rate_backend : option str)
| CmdToken (issuer attester : str) (evidence : option str) (attest_mode : str)
    (uq_collect desktop_collect build_digest desktop_bundle : option str) (count : N)
    (issuer_name origin_info : str) (present : option str) (kt_log_pub : str)
    (kt_known_head : option str) (insecure_tls : bool)
| CmdVerifyEat (eat binding : str)
| CmdVerifyAzure (bundle : Path) (binding : str)
| CmdVerifyAzureTls (cert : Path) (binding : str)
| CmdVerifyDesktopTpm (bundle : Path) (binding : str) (policy : Path)
| CmdVerifyMacOsAppAttest (bundle : Path) (binding : str)
| CmdDesktopHashBuild (path : Path)
| CmdOrigin (tls : ServeTlsArgs) (listen : SocketAddr) (issuer issuer_name origin_info redeemer : str)
    (kt_log_pub : str) (insecure_tls require_redemption_context allow_empty_redemption_context : bool)
| CmdRedeem (tls : ServeTlsArgs) (listen : SocketAddr) (backend : option str) (ttl_secs : N)
| CmdPolicy (cmd : PolicyCmd).

(** The text serde and chrono print: [to_string_pretty], and [Display] of an
    instant. *)
Class Pretty `{Chrono} := {
  pretty_appraisal : AppraisalResult -> str + str;
  pretty_diff : PolicyDiff -> str + str;
  dt_display : DateTime -> str;
}.

Section main.
Context `{Sha256, Hex, Base64, Faest, BlindSig, BuildProfile, Chrono}
  `{!UnifiedQuote, Tiers, Redis, Features, Net, Fs, UqHashes, !Pretty}
  `{Json VerificationPolicy, Json AppraisalClaims}
  {W : Type} `{!Upstream W, !ClientHost W, !Machine W}.

(** The environment's variables and the clocks. *)
Record Env := {
  env_trusted_pub : option str;
  env_attester_seed : option str;
  env_kt_seed : option str;
  env_admin_token : option str;
  env_signing_seed : option str;
  env_unix_now : N;
  env_utc_now : DateTime;
}.

(** What a role has started with. *)
Inductive Role :=
| RoleAttester (st : AttesterState)
| RoleIssuer (st : IssuerState)
| RoleOrigin (st : OriginState)
| RoleRedeemer (b : SpendBackend).

(** How far [main] comes: a role accepts connections, or the process ends with an
    exit code; an error is printed and ends it with the code 1. *)
Inductive Exit :=
| Listening (role : Role) (transport : Transport)
| Exited (code : N).

(** The world, the randomness and the output of a client, and the files written. *)
Record Process := { ps_client : ClientWorld (W := W); ps_files : list (Path * bytes) }.

Definition on_client {T} (m : run (ClientWorld (W := W)) str T) : run Process str T := fun p =>
  let '(r, c) := m (ps_client p) in (r, {| ps_client := c; ps_files := ps_files p |}).
Definition on_files {T} (m : run (list (Path * bytes)) str T) : run Process str T := fun p =>
  let '(r, f) := m (ps_files p) in (r, {| ps_client := ps_client p; ps_files := f |}).

(** A command that prints its lines and ends. *)
Definition prints (r : result str (list str)) : run Process str Exit :=
  lines ← lift r; _ ← on_client (println_all lines); mret (Exited 0).

(** policy.rs. *)
Definition validate_lines (p : VerificationPolicy) : list str :=
  [B "OK  policy id=" ++ vp_id p ++ B " profile=" ++ EvidenceProfile_debug (vp_evidence_profile p)
     ++ B " min_tier=" ++ TrustTier_label (vp_min_tier p);
   B "    class=" ++ policy_label (measurement_class p) ++ B " allow="
     ++ display_N (class_len (measurement_class p))]
  ++ match vp_valid_until p with Some u => [B "    valid_until=" ++ dt_display u] | None => [] end
  ++ match vp_notes p with Some n => [B "    notes=" ++ n] | None => [] end.

Definition policy_command (env : Env) (cmd : PolicyCmd) : run Process str Exit :=
  match cmd with
  | PolicyValidate file =>
      prints (validate_lines <$> map_err PolicyError_display (policy_validate file))
  | PolicySimulate policy claims =>
      '(r, code) ← lift (policy_simulate policy claims (env_utc_now env));
      text ← lift (of_sum (pretty_appraisal r));
      _ ← on_client (println text);
      mret (Exited code)
  | PolicyDiffCmd l r =>
      '(d, code) ← lift (map_err PolicyError_display (diff_policies l r));
      text ← lift (of_sum (pretty_diff d));
      _ ← on_client (println text);
      mret (Exited code)
  | PolicySign file =>
      out ← on_files (mapping_err PolicyError_display (sign_policy_file file (env_signing_seed env)));
      _ ← on_client (println (B "OK  wrote " ++ path_display out));
      mret (Exited 0)
  end.

(** The arms of [main] that start a role or mint tokens: the arguments are
    evaluated in the order of the calls. *)
Definition attester_command (env : Env) (tls : ServeTlsArgs) (listen : SocketAddr) (gate : str)
    (policy : Path) (auth_ttl_secs : N) : run Process str Exit :=
  backend ← lift (parse_gate gate);
  paths ← lift (tls_paths tls);
  st ← lift (attester_run backend policy gate auth_ttl_secs (env_trusted_pub env)
               (env_attester_seed env) (env_utc_now env));
  tr ← lift (serve listen paths (insecure_http tls) (B "eat-pass attester"));
  mret (Listening (RoleAttester st) tr).

Definition issuer_command (env : Env) (tls : ServeTlsArgs) (listen : SocketAddr) (attester_pub : str)
    (max_per_epoch epoch_secs : N) (rate_backend : option str) : run Process str Exit :=
  paths ← lift (tls_paths tls);
  st ← on_client (with_rng id (issuer_run attester_pub max_per_epoch epoch_secs rate_backend
                    (env_kt_seed env) (env_admin_token env) (env_unix_now env)));
  tr ← lift (serve listen paths (insecure_http tls) (B "eat-pass issuer"));
  mret (Listening (RoleIssuer st) tr).

Definition token_command (issuer attester : str) (evidence : option str) (attest_mode : str)
    (uq_collect desktop_collect build_digest desktop_bundle : option str) (count : N)
    (issuer_name origin_info : str) (present : option str) (kt_log_pub : str)
    (kt_known_head : option str) : run Process str Exit :=
  evidence ← lift (select_evidence evidence desktop_bundle attest_mode uq_collect
                     desktop_collect build_digest);
  log_pub ← lift (parse_hex32 kt_log_pub (B "kt-log-pub"));
  known ← lift (match kt_known_head with
                | Some s => Some <$> parse_known_head s
                | None => Ok None
                end);
  _ ← on_client (client_run issuer attester evidence (N.to_nat count) issuer_name origin_info
                   present log_pub known);
  mret (Exited 0).

Definition origin_command (tls : ServeTlsArgs) (listen : SocketAddr)
    (issuer issuer_name origin_info redeemer kt_log_pub : str)
    (require_redemption_context allow_empty_redemption_context : bool) : run Process str Exit :=
  let require_ctx := require_context_of require_redemption_context allow_empty_redemption_context in
  log_pub ← lift (parse_hex32 kt_log_pub (B "kt-log-pub"));
  paths ← lift (tls_paths tls);
  st ← on_client (in_world (origin_run issuer issuer_name origin_info redeemer log_pub require_ctx));
  tr ← lift (serve listen paths (insecure_http tls) (B "eat-pass origin"));
  mret (Listening (RoleOrigin st) tr).

Definition redeem_command (tls : ServeTlsArgs) (listen : SocketAddr) (backend : option str)
    (ttl_secs : N) : run Process str Exit :=
  paths ← lift (tls_paths tls);
  '(b, tr) ← lift (redeemer_run listen backend ttl_secs paths (insecure_http tls));
  mret (Listening (RoleRedeemer b) tr).

Definition main (env : Env) (cmd : Cmd) : run Process str Exit :=
  match cmd with
  | CmdAttester tls listen gate policy ttl => attester_command env tls listen gate policy ttl
  | CmdIssuer tls listen attester_pub max_per_epoch epoch_secs rate_backend =>
      issuer_command env tls listen attester_pub max_per_epoch epoch_secs rate_backend
  | CmdToken issuer attester evidence attest_mode uq_collect desktop_collect build_digest
      desktop_bundle count issuer_name origin_info present kt_log_pub kt_known_head _ =>
      token_command issuer attester evidence attest_mode uq_collect desktop_collect build_digest
        desktop_bundle count issuer_name origin_info present kt_log_pub kt_known_head
  | CmdVerifyEat eat binding => prints (VerifyEat (env_utc_now env) eat binding)
  | CmdVerifyAzure bundle binding => prints (VerifyAzure (env_utc_now env) bundle binding)
  | CmdVerifyAzureTls cert binding => prints (VerifyAzureTls (env_utc_now env) cert binding)
  | CmdVerifyDesktopTpm bundle binding policy =>
      prints (VerifyDesktopTpm (env_utc_now env) bundle binding policy)
  | CmdVerifyMacOsAppAttest bundle binding =>
      prints (VerifyMacOsAppAttest (env_utc_now env) bundle binding)
  | CmdDesktopHashBuild path => prints (DesktopHashBuild path)
  | CmdOrigin tls listen issuer issuer_name origin_info redeemer kt_log_pub _
      require_redemption_context allow_empty_redemption_context =>
      origin_command tls listen issuer issuer_name origin_info redeemer kt_log_pub
        require_redemption_context allow_empty_redemption_context
  | CmdRedeem tls listen backend ttl_secs => redeem_command tls listen backend ttl_secs
  | CmdPolicy cmd => policy_command env cmd
  end.

End main.

(** ** Facts *)

Section facts.
Context `{Net}.

(** A transport a service with these arguments may accept connections on. *)
Definition transport_allowed (tls : ServeTlsArgs) (listen : SocketAddr) (tr : Transport) : Prop :=
  match tr with
  | ServeTls cert key =>
      tls_cert tls = Some cert /\ tls_key tls = Some key /\ load_pem cert key = inr tt
  | ServePlain =>
      is_loopback (sa_ip listen) = true /\ insecure_http tls = true
      /\ tls_cert tls = None /\ tls_key tls = None
  | _ => False
  end /\ bind_listener listen = inr tt.

Lemma serve_Ok listen tls m role tr :
  tls_paths tls = Ok m -> serve listen m (insecure_http tls) role = Ok tr ->
  transport_allowed tls listen tr.
Proof.
  intros Hm Hs. apply (tls_paths_serve (is_loopback (sa_ip listen))) in Hm as Hmode.
  pose proof (serve_mode_cases (is_loopback (sa_ip listen)) m (insecure_http tls)) as Hcase.
  unfold serve in Hs. destruct (serve_mode _ m _) as [| |cert key|]; [done..| |].
  - apply bind_Ok in Hs as ([] & Hl%map_err_Ok%of_sum_Ok & Hs).
    apply bind_Ok in Hs as ([] & Hb%of_sum_Ok & [= <-]). destruct Hmode. by repeat split.
  - apply bind_Ok in Hs as ([] & Hb%of_sum_Ok & [= <-]). by split.
Qed.

End facts.

(** The services among the commands, with their transport arguments. *)
Definition serves (cmd : Cmd) : option (ServeTlsArgs * SocketAddr) :=
  match cmd with
  | CmdAttester tls listen _ _ _ | CmdIssuer tls listen _ _ _ _
  | CmdOrigin tls listen _ _ _ _ _ _ _ _ | CmdRedeem tls listen _ _ => Some (tls, listen)
  | _ => None
  end.

Section properties.
Context `{Sha256Laws, HexLaws, Base64Laws, FaestLaws, BlindSig, BuildProfile, Chrono}
  `{!UnifiedQuote, Tiers, Redis, Features, Net, Fs, UqHashes, !Pretty}
  `{Json VerificationPolicy, Json AppraisalClaims, Json IssuanceAuthorization}
  {W : Type} `{!Upstream W, !ClientHost W, !Machine W}.
Implicit Types p : (Process (W := W)).

(** What a role has started with, by its command. *)
Definition role_started (env : Env) (cmd : Cmd) (role : Role) : Prop :=
  match role, cmd with
  | RoleAttester st, CmdAttester _ _ gate policy ttl =>
      exists b pol, parse_gate gate = Ok b
        /\ az_verifier (at_authorizer st) = gate_of_backend b pol
        /\ az_ttl_secs (at_authorizer st) = ttl
        /\ valid_policy pol /\ is_expired pol (env_utc_now env) = false
        /\ vp_evidence_profile pol = backend_profile b
  | RoleIssuer st, CmdIssuer _ _ _ max secs url =>
      published st [(keys st, env_unix_now env)] /\ pk_key_version (keys st) = 1
      /\ LimitBackend_from_url url max secs = Ok (is_limiter st)
  | RoleOrigin st, CmdOrigin _ _ _ _ _ _ pin _ required empty =>
      hex_decode (trim pin) = inr (or_kt_log_pub st) /\ length (or_kt_log_pub st) = 32%nat
      /\ origin_ok st /\ (or_require_context st = true <-> required = true /\ empty = false)
  | RoleRedeemer b, CmdRedeem _ _ url ttl => SpendBackend_from_url url ttl = Ok b
  | _, _ => False
  end.

Lemma on_client_Ok {T} (m : run (ClientWorld (W := W)) str T) p x p' :
  on_client m p = (Ok x, p') ->
  exists c, m (ps_client p) = (Ok x, c) /\ p' = {| ps_client := c; ps_files := ps_files p |}.
Proof. unfold on_client. destruct (m _) as [r c]. intros [= -> <-]. by exists c. Qed.

Lemma attester_started env gate policy ttl b st :
  parse_gate gate = Ok b ->
  attester_run b policy gate ttl (env_trusted_pub env) (env_attester_seed env) (env_utc_now env) = Ok st ->
  exists pol, az_verifier (at_authorizer st) = gate_of_backend b pol
    /\ az_ttl_secs (at_authorizer st) = ttl /\ valid_policy pol
    /\ is_expired pol (env_utc_now env) = false /\ vp_evidence_profile pol = backend_profile b.
Proof.
  intros Hb. unfold attester_run. intros (trusted & _ & Hr)%bind_Ok.
  apply bind_Ok in Hr as (pol & Hl%map_err_Ok & Hr).
  apply load_for_attester_Ok in Hl as (Hv & He & Hp).
  apply load_verified_Ok in Hv as (bytes & _ & _ & Hv & _).
  apply bind_Ok in Hr as (seed & _ & Hr). apply bind_Ok in Hr as (z & Hz%map_err_Ok & [= <-]).
  unfold Authorizer_new in Hz. apply bind_Ok in Hz as (sk & _ & [= <-]).
  exists pol. split_and!; [done..|]. pose proof (gate_tables_agree gate) as Hg.
  by rewrite Hb, Hp in Hg.
Qed.

Lemma issuer_started env pub max secs url st g g' :
  issuer_run pub max secs url (env_kt_seed env) (env_admin_token env) (env_unix_now env) g = (Ok st, g') ->
  published st [(keys st, env_unix_now env)] /\ pk_key_version (keys st) = 1
  /\ LimitBackend_from_url url max secs = Ok (is_limiter st).
Proof.
  intros (i & Hg & Hi & _ & Hl & _ & Hp & _)%issuer_run_published. split_and!; [done| |done].
  unfold keys. rewrite Hi. unfold Issuer_generate in Hg. destruct (Scheme_keygen g).
  by injection Hg as <- _.
Qed.

Lemma origin_started url name info redeemer pin ctx u st u' :
  origin_run url name info redeemer pin ctx u = (Ok st, u') ->
  or_kt_log_pub st = pin /\ or_require_context st = ctx /\ origin_ok st.
Proof.
  unfold origin_run. destruct (up_keys _ u) as [[pk|e|] u1]; [|done..]. intros [= <- _].
  split_and!; [done..|]. split; cbn; [unfold MAX_RECENT_CHALLENGES; lia|constructor|].
  intros k e [<- <-]%lookup_singleton_Some. by split_and!.
Qed.

Lemma prints_Ok r p x p' :
  prints r p = (Ok x, p') -> x = Exited 0 /\ ps_files p' = ps_files p /\ exists lines, r = Ok lines
    /\ cw_out (ps_client p') = cw_out (ps_client p) ++ lines.
Proof.
  unfold prints. intros (lines & p1 & [-> ->]%lift_Ok & Hr)%run_bind_Ok.
  apply run_bind_Ok in Hr as ([] & p2 & (c & Hc & ->)%on_client_Ok & [= <- <-]).
  split_and!; [done..|]. exists lines. split; [done|]. cbn [ps_client].
  revert Hc. generalize (ps_client p). induction lines as [|l lines IH]; intros d; cbn [println_all].
  - intros [= <-]. by rewrite app_nil_r.
  - intros ([] & d1 & [= <-] & Hd)%run_bind_Ok. rewrite (IH _ Hd). cbn [cw_out]. by rewrite <- app_assoc.
Qed.

Lemma policy_command_exits env c p x p' :
  policy_command env c p = (Ok x, p') -> exists code, x = Exited code.
Proof.
  destruct c; cbn [policy_command].
  - intros [-> _]%prints_Ok. by eexists.
  - intros ([r code] & p1 & _ & Hr)%run_bind_Ok. apply run_bind_Ok in Hr as (t & p2 & _ & Hr).
    apply run_bind_Ok in Hr as (u & p3 & _ & [= <- _]). by eexists.
  - intros ([r code] & p1 & _ & Hr)%run_bind_Ok. apply run_bind_Ok in Hr as (t & p2 & _ & Hr).
    apply run_bind_Ok in Hr as (u & p3 & _ & [= <- _]). by eexists.
  - intros (t & p1 & _ & Hr)%run_bind_Ok. apply run_bind_Ok in Hr as (u & p3 & _ & [= <- _]). by eexists.
Qed.

(** C39: a service accepts connections only as its transport flags allow: over TLS
    with the certificate and the key it was given, both of which load, or in
    the clear on a loopback address with --insecure-http and no certificate;
    and it has started with what its command names: an attester with a valid,
    unexpired policy of the profile its gate verifies, an issuer with a log of
    its one key, an origin with a 32-byte pinned key that requires redemption
    contexts unless it was told not to. *)
Theorem main_listens env cmd p role tr p' :
  main env cmd p = (Ok (Listening role tr), p') ->
  exists tls listen, serves cmd = Some (tls, listen) /\ transport_allowed tls listen tr
    /\ role_started env cmd role.
Proof.
  intros Hm. destruct cmd as [tls listen gate policy ttl|tls listen pub max secs url|
    issuer attester ev mode uq dc bd db count name info present pin known insecure| | | | | |
    |tls listen issuer name info redeemer pin b1 req empty|tls listen url ttl|c];
    cbn [main serves] in *;
    unfold attester_command, issuer_command, token_command, origin_command, redeem_command in Hm; try (by apply prints_Ok in Hm as [? _]).
  - apply run_bind_Ok in Hm as (b & p1 & [Hb ->]%lift_Ok & Hm).
    apply run_bind_Ok in Hm as (m & p2 & [Ht ->]%lift_Ok & Hm).
    apply run_bind_Ok in Hm as (st & p3 & [Hs ->]%lift_Ok & Hm).
    apply run_bind_Ok in Hm as (tr' & p4 & [Hsv ->]%lift_Ok & [= <- <- <-]).
    exists tls, listen. split_and!; [done|by eapply serve_Ok|].
    exists b. destruct (attester_started _ _ _ _ _ _ Hb Hs) as (pol & ?). by exists pol.
  - apply run_bind_Ok in Hm as (m & p2 & [Ht ->]%lift_Ok & Hm).
    apply run_bind_Ok in Hm as (st & p3 & (c & Hs & ->)%on_client_Ok & Hm).
    apply run_bind_Ok in Hm as (tr' & p4 & [Hsv ->]%lift_Ok & [= <- <- <-]).
    exists tls, listen. split_and!; [done|by eapply serve_Ok|].
    unfold with_rng in Hs. destruct (issuer_run _ _ _ _ _ _ _ _) as [[st'|e|] g] eqn:Hr; [|done..].
    injection Hs as -> _. by eapply issuer_started.
  - do 3 (apply run_bind_Ok in Hm as (? & ? & _ & Hm)). by apply run_bind_Ok in Hm as (? & ? & _ & [=]).
  - apply run_bind_Ok in Hm as (b & p1 & [Hb ->]%lift_Ok & Hm).
    apply run_bind_Ok in Hm as (m & p2 & [Ht ->]%lift_Ok & Hm).
    apply run_bind_Ok in Hm as (st & p3 & (c & Hs & ->)%on_client_Ok & Hm).
    apply run_bind_Ok in Hm as (tr' & p4 & [Hsv ->]%lift_Ok & [= <- <- <-]).
    exists tls, listen. split_and!; [done|by eapply serve_Ok|].
    apply parse_hex32_Ok in Hb as [Hd Hlen]. unfold in_world in Hs.
    destruct (origin_run _ _ _ _ _ _ _) as [r u] eqn:Hr. injection Hs as -> _.
    apply origin_started in Hr as (Hpin & Hctx & Hok). cbn [role_started]. rewrite Hpin, Hctx.
    split_and!; [done..|]. unfold require_context_of. destruct req, empty; naive_solver.
  - apply run_bind_Ok in Hm as (m & p2 & [Ht ->]%lift_Ok & Hm).
    apply run_bind_Ok in Hm as ([b tr'] & p3 & [Hs ->]%lift_Ok & [= <- <- <-]).
    apply bind_Ok in Hs as (b' & Hb & Hs). apply bind_Ok in Hs as (tr2 & Hsv & [= -> ->]).
    exists tls, listen. by split_and!; [|eapply serve_Ok|].
  - by apply policy_command_exits in Hm as [? [=]].
Qed.

(** What a command that ends with [code] has found. *)
Definition exit_means (env : Env) (cmd : Cmd) (code : N) : Prop :=
  match cmd with
  | CmdPolicy (PolicySimulate policy claims) => exists q json c,
      from_json_file policy = Ok q /\ fs_read claims = inr json /\ json_from_slice json = inr c
      /\ code = if ar_pass (appraise q c (env_utc_now env)) then 0 else 1
  | CmdPolicy (PolicyDiffCmd l r) => exists pl pr,
      from_json_file l = Ok pl /\ from_json_file r = Ok pr
      /\ code = if PolicyDiff_is_empty (diff pl pr) then 0 else 1
  | CmdPolicy (PolicyValidate file) => code = 0 /\ exists q, from_json_file file = Ok q
  | _ => code = 0
  end.

Lemma in_client_files {T} (m : run (ClientWorld (W := W)) str T) p x p' :
  on_client m p = (Ok x, p') -> ps_files p' = ps_files p.
Proof. by intros (c & _ & ->)%on_client_Ok. Qed.

Lemma policy_exits env c p code p' :
  policy_command env c p = (Ok (Exited code), p') ->
  exit_means env (CmdPolicy c) code
  /\ match c with
     | PolicySign file => exists text, fs_write (sidecar_path file) text = inr tt
         /\ ps_files p' = (sidecar_path file, text) :: ps_files p
     | _ => ps_files p' = ps_files p
     end.
Proof.
  destruct c as [file|pol cl|l r|file]; cbn [policy_command exit_means].
  - intros (Hc & Hf & lines & Hl & _)%prints_Ok. injection Hc as ->. split; [|done]. split; [done|].
    unfold policy_validate in Hl. destruct (from_json_file file) as [q|e|]; [by exists q|done..].
  - intros ([r code'] & p1 & [Hs ->]%lift_Ok & Hr)%run_bind_Ok.
    apply run_bind_Ok in Hr as (t & p2 & [_ ->]%lift_Ok & Hr).
    apply run_bind_Ok in Hr as ([] & p3 & Hp%in_client_files & [= <- <-]). split; [|done].
    unfold policy_simulate in Hs. apply bind_Ok in Hs as (q & Hq%map_err_Ok & Hs).
    apply bind_Ok in Hs as (json & Hj%of_sum_Ok & Hs).
    apply bind_Ok in Hs as (cl' & Hc%of_sum_Ok & [= _ <-]). by exists q, json, cl'.
  - intros ([d code'] & p1 & [Hs%map_err_Ok ->]%lift_Ok & Hr)%run_bind_Ok.
    apply run_bind_Ok in Hr as (t & p2 & [_ ->]%lift_Ok & Hr).
    apply run_bind_Ok in Hr as ([] & p3 & Hp%in_client_files & [= <- <-]). split; [|done].
    unfold diff_policies in Hs. apply bind_Ok in Hs as (pl & Hpl & Hs).
    apply bind_Ok in Hs as (pr & Hpr & [= _ <-]). by exists pl, pr.
  - intros (out & p1 & Ho & Hr)%run_bind_Ok.
    apply run_bind_Ok in Hr as ([] & p3 & Hp%in_client_files & [= <- <-]). split; [done|].
    rewrite Hp. unfold on_files, mapping_err in Ho.
    destruct (sign_policy_file _ _ _) as [q fs] eqn:Hs. injection Ho as Hq <-. cbn [ps_files].
    apply map_err_Ok in Hq as ->. unfold sign_policy_file in Hs.
    do 3 (apply run_bind_Ok in Hs as (? & ? & [_ ->]%lift_Ok & Hs)). cbv zeta in Hs.
    apply run_bind_Ok in Hs as ([] & ? & [Hw%map_err_Ok%of_sum_Ok ->]%lift_Ok & Hs).
    apply run_bind_Ok in Hs as ([] & ? & [= <-] & [= _ <-]). by eexists.
Qed.

(** C40: the exit codes scripts rely on: [policy simulate] ends with 0 exactly when
    the claims pass the appraisal, [policy diff] exactly when the comparison is
    empty, [policy validate] only for a valid file, and every other command
    that ends without an error with 0; no command but [policy sign] writes a
    file, and that one only its sidecar. *)
Theorem main_exits env cmd p code p' :
  main env cmd p = (Ok (Exited code), p') ->
  serves cmd = None /\ exit_means env cmd code
  /\ match cmd with
     | CmdPolicy (PolicySign file) => exists text, fs_write (sidecar_path file) text = inr tt
         /\ ps_files p' = (sidecar_path file, text) :: ps_files p
     | _ => ps_files p' = ps_files p
     end.
Proof.
  intros Hm. destruct cmd as [tls listen gate policy ttl|tls listen pub max secs url|
    issuer attester ev mode uq dc bd db count name info present pin known insecure| | | | | |
    |tls listen issuer name info redeemer pin b1 req empty|tls listen url ttl|c];
    cbn [main serves] in *;
    unfold attester_command, issuer_command, token_command, origin_command, redeem_command in Hm;
    try (apply prints_Ok in Hm as (Hc & Hf & _); injection Hc as ->; by split_and!).
  - do 4 (apply run_bind_Ok in Hm as (? & ? & _ & Hm)). done.
  - do 3 (apply run_bind_Ok in Hm as (? & ? & _ & Hm)). done.
  - do 3 (apply run_bind_Ok in Hm as (? & ? & [_ ->]%lift_Ok & Hm)).
    apply run_bind_Ok in Hm as ([] & p1 & Hf%in_client_files & [= <- <-]). by split_and!.
  - do 4 (apply run_bind_Ok in Hm as (? & ? & _ & Hm)). done.
  - apply run_bind_Ok in Hm as (? & ? & _ & Hm). by apply run_bind_Ok in Hm as ([] & ? & _ & Hm).
  - split; [done|]. apply policy_exits in Hm as [He Hf]. split; [done|]. by destruct c.
Qed.

End properties.
