(* ===== verification/Demo.v ===== *)
(** * The in-process demonstration: cli/src/demo.rs

The whole protocol in one process, with the dev-sim attester: attest,
authorize, sign behind the authorization, finalize, present once and be
refused the second time. *)

From S2P Require Import Prelude RustStr Externals Pomfrit Core Http RateLimit Spend Gate Authorize.
From S2P Require Import Wire.

Section demo.
Context `{Sha256, Hex, Base64, Faest, Ed25519, BlindSig, Chrono, BuildProfile}
  `{Json DevEat, Json SignBodyWire, Json IssuanceAuthorization, Json SignResponse}.

Definition demo_seed : bytes := replicate 32 x42.
Definition demo_measurement : Measurement := Measurement_new (B "dev") (replicate 32 x42).
Definition demo_challenge : TokenChallenge :=
  TokenChallenge_new (B "issuer.eat-pass.dev") (B "origin.eat-pass.dev").
Definition demo_now : N := 1700000000.

(** A value written as JSON and read back. *)
Definition via_json {E T} `{Json T} (conv : str -> E) (x : T) : result E T :=
  b ← map_err conv (of_sum (json_to_vec x)); map_err conv (of_sum (json_from_slice b)).

(** The end: the first token is presented, spent, and refused when spent again. *)
Definition present_and_spend (pk : IssuerPublicKey) (tokens : list SpendToken) : result str N :=
  first ← ok_or (head tokens) (B "no tokens");
  presented ← map_err (fun e => B "parse: " ++ Error_display e)
                (parse_authorization (authorization first));
  n ← map_err (fun e => B "verify: " ++ Error_display e)
        (Verifier_verify (Verifier_new pk) presented demo_challenge);
  let '(r, spent) := check_and_mark (pk_key_version pk) n InMemorySpentStore_new in
  _ ← map_err SpendError_display r;
  let '(r, _) := check_and_mark (pk_key_version pk) n spent in
  match r with
  | Err SEDoubleSpend => Ok (len tokens)
  | Err (SEBackend e) => Err (B "spend backend error: " ++ e)
  | Ok _ => Err (B "double-spend was not detected")
  | Panic => Panic
  end.

Definition run_in_process (count : nat) (clock : option N) (dt : DateTime) : run rng str N :=
  '(attester, authorizer) ← lift (map_err GateError_display
    (dev_from_seed demo_seed [value_x demo_measurement]));
  attester_pub ← lift (expect
    (attester_pubkey_from_hex (hex_encode (Authorizer_verifying_key authorizer))));
  issuer ← (fun g => let '(i, g) := Issuer_generate 1 g in (Ok i, g));
  let pk := Issuer_public issuer in
  _ ← lift (map_err Error_display (IssuerPublicKey_token_key_id pk));
  '(req, pending) ← on id (fun g _ => g) (fun e => B "begin: " ++ Error_display e)
                      (Client_begin pk demo_challenge count);
  let b := SignRequest_binding req in
  eat ← lift (map_err GateError_display (DevAttester_attest attester demo_measurement b));
  auth ← lift (map_err (fun e => B "authorize: " ++ GateError_display e)
           (authorize authorizer dt eat b (wrap 32 (N.of_nat count)) demo_now));
  auth_json ← lift (of_sum (json_to_vec auth));
  body ← lift (via_json id
           {| sb_req := req; sb_authorization_b64 := b64_encode STANDARD auth_json |});
  auth_bytes ← lift (of_sum (b64_decode STANDARD (sb_authorization_b64 body)));
  auth ← lift (of_sum (json_from_slice (T := IssuanceAuthorization) auth_bytes));
  resp ← (fun g =>
    let '(r, (_, g)) := issue_authorized_with_limit issuer attester_pub (sb_req body) auth demo_now
                          clock (InMemoryRateLimiter_new 64 3600, g) in
    (map_err (fun e => B "issuer rejected: " ++ GateError_display e) r, g));
  resp ← lift (via_json id resp);
  tokens ← on id (fun g _ => g) (fun e => B "finalize: " ++ Error_display e)
             (PendingTokens_finalize pending pk resp);
  lift (present_and_spend pk tokens).

(** ** Facts *)

Section facts.
Context `{!Sha256Laws, !HexLaws, !Base64Laws, !FaestLaws, !Ed25519Laws, !RngLaws, !BlindSigLaws}
  `{!JsonLaws DevEat, !JsonLaws SignBodyWire, !JsonLaws IssuanceAuthorization,
    !JsonLaws SignResponse}.

Lemma via_json_id {E T} `{Json T, !JsonLaws T} (conv : str -> E) (x : T) :
  via_json conv x = Ok x.
Proof.
  unfold via_json. destruct (json_total x) as [b Hb]. rewrite Hb. cbn.
  by rewrite (json_roundtrip _ _ Hb).
Qed.

Lemma present_and_spend_Ok i tokens :
  tokens <> [] ->
  Forall (fun t => Verifier_verify (Verifier_new (Issuer_public i)) t demo_challenge = Ok (nonce t)
    /\ wf_token t /\ (33 <= length (authenticator t))%nat) tokens ->
  present_and_spend (Issuer_public i) tokens = Ok (len tokens).
Proof.
  intros Hne Hts. destruct tokens as [|t ts]; [done|]. apply Forall_cons_1 in Hts as [(Hv & Hw & Ha) _].
  unfold present_and_spend. cbn [head ok_or mbind result_bind].
  rewrite parse_authorization_of, from_to_bytes by done. cbn [map_err mbind result_bind].
  rewrite Hv. cbn [map_err mbind result_bind].
  rewrite check_and_mark_memory, decide_False by (cbn; set_solver). cbn [map_err mbind result_bind].
  rewrite check_and_mark_memory, decide_True by (cbn; set_solver). done.
Qed.

(** The parts the demonstration starts from. *)
Lemma demo_setup :
  exists z v, dev_from_seed demo_seed [value_x demo_measurement]
      = Ok (DevAttester_from_seed demo_seed, z)
    /\ az_verifier z = v /\ az_signer z = faest_generate demo_seed /\ az_ttl_secs z = 60
    /\ DevVerifier_new_for_class (DevAttester_verifying_key (DevAttester_from_seed demo_seed))
         (MeasurementClass_new (B "default") 1 [value_x demo_measurement]) = Ok v
    /\ attester_pubkey_from_hex (hex_encode (Authorizer_verifying_key z))
       = Ok (faest_verifying_key (az_signer z)).
Proof.
  unfold dev_from_seed, DevVerifier_new_for_class, DevAttester_verifying_key.
  rewrite ed_vk_roundtrip. cbn [of_sum map_err mbind result_bind].
  unfold Authorizer_new, signing_key_from_seed. cbn [expect mbind result_bind].
  do 2 eexists. split_and!; [done..|]. unfold attester_pubkey_from_hex, Authorizer_verifying_key.
  by rewrite verifying_key_from_hex_encode.
Qed.

Lemma demo_authorize z v eat b n dt :
  az_verifier z = v -> az_ttl_secs z = 60 ->
  DevVerifier_new_for_class (DevAttester_verifying_key (DevAttester_from_seed demo_seed))
    (MeasurementClass_new (B "default") 1 [value_x demo_measurement]) = Ok v ->
  DevAttester_attest (DevAttester_from_seed demo_seed) demo_measurement b = Ok eat -> n <> 0 ->
  exists auth, authorize z dt eat b n demo_now = Ok auth
    /\ IssuanceAuthorization_verify auth (faest_verifying_key (az_signer z)) demo_now = Ok tt
    /\ auth_binding auth = b /\ auth_max_batch auth = n
    /\ auth_rate_limit_id auth = rate_limit_id demo_measurement.
Proof.
  intros Hz Ht Hv He Hn.
  assert (Hok : verify_eat (az_verifier z) dt eat b = Ok demo_measurement).
  { rewrite Hz. eapply dev_attest_verify; [apply json_roundtrip|done|done|done|].
    cbn. set_solver. }
  assert (exists auth, sign_authorization z demo_measurement b n demo_now = Ok auth) as [auth Ha].
  { unfold sign_authorization. rewrite (proj2 (N.eqb_neq n 0) Hn). by eexists. }
  pose proof Ha as (_ & _ & Hb & Hi & _ & Hm & Hx & _)%sign_authorization_Ok.
  exists auth. split_and!; [by apply authorize_Ok; exists demo_measurement| |done..].
  eapply sign_authorization_verify; [done|]. rewrite Hx, Ht. by vm_compute.
Qed.

(** The demonstration's quota is 64 tokens for one evidence. *)
Lemma demo_limit clock i n :
  n < 2 ^ 32 ->
  try_consume clock i n (InMemoryRateLimiter_new 64 3600)
  = if n <=? 64 then (Ok tt, (try_consume clock i n (InMemoryRateLimiter_new 64 3600)).2)
    else (Err RLExceeded, (try_consume clock i n (InMemoryRateLimiter_new 64 3600)).2).
Proof.
  intros Hn. destruct (try_consume clock i n _) as [r l] eqn:Ht.
  apply memory_step in Ht as (_ & _ & _ & _ & Hc); [|by apply memory_ok_new|done].
  rewrite counted_new in Hc. cbn [max_per_epoch InMemoryRateLimiter_new snd] in *.
  destruct (N.leb_spec n 64), Hc as [(? & -> & _)|(? & -> & _)]; done || lia.
Qed.

Lemma demo_issue issuer vk req auth count clock g :
  N.of_nat count < 2 ^ 32 ->
  binding (req_body req) = binding_of (blinded (req_body req)) ->
  length (blinded (req_body req)) = count ->
  req_key_version req = issuer_key_version issuer ->
  IssuanceAuthorization_verify auth vk demo_now = Ok tt ->
  auth_binding auth = binding (req_body req) -> auth_max_batch auth = N.of_nat count ->
  exists l', issue_authorized_with_limit issuer vk req auth demo_now clock
      (InMemoryRateLimiter_new 64 3600, g)
  = (if decide (count <= 64)%nat
     then let '(resp, g') := issuer_sign (issuer_sk issuer) (req_body req) g in (Ok resp, (l', g'))
     else (Err GQuotaExceeded, (l', g))).
Proof.
  intros Hc Hb Hl Hk Hv Ha Hm.
  assert (Hw : wrap 32 (len (blinded (req_body req))) = N.of_nat count)
    by (unfold len; by rewrite Hl, wrap_small).
  pose proof (demo_limit clock (auth_rate_limit_id auth) (N.of_nat count) Hc) as Ht.
  destruct (try_consume clock _ _ _) as [q l'] eqn:Hq in Ht. exists l'. cbn [snd] in Ht.
  case_decide as Hn.
  - destruct (N.leb_spec (N.of_nat count) 64); [|lia]. injection Ht as ->.
    destruct (issuer_sign (issuer_sk issuer) (req_body req) g) as [resp g'] eqn:Hs.
    apply issue_authorized_Ok. rewrite Hw, Hm. split_and!; try done; congruence.
  - destruct (N.leb_spec (N.of_nat count) 64); [lia|]. injection Ht as ->.
    change GQuotaExceeded with (limit_error RLExceeded).
    apply issue_authorized_limited; rewrite ?Hw, ?Hm; congruence || done.
Qed.

(** The outcome of the demonstration. *)
Lemma run_in_process_result count clock dt g :
  N.of_nat count < 2 ^ 32 ->
  fst (run_in_process count clock dt g)
  = if decide (count = O) then
      Err (B "authorize: " ++ GateError_display (GAttestationInvalid (B "max_batch must be non-zero")))
    else if decide (count <= 64)%nat then Ok (N.of_nat count)
    else Err (B "issuer rejected: " ++ GateError_display GQuotaExceeded).
Proof.
  intros Hc. unfold run_in_process.
  destruct demo_setup as (z & v & Hdev & Hzv & Hzs & Hzt & Hv & Hpub).
  erewrite run_bind_step by (unfold lift; rewrite Hdev; done). cbn beta iota.
  erewrite run_bind_step by (unfold lift; rewrite Hpub; done).
  destruct (Issuer_generate 1 g) as [issuer g1] eqn:Hgen.
  erewrite run_bind_step by (rewrite Hgen; done). cbn beta.
  erewrite run_bind_step by done.
  destruct (Client_begin_total (Issuer_public issuer) demo_challenge count g1)
    as (req & p & g2 & Hbegin & Hb & Hlen & Hkv & _).
  erewrite run_bind_step by (unfold on; cbn [id]; rewrite Hbegin; done). cbn beta iota zeta.
  unfold DevAttester_attest at 1.
  destruct (json_total (Build_DevEat (platform demo_measurement) (value_x demo_measurement)
    (SignRequest_binding req) (ed_sign (dev_sk (DevAttester_from_seed demo_seed))
      (dev_signed_bytes demo_measurement (SignRequest_binding req))))) as [eat Heat].
  erewrite run_bind_step by (unfold lift; rewrite Heat; done).
  assert (Hatt : DevAttester_attest (DevAttester_from_seed demo_seed) demo_measurement
    (SignRequest_binding req) = Ok eat) by (unfold DevAttester_attest; rewrite Heat; done).
  rewrite wrap_small by done. case_decide as Hz.
  { erewrite run_bind_stop; [done|]. unfold lift, authorize. rewrite Hz. done. }
  destruct (demo_authorize z v eat (SignRequest_binding req) (N.of_nat count) dt)
    as (auth & Hauth & Hver & Hab & Ham & Hai); [done..|lia|].
  erewrite run_bind_step by (unfold lift; rewrite Hauth; done).
  destruct (json_total auth) as [aj Haj].
  erewrite run_bind_step by (unfold lift; rewrite Haj; done).
  erewrite run_bind_step by (unfold lift; rewrite via_json_id; done). cbn [sb_req sb_authorization_b64].
  erewrite run_bind_step by (unfold lift; rewrite b64_decode_encode; done).
  erewrite run_bind_step by (unfold lift; rewrite (json_roundtrip _ _ Haj); done).
  assert (Hiv : req_key_version req = issuer_key_version issuer) by by rewrite Hkv.
  destruct (demo_issue issuer (faest_verifying_key (az_signer z)) req auth count clock g2)
    as [l Hissue]; [done..|].
  case_decide as Hn.
  2:{ erewrite run_bind_stop; [|by rewrite Hissue]. done. }
  destruct (issuer_sign (issuer_sk issuer) (req_body req) g2) as [resp g3] eqn:Hsign.
  erewrite run_bind_step by (rewrite Hissue; done).
  erewrite run_bind_step by (unfold lift; rewrite via_json_id; done).
  destruct (PendingTokens_finalize p (Issuer_public issuer) resp g3) as [r g4] eqn:Hfin.
  destruct (mint_run_complete _ _ _ _ _ _ _ _ _ _ _ _ _ _ _ _ Hgen Hbegin
    (Issuer_blind_sign_same_version _ _ _ _ _ Hiv Hsign) Hfin) as (ts & -> & Hts & Hall).
  erewrite run_bind_step by (unfold on; cbn [id]; rewrite Hfin; done).
  unfold lift. cbn [fst]. rewrite (present_and_spend_Ok issuer); [unfold len; by rewrite Hts|intros Hn0; apply Hz; by rewrite <- Hts, Hn0|done].
Qed.

(** C9: the demonstration, end to end and for every batch size: for one to
    64 tokens the whole protocol succeeds, from attestation to the double spend
    that is refused, and reports as many tokens as were asked for; none at all is
    refused by the attester, and more than 64 by the issuer's quota. *)
Theorem run_in_process_spec count clock dt g :
  N.of_nat count < 2 ^ 32 ->
  fst (run_in_process count clock dt g)
  = if decide (count = O) then
      Err (B "authorize: " ++ GateError_display (GAttestationInvalid (B "max_batch must be non-zero")))
    else if decide (count <= 64)%nat then Ok (N.of_nat count)
    else Err (B "issuer rejected: " ++ GateError_display GQuotaExceeded).
Proof. apply run_in_process_result. Qed.

End facts.
End demo.
