(* ===== verification/System.v ===== *)
(** * The deployed system

The issuer, the attester, the redeemer, an origin and a client's machine as
one world, with the requests between them answered by their handlers: the
interfaces the origin ([Upstream]) and the client ([ClientHost]) are written
against.  A body arrives as it was sent; requests are served at one instant. *)

From S2P Require Import Prelude RustStr Externals Pomfrit Core Http RateLimit Spend Gate Authorize.
From S2P Require Import Transparency Policy Appraise GateVerifiers Store Wire Redeemer IssuerService.
From S2P Require Import AttesterService Origin OriginSteps ClientFlow.

(** reqwest's texts for a status, a refused and a broken request. *)
Class Reqwest := {
  status_display : N -> str;
  status_error : N -> str -> str;
  transport_error : str -> str;
}.

Section system.
Context `{Sha256, Hex, Base64, Faest, BlindSig, BuildProfile, Chrono}
  `{!UnifiedQuote, Tiers, Redis, Reqwest}
  `{Json IssuanceAuthorization, Json ErrorBody}
  {S : Type} `{!SpentStore S} {L : Type} `{!Machine L}.

(** ** Services *)

Record Services := {
  sv_issuer_url : str;
  sv_attester_url : str;
  sv_redeemer_url : str;
  sv_issuer : IssuerState;
  sv_attester : AttesterState;
  sv_redeemer : S;
  sv_rng : rng;
  (** The time as seconds, as the limiter reads it, and as an instant. *)
  sv_now : N;
  sv_clock : option N;
  sv_instant : DateTime;
}.

Definition set_sv_issuer (w : Services) (st : IssuerState) (g : rng) : Services :=
  {| sv_issuer_url := sv_issuer_url w; sv_attester_url := sv_attester_url w;
     sv_redeemer_url := sv_redeemer_url w; sv_issuer := st; sv_attester := sv_attester w;
     sv_redeemer := sv_redeemer w; sv_rng := g; sv_now := sv_now w; sv_clock := sv_clock w;
     sv_instant := sv_instant w |}.

Definition set_sv_redeemer (w : Services) (s : S) : Services :=
  {| sv_issuer_url := sv_issuer_url w; sv_attester_url := sv_attester_url w;
     sv_redeemer_url := sv_redeemer_url w; sv_issuer := sv_issuer w; sv_attester := sv_attester w;
     sv_redeemer := s; sv_rng := sv_rng w; sv_now := sv_now w; sv_clock := sv_clock w;
     sv_instant := sv_instant w |}.

(** A request to [url] that only the service at [at_url] answers. *)
Definition routed {X T} (at_url url : str) (m : run X str T) : run X str T := fun w =>
  if decide (url = at_url) then m w else (Err (transport_error url), w).

(** A handler's answer, as a caller that keeps only successes sees it. *)
Definition answer {T} (url : str) (r : result Reject T) : result str T :=
  match r with
  | Ok x => Ok x
  | Err (code, _) => Err (status_error code url)
  | Panic => Err (transport_error url)
  end.

Definition ask {T} (url : str) (f : Services -> result Reject T) : run Services str T := fun w =>
  (answer url (f w), w).

#[export] Instance Services_upstream : Upstream Services := {|
  up_keys base := fun w =>
    routed (sv_issuer_url w) base (ask (base ++ B "/keys") (fun w => Ok (keys (sv_issuer w)))) w;
  up_keys_version base v := fun w =>
    routed (sv_issuer_url w) base
      (ask (base ++ B "/keys/" ++ display_N v) (fun w => keys_version v (sv_issuer w))) w;
  up_kt base := fun w =>
    routed (sv_issuer_url w) base (ask (base ++ B "/kt") (fun w => Ok (kt (sv_issuer w)))) w;
  up_redeem url body := fun w =>
    routed (sv_redeemer_url w) url (fun w =>
      let '(r, s) := redeem body (sv_redeemer w) in
      (match r with
       | Ok code => Ok code
       | Err (code, _) => Ok code
       | Panic => Err (transport_error (url ++ B "/redeem"))
       end, set_sv_redeemer w s)) w;
|}.

(** ** With an origin and a client's machine *)

Record Deployment := {
  dp_origin : OriginWorld (W := Services);
  dp_origin_url : str;
  dp_local : L;
}.

Definition set_services (d : Deployment) (w : Services) : Deployment :=
  {| dp_origin := {| ow_state := ow_state (dp_origin d); ow_world := w;
                     ow_rng := ow_rng (dp_origin d) |};
     dp_origin_url := dp_origin_url d; dp_local := dp_local d |}.
Definition services (d : Deployment) : Services := ow_world (dp_origin d).

Definition on_services {T} (m : run Services str T) : run Deployment str T := fun d =>
  let '(r, w) := m (services d) in (r, set_services d w).

Definition on_local {E T} (m : run L E T) : run Deployment E T := fun d =>
  let '(r, l) := m (dp_local d) in
  (r, {| dp_origin := dp_origin d; dp_origin_url := dp_origin_url d; dp_local := l |}).

#[export] Instance Deployment_host : ClientHost Deployment := {|
  get_keys url := on_services (fun w =>
    routed (sv_issuer_url w ++ B "/keys") url (ask url (fun w => Ok (keys (sv_issuer w)))) w);
  get_kt url := on_services (fun w =>
    routed (sv_issuer_url w ++ B "/kt") url (ask url (fun w => Ok (kt (sv_issuer w)))) w);
  post_authorize url body := on_services (fun w =>
    routed (sv_attester_url w ++ B "/authorize") url
      (ask url (fun w => handle_authorize (sv_attester w) body (sv_now w) (sv_instant w))) w);
  post_sign url body := on_services (fun w =>
    routed (sv_issuer_url w ++ B "/sign") url (fun w =>
      let '(r, (st, g)) := sign body (sv_now w) (sv_clock w) (sv_issuer w, sv_rng w) in
      (match r with
       | Ok resp => Ok (inr resp)
       | Err (code, e) =>
           Ok (inl (code, match json_to_vec e with inr text => text | inl _ => [] end))
       | Panic => Err (transport_error url)
       end, set_sv_issuer w st g)) w);
  get_resource url auth := fun d =>
    routed (dp_origin_url d) url (fun d =>
      let '(r, o) := resource auth (dp_origin d) in
      (match r with
       | Ok resp => Ok (status resp, www_authenticate_header resp, resp_body resp)
       | _ => Err (transport_error url)
       end, {| dp_origin := o; dp_origin_url := dp_origin_url d; dp_local := dp_local d |})) d;
  status_text := status_display;
|}.

#[export] Instance Deployment_machine : Machine Deployment := {|
  read_stdin := on_local read_stdin;
  read_file path := on_local (read_file path);
  remove_file path := on_local (remove_file path);
  spawn prog args env := on_local (spawn prog args env);
  getrandom8 := on_local getrandom8;
  temp_path name := temp_path (W := L) name;
|}.

End system.

(** ** The redeemer behind the origin *)

Section once.
Context `{Sha256, Hex, !HexLaws, Base64, Faest, BlindSig, BuildProfile, Chrono}
  `{!UnifiedQuote, Tiers, Redis, Reqwest, Json IssuanceAuthorization}
  {S : Type} `{!SpentStore S, !SpentStoreLaws S}.

#[export] Program Instance Services_once : UpstreamOnce (Services (S := S)) := {|
  up_ok w := store_ok (sv_redeemer w);
  up_spent w k n := spent (sv_redeemer w) k n;
|}.
Next Obligation.
  intros b v w r w'. cbn [up_keys_version Services_upstream]. unfold routed, ask.
  case_decide; by intros [= _ <-].
Qed.
Next Obligation.
  intros b w r w'. cbn [up_kt Services_upstream]. unfold routed, ask.
  case_decide; by intros [= _ <-].
Qed.
Next Obligation.
  intros url k n w r w' Hn. cbn [up_redeem Services_upstream]. unfold routed.
  case_decide; [|by intros [= <- <-]; split; [split|]].
  destruct (redeem _ (sv_redeemer w)) as [q s] eqn:Hq. intros [= Hr <-]. cbn [sv_redeemer set_sv_redeemer].
  pose proof Hq as [(_ & -> & ->)|(m & c & Hm & Hc & Hok & _)]%redeem_cases.
  { split; [done|]. by rewrite <- Hr. }
  cbn [rb_nonce rb_key_epoch] in *. rewrite hex32_encode in Hm by done. injection Hm as <-.
  split; [intros Hw; cbn; by apply (check_and_mark_step _ _ _ _ _ Hw) in Hc as (? & ? & _)|].
  intros Hw. apply (check_and_mark_step _ _ _ _ _ Hw) in Hc as (_ & _ & _ & Hmark).
  intros ->. apply Hmark, Hok. destruct q as [code|[code e]|]; [by injection Hr as ->| |done].
  injection Hr as ->. by destruct (redeem_Err_code _ _ _ _ _ Hq).
Qed.

End once.

(** ** Tokens of published keys are accepted *)

Section accepts.
Context `{Sha256Laws, HexLaws, Base64, FaestLaws, BlindSig, BuildProfile, Chrono}
  `{!Base64Laws, !UnifiedQuote, Tiers, Redis, Reqwest, Json IssuanceAuthorization}
  {S : Type} `{!SpentStore S}.

Implicit Types w : (OriginWorld (W := Services (S := S))).

(** The origin is configured for these services. *)
Record wired w : Prop := {
  wired_base : or_base (ow_state w) = sv_issuer_url (ow_world w);
  wired_pin : or_kt_log_pub (ow_state w) = is_kt_log_pub (sv_issuer (ow_world w));
  wired_redeemer : or_redeemer (ow_state w) = sv_redeemer_url (ow_world w);
}.

(** The record the search for a published key id finds. *)
Lemma find_key_record ks pk nb :
  (pk, nb) ∈ ks ->
  exists i pk' nb', ks !! i = Some (pk', nb')
    /\ list_find (fun r => eq_ignore_ascii_case (kr_token_key_id r)
                    (hex_encode (Scheme_token_key_id (pk_key pk)))) (key_records 0 ks)
       = Some (i, key_record (N.of_nat i) pk' nb')
    /\ Scheme_token_key_id (pk_key pk') = Scheme_token_key_id (pk_key pk).
Proof.
  intros Hin. destruct (list_find _ (key_records 0 ks)) as [[i r]|] eqn:Hf.
  - pose proof Hf as (Hi & Hr & _)%list_find_Some.
    assert (Hlt : (i < length ks)%nat)
      by (apply lookup_lt_Some in Hi; by rewrite length_key_records in Hi).
    apply lookup_lt_is_Some in Hlt as [[pk' nb'] Hpk].
    pose proof (key_records_lookup 0 _ _ _ _ Hpk) as Hi'. rewrite N.add_0_l in Hi'.
    assert (r = key_record (N.of_nat i) pk' nb') as -> by congruence.
    exists i, pk', nb'. split_and!; [done|done|].
    apply Is_true_true, eq_ignore_ascii_case_spec in Hr. cbn [kr_token_key_id key_record] in Hr.
    rewrite !to_ascii_lowercase_hex in Hr. by apply hex_encode_inj in Hr.
  - exfalso. apply list_elem_of_lookup in Hin as [i Hi]. apply (key_records_lookup 0) in Hi.
    apply list_find_None in Hf. rewrite Forall_forall in Hf.
    eapply Hf; [by eapply list_elem_of_lookup_2|]. apply Is_true_true, eq_ignore_ascii_case_refl.
Qed.

(** What the log says of a published key id: the version of a published key of
    this id. *)
Lemma log_version_published st (iss : IssuerState) ks pk nb :
  or_kt_log_pub st = is_kt_log_pub iss -> published iss ks -> len ks < 2 ^ 64 -> (pk, nb) ∈ ks ->
  exists pk' nb', (pk', nb') ∈ ks
    /\ Scheme_token_key_id (pk_key pk') = Scheme_token_key_id (pk_key pk)
    /\ log_version st (Scheme_token_key_id (pk_key pk)) (kt iss) = Ok (Some (pk_key_version pk')).
Proof.
  intros Hpin Hp Hlen Hin. destruct (find_key_record _ _ _ Hin) as (i & pk' & nb' & Hi & Hf & Hid).
  exists pk', nb'. split; [by eapply list_elem_of_lookup_2|]. split; [done|].
  destruct (published_kt _ _ Hp Hlen) as [Hlog _]. pose proof Hp as [Hrec _ _ _ _ _].
  unfold log_version. rewrite Hpin. cbn [kt kt_log_pub_hex]. rewrite trim_hex_encode, hex_decode_encode.
  rewrite decide_False by tauto. rewrite Hlog. cbn [map_err mbind result_bind kt kt_records].
  by rewrite Hrec, Hf.
Qed.

(** A key published in sequence is served under its version. *)
Lemma fetched_published (iss : IssuerState) ks pk nb tkid :
  sequential iss ks -> (pk, nb) ∈ ks -> Scheme_token_key_id (pk_key pk) = tkid ->
  keys_version (pk_key_version pk) iss = Ok pk
  /\ fetched_entry tkid (pk_key_version pk) pk
     = Ok {| ke_verifier := Verifier_new pk; ke_epoch := pk_key_version pk |}.
Proof.
  intros [_ Hs] Hin <-. unfold keys_version. rewrite (Hs _ _ Hin). split; [done|].
  unfold fetched_entry. cbn [IssuerPublicKey_token_key_id map_err mbind result_bind].
  by rewrite decide_False by tauto.
Qed.

(** A read of the services by the origin they are wired to. *)
Lemma call_kt w : or_base (ow_state w) = sv_issuer_url (ow_world w) ->
  call (up_kt (or_base (ow_state w))) w = (Ok (kt (sv_issuer (ow_world w))), w).
Proof.
  intros Hb. unfold call. cbn [up_kt Services_upstream]. unfold routed, ask.
  rewrite decide_True by done. by destruct w.
Qed.

Lemma call_keys_version w v pk : or_base (ow_state w) = sv_issuer_url (ow_world w) ->
  keys_version v (sv_issuer (ow_world w)) = Ok pk ->
  call (up_keys_version (or_base (ow_state w)) v) w = (Ok pk, w).
Proof.
  intros Hb Hk. unfold call. cbn [up_keys_version Services_upstream]. unfold routed, ask.
  rewrite decide_True, Hk by done. by destruct w.
Qed.

Lemma resolve_published w ks pk nb :
  wired w -> published (sv_issuer (ow_world w)) ks -> sequential (sv_issuer (ow_world w)) ks ->
  len ks < 2 ^ 64 -> (pk, nb) ∈ ks ->
  exists pk' nb', (pk', nb') ∈ ks
    /\ Scheme_token_key_id (pk_key pk') = Scheme_token_key_id (pk_key pk)
    /\ resolve_via_kt (Scheme_token_key_id (pk_key pk)) w
       = (Ok (Some {| ke_verifier := Verifier_new pk'; ke_epoch := pk_key_version pk' |}), w).
Proof.
  intros [Hb Hp _] Hpub Hseq Hlen Hin.
  destruct (log_version_published _ _ _ _ _ Hp Hpub Hlen Hin) as (pk' & nb' & Hin' & Hid & Hv).
  destruct (fetched_published _ _ _ _ _ Hseq Hin' Hid) as [Hk Hf].
  exists pk', nb'. split; [done|]. split; [done|]. rewrite resolve_via_kt_steps.
  erewrite run_bind_step by by apply call_kt. rewrite Hv.
  erewrite run_bind_step by done. cbn beta iota.
  erewrite run_bind_step by by apply call_keys_version.
  rewrite Hf. by erewrite run_bind_step.
Qed.

(** The key the origin has, or gets from the log, for a published key id. *)
Lemma key_for_published w ks pk nb :
  origin_ok (ow_state w) -> wired w ->
  published (sv_issuer (ow_world w)) ks -> sequential (sv_issuer (ow_world w)) ks ->
  len ks < 2 ^ 64 -> (pk, nb) ∈ ks ->
  exists e w', key_for (Scheme_token_key_id (pk_key pk)) w = (Ok (Some e), w')
    /\ (or_keys (ow_state w) !! Scheme_token_key_id (pk_key pk) = Some e
        \/ exists nb', (v_pk (ke_verifier e), nb') ∈ ks)
    /\ entry_ok (Scheme_token_key_id (pk_key pk)) e
    /\ ow_world w' = ow_world w /\ ow_rng w' = ow_rng w
    /\ origin_ok (ow_state w')
    /\ set_keys (ow_state w') (or_keys (ow_state w)) = ow_state w.
Proof.
  intros Hok Hw Hp Hs Hl Hin.
  destruct (key_for (Scheme_token_key_id (pk_key pk)) w) as [r w1] eqn:Hk.
  pose proof (key_for_spec _ _ _ _ Hk) as (_ & Hst & Hok' & _).
  unfold key_for in Hk. destruct (or_keys (ow_state w) !! _) as [e|] eqn:He.
  { injection Hk as <- <-. exists e, w. split_and!; auto. by apply (origin_keys _ Hok). }
  destruct (resolve_published _ _ _ _ Hw Hp Hs Hl Hin) as (pk' & nb' & Hin' & Hid & Hr).
  rewrite Hr in Hk. unfold with_state in Hk. injection Hk as <- <-.
  do 2 eexists. split; [done|]. split; [right; by exists nb'|]. split_and!; [|done..| |done].
  - by split_and!.
  - by apply Hok'.
Qed.

Lemma entry_verifies e pk t c c' :
  entry_ok (token_key_id t) e -> pk_key (v_pk (ke_verifier e)) = pk_key pk ->
  Verifier_verify (Verifier_new pk) t c = Ok (nonce t) ->
  TokenChallenge_digest c' = challenge_digest t ->
  Verifier_verify (ke_verifier e) t c' = Ok (nonce t).
Proof.
  intros (_ & _ & Hepk) Heq (Ht & _ & Hk & _ & Hv)%Verifier_verify_Ok Hc.
  apply Verifier_verify_Ok. rewrite Heq, Hepk, Heq. by split_and!.
Qed.

(** A challenge of this origin is found again by its digest. *)
Lemma challenge_found st c :
  origin_ok st -> c ∈ or_recent st ->
  exists c', challenge_for_digest st (TokenChallenge_digest c) = Some c'
    /\ TokenChallenge_digest c' = TokenChallenge_digest c
    /\ or_require_context st && negb (has_redemption_context c') = false.
Proof.
  intros [_ Hc _] Hin. unfold challenge_for_digest.
  destruct (list_find_elem_of (fun c' => TokenChallenge_digest c' = TokenChallenge_digest c)
    (or_recent st) c Hin eq_refl) as [[i c'] Hf].
  rewrite Hf. exists c'. apply list_find_Some in Hf as (Hi & Hd & _). split_and!; [done..|].
  rewrite Forall_forall in Hc. apply list_elem_of_lookup_2, Hc in Hi as (ctx & -> & Hctx).
  destruct (or_require_context st); [|done]. unfold has_redemption_context. cbn [redemption_context
    with_redemption_context andb].
  by rewrite bool_decide_eq_true_2 by by apply Hctx.
Qed.

Lemma spend_services w k n :
  length n = 32%nat -> or_redeemer (ow_state w) = sv_redeemer_url (ow_world w) ->
  exists q s, check_and_mark k n (sv_redeemer (ow_world w)) = (q, s)
    /\ call (spend_centrally (or_redeemer (ow_state w)) k n) w
       = (Ok (bool_decide (q = Ok tt)),
          {| ow_state := ow_state w; ow_world := set_sv_redeemer (ow_world w) s; ow_rng := ow_rng w |}).
Proof.
  intros Hn Hr. destruct (check_and_mark k n (sv_redeemer (ow_world w))) as [q s] eqn:Hc.
  exists q, s. split; [done|]. unfold call, spend_centrally. cbn [up_redeem Services_upstream].
  unfold routed. rewrite decide_True by done.
  destruct (redeem {| rb_key_epoch := k; rb_nonce := hex_encode n |} (sv_redeemer (ow_world w)))
    as [r s'] eqn:Hq.
  unfold redeem in Hq. cbn [rb_nonce rb_key_epoch] in Hq. rewrite hex32_encode, Hc in Hq by done.
  injection Hq as <- <-. by destruct q as [[]|[|e]|].
Qed.

(** A token the found entry accepts, for a challenge the origin still holds, is
    granted exactly when the redeemer marks its nonce. *)
Lemma resource_redeems w w1 e t c :
  key_for (token_key_id t) w = (Ok (Some e), w1) -> origin_ok (ow_state w1) ->
  or_redeemer (ow_state w1) = sv_redeemer_url (ow_world w1) ->
  wf_token t -> (33 <= length (authenticator t))%nat ->
  c ∈ or_recent (ow_state w1) -> challenge_digest t = TokenChallenge_digest c ->
  (forall c', TokenChallenge_digest c' = challenge_digest t ->
    Verifier_verify (ke_verifier e) t c' = Ok (nonce t)) ->
  exists q s resp w', check_and_mark (ke_epoch e) (nonce t) (sv_redeemer (ow_world w1)) = (q, s)
    /\ resource (Some (authorization t)) w = (Ok resp, w')
    /\ resp = (if bool_decide (q = Ok tt)
               then reply OK (B "access granted: valid attested, unlinkable, one-time token" ++ [x0a])
               else reply CONFLICT (B "token already spent (double-spend)" ++ [x0a]))
    /\ ow_world w' = set_sv_redeemer (ow_world w1) s.
Proof.
  intros Hkf Hok1 Hred Ht Ha Hin Hd Hv.
  destruct (challenge_found (ow_state w1) c Hok1 Hin) as (c' & Hcf & Hcd & Hctx).
  destruct (spend_services w1 (ke_epoch e) (nonce t)) as (q & s & Hmark & Hcall);
    [by destruct Ht|done|].
  exists q, s. do 2 eexists. split; [done|]. split.
  - unfold resource. rewrite parse_authorization_of, from_to_bytes by done. cbn [map_err].
    erewrite run_bind_step by done. unfold redeem_with_key. rewrite Hd, Hcf, Hctx.
    unfold redeem_token. rewrite Hv by congruence. erewrite run_bind_step by done. reflexivity.
  - by split.
Qed.

(** Whatever the entry, the request is answered. *)
Lemma redeem_with_key_total w t e :
  wf_token t -> or_redeemer (ow_state w) = sv_redeemer_url (ow_world w) ->
  exists resp w', redeem_with_key t e w = (Ok resp, w').
Proof.
  intros Ht Hred. unfold redeem_with_key, redeem_token.
  destruct (challenge_for_digest _ _) as [c|]; [|by do 2 eexists]. destruct (_ && _); [by do 2 eexists|].
  destruct (Verifier_verify _ t c) as [n|x|] eqn:Hv; [|by do 2 eexists|by apply Verifier_verify_no_panic in Hv].
  apply Verifier_verify_Ok in Hv as (_ & _ & _ & -> & _).
  destruct (spend_services w (ke_epoch e) (nonce t)) as (q & s & _ & Hcall); [by destruct Ht|done|].
  erewrite run_bind_step by done. by do 2 eexists.
Qed.

(** Any published key's tokens are, short of a collision with the key found. *)
Lemma resource_accepts w ks pk nb t c :
  origin_ok (ow_state w) -> wired w ->
  published (sv_issuer (ow_world w)) ks -> sequential (sv_issuer (ow_world w)) ks ->
  len ks < 2 ^ 64 -> (pk, nb) ∈ ks ->
  wf_token t -> (33 <= length (authenticator t))%nat ->
  Verifier_verify (Verifier_new pk) t c = Ok (nonce t) -> c ∈ or_recent (ow_state w) ->
  exists e resp w', resource (Some (authorization t)) w = (Ok resp, w')
    /\ (or_keys (ow_state w) !! token_key_id t = Some e \/ exists nb', (v_pk (ke_verifier e), nb') ∈ ks)
    /\ entry_ok (token_key_id t) e
    /\ (collides [pk_key (v_pk (ke_verifier e))] [pk_key pk]
        \/ pk_key (v_pk (ke_verifier e)) = pk_key pk
           /\ exists q s, check_and_mark (ke_epoch e) (nonce t) (sv_redeemer (ow_world w)) = (q, s)
                /\ resp = (if bool_decide (q = Ok tt)
                   then reply OK (B "access granted: valid attested, unlinkable, one-time token" ++ [x0a])
                   else reply CONFLICT (B "token already spent (double-spend)" ++ [x0a]))
                /\ ow_world w' = set_sv_redeemer (ow_world w) s).
Proof.
  intros Hok Hw Hp Hs Hl Hin Ht Ha Hv Hc.
  pose proof Hv as (_ & Hd & Hk & _)%Verifier_verify_Ok. cbn [v_pk Verifier_new] in Hk.
  destruct (key_for_published _ _ _ _ Hok Hw Hp Hs Hl Hin)
    as (e & w1 & Hkf & Htie & He & Hw1 & _ & Hok1 & Hst).
  rewrite <- Hk in Hkf, He, Htie. exists e.
  assert (Hred : or_redeemer (ow_state w1) = sv_redeemer_url (ow_world w1))
    by (destruct Hw as [_ _ Hr]; rewrite Hw1, <- Hr, <- Hst; done).
  destruct (decide (pk_key (v_pk (ke_verifier e)) = pk_key pk)) as [Heq|Hne].
  - rewrite <- Hw1. destruct (resource_redeems w w1 e t c) as (q & s & resp & w' & Hm & Hr & Hresp & Ho);
      try done.
    + by rewrite <- Hst in Hc.
    + intros c' Hc'. by eapply entry_verifies.
    + exists resp, w'. split_and!; [done..|]. right. split; [done|]. by exists q, s.
  - destruct (redeem_with_key_total w1 t e Ht Hred) as (resp & w' & Hr). exists resp, w'. split.
    + unfold resource. rewrite parse_authorization_of, from_to_bytes by done. cbn [map_err].
      by erewrite run_bind_step by done.
    + split_and!; [done..|]. left. destruct He as (Hid & _ & _). rewrite Hk in Hid.
      exists (pk_key (v_pk (ke_verifier e))), (pk_key pk). split_and!; [set_solver|set_solver|done|done].
Qed.

End accepts.

(** ** A client's run against the deployed system *)

Section mint.
Context `{Sha256Laws, HexLaws, Base64, FaestLaws, RngLaws, !BlindSig, !BlindSigLaws, BuildProfile,
    Chrono}
  `{!Base64Laws, !UnifiedQuote, Tiers, Redis, Reqwest, Json IssuanceAuthorization,
    !JsonLaws IssuanceAuthorization, Json ErrorBody}
  {S : Type} `{!SpentStore S} {L : Type} `{!Machine L}.

Implicit Types d : (Deployment (S := S) (L := L)).

Definition set_local d (l : L) : (Deployment (S := S) (L := L)) :=
  {| dp_origin := dp_origin d; dp_origin_url := dp_origin_url d; dp_local := l |}.

(** A computation of the deployment that is one of the machine. *)
Definition local_of {E T} (m : run (Deployment (S := S) (L := L)) E T) (m' : run L E T) : Prop :=
  forall d, m d = let '(r, l) := m' (dp_local d) in (r, set_local d l).

Lemma local_of_pure {E T} (r : result E T) : local_of (lift r) (lift r).
Proof. intros d. unfold lift. by destruct d. Qed.

Lemma local_of_bind {E T U} (m : run _ E T) m' (f : T -> run _ E U) f' :
  local_of m m' -> (forall x, local_of (f x) (f' x)) -> local_of (m ≫= f) (m' ≫= f').
Proof.
  intros Hm Hf d. unfold mbind, run_bind. rewrite Hm.
  destruct (m' (dp_local d)) as [[x|e|] l]; [|done..]. rewrite Hf. cbn [set_local dp_local].
  by destruct (f' x l).
Qed.

Lemma local_of_map {E E' T} (conv : E -> E') (m : run _ E T) m' :
  local_of m m' -> local_of (mapping_err conv m) (mapping_err conv m').
Proof. intros Hm d. unfold mapping_err. rewrite Hm. by destruct (m' (dp_local d)). Qed.

Lemma local_of_on {E T} (m : run L E T) : local_of (on_local m) m.
Proof. done. Qed.

(** Collecting evidence only touches the machine. *)
Lemma collect_evidence_local ev b :
  local_of (collect_evidence (W := Deployment) ev b) (collect_evidence (W := L) ev b).
Proof.
  assert (Htmp : forall p e, local_of (tempfile_path (W := Deployment) p e) (tempfile_path (W := L) p e)).
  { intros p e. apply local_of_bind; [apply local_of_map, local_of_on|intros x; apply local_of_pure]. }
  destruct ev as [path|cmd|script digest]; cbn [collect_evidence].
  - unfold read_evidence_file. case_decide; apply local_of_map, local_of_on.
  - apply local_of_bind; [apply Htmp|intros out].
    destruct (split_whitespace cmd) as [|prog argv]; [apply local_of_pure|].
    apply local_of_bind; [apply local_of_map, local_of_on|intros [ok st]].
    destruct (negb ok); [apply local_of_pure|].
    apply local_of_bind; [apply local_of_map, local_of_on|intros bs].
    apply local_of_bind; [apply local_of_map, local_of_on|intros []]. apply local_of_pure.
  - apply local_of_bind; [apply Htmp|intros out].
    apply local_of_bind; [apply local_of_map, local_of_on|intros [ok st]].
    destruct (negb ok); [apply local_of_pure|apply local_of_map, local_of_on].
Qed.

(** What a mint of [count] tokens needs of the services and of the machine:
    the issuer holds an honest key and trusts the attester, and the machine
    collects evidence its gate accepts for an identity with quota left. *)
Record mintable d (ev : EvidenceInput) (count : nat) : Prop := {
  mt_key : exists kv g0 g1, Issuer_generate kv g0 = (rot_current (is_rot (sv_issuer (services d))), g1);
  mt_attester : is_attester_pub (sv_issuer (services d))
                = faest_verifying_key (az_signer (at_authorizer (sv_attester (services d))));
  mt_now : sv_now (services d) < 2 ^ 64;
  mt_count : (0 < count)%nat /\ N.of_nat count < 2 ^ 32;
  mt_evidence b : length b = 32%nat -> exists eat l m r lim,
    collect_evidence (W := L) ev b (dp_local d) = (Ok eat, l)
    /\ gate_verify_with_appraisal (az_verifier (at_authorizer (sv_attester (services d))))
         (sv_instant (services d)) eat b = Ok (m, r)
    /\ try_consume (sv_clock (services d)) (rate_limit_id m) (N.of_nat count)
         (is_limiter (sv_issuer (services d))) = (Ok tt, lim);
}.

Lemma mint_deployed d ev count base abase c g out :
  base = sv_issuer_url (services d) -> abase = sv_attester_url (services d) ->
  mintable d ev count ->
  exists ts l lim g1 g2,
    mint base abase ev count (keys (sv_issuer (services d))) c
      {| cw_world := d; cw_rng := g; cw_out := out |}
    = (Ok ts, {| cw_world := set_services (set_local d l)
                   (set_sv_issuer (services d) (set_limiter (sv_issuer (services d)) lim) g1);
                 cw_rng := g2; cw_out := out |})
    /\ length ts = count
    /\ Forall (fun t => Verifier_verify (Verifier_new (keys (sv_issuer (services d)))) t c = Ok (nonce t)
         /\ wf_token t /\ (33 <= length (authenticator t))%nat) ts.
Proof.
  intros -> -> [(kv & h0 & h1 & Hkey) Hatt Hnow [Hpos Hcount] Hev].
  set (st := sv_issuer (services d)) in *.
  destruct (Client_begin_total (keys st) c count g) as (req & p & ga & Hb & Hbind & Hlen & Hkv & _).
  assert (Hb32 : length (SignRequest_binding req) = 32%nat)
    by (unfold SignRequest_binding; rewrite Hbind; apply sha256_length).
  destruct (Hev _ Hb32) as (eat & l & m & r & lim & Hcol & Hgate & Hlim).
  destruct (handle_authorize_accepts (sv_attester (services d)) eat (SignRequest_binding req)
    (N.of_nat count) (sv_now (services d)) (sv_instant (services d)) m r Hgate Hb32)
    as (aresp & auth & v & Hh & Hav & Hj & Hver & Hab & Ham & Hai); [lia|done|].
  destruct (issuer_sign (issuer_sk (rot_current (is_rot st))) (req_body req) (sv_rng (services d)))
    as [resp g1] eqn:Hsign.
  assert (Hw : wrap 32 (len (blinded (req_body req))) = N.of_nat count)
    by (unfold len; by rewrite Hlen, wrap_small).
  assert (Hs : sign {| sb_req := req; sb_authorization_b64 := b64_encode STANDARD v |}
      (sv_now (services d)) (sv_clock (services d)) (st, sv_rng (services d))
    = (Ok resp, (set_limiter st lim, g1))).
  { rewrite (sign_decoded _ _ _ _ _ _ Hj).
    apply sign_authorized_Ok; rewrite ?Hw, ?Ham, ?Hai, ?Hatt; done. }
  destruct (PendingTokens_finalize p (keys st) resp ga) as [q g2] eqn:Hfin.
  assert (Hbs : Issuer_blind_sign (rot_current (is_rot st)) req (sv_rng (services d)) = (Ok resp, g1))
    by by apply Issuer_blind_sign_same_version.
  destruct (mint_run_complete _ _ _ _ _ _ _ _ _ _ _ _ _ _ _ _ Hkey Hb Hbs Hfin)
    as (ts & -> & Hl & Hts).
  exists ts, l, lim, g1, g2. split; [|by split]. unfold mint.
  erewrite run_bind_step by (unfold with_rng; cbn [cw_rng]; rewrite Hb; done). cbn beta iota zeta.
  erewrite run_bind_step by (unfold in_world; cbn [cw_world cw_rng cw_out];
    rewrite collect_evidence_local, Hcol; done).
  assert (Hsrv : services (set_local d l) = services d) by done.
  erewrite run_bind_step.
  2:{ unfold in_world. cbn [cw_world cw_rng cw_out post_authorize Deployment_host].
      unfold on_services, routed, ask. rewrite Hsrv, decide_True by done.
      rewrite wrap_small by done. rewrite Hh. reflexivity. }
  rewrite Hav. set (d1 := set_services (set_local d l) (services d)).
  assert (Hsrv1 : services d1 = services d) by done.
  erewrite run_bind_step.
  2:{ unfold in_world. cbn [cw_world cw_rng cw_out post_sign Deployment_host].
      unfold on_services, routed. rewrite Hsrv1, decide_True by done. fold st.
      rewrite Hs. reflexivity. }
  unfold with_rng. cbn [cw_world cw_rng cw_out]. rewrite Hfin. reflexivity.
Qed.

(** The head of an earlier state of this log, as a client keeps it. *)
Definition earlier_head (st : IssuerState) (ks : list (IssuerPublicKey * N)) (old : SignedHead) : Prop :=
  exists st0 ks0 more, published st0 ks0 /\ is_log_signer st = is_log_signer st0 /\ ks = ks0 ++ more
    /\ sh_seq old = sh_seq (kt_signed_head (kt st0)) /\ sh_head old = sh_head (kt_signed_head (kt st0)).

(** The client's checks pass on the log the issuer serves. *)
Lemma served_log_trusted st ks known :
  published st ks -> len ks < 2 ^ 64 ->
  (forall old, known = Some old -> earlier_head st ks old) ->
  trusted_log (kt st) (is_kt_log_pub st) (Scheme_token_key_id (pk_key (keys st))) known.
Proof.
  intros Hp Hl Hk. destruct (published_kt _ _ Hp Hl) as [Hv Hi]. split_and!; [|done|done|].
  - cbn [kt kt_log_pub_hex]. by rewrite trim_hex_encode, hex_decode_encode.
  - intros old Ho. destruct (Hk old Ho) as (st0 & ks0 & more & Hp0 & Hs & -> & Eq1 & Eq2).
    pose proof (published_consistent _ _ _ _ Hp0 Hp Hs) as Hc.
    destruct (kt_signed_head (kt st0)) as [q h sig], old as [q' h' sig']. cbn in Eq1, Eq2. by subst.
Qed.

Lemma is_kt_log_pub_nonempty st ks : published st ks -> is_kt_log_pub st <> [].
Proof.
  intros [_ _ -> _ _ _] Hn. apply (f_equal length) in Hn. unfold LogSigner_public in Hn.
  unfold public_bytes_from_sk, public_bytes in Hn. by rewrite faest_vk_length in Hn.
Qed.

(** The part of [mint_setup] before the challenge. *)
Lemma mint_setup_deployed d ks name info present known g out :
  published (sv_issuer (services d)) ks -> len ks < 2 ^ 64 ->
  (forall old, known = Some old -> earlier_head (sv_issuer (services d)) ks old) ->
  mint_setup (sv_issuer_url (services d)) name info present (is_kt_log_pub (sv_issuer (services d)))
    known {| cw_world := d; cw_rng := g; cw_out := out |}
  = (challenge ← match present with
                 | Some url => in_world (fetch_origin_challenge url)
                 | None => mret (TokenChallenge_new name info)
                 end;
     mret (keys (sv_issuer (services d)), challenge))
    {| cw_world := d; cw_rng := g; cw_out := out |}.
Proof.
  intros Hp Hl Hk. pose proof (served_log_trusted _ _ _ Hp Hl Hk) as Ht.
  apply check_transparency_Ok in Ht as [n Hn]; [|by eapply is_kt_log_pub_nonempty].
  assert (Hd : set_services d (services d) = d) by by destruct d as [[]].
  unfold mint_setup. erewrite run_bind_step.
  2:{ unfold in_world. cbn [cw_world cw_rng cw_out get_keys Deployment_host].
      unfold on_services, routed, ask. rewrite decide_True, Hd by done. reflexivity. }
  erewrite run_bind_step by done.
  erewrite run_bind_step.
  2:{ unfold in_world. cbn [cw_world cw_rng cw_out get_kt Deployment_host].
      unfold on_services, routed, ask. rewrite decide_True, Hd by done. reflexivity. }
  by erewrite run_bind_step by (unfold lift; rewrite Hn; done).
Qed.

(** Minting alone: the lines printed are the headers of tokens that verify. *)
Lemma client_run_mints d ks ev count name info known issuer_url attester_url g out :
  trim_end_matches x2f issuer_url = sv_issuer_url (services d) ->
  trim_end_matches x2f attester_url = sv_attester_url (services d) ->
  published (sv_issuer (services d)) ks -> len ks < 2 ^ 64 ->
  (forall old, known = Some old -> earlier_head (sv_issuer (services d)) ks old) ->
  mintable d ev count ->
  exists ts s', client_run issuer_url attester_url ev count name info None
      (is_kt_log_pub (sv_issuer (services d))) known {| cw_world := d; cw_rng := g; cw_out := out |}
    = (Ok tt, s')
    /\ cw_out s' = out ++ (authorization <$> ts) /\ length ts = count
    /\ Forall (fun t => Verifier_verify (Verifier_new (keys (sv_issuer (services d)))) t
         (TokenChallenge_new name info) = Ok (nonce t)) ts.
Proof.
  intros Hi Ha Hp Hl Hk Hm. unfold client_run. rewrite Hi, Ha.
  erewrite run_bind_step by (erewrite mint_setup_deployed by done; reflexivity). cbn beta iota.
  destruct (mint_deployed d ev count _ _ (TokenChallenge_new name info) g out eq_refl eq_refl Hm)
    as (ts & l & lim & g1 & g2 & Hmint & Hlen & Hts).
  erewrite run_bind_step by exact Hmint.
  erewrite run_bind_step by apply println_all_spec.
  do 2 eexists. split; [reflexivity|]. split_and!; [done|done|].
  eapply Forall_impl; [exact Hts|]. by intros t (? & _).
Qed.

(** An origin that can issue challenges: its names fit the encoding, and the
    randomness a required redemption context takes is there. *)
Record challenging d : Prop := {
  cg_issuer : is_utf8 (or_issuer_name (ow_state (dp_origin d)))
              /\ len (or_issuer_name (ow_state (dp_origin d))) < 2 ^ 16;
  cg_origin : is_utf8 (or_origin_info (ow_state (dp_origin d)))
              /\ len (or_origin_info (ow_state (dp_origin d))) < 2 ^ 16;
  cg_random : or_require_context (ow_state (dp_origin d)) = true ->
              exists b g, getrandom32 (ow_rng (dp_origin d)) = (inr b, g);
}.

Lemma fetch_deployed d :
  challenging d ->
  exists c o, fetch_origin_challenge (dp_origin_url d) d
      = (Ok c, {| dp_origin := o; dp_origin_url := dp_origin_url d; dp_local := dp_local d |})
    /\ c ∈ or_recent (ow_state o)
    /\ ow_world o = ow_world (dp_origin d)
    /\ or_keys (ow_state o) = or_keys (ow_state (dp_origin d))
    /\ (origin_ok (ow_state (dp_origin d)) -> origin_ok (ow_state o))
    /\ (wired (dp_origin d) -> wired o).
Proof.
  intros [[Hiu Hil] [Hou Hol] Hg].
  destruct (issue_fresh_challenge (dp_origin d)) as [r o] eqn:Hi.
  assert (exists ch www, r = Ok (ch, www)) as (ch & www & ->).
  { unfold issue_fresh_challenge in Hi.
    destruct (or_require_context (ow_state (dp_origin d))).
    - destruct (Hg eq_refl) as (b & g & Hb). unfold draw, mbind, run_bind in Hi.
      unfold with_random_redemption_context, random_nonce in Hi. rewrite Hb in Hi. cbn in Hi.
      injection Hi as <- _. by do 2 eexists.
    - injection Hi as <- _. by do 2 eexists. }
  pose proof Hi as (Hw & [(ch' & www' & [= <- <-] & Hst & Hwww & ctx & Hch & Hctx)|[[e [=]] _]])%issue_fresh_challenge_spec.
  exists ch, o. split.
  - unfold fetch_origin_challenge. erewrite run_bind_step.
    2:{ cbn [get_resource Deployment_host]. unfold routed. rewrite decide_True by done.
        unfold resource, challenge_response. rewrite Hi. reflexivity. }
    cbn beta iota. rewrite decide_False by (cbn; tauto). erewrite run_bind_step by done.
    unfold lift. rewrite (parse_www_authenticate_of _ _ _ Hwww), challenge_from_to; [done|].
    rewrite Hch. split; cbn; try done.
    destruct (or_require_context (ow_state (dp_origin d))) eqn:Hreq.
    + unfold len. rewrite Hctx by done. done.
    + assert (ctx = []) as ->; [|done].
      unfold issue_fresh_challenge in Hi. rewrite Hreq in Hi. injection Hi as Hc _ _. subst ch.
      by injection Hch as <-.
  - split_and!; [|done|by rewrite Hst| |].
    + rewrite Hst. cbn. eapply last_Some_elem_of, push_recent_last.
    + intros Hok. rewrite Hst. by eapply origin_ok_push.
    + intros []. by split; rewrite Hst, Hw.
Qed.

Lemma present_deployed d ks pk nb t ts c url g out :
  url = dp_origin_url d -> origin_ok (ow_state (dp_origin d)) -> wired (dp_origin d) ->
  published (sv_issuer (services d)) ks -> sequential (sv_issuer (services d)) ks ->
  len ks < 2 ^ 64 -> (pk, nb) ∈ ks ->
  wf_token t -> (33 <= length (authenticator t))%nat ->
  Verifier_verify (Verifier_new pk) t c = Ok (nonce t) -> c ∈ or_recent (ow_state (dp_origin d)) ->
  exists e s' answer, present_first (t :: ts) url {| cw_world := d; cw_rng := g; cw_out := out |} = (Ok tt, s')
    /\ cw_out s' = out ++ [answer]
    /\ (or_keys (ow_state (dp_origin d)) !! token_key_id t = Some e
        \/ exists nb', (v_pk (ke_verifier e), nb') ∈ ks)
    /\ entry_ok (token_key_id t) e
    /\ (collides [pk_key (v_pk (ke_verifier e))] [pk_key pk]
        \/ pk_key (v_pk (ke_verifier e)) = pk_key pk
           /\ exists q s, check_and_mark (ke_epoch e) (nonce t) (sv_redeemer (services d)) = (q, s)
                /\ sv_redeemer (services (cw_world s')) = s
                /\ answer = if bool_decide (q = Ok tt)
                     then B "access granted: valid attested, unlinkable, one-time token" ++ [x0a]
                     else B "token already spent (double-spend)" ++ [x0a]).
Proof.
  intros -> Hok Hw Hp Hs Hl Hin Ht Ha Hv Hc.
  destruct (resource_accepts (dp_origin d) ks pk nb t c Hok Hw Hp Hs Hl Hin Ht Ha Hv Hc)
    as (e & resp & o & Hr & Htie & He & Hcase). exists e. eexists. exists (resp_body resp). split.
  - unfold present_first. erewrite run_bind_step by done.
    erewrite run_bind_step.
    2:{ unfold in_world. cbn [cw_world cw_rng cw_out get_resource Deployment_host].
        unfold routed. rewrite decide_True by done. rewrite Hr. reflexivity. }
    reflexivity.
  - split_and!; [done..|]. destruct Hcase as [Hcol|(Heq & q & s & Hm & -> & Ho)]; [by left|right].
    split; [done|]. exists q, s. unfold services. cbn [cw_world dp_origin]. rewrite Ho.
    split_and!; [done..|]. by destruct (bool_decide (q = Ok tt)).
Qed.

(** C1: end to end: against an issuer with a published log whose rotations came one
    after the other, an attester it trusts, an origin configured for both and a
    machine whose evidence the gate accepts, a client's run finishes and prints
    the headers of the tokens asked for; the first of them is presented for the
    challenge the origin gave, and the answer printed last is the grant exactly
    when the redeemer marks its nonce, under the version of the issuer's key.
    The only exception is that the origin's cache or the issuer's log holds
    another key of the same key id, a SHA-256 collision with the issuer's. *)
Theorem client_run_presents d ks ev count name info known issuer_url attester_url g out :
  trim_end_matches x2f issuer_url = sv_issuer_url (services d) ->
  trim_end_matches x2f attester_url = sv_attester_url (services d) ->
  published (sv_issuer (services d)) ks -> sequential (sv_issuer (services d)) ks -> len ks < 2 ^ 64 ->
  (forall old, known = Some old -> earlier_head (sv_issuer (services d)) ks old) ->
  mintable d ev count -> challenging d -> origin_ok (ow_state (dp_origin d)) -> wired (dp_origin d) ->
  exists ts t e s' answer, length ts = count /\ head ts = Some t
    /\ client_run issuer_url attester_url ev count name info (Some (dp_origin_url d))
         (is_kt_log_pub (sv_issuer (services d))) known
         {| cw_world := d; cw_rng := g; cw_out := out |} = (Ok tt, s')
    /\ cw_out s' = out ++ (authorization <$> ts) ++ [answer]
    /\ (or_keys (ow_state (dp_origin d)) !! token_key_id t = Some e
        \/ exists nb, (v_pk (ke_verifier e), nb) ∈ ks)
    /\ entry_ok (token_key_id t) e
    /\ (collides [pk_key (v_pk (ke_verifier e))] [pk_key (keys (sv_issuer (services d)))]
        \/ pk_key (v_pk (ke_verifier e)) = pk_key (keys (sv_issuer (services d)))
           /\ exists q s, check_and_mark (ke_epoch e) (nonce t) (sv_redeemer (services d)) = (q, s)
                /\ sv_redeemer (services (cw_world s')) = s
                /\ answer = if bool_decide (q = Ok tt)
                     then B "access granted: valid attested, unlinkable, one-time token" ++ [x0a]
                     else B "token already spent (double-spend)" ++ [x0a]).
Proof.
  intros Hi Ha Hp Hs Hl Hk Hm Hc Hok Hw.
  destruct (fetch_deployed d Hc) as (c & o & Hf & Hin & Ho & Hkeys & Hok' & Hw').
  set (d1 := {| dp_origin := o; dp_origin_url := dp_origin_url d; dp_local := dp_local d |}).
  assert (Hsrv : services d1 = services d) by done.
  assert (Hm1 : mintable d1 ev count) by (destruct Hm; split; rewrite ?Hsrv; done).
  destruct (mint_deployed d1 ev count _ _ c g out eq_refl eq_refl Hm1)
    as (ts & l & lim & g1 & g2 & Hmint & Hlen & Hts).
  set (d2 := set_services (set_local d1 l) _) in Hmint.
  destruct ts as [|t ts].
  { exfalso. destruct Hm as [_ _ _ [Hpos _] _]. cbn in Hlen. lia. }
  pose proof Hts as [(Hv & Hwf & Hau) _]%Forall_cons_1.
  assert (Hcur : exists nb, (keys (sv_issuer (services d)), nb) ∈ ks).
  { pose proof Hp as [_ _ _ (ks' & nb & ->) _ _]. exists nb. set_solver. }
  destruct Hcur as [nb Hcur]. rewrite Hsrv in Hv.
  destruct (present_deployed d2 ks (keys (sv_issuer (services d))) nb t ts c (dp_origin_url d) g2
    (out ++ (authorization <$> t :: ts))) as (e & s' & answer & Hpres & Hout & Htie & He & Hres); try done.
  { by apply Hok'. }
  { destruct (Hw' Hw) as [W1 W2 W3]. by split. }
  { rewrite <- Hsrv in Hp. by apply published_limiter. }
  { rewrite <- Hsrv in Hs. by apply sequential_limiter. }
  cbn [d2 set_services set_local d1 dp_origin ow_state] in Htie. rewrite Hkeys in Htie.
  change (sv_redeemer (services d2)) with (sv_redeemer (services d1)) in Hres. rewrite Hsrv in Hres.
  exists (t :: ts), t, e, s', answer. split; [done|]. split; [done|].
  split; [|split; [by rewrite Hout, <- app_assoc|split; [done|split; [done|exact Hres]]]].
  unfold client_run. rewrite Hi, Ha.
  erewrite run_bind_step.
  2:{ erewrite mint_setup_deployed by done. erewrite run_bind_step; [reflexivity|].
      unfold in_world. cbn [cw_world cw_rng cw_out]. rewrite Hf. reflexivity. }
  cbn beta iota. rewrite Hsrv in Hmint. erewrite run_bind_step by exact Hmint.
  erewrite run_bind_step by apply println_all_spec. exact Hpres.
Qed.
End mint.
