(* ===== verification/Fleet.v ===== *)
(** * The deployed services at work

Several origins on one issuer and one redeemer, with everything that can happen
to them interleaved: requests to the origins in the steps of OriginSteps,
batches the issuer signs, rotations between their two critical sections (which
may overlap, as the code lets them), nonces that others redeem, and the time.
[fl_step] is that system; its runs are runs of a cluster ([fleet_refines]), its
invariant holds from startup on ([fleet_reachable]). *)

From S2P Require Import Prelude RustStr Externals Pomfrit Core Http RateLimit Spend Gate Authorize.
From S2P Require Import Transparency Policy Appraise GateVerifiers Store Wire Redeemer IssuerService.
From S2P Require Import AttesterService Origin OriginSteps ClientFlow System.

Section fleet.
Context `{Sha256Laws, HexLaws, Base64, FaestLaws, RngLaws, !BlindSig, BuildProfile, Chrono, Features}
  `{!Base64Laws, !UnifiedQuote, Tiers, Redis, Reqwest, Json IssuanceAuthorization}
  {S : Type} `{!SpentStore S, !SpentStoreLaws S}.

(** ** The system *)

(** The origins with their services, and the rotations that have read a version
    and generated their key but not yet published it. *)
Record Fleet := {
  fl_cluster : Cluster (W := Services (S := S));
  fl_rotating : list Issuer;
}.

Inductive fl_event :=
| FlArrive (i : nat) (auth : option str)
| FlAdvance (j : nat)
| FlSign (body : SignBodyWire)
| FlRotateBegin (presented : option str)
| FlRotateCommit (k : nat)
| FlRedeem (body : RedeemBody)
| FlTick (now : N) (clock : option N) (instant : DateTime).

Definition fl_world (f : Fleet) : Services (S := S) := cl_world (fl_cluster f).

Definition set_fl_world (f : Fleet) (w : Services (S := S)) : Fleet := {|
  fl_cluster := {| cl_origins := cl_origins (fl_cluster f); cl_requests := cl_requests (fl_cluster f);
                   cl_world := w; cl_rng := cl_rng (fl_cluster f) |};
  fl_rotating := fl_rotating f;
|}.
Definition set_fl_cluster (f : Fleet) (c : Cluster) : Fleet :=
  {| fl_cluster := c; fl_rotating := fl_rotating f |}.
Definition set_fl_rotating (f : Fleet) (l : list Issuer) : Fleet :=
  {| fl_cluster := fl_cluster f; fl_rotating := l |}.

Definition set_sv_time (w : Services (S := S)) (now : N) (clock : option N) (instant : DateTime) : Services (S := S) :=
  {| sv_issuer_url := sv_issuer_url w; sv_attester_url := sv_attester_url w;
     sv_redeemer_url := sv_redeemer_url w; sv_issuer := sv_issuer w; sv_attester := sv_attester w;
     sv_redeemer := sv_redeemer w; sv_rng := sv_rng w; sv_now := now; sv_clock := clock;
     sv_instant := instant |}.

(** One event, where it can happen, with the token it grants.  A rotation that is
    refused changes nothing and is no event. *)
Definition fl_step (ev : fl_event) (f : Fleet) : option (option (SpendToken * KeyEntry) * Fleet) :=
  let c := fl_cluster f in
  let w := fl_world f in
  match ev with
  | FlArrive i auth =>
      if (i <? length (cl_origins c))%nat then Some (None, set_fl_cluster f (cl_arrive i auth c)) else None
  | FlAdvance j => '(g, c') ← cl_advance j c; Some (g, set_fl_cluster f c')
  | FlSign body =>
      let '(_, (st, g)) := sign body (sv_now w) (sv_clock w) (sv_issuer w, sv_rng w) in
      Some (None, set_fl_world f (set_sv_issuer w st g))
  | FlRotateBegin presented =>
      match (_ ← rotate_check presented (sv_issuer w); rotate_next (sv_issuer w)) with
      | Ok v =>
          let '(i, g) := Issuer_generate v (sv_rng w) in
          Some (None, set_fl_rotating (set_fl_world f (set_sv_issuer w (sv_issuer w) g))
                        (fl_rotating f ++ [i]))
      | _ => None
      end
  | FlRotateCommit k =>
      i ← fl_rotating f !! k;
      let '(_, st) := rotate_commit i (sv_now w) (sv_issuer w) in
      Some (None, set_fl_rotating (set_fl_world f (set_sv_issuer w st (sv_rng w)))
                    (delete k (fl_rotating f)))
  | FlRedeem body =>
      let '(_, s) := redeem body (sv_redeemer w) in
      Some (None, set_fl_world f (set_sv_redeemer w s))
  | FlTick now clock instant => Some (None, set_fl_world f (set_sv_time w now clock instant))
  end.

(** Events in order, with the tokens granted. *)
Fixpoint fl_run (l : list fl_event) (f : Fleet) : option (list (SpendToken * KeyEntry) * Fleet) :=
  match l with
  | [] => Some ([], f)
  | ev :: l =>
      '(g, f1) ← fl_step ev f;
      '(gs, f') ← fl_run l f1;
      Some (option_list g ++ gs, f')
  end.

(** The key an event publishes, with its time. *)
Definition fl_publishes (ev : fl_event) (f : Fleet) : list (IssuerPublicKey * N) :=
  match ev with
  | FlRotateCommit k =>
      match fl_rotating f !! k with
      | Some i => [(Issuer_public i, sv_now (fl_world f))]
      | None => []
      end
  | _ => []
  end.

(** Runs in which no rotation begins while another is under way. *)
Definition fl_apart_at (ev : fl_event) (f : Fleet) : Prop :=
  match ev with FlRotateBegin _ => fl_rotating f = [] | _ => True end.

Fixpoint fl_apart (l : list fl_event) (f : Fleet) : Prop :=
  match l with
  | [] => True
  | ev :: l =>
      fl_apart_at ev f /\ match fl_step ev f with Some (_, f1) => fl_apart l f1 | None => True end
  end.

(** ** Runs of the fleet are runs of the cluster *)

Lemma redeem_le (w : Services (S := S)) body r s :
  redeem body (sv_redeemer w) = (r, s) -> up_le w (set_sv_redeemer w s).
Proof.
  intros Hr Hw. cbn in Hw |- *.
  apply redeem_cases in Hr as [(_ & -> & _)|(n & q & _ & Hc & _)]; [by split|].
  by apply (check_and_mark_step _ _ _ _ _ Hw) in Hc as (? & ? & _).
Qed.

Lemma same_redeemer_le (w w' : Services (S := S)) : sv_redeemer w' = sv_redeemer w -> up_le w w'.
Proof. intros Hs Hw. cbn in Hw |- *. rewrite Hs. by split. Qed.

Lemma fl_step_cluster ev f g f' :
  fl_step ev f = Some (g, f') -> exists cev, cl_step (fl_cluster f) cev g (fl_cluster f').
Proof.
  destruct f as [[os rs w r] rot]. unfold fl_step, fl_world. cbn [fl_cluster cl_world cl_origins fl_rotating].
  assert (Hels : forall w', up_le w w' ->
    cl_step {| cl_origins := os; cl_requests := rs; cl_world := w; cl_rng := r |} Elsewhere None
            {| cl_origins := os; cl_requests := rs; cl_world := w'; cl_rng := r |})
    by (intros w' Hle; by apply (step_elsewhere (Build_Cluster os rs w r))).
  destruct ev as [i auth|j|body|pr|k|body|now clock ins].
  - destruct (Nat.ltb_spec i (length os)); [|done]. intros [= <- <-]. eexists. by apply (step_arrive (Build_Cluster os rs w r)).
  - intros ([g' c'] & Hj & [= <- <-])%bind_Some. eexists. by apply (step_advance (Build_Cluster os rs w r)).
  - destruct (sign _ _ _ _) as [q [st g']]. intros [= <- <-]. eexists. by apply Hels, same_redeemer_le.
  - case_match; [|done..]. destruct (Issuer_generate _ _). intros [= <- <-].
    eexists. by apply Hels, same_redeemer_le.
  - intros (i & _ & Hc)%bind_Some. destruct (rotate_commit _ _ _). injection Hc as <- <-.
    eexists. by apply Hels, same_redeemer_le.
  - destruct (redeem _ _) as [q s] eqn:Hr. intros [= <- <-]. eexists. by eapply Hels, redeem_le.
  - intros [= <- <-]. eexists. by apply Hels, same_redeemer_le.
Qed.

Lemma fl_run_cons ev l f gs f' :
  fl_run (ev :: l) f = Some (gs, f') <->
  exists g f1 gs1, fl_step ev f = Some (g, f1) /\ fl_run l f1 = Some (gs1, f')
    /\ gs = option_list g ++ gs1.
Proof.
  cbn [fl_run]. split.
  - intros ([g f1] & Hs & Hr)%bind_Some. apply bind_Some in Hr as ([gs1 f2] & Hl & [= <- <-]).
    by exists g, f1, gs1.
  - intros (g & f1 & gs1 & -> & Hl & ->). cbn. by rewrite Hl.
Qed.

Lemma fl_run_cluster l f gs f' :
  fl_run l f = Some (gs, f') ->
  exists tr, cl_run (fl_cluster f) tr (fl_cluster f') /\ grants tr = gs.
Proof.
  revert f gs. induction l as [|ev l IH]; intros f gs.
  { intros [= <- <-]. exists []. split; [constructor|done]. }
  intros (g & f1 & gs1 & Hs & Hl & ->)%fl_run_cons.
  apply fl_step_cluster in Hs as [cev Hs]. destruct (IH _ _ Hl) as (tr & Hr & <-).
  exists ((cev, g) :: tr). split; [by econstructor|]. by destruct g.
Qed.

(** ** What every run keeps *)

Definition wired_to (w : Services (S := S)) (st : OriginState) : Prop :=
  or_base st = sv_issuer_url w /\ or_kt_log_pub st = is_kt_log_pub (sv_issuer w)
  /\ or_redeemer st = sv_redeemer_url w.

(** [ks] are the keys published so far. *)
Record fleet_ok (f : Fleet) (ks : list (IssuerPublicKey * N)) : Prop := {
  fo_cluster : cluster_ok (fl_cluster f);
  fo_store : store_ok (sv_redeemer (fl_world f));
  fo_published : published (sv_issuer (fl_world f)) ks;
  fo_last : served_last (sv_issuer (fl_world f)) ks;
  fo_wired : Forall (wired_to (fl_world f)) (cl_origins (fl_cluster f));
}.

(** What rotations that do not overlap keep besides. *)
Definition fleet_apart (f : Fleet) (ks : list (IssuerPublicKey * N)) : Prop :=
  sequential (sv_issuer (fl_world f)) ks
  /\ (fl_rotating f = [] \/ exists i, fl_rotating f = [i] /\ issuer_key_version i = len ks + 1).

Lemma set_sv_redeemer_id (w : Services (S := S)) : set_sv_redeemer w (sv_redeemer w) = w.
Proof. by destruct w. Qed.

(** A request only changes the redeemer's store. *)
Lemma req_step_services p (w w' : OriginWorld (W := Services (S := S))) r :
  req_step p w = (r, w') -> exists s, ow_world w' = set_sv_redeemer (ow_world w) s.
Proof.
  assert (Hid : exists s, ow_world w = set_sv_redeemer (ow_world w) s)
    by (exists (sv_redeemer (ow_world w)); by rewrite set_sv_redeemer_id).
  destruct p as [[h|]| |ch|t|t|t v|t e|t e|t e m|resp]; cbn [req_step].
  - destruct (parse_authorization h); by intros [= _ <-].
  - by intros [= _ <-].
  - destruct (or_require_context _); [|by intros [= _ <-]]. unfold draw.
    destruct (with_random_redemption_context _ _) as [[x|x|] g]; by intros [= _ <-].
  - by intros [= _ <-].
  - by intros [= _ <-].
  - unfold call. cbn [up_kt Services_upstream]. unfold routed, ask. case_decide; by intros [= _ <-].
  - unfold call. cbn [up_keys_version Services_upstream]. unfold routed, ask, keys_version.
    case_decide; [|by intros [= _ <-]].
    destruct (rot_history _ !! v); by intros [= _ <-].
  - by intros [= _ <-].
  - by intros [= _ <-].
  - unfold call, spend_centrally. cbn [up_redeem Services_upstream]. unfold routed.
    case_decide; [|by intros [= _ <-]].
    destruct (redeem _ _) as [[c|[c x]|] s]; intros [= _ <-]; by exists s.
  - by intros [= _ <-].
Qed.

Lemma wired_to_services w w' st st' :
  wired_to w st -> same_settings st st' ->
  sv_issuer_url w' = sv_issuer_url w -> sv_redeemer_url w' = sv_redeemer_url w ->
  is_kt_log_pub (sv_issuer w') = is_kt_log_pub (sv_issuer w) -> wired_to w' st'.
Proof. unfold wired_to, same_settings. intros (? & ? & ?) (_ & _ & _ & _ & ? & ? & ?). naive_solver congruence. Qed.

(** The invariant after an event that leaves the origins and the rotations alone,
    and publishes no key. *)
Lemma fleet_ok_world f ks w :
  fleet_ok f ks -> sv_issuer_url w = sv_issuer_url (fl_world f) ->
  sv_redeemer_url w = sv_redeemer_url (fl_world f) -> store_ok (sv_redeemer w) ->
  published (sv_issuer w) ks -> served_last (sv_issuer w) ks ->
  is_kt_log_pub (sv_issuer w) = is_kt_log_pub (sv_issuer (fl_world f)) ->
  fleet_ok (set_fl_world f w) ks.
Proof.
  intros [[Ho Hq] Hst Hp Hs Hw] E1 E2 E3 E4 E5 E6. split; try done.
  eapply Forall_impl; [exact Hw|]. intros st Hx. by eapply wired_to_services.
Qed.

Lemma sequential_rot st st' ks : is_rot st' = is_rot st -> sequential st ks -> sequential st' ks.
Proof. intros Hr []. split; rewrite ?Hr; done. Qed.

Lemma served_last_rot st st' ks : is_rot st' = is_rot st -> served_last st ks -> served_last st' ks.
Proof. intros Hr Hs v. by rewrite Hr. Qed.

Lemma published_rot st st' ks :
  is_rot st' = is_rot st -> is_log_signer st' = is_log_signer st ->
  is_kt_log_pub st' = is_kt_log_pub st -> published st ks -> published st' ks.
Proof. intros Hr Hl Hp []. split; unfold keys in *; rewrite ?Hr, ?Hl, ?Hp; done. Qed.

Lemma rotate_commit_log_pub i now st r st' :
  rotate_commit i now st = (r, st') -> is_kt_log_pub st' = is_kt_log_pub st.
Proof. unfold rotate_commit. repeat case_match; by intros [= _ <-]. Qed.

(** An event that publishes no key leaves the issuer's keys and the rotations
    under way as they are, but for one that begins. *)
Lemma fl_step_rot ev f g f' :
  fl_step ev f = Some (g, f') -> (forall k, ev <> FlRotateCommit k) ->
  is_rot (sv_issuer (fl_world f')) = is_rot (sv_issuer (fl_world f))
  /\ is_log_signer (sv_issuer (fl_world f')) = is_log_signer (sv_issuer (fl_world f))
  /\ is_kt_log_pub (sv_issuer (fl_world f')) = is_kt_log_pub (sv_issuer (fl_world f))
  /\ sv_issuer_url (fl_world f') = sv_issuer_url (fl_world f)
  /\ sv_redeemer_url (fl_world f') = sv_redeemer_url (fl_world f)
  /\ (fl_rotating f' = fl_rotating f
      \/ exists pr v i h, ev = FlRotateBegin pr /\ rotate_check pr (sv_issuer (fl_world f)) = Ok tt
           /\ rotate_next (sv_issuer (fl_world f)) = Ok v
           /\ Issuer_generate v (sv_rng (fl_world f)) = (i, h) /\ fl_rotating f' = fl_rotating f ++ [i]).
Proof.
  intros Hs Hne. destruct ev as [i auth|j|body|pr|k|body|now clock ins]; cbn [fl_step] in Hs.
  - case_match; [|done]. injection Hs as <- <-. split_and!; auto.
  - apply bind_Some in Hs as ([g' c'] & Hj & [= <- <-]).
    apply cl_advance_Some in Hj as (i & p & st & r & w & _ & _ & _ & Hstep & _ & ->).
    apply req_step_services in Hstep as [s Hs]. cbn [ow_world] in Hs.
    unfold fl_world at 1 3 5 7 9. cbn [set_fl_cluster fl_cluster cl_world fl_rotating].
    rewrite Hs. split_and!; auto.
  - destruct (sign _ _ _ _) as [q [st g']] eqn:Hq. injection Hs as <- <-.
    apply sign_limiter_only in Hq as (Hr & Hl & Hk & _). split_and!; auto.
  - destruct (rotate_check pr _) as [[]|e|] eqn:Hc; [|done..]. cbn [mbind result_bind] in Hs.
    destruct (rotate_next _) as [v|e|] eqn:Hn; [|done..].
    destruct (Issuer_generate _ _) as [i h] eqn:Hg. injection Hs as <- <-. split_and!; auto.
    right. by exists pr, v, i, h.
  - by destruct (Hne k).
  - destruct (redeem _ _). injection Hs as <- <-. split_and!; auto.
  - injection Hs as <- <-. split_and!; auto.
Qed.

(** One that publishes. *)
Lemma fl_step_commit k f g f' :
  fl_step (FlRotateCommit k) f = Some (g, f') ->
  exists i r st, fl_rotating f !! k = Some i
    /\ rotate_commit i (sv_now (fl_world f)) (sv_issuer (fl_world f)) = (r, st)
    /\ f' = set_fl_rotating (set_fl_world f (set_sv_issuer (fl_world f) st (sv_rng (fl_world f))))
              (delete k (fl_rotating f))
    /\ fl_publishes (FlRotateCommit k) f = [(Issuer_public i, sv_now (fl_world f))].
Proof.
  cbn [fl_step fl_publishes]. intros (i & Hi & Hs)%bind_Some. rewrite Hi.
  destruct (rotate_commit _ _ _) as [r st] eqn:Hr. injection Hs as <- <-. by exists i, r, st.
Qed.

Lemma fl_publishes_commit ev f : (forall k, ev <> FlRotateCommit k) -> fl_publishes ev f = [].
Proof. intros Hne. destruct ev as [| | | |k| |]; try done. by destruct (Hne k). Qed.

Lemma fl_event_commit ev : (exists k, ev = FlRotateCommit k) \/ forall k, ev <> FlRotateCommit k.
Proof. destruct ev as [| | | |k| |]; try (by right). left. by exists k. Qed.

Lemma fl_step_wired ev f g f' ks :
  fleet_ok f ks -> fl_step ev f = Some (g, f') ->
  sv_issuer_url (fl_world f') = sv_issuer_url (fl_world f) ->
  sv_redeemer_url (fl_world f') = sv_redeemer_url (fl_world f) ->
  is_kt_log_pub (sv_issuer (fl_world f')) = is_kt_log_pub (sv_issuer (fl_world f)) ->
  cluster_ok (fl_cluster f') /\ store_ok (sv_redeemer (fl_world f'))
  /\ Forall (wired_to (fl_world f')) (cl_origins (fl_cluster f')).
Proof.
  intros [Hc Hst _ _ Hw] [cev Hcs]%fl_step_cluster E1 E2 E3.
  destruct (cl_step_sound _ _ _ _ Hc Hcs) as (Hc' & Hset & Hle).
  split_and!; [done|by apply (Hle Hst)|]. apply Forall_lookup. intros k st1 Hk.
  destruct (Forall2_lookup_r _ _ _ _ _ Hset Hk) as (st0 & Hk0 & Hss).
  eapply wired_to_services; [by eapply (proj1 (Forall_lookup _ _) Hw)|done..].
Qed.

Lemma fleet_ok_step ev f g f' ks :
  fleet_ok f ks -> fl_step ev f = Some (g, f') -> fleet_ok f' (ks ++ fl_publishes ev f).
Proof.
  intros Hok Hs. pose proof Hok as [_ _ Hp Hl _].
  destruct (fl_event_commit ev) as [[k ->]|Hne].
  - pose proof Hs as (i & r & st & Hi & Hr & -> & ->)%fl_step_commit.
    destruct (fl_step_wired _ _ _ _ _ Hok Hs) as (Hc & Hst & Hw);
      [done|done|by eapply rotate_commit_log_pub|].
    split; [done|done|by eapply published_commit|by eapply served_last_commit|done].
  - rewrite fl_publishes_commit, app_nil_r by done.
    pose proof Hs as (Hr & Hls & Hk & Hu1 & Hu2 & _)%fl_step_rot; [|done].
    destruct (fl_step_wired _ _ _ _ _ Hok Hs) as (Hc & Hst & Hw); [done..|].
    split; [done|done|by eapply published_rot|by eapply served_last_rot|done].
Qed.

(** Rotations that do not overlap stay in sequence. *)
Lemma fleet_apart_step ev f g f' ks :
  fleet_ok f ks -> fleet_apart f ks -> fl_apart_at ev f -> len ks + 1 < 2 ^ 32 ->
  fl_step ev f = Some (g, f') -> fleet_apart f' (ks ++ fl_publishes ev f).
Proof.
  intros Hok [Hseq Hrot] Hap Hlen Hs. pose proof Hok as [_ _ Hp _ _].
  destruct (fl_event_commit ev) as [[k ->]|Hne].
  - pose proof Hs as (i & r & st & Hi & Hr & -> & ->)%fl_step_commit.
    destruct Hrot as [Hrot|(i' & Hrot & Hv)]; rewrite Hrot in Hi; [done|].
    apply list_lookup_singleton_Some in Hi as [-> ->]. split; [by eapply sequential_commit|].
    left. cbn [fl_rotating set_fl_rotating]. by rewrite Hrot.
  - rewrite fl_publishes_commit, app_nil_r by done.
    pose proof Hs as (Hr & _ & _ & _ & _ & Hrt)%fl_step_rot; [|done].
    split; [by eapply sequential_rot|]. destruct Hrt as [->|(pr & v & i & h & -> & _ & Hn & Hg & ->)]; [done|].
    cbn [fl_apart_at] in Hap. rewrite Hap. right. exists i. split; [done|].
    apply Issuer_generate_version in Hg as ->. unfold rotate_next in Hn.
    pose proof (sequential_current _ _ Hp Hseq) as Hcur. unfold keys in Hcur. rewrite Hcur in Hn.
    rewrite add_w_small in Hn by done. by injection Hn as <-.
Qed.

(** The keys in the log, of which there is room for the next while versions fit
    32 bits. *)
Definition log_len (f : Fleet) : N := len (kl_records (rot_log (is_rot (sv_issuer (fl_world f))))).

Lemma fleet_log_len f ks : fleet_ok f ks -> log_len f = len ks.
Proof. intros [_ _ [Hl _ _ _ _ _] _ _]. unfold log_len, len. by rewrite Hl, length_key_records. Qed.

Lemma rotate_commit_log i now st r st' :
  rotate_commit i now st = (r, st') ->
  len (kl_records (rot_log (is_rot st))) <= len (kl_records (rot_log (is_rot st'))).
Proof.
  unfold rotate_commit, KeyLog_append, IssuerPublicKey_token_key_id.
  cbn [map_err mbind result_bind]. destruct (LogSigner_sign _ _); intros [= _ <-];
    cbn [set_rot is_rot rot_log kl_records]; unfold len; rewrite length_app; lia.
Qed.

Lemma fl_step_log_len ev f g f' : fl_step ev f = Some (g, f') -> log_len f <= log_len f'.
Proof.
  unfold log_len. destruct ev as [i auth|j|body|pr|k|body|now clock ins]; cbn [fl_step].
  - case_match; [|done]. by intros [= <- <-].
  - intros ([g' c'] & Hj & [= <- <-])%bind_Some.
    apply cl_advance_Some in Hj as (i & p & st & r & w & _ & _ & _ & Hstep & _ & ->).
    apply req_step_services in Hstep as [s Hs]. unfold fl_world at 2. cbn. rewrite Hs. done.
  - destruct (sign _ _ _ _) as [q [st g']] eqn:Hq. intros [= <- <-].
    apply sign_limiter_only in Hq as (Hr & _). cbn. by rewrite Hr.
  - case_match; [|done..]. destruct (Issuer_generate _ _). by intros [= <- <-].
  - intros (i & _ & Hc)%bind_Some. destruct (rotate_commit _ _ _) as [q st] eqn:Hr.
    injection Hc as <- <-. by eapply rotate_commit_log.
  - destruct (redeem _ _). by intros [= <- <-].
  - by intros [= <- <-].
Qed.

Lemma fl_run_log_len l f gs f' : fl_run l f = Some (gs, f') -> log_len f <= log_len f'.
Proof.
  revert f gs. induction l as [|ev l IH]; intros f gs; [by intros [= <- <-]|].
  intros (g & f1 & gs1 & Hs & Hl & _)%fl_run_cons. etrans; [by eapply fl_step_log_len|by eapply IH].
Qed.

(** A property of the states and of the published keys that every event keeps
    holds at the end of a run. *)
Lemma fl_run_ind (P : list fl_event -> Fleet -> list (IssuerPublicKey * N) -> Prop) f' :
  (forall ev l f ks g f1, fleet_ok f ks -> fl_step ev f = Some (g, f1) ->
    fleet_ok f1 (ks ++ fl_publishes ev f) -> log_len f <= log_len f' ->
    P (ev :: l) f ks -> P l f1 (ks ++ fl_publishes ev f)) ->
  forall l f ks gs, fleet_ok f ks -> fl_run l f = Some (gs, f') -> P l f ks ->
  exists more, fleet_ok f' (ks ++ more) /\ P [] f' (ks ++ more).
Proof.
  intros Hstep l. induction l as [|ev l IH]; intros f ks gs Hok Hr HP.
  { injection Hr as <- <-. exists []. by rewrite app_nil_r. }
  pose proof (fl_run_log_len _ _ _ _ Hr) as Hle.
  apply fl_run_cons in Hr as (g & f1 & gs1 & Hs & Hl & _).
  pose proof (fleet_ok_step _ _ _ _ _ Hok Hs) as Hok1.
  destruct (IH _ _ _ Hok1 Hl) as (m' & Hok' & HP'); [by eapply Hstep|].
  eexists. by rewrite app_assoc.
Qed.

Lemma fl_apart_cons ev l f g f1 :
  fl_step ev f = Some (g, f1) -> fl_apart (ev :: l) f -> fl_apart_at ev f /\ fl_apart l f1.
Proof. intros Hs. cbn [fl_apart]. by rewrite Hs. Qed.

(** The invariant of a run, and of one whose rotations do not overlap. *)
Lemma fleet_ok_run l f gs f' ks :
  fleet_ok f ks -> fl_run l f = Some (gs, f') ->
  exists more, fleet_ok f' (ks ++ more)
    /\ (fleet_apart f ks -> fl_apart l f -> log_len f' + 1 < 2 ^ 32 -> fleet_apart f' (ks ++ more)).
Proof.
  intros Hok Hr. destruct (fl_run_ind (fun l1 f1 ks1 => fleet_apart f ks -> fl_apart l f ->
    log_len f' + 1 < 2 ^ 32 -> fl_apart l1 f1 /\ fleet_apart f1 ks1) f')
    with (l := l) (f := f) (ks := ks) (gs := gs) as (m & Hm & Hap); [|done..|].
  - intros ev l1 f1 ks1 g f2 Hok1 Hs _ Hle HP Ha Hl Hb. destruct (HP Ha Hl Hb) as [Hx Hy].
    destruct (fl_apart_cons _ _ _ _ _ Hs Hx) as [Hx1 Hx2]. split; [done|].
    eapply fleet_apart_step; [done..| |done]. rewrite <- (fleet_log_len _ _ Hok1). lia.
  - exists m. split; [done|]. intros Ha Hl Hb. by apply Hap.
Qed.

(** ** Startup *)

(** A fleet of origins that were started against a running issuer. *)
Definition fleet_started (f : Fleet) : Prop :=
  cl_requests (fl_cluster f) = [] /\ fl_rotating f = []
  /\ (exists pub max secs url seed admin now g g',
      issuer_run pub max secs url seed admin now g = (Ok (sv_issuer (fl_world f)), g'))
  /\ Forall (fun st => exists url name info redeemer ctx,
      origin_run url name info redeemer (is_kt_log_pub (sv_issuer (fl_world f))) ctx (fl_world f)
        = (Ok st, fl_world f)
      /\ trim_end_matches x2f redeemer = sv_redeemer_url (fl_world f)) (cl_origins (fl_cluster f)).

(** An origin that started fetched its key from these services. *)
Lemma origin_run_wired url name info redeemer ctx (w w' : Services (S := S)) st :
  origin_run url name info redeemer (is_kt_log_pub (sv_issuer w)) ctx w = (Ok st, w') ->
  trim_end_matches x2f redeemer = sv_redeemer_url w ->
  wired_to w st /\ origin_sound st.
Proof.
  unfold origin_run. cbn [up_keys Services_upstream]. unfold routed, ask.
  case_decide as Hu; [|done]. cbn [answer IssuerPublicKey_token_key_id map_err mbind result_bind].
  intros [= <- _] Hred. split; [by split_and!|]. split; [split; cbn|].
  - unfold MAX_RECENT_CHALLENGES. lia.
  - constructor.
  - intros k e [<- <-]%lookup_singleton_Some. by split_and!.
  - cbn. intros k e [<- _]%lookup_singleton_Some. by left.
Qed.

Lemma fleet_ok_started f :
  fleet_started f -> store_ok (sv_redeemer (fl_world f)) ->
  exists nb, fleet_ok f [(keys (sv_issuer (fl_world f)), nb)]
    /\ fleet_apart f [(keys (sv_issuer (fl_world f)), nb)].
Proof.
  intros (Hq & Hr & (pub & max & secs & url & seed & admin & now & g & g' & Hi) & Ho) Hst.
  apply issuer_run_published in Hi as (i & _ & _ & _ & _ & _ & Hp & Hs).
  exists now. split; [split|split; [done|by left]]; [|done|done|by apply served_last_single|].
  - split; [|by rewrite Hq]. eapply Forall_impl; [exact Ho|].
    intros st (u & name & info & red & ctx & Hrun & Hred). by eapply origin_run_wired.
  - eapply Forall_impl; [exact Ho|].
    intros st (u & name & info & red & ctx & Hrun & Hred). by eapply origin_run_wired.
Qed.

(** An event other than a request's step leaves the origins and the requests under
    way as they are. *)
Lemma fl_step_elsewhere ev f g f' :
  fl_step ev f = Some (g, f') -> (forall j, ev <> FlAdvance j) ->
  cl_origins (fl_cluster f') = cl_origins (fl_cluster f) /\ g = None
  /\ exists new, cl_requests (fl_cluster f') = cl_requests (fl_cluster f) ++ new
     /\ Forall (fun rq => exists i auth, rq = {| rq_origin := i; rq_progress := Some (RqStart auth) |}) new.
Proof.
  intros Hs Hne. assert (Hnil : forall rs : list Request, exists new, rs = rs ++ new
    /\ Forall (fun rq => exists i auth, rq = {| rq_origin := i; rq_progress := Some (RqStart auth) |}) new)
    by (intros rs; exists []; by rewrite app_nil_r).
  destruct ev as [i auth|j|body|pr|k|body|now clock ins]; cbn [fl_step] in Hs.
  - case_match; [|done]. injection Hs as <- <-. split_and!; [done..|]. eexists. split; [done|].
    apply Forall_singleton. by do 2 eexists.
  - by destruct (Hne j).
  - destruct (sign _ _ _ _) as [q [st g']]. injection Hs as <- <-. split_and!; [done..|apply Hnil].
  - case_match; [|done..]. destruct (Issuer_generate _ _).
    injection Hs as <- <-. split_and!; [done..|apply Hnil].
  - apply bind_Some in Hs as (i & _ & Hs). destruct (rotate_commit _ _ _).
    injection Hs as <- <-. split_and!; [done..|apply Hnil].
  - destruct (redeem _ _). injection Hs as <- <-. split_and!; [done..|apply Hnil].
  - injection Hs as <- <-. split_and!; [done..|apply Hnil].
Qed.

(** ** The keys the origins hold were published *)

Definition entry_published (ks : list (IssuerPublicKey * N)) (e : KeyEntry) : Prop :=
  exists nb, (v_pk (ke_verifier e), nb) ∈ ks.

Definition progress_published (ks : list (IssuerPublicKey * N)) (p : Progress) : Prop :=
  match p with
  | RqCache _ e | RqRecent _ e | RqSpend _ e _ => entry_published ks e
  | _ => True
  end.

Definition keys_published (ks : list (IssuerPublicKey * N)) (st : OriginState) : Prop :=
  map_Forall (fun _ e => entry_published ks e) (or_keys st).

Record fleet_keys (f : Fleet) (ks : list (IssuerPublicKey * N)) : Prop := {
  fk_origins : Forall (keys_published ks) (cl_origins (fl_cluster f));
  fk_requests : Forall (fun rq => forall p, rq_progress rq = Some p -> progress_published ks p)
    (cl_requests (fl_cluster f));
}.

Lemma entry_published_more ks more e : entry_published ks e -> entry_published (ks ++ more) e.
Proof. intros [nb Hin]. exists nb. set_solver. Qed.

Lemma fleet_keys_more f ks more : fleet_keys f ks -> fleet_keys f (ks ++ more).
Proof.
  intros [Ho Hq]. split.
  - eapply Forall_impl; [exact Ho|]. intros st Hk k e He. by eapply entry_published_more, Hk.
  - eapply Forall_impl; [exact Hq|]. intros rq Hx p Hp. specialize (Hx p Hp).
    destruct p; try done; by apply entry_published_more.
Qed.

Lemma req_step_published ks p (w w' : OriginWorld (W := Services (S := S))) r :
  published (sv_issuer (ow_world w)) ks -> keys_published ks (ow_state w) -> progress_published ks p ->
  req_step p w = (r, w') ->
  keys_published ks (ow_state w') /\ forall p', r = Ok p' -> progress_published ks p'.
Proof.
  intros Hpub Hk Hp. destruct p as [[h|]| |ch|t|t|t v|t e|t e|t e m|resp]; cbn [req_step].
  - destruct (parse_authorization h); intros [= <- <-]; (split; [done|]); by intros ? [= <-].
  - intros [= <- <-]. split; [done|]. by intros ? [= <-].
  - destruct (or_require_context _); [|intros [= <- <-]; split; [done|]; by intros ? [= <-]]. unfold draw.
    destruct (with_random_redemption_context _ _) as [[x|x|] g]; intros [= <- <-]; (split; [done|]);
      by intros ? [= <-].
  - unfold challenge_sent. destruct (www_authenticate _ _); intros [= <- <-]; (split; [done|]);
      by intros ? [= <-].
  - destruct (or_keys _ !! _) as [e|] eqn:He; intros [= <- <-]; (split; [done|]); intros ? [= <-]; [|done].
    by eapply Hk.
  - unfold call. destruct (up_kt _ _) as [[kt|x|] u]; [|intros [= <- <-]; (split; [done|])..];
      [|by intros ? [= <-]|done].
    destruct (log_version _ _ kt) as [[v|]|x|]; intros [= <- <-]; (split; [done|]); by intros ? [= <-].
  - unfold call. cbn [up_keys_version Services_upstream]. unfold routed, ask, keys_version.
    case_decide; [|intros [= <- <-]; (split; [done|]); by intros ? [= <-]].
    destruct (rot_history _ !! v) as [pk|] eqn:Hv; [|intros [= <- <-]; (split; [done|]); by intros ? [= <-]].
    cbn [ok_or answer]. destruct (fetched_entry _ v pk) as [e|x|] eqn:Hf; intros [= <- <-];
      (split; [done|]); intros ? [= <-]; [|done]. apply fetched_entry_Ok in Hf as [_ Hpk].
    apply (pub_history _ _ Hpub) in Hv as [_ [nb Hin]]. exists nb. by rewrite Hpk.
  - intros [= <- <-]. cbn [ow_state]. split; [by apply map_Forall_insert_2|]. by intros ? [= <-].
  - destruct (verified_nonce _ t e) as [[resp|m]|[]|]; intros [= <- <-]; (split; [done|]); by intros ? [= <-].
  - unfold call. destruct (spend_centrally _ _ _ _) as [[ok|[]|] u]; intros [= <- <-]; (split; [done|]);
      by intros ? [= <-].
  - intros [= <- <-]. split; [done|]. by intros ? [= <-].
Qed.

Lemma fleet_keys_step ev f g f' ks more :
  fleet_ok f ks -> fleet_keys f ks -> fl_step ev f = Some (g, f') ->
  fleet_keys f' (ks ++ more)
  /\ forall t e, g = Some (t, e) -> entry_published (ks ++ more) e.
Proof.
  intros Hok Hkeys Hs. pose proof Hkeys as [Ho Hq].
  assert (Hev : (exists k, ev = FlAdvance k) \/ forall k, ev <> FlAdvance k)
    by (destruct ev; [right|left|right..]; [done|by eexists|done..]).
  destruct Hev as [[k ->]|Hne].
  - pose proof Hs as ([g' c'] & Hk & [= <- <-])%bind_Some.
    apply cl_advance_Some in Hk as (i & p & st & r & w & Hj & Hst & Hf & Hstep & -> & ->).
    pose proof (proj1 (Forall_lookup _ _) Ho _ _ Hst) as Hko.
    pose proof (proj1 (Forall_lookup _ _) Hq _ _ Hj p eq_refl) as Hpo.
    destruct (req_step_published ks p {| ow_state := st; ow_world := fl_world f; ow_rng := cl_rng (fl_cluster f) |}
      _ _ (fo_published _ _ Hok) Hko Hpo Hstep) as [Hko' Hpo'].
    split.
    + apply fleet_keys_more. split; cbn [fl_cluster set_fl_cluster cl_origins cl_requests].
      * by apply Forall_insert.
      * apply Forall_insert; [done|]. cbn [rq_progress]. intros p' Hp'. apply Hpo'.
        by destruct r; [injection Hp' as ->|..].
    + intros t e Hg. destruct p as [h| |ch|t'|t'|t' v|t' e'|t' e'|t' e' m|resp]; try done.
      destruct r as [[]|[]|]; try done. cbn [grant_of] in Hg. case_decide; [|done].
      injection Hg as -> ->. by apply entry_published_more.
  - destruct (fl_step_elsewhere _ _ _ _ Hs Hne) as (Ho' & -> & new & Hr & Hnew). split; [|done].
    apply fleet_keys_more. split; rewrite ?Ho', ?Hr; [done|]. apply Forall_app. split; [done|].
    eapply Forall_impl; [exact Hnew|]. by intros rq (i & auth & ->) p [= <-].
Qed.

Lemma fleet_keys_run l f gs f' ks :
  fleet_ok f ks -> fleet_keys f ks -> fl_run l f = Some (gs, f') ->
  exists more, fleet_ok f' (ks ++ more) /\ fleet_keys f' (ks ++ more)
    /\ Forall (fun x => entry_published (ks ++ more) x.2) gs
    /\ (fleet_apart f ks -> fl_apart l f -> log_len f' + 1 < 2 ^ 32 -> fleet_apart f' (ks ++ more)).
Proof.
  revert f ks gs. induction l as [|ev l IH]; intros f ks gs Hok Hk Hr.
  { injection Hr as <- <-. exists []. by rewrite app_nil_r. }
  pose proof (fl_run_log_len _ _ _ _ Hr) as Hle.
  apply fl_run_cons in Hr as (g & f1 & gs1 & Hs & Hl & ->).
  pose proof (fleet_ok_step _ _ _ _ _ Hok Hs) as Hok1.
  destruct (fleet_keys_step _ _ _ _ _ (fl_publishes ev f) Hok Hk Hs) as [Hk1 Hg].
  destruct (IH _ _ _ Hok1 Hk1 Hl) as (m' & Hok' & Hk' & Hgs & Hap).
  exists (fl_publishes ev f ++ m'). rewrite app_assoc. split_and!; [done..| |].
  - apply Forall_app. split; [|done]. destruct g as [[t e]|]; [|done].
    apply Forall_singleton. destruct (Hg t e eq_refl) as [nb Hnb]. exists nb. set_solver.
  - intros Ha Hx Hb. destruct (fl_apart_cons _ _ _ _ _ Hs Hx) as [Hx1 Hx2]. apply Hap; [|done..].
    eapply fleet_apart_step; [done..| |done]. rewrite <- (fleet_log_len _ _ Hok). lia.
Qed.

Lemma fleet_keys_started f nb :
  fleet_started f -> fleet_keys f [(keys (sv_issuer (fl_world f)), nb)].
Proof.
  intros (Hq & _ & _ & Ho). split; [|by rewrite Hq]. eapply Forall_impl; [exact Ho|].
  intros st (url & name & info & red & ctx & Hrun & _). unfold origin_run in Hrun.
  cbn [up_keys Services_upstream] in Hrun. unfold routed, ask in Hrun. case_decide; [|done].
  cbn [answer IssuerPublicKey_token_key_id map_err mbind result_bind] in Hrun. injection Hrun as <-.
  intros k e Hk. cbn [or_keys] in Hk. apply lookup_singleton_Some in Hk as [_ <-]. exists nb. set_solver.
Qed.

(** ** Properties *)

(** C8: the deployed services implement the contract the origins are proved
    against: from startup on, every run of the fleet (requests to its origins
    interleaved with batches signed, rotations, redemptions by others and the
    passing of time) is a run of a cluster that grants the same tokens, on
    services that keep what [UpstreamOnce] asks of them. *)
Theorem fleet_refines f l gs f' :
  fleet_started f -> store_ok (sv_redeemer (fl_world f)) -> fl_run l f = Some (gs, f') ->
  cluster_ok (fl_cluster f) /\ up_ok (cl_world (fl_cluster f))
  /\ exists tr, cl_run (fl_cluster f) tr (fl_cluster f') /\ grants tr = gs.
Proof.
  intros Hf Hst Hr. destruct (fleet_ok_started _ Hf Hst) as (nb & Hok & _).
  split; [apply Hok|]. split; [done|]. by eapply fl_run_cluster.
Qed.

(** C3: what a deployment ever grants: whatever happens to it from startup on, each
    token granted verifies, for a challenge, under a key that the issuer
    published in its log and that is hashed to the token's key id, and no nonce
    is granted twice under one published key; where rotations do not overlap,
    the published keys' versions count up from one and each is served under its
    own. *)
Theorem fleet_grants f l gs f' :
  fleet_started f -> store_ok (sv_redeemer (fl_world f)) -> fl_run l f = Some (gs, f') ->
  exists ks, published (sv_issuer (fl_world f')) ks
    /\ (fl_apart l f -> log_len f' + 1 < 2 ^ 32 -> sequential (sv_issuer (fl_world f')) ks)
    /\ Forall (fun x => (exists nb, (v_pk (ke_verifier x.2), nb) ∈ ks)
         /\ token_key_id x.1 = Scheme_token_key_id (pk_key (v_pk (ke_verifier x.2)))
         /\ exists c, Verifier_verify (ke_verifier x.2) x.1 c = Ok (nonce x.1)) gs
    /\ NoDup ((fun x => (v_pk (ke_verifier x.2), nonce x.1)) <$> gs).
Proof.
  intros Hf Hst Hr. destruct (fleet_ok_started _ Hf Hst) as (nb & Hok & Hap).
  destruct (fleet_keys_run _ _ _ _ _ Hok (fleet_keys_started _ nb Hf) Hr) as (m & Hok' & _ & Hpub & Hap').
  pose proof Hr as (tr & Hcl & <-)%fl_run_cluster.
  assert (Hup : up_ok (cl_world (fl_cluster f))) by done.
  destruct (cl_run_grants _ _ _ (fo_cluster _ _ Hok) Hup Hcl) as (Hd & _ & Hv).
  eexists. split; [apply Hok'|]. split; [intros; by apply Hap'|]. split.
  - eapply Forall_impl; [exact (proj2 (Forall_and _ _) (conj Hpub Hv))|].
    intros [t e] (Hp & (Hid & _) & Hc). done.
  - revert Hd Hv. generalize (grants tr). clear. intros gs.
    induction gs as [|[t e] gs IH]; intros Hd Hv; [constructor|].
    rewrite fmap_cons in Hd. rewrite fmap_cons. apply NoDup_cons in Hd as [Hn Hd]. apply Forall_cons in Hv as [[(_ & He & _) _] Hv].
    apply NoDup_cons. split; [|by apply IH]. intros ([t' e'] & [= Hpk Hnn] & Hin)%list_elem_of_fmap.
    apply Hn. apply list_elem_of_fmap. exists (t', e'). split; [|done]. cbn [fst snd] in *.
    rewrite Forall_forall in Hv. destruct (Hv _ Hin) as [(_ & He' & _) _]. cbn in He'.
    by rewrite He, He', Hpk, Hnn.
Qed.

(** C7: at any moment of any run the services agree with each other, however
    rotations overlap: the log the issuer serves verifies under the key each
    origin has pinned and lists the served key; every key an origin has cached is
    in it; and for each of its records [/keys/{version}] serves the key of the
    last record of that version, which is the record's own as long as no
    rotation began while another was under way. *)
Theorem fleet_reachable f l gs f' :
  fleet_started f -> store_ok (sv_redeemer (fl_world f)) -> fl_run l f = Some (gs, f') ->
  log_len f' + 1 < 2 ^ 32 ->
  let iss := sv_issuer (fl_world f') in
  (exists ks, fleet_ok f' ks /\ fleet_keys f' ks)
  /\ Forall (fun st => verify_log (or_kt_log_pub st) (kt_records (kt iss)) (kt_signed_head (kt iss)) = Ok tt)
       (cl_origins (fl_cluster f'))
  /\ (exists n, verify_inclusion (kt_records (kt iss)) (Scheme_token_key_id (pk_key (keys iss))) = Ok n)
  /\ Forall (fun st => map_Forall (fun kid _ => exists n, verify_inclusion (kt_records (kt iss)) kid = Ok n)
       (or_keys st)) (cl_origins (fl_cluster f'))
  /\ forall i r, kt_records (kt iss) !! i = Some r ->
       exists j r' pk, kt_records (kt iss) !! j = Some r' /\ kr_key_version r' = kr_key_version r
         /\ keys_version (kr_key_version r) iss = Ok pk
         /\ kr_token_key_id r' = hex_encode (Scheme_token_key_id (pk_key pk))
         /\ (forall k q, kt_records (kt iss) !! k = Some q -> kr_key_version q = kr_key_version r -> (k <= j)%nat)
         /\ (fl_apart l f -> j = i).
Proof.
  intros Hf Hst Hr Hb iss. destruct (fleet_ok_started _ Hf Hst) as (nb & Hok & Hap).
  destruct (fleet_keys_run _ _ _ _ _ Hok (fleet_keys_started _ nb Hf) Hr) as (m & Hok' & Hk' & _ & Hap').
  pose proof Hok' as [Hc Hst' Hp Hs Hw]. set (ks := [(keys (sv_issuer (fl_world f)), nb)] ++ m) in *.
  assert (Hl : len ks < 2 ^ 64) by (rewrite <- (fleet_log_len _ _ Hok'); lia).
  destruct (published_kt _ _ Hp Hl) as [Hv Hi]. split_and!; [by exists ks| |done| |].
  - eapply Forall_impl; [exact Hw|]. intros st (_ & Hpin & _). by rewrite Hpin.
  - apply Forall_lookup. intros i st Hsti. intros kid e He.
    destruct (proj1 (Forall_lookup _ _) (fk_origins _ _ Hk') _ _ Hsti kid e He) as [n Hin].
    destruct (proj1 (Forall_lookup _ _) (co_origins _ Hc) _ _ Hsti) as [Hoo _].
    destruct (origin_keys _ Hoo _ _ He) as (-> & _ & _). cbn [kt kt_records]. unfold iss.
    rewrite (pub_log _ _ Hp). by eapply inclusion_of_key.
  - intros i r Hi'. cbn [kt kt_records] in Hi' |- *. unfold iss in *. rewrite (pub_log _ _ Hp) in Hi' |- *.
    apply key_records_lookup_inv in Hi' as (pk & n & Hpk & ->). cbn [key_record kr_key_version].
    destruct (last_of_version_elem ks pk n) as [pk' Hlast]; [by eapply list_elem_of_lookup_2|].
    pose proof (last_of_version_Some _ _ _ Hlast) as (Hv' & j & n' & Hj & Hmax).
    exists j. do 2 eexists. split; [by apply key_records_lookup|]. split; [done|]. split.
    { unfold keys_version. by rewrite Hs, Hlast. }
    split; [done|]. split.
    + intros k q Hk Hq. apply key_records_lookup_inv in Hk as (pk2 & n2 & Hk & ->).
      eapply Hmax; [done|]. exact Hq.
    + intros Hx. destruct (Hap' Hap Hx Hb) as [[Hsv _] _].
      pose proof (Hsv _ _ _ Hpk) as E1. pose proof (Hsv _ _ _ Hj) as E2. lia.
Qed.

End fleet.
