(* ===== verification/FleetToken.v ===== *)
(** * A good token at work

What becomes of a request that presents a token of a published key to an origin
of the fleet, whatever the fleet does meanwhile ([good_token_served]). *)

From S2P Require Import Prelude RustStr Externals Pomfrit Core Http RateLimit Spend Gate Authorize.
From S2P Require Import Transparency Policy Appraise GateVerifiers Store Wire Redeemer IssuerService.
From S2P Require Import AttesterService Origin OriginSteps ClientFlow System Fleet.

Section token.
Context `{Sha256Laws, HexLaws, Base64, FaestLaws, RngLaws, !BlindSig, BuildProfile, Chrono, Features}
  `{!Base64Laws, !UnifiedQuote, Tiers, Redis, Reqwest, Json IssuanceAuthorization}
  {S : Type} `{!SpentStore S, !SpentStoreLaws S}.

(** ** Challenges and steps of a run *)

(** Whether an event puts a new challenge into the list of origin [i], and how
    many of a run do. *)
Definition fl_pushes_at (i : nat) (ev : fl_event) (f : Fleet (S := S)) : bool :=
  match ev with
  | FlAdvance j =>
      match cl_requests (fl_cluster f) !! j with
      | Some {| rq_origin := i'; rq_progress := Some (RqPush _) |} => (i' =? i)%nat
      | _ => false
      end
  | _ => false
  end.

Fixpoint fl_pushes (i : nat) (l : list fl_event) (f : Fleet (S := S)) : nat :=
  match l with
  | [] => O
  | ev :: l =>
      ((if fl_pushes_at i ev f then 1 else 0)
       + match fl_step ev f with Some (_, f1) => fl_pushes i l f1 | None => 0 end)%nat
  end.

Definition fl_steps_of (j : nat) (l : list fl_event) : nat :=
  length (filter (fun ev => match ev with FlAdvance k => (k =? j)%nat | _ => false end = true) l).

(** ** What becomes of the request *)

(** Another key was published later under the version of a key of the token's id:
    rotations that overlapped. *)
Definition superseded (ks : list (IssuerPublicKey * N)) (t : SpendToken) : Prop :=
  exists a b pk1 nb1 pk2 nb2, (a < b)%nat /\ ks !! a = Some (pk1, nb1) /\ ks !! b = Some (pk2, nb2)
    /\ pk_key_version pk1 = pk_key_version pk2
    /\ Scheme_token_key_id (pk_key pk1) = token_key_id t
    /\ Scheme_token_key_id (pk_key pk2) <> token_key_id t.

(** A published key that SHA-256 does not tell from [pk]. *)
Definition clashing (ks : list (IssuerPublicKey * N)) (pk : IssuerPublicKey) : Prop :=
  exists pk' nb, (pk', nb) ∈ ks /\ collides [pk_key pk'] [pk_key pk].

(** The token and the key entry of the spend that answers the request. *)
Definition spends (ks : list (IssuerPublicKey * N)) (t : SpendToken) (e : KeyEntry) : Prop :=
  entry_ok (token_key_id t) e /\ entry_published ks e.

(** Where the request that presents the token can be; [D] is what is known of its
    answer. *)
Definition good_at (D : Response -> Prop) (ks : list (IssuerPublicKey * N)) (t : SpendToken)
    (p : Progress) : Prop :=
  match p with
  | RqStart auth => auth = Some (authorization t)
  | RqLookup t' | RqLog t' => t' = t
  | RqFetch t' v => t' = t /\ exists pk nb, (pk, nb) ∈ ks /\ pk_key_version pk = v
      /\ Scheme_token_key_id (pk_key pk) = token_key_id t
  | RqCache t' e | RqRecent t' e => t' = t /\ spends ks t e
  | RqSpend t' e n => t' = t /\ spends ks t e /\ n = nonce t
  | RqDone resp => D resp
  | RqFresh | RqPush _ => False
  end.

Lemma superseded_more ks more t : superseded ks t -> superseded (ks ++ more) t.
Proof.
  intros (a & b & pk1 & nb1 & pk2 & nb2 & Hab & Ha & Hb & Hx). exists a, b, pk1, nb1, pk2, nb2.
  split_and!; [done|by apply lookup_app_l_Some|by apply lookup_app_l_Some|apply Hx..].
Qed.

Lemma clashing_more ks more pk : clashing ks pk -> clashing (ks ++ more) pk.
Proof. intros (pk' & nb & Hin & Hc). exists pk', nb. split; [set_solver|done]. Qed.

Lemma spends_more ks more t e : spends ks t e -> spends (ks ++ more) t e.
Proof. intros [He Hp]. split; [done|by apply entry_published_more]. Qed.

Lemma good_at_more (D D' : Response -> Prop) ks more t p :
  (forall resp, D resp -> D' resp) -> good_at D ks t p -> good_at D' (ks ++ more) t p.
Proof.
  intros HD. destruct p; cbn [good_at]; try done; try naive_solver eauto using spends_more.
  intros (-> & pk & nb & Hin & ?). split; [done|]. exists pk, nb. split; [set_solver|done].
Qed.

(** A version names one key where rotations do not overlap. *)
Lemma sequential_not_superseded iss ks t : sequential iss ks -> ~ superseded ks t.
Proof.
  intros [Hv _] (a & b & pk1 & nb1 & pk2 & nb2 & Hab & Ha & Hb & Heq & _).
  rewrite (Hv _ _ _ Ha), (Hv _ _ _ Hb) in Heq. lia.
Qed.

(** ** A good token *)

(** A token of a published key, for a challenge. *)
Record good_token (ks : list (IssuerPublicKey * N)) (pk : IssuerPublicKey) (t : SpendToken)
    (c : TokenChallenge) : Prop := {
  gt_key : exists nb, (pk, nb) ∈ ks;
  gt_wf : wf_token t;
  gt_proof : (33 <= length (authenticator t))%nat;
  gt_verifies : Verifier_verify (Verifier_new pk) t c = Ok (nonce t);
}.

(** The verification under the entry found: it passes, unless the entry's key
    clashes with the token's. *)
Lemma good_verified ks pk t c st e :
  good_token ks pk t c -> origin_ok st -> c ∈ or_recent st -> spends ks t e ->
  verified_nonce st t e = Ok (inr (nonce t))
  \/ clashing ks pk /\ exists resp, verified_nonce st t e = Ok (inl resp) /\ status resp = FORBIDDEN.
Proof.
  intros [_ _ _ Hv] Hok Hc [He [nb Hin]]. pose proof Hv as (_ & Hd & Hk & _)%Verifier_verify_Ok.
  cbn [v_pk Verifier_new] in Hk. destruct (challenge_found st c Hok Hc) as (c' & Hcf & Hcd & Hctx).
  unfold verified_nonce. rewrite Hd, Hcf, Hctx.
  destruct (decide (pk_key (v_pk (ke_verifier e)) = pk_key pk)) as [Heq|Hne].
  { left. by rewrite (entry_verifies _ _ _ _ c' He Heq Hv) by congruence. }
  assert (Hcl : clashing ks pk).
  { exists (v_pk (ke_verifier e)), nb. split; [done|]. destruct He as (Hid & _ & _). rewrite Hk in Hid.
    exists (pk_key (v_pk (ke_verifier e))), (pk_key pk). split_and!; [set_solver|set_solver|done|done]. }
  destruct (Verifier_verify (ke_verifier e) t c') as [n|x|] eqn:Hver.
  - left. by apply Verifier_verify_Ok in Hver as (_ & _ & _ & -> & _).
  - right. split; [done|]. by eexists.
  - by apply Verifier_verify_no_panic in Hver.
Qed.

(** What a step of the request may lead to: the answers that are not the
    redeemer's, and the redeemer's own at the step that asks it. *)
Record allowed (D : Response -> Prop) (w : Services (S := S)) (ks : list (IssuerPublicKey * N))
    (pk : IssuerPublicKey) (t : SpendToken) (p : Progress) : Prop := {
  al_unknown : superseded ks t -> D unknown_key;
  al_rejected resp : clashing ks pk -> status resp = FORBIDDEN -> D resp;
  al_spend e q s : p = RqSpend t e (nonce t) -> spends ks t e ->
    check_and_mark (ke_epoch e) (nonce t) (sv_redeemer w) = (q, s) ->
    D (spend_reply (bool_decide (q = Ok tt)));
}.

(** The version the log gives may serve a key published later. *)
Lemma good_fetch D w ks t v (ow ow' : OriginWorld (W := Services (S := S))) r :
  wired ow -> ow_world ow = w -> published (sv_issuer w) ks -> served_last (sv_issuer w) ks ->
  (superseded ks t -> D unknown_key) -> good_at D ks t (RqFetch t v) ->
  req_step (RqFetch t v) ow = (r, ow') -> exists p', r = Ok p' /\ good_at D ks t p'.
Proof.
  intros [Hb _ _] <- Hp Hs HD (_ & pk & nb & Hin & <- & Hid) Hstep.
  destruct (last_of_version_elem _ _ _ Hin) as [pk2 Hl].
  assert (Hkv : keys_version (pk_key_version pk) (sv_issuer (ow_world ow)) = Ok pk2)
    by (unfold keys_version; by rewrite Hs, Hl).
  apply last_of_version_Some in Hl as (Hv & b & nb2 & Hb2 & Hmax).
  cbn [req_step] in Hstep. erewrite call_keys_version in Hstep by done.
  unfold fetched_entry in Hstep. cbn [IssuerPublicKey_token_key_id map_err mbind result_bind] in Hstep.
  case_decide as Hkid.
  - injection Hstep as <- <-. eexists. split; [done|]. apply HD.
    apply list_elem_of_lookup in Hin as [a Ha]. exists a, b, pk, nb, pk2, nb2. split_and!; try done.
    assert (a <= b)%nat by by eapply Hmax. assert (a <> b) by congruence. lia.
  - injection Hstep as <- <-. eexists. split; [done|]. split; [done|].
    split; [by split_and!|]. exists nb2. by eapply list_elem_of_lookup_2.
Qed.

Lemma good_step D ks pk t c p (w w' : OriginWorld (W := Services (S := S))) r :
  good_token ks pk t c -> wired w -> origin_ok (ow_state w) -> keys_published ks (ow_state w) ->
  published (sv_issuer (ow_world w)) ks -> served_last (sv_issuer (ow_world w)) ks -> len ks < 2 ^ 64 ->
  c ∈ or_recent (ow_state w) -> allowed D (ow_world w) ks pk t p -> good_at D ks t p ->
  req_step p w = (r, w') -> exists p', r = Ok p' /\ good_at D ks t p'.
Proof.
  intros Hg Hwired Hok Hkeys Hp Hs Hlen Hc [Hu Hrej Hsp] Hgood Hstep. pose proof Hg as [[nb Hin] Hwf Hpf Hv].
  pose proof Hv as (_ & _ & Hk & _)%Verifier_verify_Ok. cbn [v_pk Verifier_new] in Hk.
  destruct p as [auth| |ch|t'|t'|t' v|t' e|t' e|t' e m|resp]; cbn [good_at] in Hgood; try done.
  - subst auth. cbn [req_step] in Hstep. rewrite parse_authorization_of, from_to_bytes in Hstep by done.
    cbn [map_err] in Hstep. injection Hstep as <- <-. by eexists.
  - subst t'. cbn [req_step] in Hstep. destruct (or_keys _ !! _) as [e|] eqn:He; injection Hstep as <- <-;
      eexists; (split; [done|]); [|done]. split; [done|]. split; [by apply (origin_keys _ Hok)|by eapply Hkeys].
  - subst t'. cbn [req_step] in Hstep. rewrite call_kt in Hstep by by destruct Hwired.
    destruct (log_version_published (ow_state w) _ _ _ _ ltac:(by destruct Hwired) Hp Hlen Hin)
      as (pk' & nb' & Hin' & Hid & Hlv).
    rewrite <- Hk in Hlv, Hid. rewrite Hlv in Hstep. injection Hstep as <- <-. eexists. split; [done|].
    split; [done|]. by exists pk', nb'.
  - destruct Hgood as [-> Hgood]. eapply good_fetch; [done..|by split|done].
  - destruct Hgood as [-> He]. injection Hstep as <- <-. by eexists.
  - destruct Hgood as [-> He]. cbn [req_step] in Hstep.
    destruct (good_verified _ _ _ _ _ _ Hg Hok Hc He) as [Hn|(Hcl & resp & Hn & Hst)]; rewrite Hn in Hstep;
      injection Hstep as <- <-; eexists; (split; [done|]); [done|by apply Hrej].
  - destruct Hgood as (-> & He & ->). cbn [req_step] in Hstep.
    destruct (spend_services w (ke_epoch e) (nonce t)) as (q & s & Hm & Hcall);
      [by destruct Hwf|by destruct Hwired|].
    rewrite Hcall in Hstep. injection Hstep as <- <-. eexists. split; [done|]. by eapply Hsp.
  - injection Hstep as <- <-. by eexists.
Qed.

(** ** The challenge stays while fewer than 64 newer ones are issued *)

Definition held (st : OriginState) (c : TokenChallenge) (room : nat) : Prop :=
  exists pre post, or_recent st = pre ++ c :: post /\ (length post + room < MAX_RECENT_CHALLENGES)%nat.

Lemma held_in st c n : held st c n -> c ∈ or_recent st.
Proof. intros (pre & post & -> & _). set_solver. Qed.

Lemma held_push st c n ch : held st c (1 + n)%nat -> held (set_recent st (push_recent (or_recent st) ch)) c n.
Proof.
  intros (pre & post & Hr & Hl). exists (drop (length (or_recent st ++ [ch]) - MAX_RECENT_CHALLENGES) pre), (post ++ [ch]).
  split; [|rewrite length_app; cbn; lia]. cbn [set_recent or_recent]. unfold push_recent. cbv zeta.
  rewrite Hr, <- app_assoc, <- app_comm_cons. rewrite drop_app_le; [done|].
  rewrite !length_app. cbn [length]. rewrite length_app. cbn [length]. lia.
Qed.

(** Only the step that issues a challenge changes the list. *)
Lemma req_step_recent p (w w' : OriginWorld (W := Services (S := S))) r :
  req_step p w = (r, w') ->
  or_recent (ow_state w') = match p with
    | RqPush ch => push_recent (or_recent (ow_state w)) ch
    | _ => or_recent (ow_state w)
    end.
Proof.
  destruct p as [[h|]| |ch|t|t|t v|t e|t e|t e m|resp]; cbn [req_step].
  - destruct (parse_authorization h); by intros [= _ <-].
  - by intros [= _ <-].
  - destruct (or_require_context _); [|by intros [= _ <-]]. unfold draw.
    destruct (with_random_redemption_context _ _) as [[x|x|] g]; by intros [= _ <-].
  - by intros [= _ <-].
  - by intros [= _ <-].
  - unfold call. destruct (up_kt _ _) as [[kt|x|] u]; by intros [= _ <-].
  - unfold call. destruct (up_keys_version _ _ _) as [[pk|x|] u]; by intros [= _ <-].
  - by intros [= _ <-].
  - by intros [= _ <-].
  - unfold call. destruct (spend_centrally _ _ _ _) as [q u]. by intros [= _ <-].
  - by intros [= _ <-].
Qed.

Lemma held_advance j f g c' i st c n :
  cl_advance j (fl_cluster f) = Some (g, c') -> cl_origins (fl_cluster f) !! i = Some st ->
  held st c ((if fl_pushes_at i (FlAdvance j) f then 1 else 0) + n)%nat ->
  exists st', cl_origins c' !! i = Some st' /\ held st' c n.
Proof.
  intros (i' & p & st0 & r & w & Hj & Hst0 & _ & Hstep & _ & ->)%cl_advance_Some Hst Hh.
  cbn [cl_origins fl_pushes_at] in *. rewrite Hj in Hh. destruct (decide (i' = i)) as [->|Hne].
  - assert (st0 = st) as -> by congruence. exists (ow_state w).
    split; [apply list_lookup_insert_eq; by eapply lookup_lt_Some|].
    pose proof (req_step_recent _ _ _ _ Hstep) as Hrec. cbn [ow_state] in Hrec.
    assert (Hsame : forall m, held st c m -> or_recent (ow_state w) = or_recent st -> held (ow_state w) c m)
      by (intros m (pre & post & Ha & Hb) Hx; exists pre, post; by rewrite Hx).
    destruct p; try (by apply Hsame). rewrite Nat.eqb_refl in Hh. apply (held_push _ _ _ ch) in Hh.
    destruct Hh as (pre & post & Ha & Hb). exists pre, post. by rewrite Hrec.
  - exists st. split; [by rewrite list_lookup_insert_ne|].
    destruct p; try done. by rewrite (proj2 (Nat.eqb_neq _ _) Hne) in Hh.
Qed.

Lemma fl_steps_of_cons j ev l : fl_steps_of j (ev :: l) = (fl_steps_of j [ev] + fl_steps_of j l)%nat.
Proof. unfold fl_steps_of. rewrite !filter_cons. by case_decide. Qed.

Lemma fl_pushes_cons i ev l f g f1 :
  fl_step ev f = Some (g, f1) ->
  fl_pushes i (ev :: l) f = ((if fl_pushes_at i ev f then 1 else 0) + fl_pushes i l f1)%nat.
Proof. intros Hs. cbn [fl_pushes]. by rewrite Hs. Qed.

(** Another request's step leaves the presenting one where it is. *)
Lemma cl_advance_others j k c g c' rq :
  cl_advance (W := Services (S := S)) k c = Some (g, c') -> k <> j ->
  cl_requests c !! j = Some rq -> cl_requests c' !! j = Some rq.
Proof.
  intros (i & p & st & r & w & _ & _ & _ & _ & _ & ->)%cl_advance_Some Hne Hj.
  cbn [cl_requests]. by rewrite list_lookup_insert_ne.
Qed.

Lemma fl_run_snoc l f gs f1 ev g f2 :
  fl_run l f = Some (gs, f1) -> fl_step ev f1 = Some (g, f2) ->
  fl_run (l ++ [ev]) f = Some (gs ++ option_list g, f2).
Proof.
  revert f gs. induction l as [|e l IH]; intros f gs; cbn [app].
  - intros [= <- <-] Hs. apply fl_run_cons. exists g, f2, []. by rewrite app_nil_r.
  - intros (g1 & f' & gs1 & Hs1 & Hl & ->)%fl_run_cons Hs. apply fl_run_cons.
    exists g1, f', (gs1 ++ option_list g). rewrite <- app_assoc. split_and!; [done| |done]. by apply IH.
Qed.

(** ** The request in a run *)

(** A step of a request, or an event elsewhere. *)
Lemma fl_event_advance ev : (exists k, ev = FlAdvance k) \/ forall k, ev <> FlAdvance k.
Proof. destruct ev as [|k| | | | |]; try (by right). left. by exists k. Qed.

Section run.
Variables (l0 : list fl_event) (f0 : Fleet (S := S)) (i j : nat).
Variables (t : SpendToken) (pk : IssuerPublicKey) (c : TokenChallenge).

(** The redeemer's answer at the step of the run that asks it. *)
Definition redeemer_said (ks : list (IssuerPublicKey * N)) (resp : Response) : Prop :=
  exists l1 l2 gs f1 e q s, l0 = l1 ++ FlAdvance j :: l2 /\ fl_run l1 f0 = Some (gs, f1)
    /\ cl_requests (fl_cluster f1) !! j
       = Some {| rq_origin := i; rq_progress := Some (RqSpend t e (nonce t)) |}
    /\ spends ks t e /\ store_ok (sv_redeemer (fl_world f1))
    /\ check_and_mark (ke_epoch e) (nonce t) (sv_redeemer (fl_world f1)) = (q, s)
    /\ resp = spend_reply (bool_decide (q = Ok tt)).

Definition settled (ks : list (IssuerPublicKey * N)) (resp : Response) : Prop :=
  redeemer_said ks resp \/ (resp = unknown_key /\ superseded ks t)
  \/ (status resp = FORBIDDEN /\ clashing ks pk).

Lemma settled_more ks more resp : settled ks resp -> settled (ks ++ more) resp.
Proof.
  intros [(l1 & l2 & gs & f1 & e & q & s & Hl & Hf & Hr & He & Hx)|[[-> ?]|[? ?]]].
  - left. exists l1, l2, gs, f1, e, q, s. split_and!; try done; [by apply spends_more|apply Hx..].
  - right. left. split; [done|by apply superseded_more].
  - right. right. split; [done|by apply clashing_more].
Qed.

(** Where the request is when [l] is left of the run. *)
Definition presenting (l : list fl_event) (f : Fleet (S := S)) (ks : list (IssuerPublicKey * N)) : Prop :=
  (exists l1 gs, l0 = l1 ++ l /\ fl_run l1 f0 = Some (gs, f)) /\ fleet_keys f ks /\ good_token ks pk t c
  /\ exists p st, cl_requests (fl_cluster f) !! j = Some {| rq_origin := i; rq_progress := Some p |}
     /\ cl_origins (fl_cluster f) !! i = Some st /\ good_at (settled ks) ks t p
     /\ held st c (fl_pushes i l f) /\ (fl_steps_of j l0 + steps_left p <= 7 + fl_steps_of j l)%nat.

Lemma good_token_more ks more : good_token ks pk t c -> good_token (ks ++ more) pk t c.
Proof. intros [[nb Hin] ? ? ?]. split; [exists nb; set_solver|done..]. Qed.

Lemma presenting_step ev l f ks g f1 :
  fleet_ok f ks -> fl_step ev f = Some (g, f1) -> len ks < 2 ^ 64 ->
  presenting (ev :: l) f ks -> presenting l f1 (ks ++ fl_publishes ev f).
Proof.
  intros Hok Hs Hl64 ((l1 & gs1 & Hl0 & Hrun) & Hkeys & Hg & p & st & Hj & Hst & Hgood & Hheld & Hsteps).
  rewrite (fl_pushes_cons _ _ _ _ _ _ Hs) in Hheld. rewrite (fl_steps_of_cons _ ev l) in Hsteps.
  split; [exists (l1 ++ [ev]); eexists; split; [by rewrite <- app_assoc|by eapply fl_run_snoc]|].
  split; [by eapply fleet_keys_step|]. split; [by apply good_token_more|].
  destruct (fl_event_advance ev) as [[k ->]|Hne].
  - pose proof Hs as ([g' c'] & Hk & [= _ <-])%bind_Some.
    destruct (held_advance _ _ _ _ _ _ _ _ Hk Hst Hheld) as (st' & Hst' & Hheld').
    destruct (decide (k = j)) as [->|Hne].
    + pose proof Hk as (i' & p' & st0 & r & w & Hj' & Hst0 & Hf & Hstep & _ & Heq)%cl_advance_Some.
      rewrite Hj in Hj'. injection Hj' as <- <-. assert (st0 = st) as -> by congruence.
      assert (Hw : wired {| ow_state := st; ow_world := fl_world f; ow_rng := cl_rng (fl_cluster f) |}).
      { pose proof (proj1 (Forall_lookup _ _) (fo_wired _ _ Hok) _ _ Hst) as (? & ? & ?). by split. }
      pose proof (proj1 (Forall_lookup _ _) (co_origins _ (fo_cluster _ _ Hok)) _ _ Hst) as [Hsok _].
      pose proof (proj1 (Forall_lookup _ _) (fk_origins _ _ Hkeys) _ _ Hst) as Hkp.
      assert (Hal : allowed (settled ks) (fl_world f) ks pk t p).
      { split; [intros; right; by left|intros; right; by right|]. intros e q s -> He Hm. left.
        exists l1, l, gs1, f, e, q, s. split_and!; try done. apply Hok. }
      destruct (good_step (settled ks) ks pk t c p _ _ _ Hg Hw Hsok Hkp (fo_published _ _ Hok)
        (fo_last _ _ Hok) Hl64 (held_in _ _ _ Hheld) Hal Hgood Hstep) as (p1 & -> & Hg1).
      exists p1, st'. subst c'. cbn [fl_cluster set_fl_cluster cl_requests ok]. split_and!; try done.
      * apply list_lookup_insert_eq. by eapply lookup_lt_Some.
      * eapply good_at_more; [|done]. apply settled_more.
      * apply req_step_left in Hstep; [|done]. unfold fl_steps_of at 2 in Hsteps. rewrite filter_cons in Hsteps.
        rewrite decide_True in Hsteps by apply Nat.eqb_refl. cbn in Hsteps. lia.
    + exists p, st'. split_and!; try done.
      * by eapply cl_advance_others.
      * eapply good_at_more; [|done]. apply settled_more.
      * unfold fl_steps_of at 2 in Hsteps. rewrite filter_cons, decide_False in Hsteps by by intros ?%Nat.eqb_eq.
        done.
  - destruct (fl_step_elsewhere _ _ _ _ Hs Hne) as (Ho & _ & new & Hr & _).
    assert (Hz : fl_steps_of j [ev] = 0%nat /\ fl_pushes_at i ev f = false)
      by (destruct ev as [|k| | | | |]; [done|by destruct (Hne k)|done..]).
    destruct Hz as [Hz Hpz]. rewrite Hz in Hsteps. rewrite Hpz in Hheld.
    exists p, st. rewrite Ho, Hr. split_and!; try done; [by apply lookup_app_l_Some|].
    eapply good_at_more; [|done]. apply settled_more.
Qed.

End run.

(** ** Properties *)

(** C2: a good token is served: presented to an origin that issued its challenge and
    fewer than 64 since, a token of any key ever published is answered, whatever
    the fleet does meanwhile, by what the redeemer says at that moment: 200 when
    it marks the nonce, which was not marked before, and 409 when it does not,
    which for a double spend means that the nonce was marked before the request
    spent it.  The spend is under the version of a published key of the token's
    key id.  The only other answers are 403 for an unknown key, when another key
    was published later under the token's version (never without overlapping
    rotations), and 403 for a rejected token, when two published keys are a
    SHA-256 collision.  The request never panics, takes at most seven steps of
    its own, and until it is answered its next step can be taken. *)
Theorem good_token_served f ks pk t c i j st pre post l gs f' :
  fleet_ok f ks -> fleet_keys f ks -> good_token ks pk t c ->
  cl_origins (fl_cluster f) !! i = Some st -> or_recent st = pre ++ c :: post ->
  (length post + fl_pushes i l f < 64)%nat ->
  cl_requests (fl_cluster f) !! j
    = Some {| rq_origin := i; rq_progress := Some (RqStart (Some (authorization t))) |} ->
  fl_run l f = Some (gs, f') -> log_len f' + 1 < 2 ^ 32 ->
  exists p ks', cl_requests (fl_cluster f') !! j = Some {| rq_origin := i; rq_progress := Some p |}
     /\ published (sv_issuer (fl_world f')) ks' /\ ks `prefix_of` ks'
     /\ (fl_steps_of j l + steps_left p <= 7)%nat
     /\ (finished p = false -> is_Some (fl_step (FlAdvance j) f'))
     /\ forall resp, p = RqDone resp ->
          (exists l1 l2 gs1 f1 e q s, l = l1 ++ FlAdvance j :: l2 /\ fl_run l1 f = Some (gs1, f1)
             /\ cl_requests (fl_cluster f1) !! j
                = Some {| rq_origin := i; rq_progress := Some (RqSpend t e (nonce t)) |}
             /\ (exists nb, (v_pk (ke_verifier e), nb) ∈ ks')
             /\ Scheme_token_key_id (pk_key (v_pk (ke_verifier e))) = token_key_id t
             /\ ke_epoch e = pk_key_version (v_pk (ke_verifier e))
             /\ check_and_mark (ke_epoch e) (nonce t) (sv_redeemer (fl_world f1)) = (q, s)
             /\ (status resp = OK /\ q = Ok tt
                   /\ ~ spent (sv_redeemer (fl_world f1)) (ke_epoch e) (nonce t)
                 \/ status resp = CONFLICT /\ q <> Ok tt
                   /\ (q = Err SEDoubleSpend -> spent (sv_redeemer (fl_world f1)) (ke_epoch e) (nonce t))))
          \/ (resp = unknown_key /\ superseded ks' t /\ ~ (fleet_apart f ks /\ fl_apart l f))
          \/ (status resp = FORBIDDEN /\ clashing ks' pk).
Proof.
  intros Hok Hkeys Hg Hst Hrec Hroom Hj Hr Hb.
  destruct (fl_run_ind (fun l1 f1 ks1 => presenting l f i j t pk c l1 f1 ks1 /\ ks `prefix_of` ks1
      /\ (fleet_apart f ks -> fl_apart l f -> fl_apart l1 f1 /\ fleet_apart f1 ks1)) f')
    with (l := l) (f := f) (ks := ks) (gs := gs) as (more & Hok' & Hend & Hpre & Hap).
  - intros ev l1 f1 ks1 g f2 Hok1 Hs _ Hle (HP & Hpx & Hap). rewrite (fleet_log_len _ _ Hok1) in Hle.
    split_and!; [eapply presenting_step; [done..|lia|done]|by apply prefix_app_r|].
    intros Ha Hl. destruct (Hap Ha Hl) as [Hx Hy]. destruct (fl_apart_cons _ _ _ _ _ Hs Hx) as [Hx1 Hx2].
    split; [done|]. eapply fleet_apart_step; [done..|lia|done].
  - done.
  - done.
  - split_and!; [|done|done]. split; [by exists [], []|]. split; [done|]. split; [done|].
    exists (RqStart (Some (authorization t))), st. split_and!; [done..| |cbn; lia]. by exists pre, post.
  - destruct Hend as (_ & _ & _ & p & st' & Hj' & Hst' & Hgood & _ & Hsteps).
    exists p, (ks ++ more). split_and!; [done|apply Hok'|done|cbn in Hsteps; lia| |].
    + intros Hf. cbn [fl_step]. unfold cl_advance. rewrite Hj'. cbn. rewrite Hst'. cbn. rewrite Hf.
      destruct (req_step p _) as [r w]. by eexists.
    + intros resp ->. destruct Hgood as [Hx|[[-> Hsup]|Hx]]; [left|right; left|by right; right].
      * destruct Hx as (l1 & l2 & gs1 & f1 & e & q & s & Hl & Hf1 & Hq & [He Hpub] & Hstore & Hm & ->).
        pose proof He as (Hid & Hep & _). exists l1, l2, gs1, f1, e, q, s. split_and!; try done.
        pose proof (check_and_mark_step _ _ _ _ _ Hstore Hm) as (_ & _ & _ & Hok1).
        destruct (decide (q = Ok tt)) as [Hq1|Hq1].
        -- left. rewrite bool_decide_eq_true_2 by done. split_and!; [done|done|by apply Hok1].
        -- right. rewrite bool_decide_eq_false_2 by done. split_and!; [done|done|].
           intros ->. by eapply check_and_mark_refused.
      * split_and!; [done|done|]. intros [Ha Hl]. destruct (Hap Ha Hl) as [_ [Hseq _]].
        by eapply sequential_not_superseded.
Qed.

End token.
