(* ===== verification/Overlap.v ===== *)
(** * Overlapping rotations at work

Nothing in [rotate] of cli/src/issuer.rs keeps a second rotation from reading the
version that a first one is about to publish.  What becomes of the tokens of the
first key ([overlapping_rotations_lose_tokens]). *)

From S2P Require Import Prelude RustStr Externals Pomfrit Core Http RateLimit Spend Gate Authorize.
From S2P Require Import Transparency Policy Appraise GateVerifiers Store Wire Redeemer IssuerService.
From S2P Require Import AttesterService Origin OriginSteps ClientFlow System Fleet.

Section overlap.
Context `{Sha256Laws, HexLaws, Base64, FaestLaws, RngLaws, !BlindSig, BuildProfile, Chrono, Features}
  `{!Base64Laws, !UnifiedQuote, Tiers, Redis, Reqwest, Json IssuanceAuthorization}
  {S : Type} `{!SpentStore S, !SpentStoreLaws S}.

Implicit Types f : (Fleet (S := S)).

(** Both rotations read the version before either publishes. *)
Definition overlap (presented : option str) : list fl_event :=
  [FlRotateBegin presented; FlRotateBegin presented; FlRotateCommit 0; FlRotateCommit 0].

Lemma fl_begin pr f v i g :
  rotate_check pr (sv_issuer (fl_world f)) = Ok tt -> rotate_next (sv_issuer (fl_world f)) = Ok v ->
  Issuer_generate v (sv_rng (fl_world f)) = (i, g) ->
  fl_step (FlRotateBegin pr) f
  = Some (None, set_fl_rotating (set_fl_world f (set_sv_issuer (fl_world f) (sv_issuer (fl_world f)) g))
                  (fl_rotating f ++ [i])).
Proof. intros Hc Hn Hg. cbn [fl_step]. rewrite Hc. cbn [mbind result_bind]. by rewrite Hn, Hg. Qed.

Lemma fl_commit f i l :
  fl_rotating f = i :: l ->
  fl_step (FlRotateCommit 0) f
  = Some (None, set_fl_rotating (set_fl_world f (set_sv_issuer (fl_world f)
      (rotate_commit i (sv_now (fl_world f)) (sv_issuer (fl_world f))).2 (sv_rng (fl_world f)))) l).
Proof. intros Hl. cbn [fl_step]. rewrite Hl.
  cbn [lookup list_lookup mbind option_bind delete list_delete]. by destruct (rotate_commit i _ _). Qed.

(** The two keys after the rotations, on the same origins and requests. *)
Lemma overlap_run pr f ks v i1 g1 i2 g2 :
  fleet_ok f ks -> fl_rotating f = [] ->
  rotate_check pr (sv_issuer (fl_world f)) = Ok tt -> rotate_next (sv_issuer (fl_world f)) = Ok v ->
  Issuer_generate v (sv_rng (fl_world f)) = (i1, g1) -> Issuer_generate v g1 = (i2, g2) ->
  exists f', fl_run (overlap pr) f = Some ([], f')
    /\ fleet_ok f' ((ks ++ [(Issuer_public i1, sv_now (fl_world f))]) ++ [(Issuer_public i2, sv_now (fl_world f))])
    /\ cl_origins (fl_cluster f') = cl_origins (fl_cluster f)
    /\ cl_requests (fl_cluster f') = cl_requests (fl_cluster f).
Proof.
  intros Hok Hrot Hc Hn Hi1 Hi2. pose proof (fl_begin _ _ _ _ _ Hc Hn Hi1) as E1. rewrite Hrot in E1.
  set (f1 := set_fl_rotating _ _) in E1. pose proof (fleet_ok_step _ _ _ _ _ Hok E1) as Hok1.
  pose proof (fl_begin pr f1 v i2 g2 Hc Hn Hi2) as E2.
  set (f2 := set_fl_rotating _ _) in E2. pose proof (fleet_ok_step _ _ _ _ _ Hok1 E2) as Hok2.
  pose proof (fl_commit f2 i1 [i2] eq_refl) as E3.
  set (f3 := set_fl_rotating _ _) in E3. pose proof (fleet_ok_step _ _ _ _ _ Hok2 E3) as Hok3.
  pose proof (fl_commit f3 i2 [] eq_refl) as E4.
  set (f4 := set_fl_rotating _ _) in E4. pose proof (fleet_ok_step _ _ _ _ _ Hok3 E4) as Hok4.
  exists f4. split_and!; [|by rewrite !app_nil_r in Hok4|done|done].
  unfold overlap. cbn [fl_run]. rewrite E1. cbn [mbind option_bind].
  rewrite E2. cbn [mbind option_bind]. rewrite E3. cbn [mbind option_bind]. rewrite E4. done.
Qed.

(** A step that reads: nothing changes but the progress. *)
Lemma fl_read j f i p p' st :
  cl_requests (fl_cluster f) !! j = Some {| rq_origin := i; rq_progress := Some p |} ->
  cl_origins (fl_cluster f) !! i = Some st -> finished p = false -> grant_of p (Ok p') = None ->
  req_step p {| ow_state := st; ow_world := fl_world f; ow_rng := cl_rng (fl_cluster f) |}
  = (Ok p', {| ow_state := st; ow_world := fl_world f; ow_rng := cl_rng (fl_cluster f) |}) ->
  exists f', fl_step (FlAdvance j) f = Some (None, f') /\ fl_world f' = fl_world f
    /\ cl_origins (fl_cluster f') = cl_origins (fl_cluster f)
    /\ cl_requests (fl_cluster f') !! j = Some {| rq_origin := i; rq_progress := Some p' |}.
Proof.
  intros Hj Hst Hf Hg Hs. cbn [fl_step]. unfold cl_advance. rewrite Hj. cbn [mbind option_bind rq_progress rq_origin].
  rewrite Hst. cbn [mbind option_bind]. rewrite Hf. unfold fl_world in Hs. rewrite Hs, Hg.
  eexists. split; [done|]. split; [done|]. cbn [set_fl_cluster fl_cluster cl_origins cl_requests ow_state ok].
  split; [by apply list_insert_id|]. apply list_lookup_insert_eq. by eapply lookup_lt_Some.
Qed.

(** The record of a key whose id no earlier one has. *)
Lemma log_version_fresh st (iss : IssuerState) ks pk nb more :
  or_kt_log_pub st = is_kt_log_pub iss -> published iss ((ks ++ [(pk, nb)]) ++ more) ->
  len ((ks ++ [(pk, nb)]) ++ more) < 2 ^ 64 ->
  (forall pk' nb', (pk', nb') ∈ ks \/ (pk', nb') ∈ more ->
     Scheme_token_key_id (pk_key pk') <> Scheme_token_key_id (pk_key pk)) ->
  log_version st (Scheme_token_key_id (pk_key pk)) (kt iss) = Ok (Some (pk_key_version pk)).
Proof.
  intros Hpin Hp Hl Hfresh. destruct (log_version_published st iss _ pk nb Hpin Hp Hl)
    as (pk' & nb' & Hin & Hid & ->); [set_solver|].
  apply elem_of_app in Hin as [[Hin|Hin]%elem_of_app|Hin].
  - exfalso. by eapply Hfresh; [left|].
  - apply list_elem_of_singleton in Hin. by injection Hin as -> _.
  - exfalso. by eapply Hfresh; [right|].
Qed.

(** ** Property *)

(** C26: rotations that overlap lose tokens: from any state of a deployment, two
    rotations that both read the current version before either publishes leave
    two keys in the log under one version, of which [/keys/{version}] serves the
    second; a token of the first key that is then presented to an origin which has
    not cached that key is answered 403 for an unknown key (the key ids being
    fresh: of no other published key). *)
Theorem overlapping_rotations_lose_tokens f ks pr v i1 g1 i2 g2 i st t :
  fleet_ok f ks -> fl_rotating f = [] -> len ks + 2 < 2 ^ 64 ->
  rotate_check pr (sv_issuer (fl_world f)) = Ok tt -> rotate_next (sv_issuer (fl_world f)) = Ok v ->
  Issuer_generate v (sv_rng (fl_world f)) = (i1, g1) -> Issuer_generate v g1 = (i2, g2) ->
  (forall pk nb, (pk, nb) ∈ ks ->
     Scheme_token_key_id (pk_key pk) <> Scheme_token_key_id (issuer_pk i1)) ->
  Scheme_token_key_id (issuer_pk i2) <> Scheme_token_key_id (issuer_pk i1) ->
  cl_origins (fl_cluster f) !! i = Some st -> or_keys st !! token_key_id t = None ->
  wf_token t -> (33 <= length (authenticator t))%nat ->
  token_key_id t = Scheme_token_key_id (issuer_pk i1) ->
  let j := length (cl_requests (fl_cluster f)) in
  exists f1 f2, fl_run (overlap pr) f = Some ([], f1)
    /\ published (sv_issuer (fl_world f1))
         (ks ++ [(Issuer_public i1, sv_now (fl_world f)); (Issuer_public i2, sv_now (fl_world f))])
    /\ pk_key_version (Issuer_public i1) = v /\ pk_key_version (Issuer_public i2) = v
    /\ keys_version v (sv_issuer (fl_world f1)) = Ok (Issuer_public i2)
    /\ fl_run (FlArrive i (Some (authorization t)) :: replicate 4 (FlAdvance j)) f1 = Some ([], f2)
    /\ cl_requests (fl_cluster f2) !! j = Some {| rq_origin := i; rq_progress := Some (RqDone unknown_key) |}.
Proof.
  intros Hok Hrot Hl Hc Hn Hi1 Hi2 Hfresh Hdiff Hst Hmiss Ht Hpf Hk j.
  destruct (overlap_run _ _ _ _ _ _ _ _ Hok Hrot Hc Hn Hi1 Hi2) as (f1 & Hrun & Hok1 & Ho1 & Hq1).
  pose proof (Issuer_generate_version _ _ _ _ Hi1) as Hv1. pose proof (Issuer_generate_version _ _ _ _ Hi2) as Hv2.
  pose proof Hok1 as [_ _ Hp Hs Hw].
  assert (Hkv : keys_version v (sv_issuer (fl_world f1)) = Ok (Issuer_public i2)).
  { unfold keys_version. by rewrite Hs, last_of_version_snoc, decide_True by done. }
  rewrite <- Ho1 in Hst. pose proof (proj1 (Forall_lookup _ _) Hw _ _ Hst) as (Hb & Hpin & _).
  set (f2 := set_fl_cluster f1 (cl_arrive i (Some (authorization t)) (fl_cluster f1))).
  assert (Harr : fl_step (FlArrive i (Some (authorization t))) f1 = Some (None, f2)).
  { cbn [fl_step]. by rewrite (proj2 (Nat.ltb_lt _ _)) by by eapply lookup_lt_Some. }
  assert (Hq2 : cl_requests (fl_cluster f2) !! j
    = Some {| rq_origin := i; rq_progress := Some (RqStart (Some (authorization t))) |}).
  { cbn. rewrite Hq1. by apply list_lookup_middle. }
  assert (Hst2 : cl_origins (fl_cluster f2) !! i = Some st) by done.
  assert (W2 : fl_world f2 = fl_world f1) by done. clearbody f2.
  destruct (fl_read j f2 i _ (RqLookup t) st Hq2 Hst2 eq_refl eq_refl) as (f3 & E3 & W3 & O3 & Q3).
  { cbn [req_step]. by rewrite parse_authorization_of, from_to_bytes by done. }
  rewrite <- O3 in Hst2. destruct (fl_read j f3 i _ (RqLog t) st Q3 Hst2 eq_refl eq_refl) as (f4 & E4 & W4 & O4 & Q4).
  { cbn [req_step ow_state]. by rewrite Hmiss. }
  rewrite <- O4 in Hst2. destruct (fl_read j f4 i _ (RqFetch t v) st Q4 Hst2 eq_refl eq_refl) as (f5 & E5 & W5 & O5 & Q5).
  { cbn [req_step]. rewrite W4, W3, W2, call_kt by done. cbn [ow_state ow_world]. rewrite Hk.
    change (issuer_pk i1) with (pk_key (Issuer_public i1)).
    rewrite (log_version_fresh st _ ks (Issuer_public i1) _ _ Hpin Hp); [by rewrite <- Hv1|..].
    - unfold len in *. rewrite !length_app. cbn. lia.
    - intros pk nb [Hin|Hin%list_elem_of_singleton]; [by eapply Hfresh|]. by injection Hin as -> _. }
  rewrite <- O5 in Hst2. destruct (fl_read j f5 i _ (RqDone unknown_key) st Q5 Hst2 eq_refl eq_refl) as (f6 & E6 & _ & _ & Q6).
  { cbn [req_step]. rewrite W5, W4, W3, W2. erewrite call_keys_version by done.
    unfold fetched_entry. cbn [IssuerPublicKey_token_key_id map_err mbind result_bind].
    by rewrite decide_True by (cbn; by rewrite Hk). }
  exists f1, f6. split_and!; [done|by rewrite <- app_assoc in Hp|done|done|done| |done].
  cbn [replicate fl_run]. rewrite Harr. cbn [mbind option_bind]. rewrite E3. cbn [mbind option_bind].
  rewrite E4. cbn [mbind option_bind]. rewrite E5. cbn [mbind option_bind]. by rewrite E6.
Qed.

End overlap.
