(* ===== verification/FleetQuota.v ===== *)
(** * The quota over a deployment's life

However a deployment runs, the issuer with its in-memory limiter signs no more
messages for one identity in one epoch than the quota it was started with
([fleet_signs_within_quota]): rotations do not reset the counts, refused batches
sign nothing, and the clock may be set back and forth. *)

From S2P Require Import Prelude RustStr Externals Pomfrit Core Http RateLimit Spend Gate Authorize.
From S2P Require Import Transparency Policy Appraise GateVerifiers Store Wire Redeemer IssuerService.
From S2P Require Import AttesterService Origin OriginSteps ClientFlow System Fleet.

Section quota.
Context `{Sha256Laws, HexLaws, Base64, FaestLaws, RngLaws, !BlindSig, BuildProfile, Chrono, Features}
  `{!Base64Laws, !UnifiedQuote, Tiers, Redis, Reqwest, Json IssuanceAuthorization}
  {S : Type} `{!SpentStore S, !SpentStoreLaws S}.

Implicit Types f : (Fleet (S := S)).

(** ** What is signed *)

(** The identity a request to sign is for. *)
Definition body_identity (body : SignBodyWire) : option bytes :=
  match b64_decode STANDARD (sb_authorization_b64 body) with
  | inr v => match json_from_slice (T := IssuanceAuthorization) v with
             | inr auth => Some (auth_rate_limit_id auth)
             | inl _ => None
             end
  | inl _ => None
  end.

(** The signatures the issuer hands out at an event for [i] in epoch [e], by its
    clock and epochs of [secs]. *)
Definition fl_signed_at (secs e : N) (i : bytes) (ev : fl_event) f : N :=
  match ev with
  | FlSign body =>
      let w := fl_world f in
      if decide (body_identity body = Some i /\ secs_since_epoch (sv_clock w) / secs = e) then
        match (sign body (sv_now w) (sv_clock w) (sv_issuer w, sv_rng w)).1 with
        | Ok resp => len (blind_sigs resp)
        | _ => 0
        end
      else 0
  | _ => 0
  end.

Fixpoint fl_signed (secs e : N) (i : bytes) (l : list fl_event) f : N :=
  match l with
  | [] => 0
  | ev :: l =>
      match fl_step ev f with
      | Some (_, f1) => fl_signed_at secs e i ev f + fl_signed secs e i l f1
      | None => 0
      end
  end.

(** The batch of an event can be counted in a [u32]. *)
Definition batch_fits (ev : fl_event) : Prop :=
  match ev with FlSign body => len (blinded (req_body (sb_req body))) < 2 ^ 32 | _ => True end.

(** ** The limiter along a run *)

(** The issuer counts in memory, under quota [max] and epochs of [secs]. *)
Record counts_in (max secs : N) (m : InMemoryRateLimiter) f : Prop := {
  ci_limiter : is_limiter (sv_issuer (fl_world f)) = LimitInMemory m;
  ci_ok : memory_ok m;
  ci_max : max_per_epoch m = max;
  ci_secs : epoch_secs m = secs;
}.

Lemma issuer_sign_length sk body g resp g' :
  issuer_sign sk body g = (resp, g') -> len (blind_sigs resp) = len (blinded body).
Proof.
  unfold issuer_sign, len. destruct (sign_items _ _ g) as [ss g1] eqn:Hs. intros [= <- _].
  apply sign_items_spec, Forall2_length in Hs. cbn [blind_sigs]. lia.
Qed.

(** What a request to sign does to the limiter: it is not asked, or asked once, and
    signs the whole batch only if it grants. *)
Lemma issue_authorized_asks (issuer : Issuer) vk req a now clock (lim lim' : LimitBackend) g g' r :
  issue_authorized_with_limit issuer vk req a now clock (lim, g) = (r, (lim', g')) ->
  (lim' = lim /\ forall resp, r <> Ok resp)
  \/ exists q, try_consume clock (auth_rate_limit_id a) (wrap 32 (len (blinded (req_body req)))) lim = (q, lim')
     /\ forall resp, r = Ok resp -> q = Ok tt /\ len (blind_sigs resp) = len (blinded (req_body req)).
Proof.
  intros Hr. destruct r as [resp|e|] eqn:Er.
  - apply issue_authorized_Ok in Hr as (_ & _ & _ & _ & _ & Hc & Hs%issuer_sign_length). right.
    exists (Ok tt). split; [done|]. by intros ? [= <-].
  - revert Hr. unfold issue_authorized_with_limit, lift, throw, mbind, run_bind.
    destruct (IssuanceAuthorization_verify a vk now) as [[]|x|]; [|by intros [= _ <- _]; left|done].
    repeat (case_decide; [by intros [= _ <- _]; left|]). case_match; [by intros [= _ <- _]; left|].
    unfold on. cbn [fst snd]. destruct (try_consume _ _ _ lim) as [q l1] eqn:Hc.
    intros Hr. right. exists q. split; [|done].
    destruct q as [[]|x|]; cbn in Hr; [|by injection Hr as _ <- _|done].
    destruct (Issuer_blind_sign issuer req g) as [q h]. cbn in Hr. by injection Hr as _ <- _.
  - revert Hr. unfold issue_authorized_with_limit, lift, throw, mbind, run_bind.
    destruct (IssuanceAuthorization_verify a vk now) as [[]|x|]; [|done|by intros [= <- _]; left].
    repeat (case_decide; [done|]). case_match; [done|].
    unfold on. cbn [fst snd]. destruct (try_consume _ _ _ lim) as [q l1] eqn:Hc.
    intros Hr. right. exists q. split; [|done].
    destruct q as [[]|x|]; cbn in Hr; [|done|by injection Hr as <- _].
    destruct (Issuer_blind_sign issuer req g) as [q h]. cbn in Hr. by injection Hr as _ <- _.
Qed.

(** One batch at the issuer: what it signs, it counts. *)
Lemma sign_counts body now clock st g r st' g' m e i :
  is_limiter st = LimitInMemory m -> memory_ok m -> len (blinded (req_body (sb_req body))) < 2 ^ 32 ->
  sign body now clock (st, g) = (r, (st', g')) ->
  exists m', is_limiter st' = LimitInMemory m' /\ memory_ok m'
    /\ max_per_epoch m' = max_per_epoch m /\ epoch_secs m' = epoch_secs m
    /\ (if decide (body_identity body = Some i /\ secs_since_epoch clock / epoch_secs m = e)
        then match r with Ok resp => len (blind_sigs resp) | _ => 0 end else 0) + counted m e i
       <= counted m' e i.
Proof.
  intros Hl Hok Hfit. assert (Hsame : (forall resp, r <> Ok resp) -> st' = st -> exists m',
    is_limiter st' = LimitInMemory m' /\ memory_ok m'
    /\ max_per_epoch m' = max_per_epoch m /\ epoch_secs m' = epoch_secs m
    /\ (if decide (body_identity body = Some i /\ secs_since_epoch clock / epoch_secs m = e)
        then match r with Ok resp => len (blind_sigs resp) | _ => 0 end else 0) + counted m e i
       <= counted m' e i).
  { intros Hne ->. exists m. split_and!; try done. destruct r as [resp|x|]; [by destruct (Hne resp)|..]; case_decide; lia. }
  unfold sign. intros [(v & s1 & [Hv%map_err_Ok%of_sum_Ok ->]%lift_Ok & Hr)|[(x & Hx & ->)|[Hx ->]]]%run_bind_cases;
    [|injection Hx as _ <- _; by apply Hsame..].
  apply run_bind_cases in Hr as [(a & s2 & [Ha%map_err_Ok%of_sum_Ok ->]%lift_Ok & Hr)|[(x & Hx & ->)|[Hx ->]]];
    [|injection Hx as _ <- _; by apply Hsame..].
  unfold sign_authorized in Hr. cbn [fst snd] in Hr.
  destruct (issue_authorized_with_limit _ _ _ _ _ _ _) as [q [lim h]] eqn:Hq. injection Hr as <- <- _.
  assert (Hid : body_identity body = Some (auth_rate_limit_id a)) by (unfold body_identity; by rewrite Hv, Ha).
  apply issue_authorized_asks in Hq as [[-> Hne]|(q0 & Hc & Hsig)].
  { apply Hsame; [|by destruct st]. intros resp ->%map_err_Ok. by eapply Hne. }
  clear Hsame. rewrite Hl, wrap_small in Hc by done. cbn [is_limiter set_limiter].
  unfold try_consume, LimitBackend_limiter in Hc.
  destruct (try_consume clock _ _ m) as [q1 m'] eqn:Hm. injection Hc as <- <-. exists m'.
  apply memory_step in Hm as (Hok' & Hmax & Hsecs & Hoth & Hcase); [|done..].
  split_and!; [done..|]. rewrite Hid. unfold current_epoch in *. case_decide as Hd.
  - destruct Hd as [[= <-] <-].
    assert (Hmono : counted m (secs_since_epoch clock / epoch_secs m) (auth_rate_limit_id a)
      <= counted m' (secs_since_epoch clock / epoch_secs m) (auth_rate_limit_id a))
      by (destruct Hcase as [(_ & _ & ->)|(_ & _ & ->)]; lia).
    destruct (map_err _ q) as [resp|x|] eqn:Hresp; [|lia..].
    apply map_err_Ok in Hresp. destruct (Hsig _ Hresp) as [-> ->]. destruct Hcase as [(_ & _ & ->)|(_ & [=] & _)]. lia.
  - destruct (decide ((e, i) = (secs_since_epoch clock / epoch_secs m, auth_rate_limit_id a))) as [[= -> ->]|Hne].
    + by destruct Hd.
    + rewrite Hoth by done. lia.
Qed.

Lemma rotate_commit_limiter i now st r st' :
  rotate_commit i now st = (r, st') -> is_limiter st' = is_limiter st.
Proof. unfold rotate_commit. repeat case_match; by intros [= _ <-]. Qed.

Lemma fl_step_limiter ev f g f' :
  fl_step ev f = Some (g, f') -> (forall body, ev <> FlSign body) ->
  is_limiter (sv_issuer (fl_world f')) = is_limiter (sv_issuer (fl_world f)).
Proof.
  intros Hs Hne. destruct ev as [i auth|j|body|pr|k|body|now clock ins].
  - cbn [fl_step] in Hs. case_match; [|done]. by injection Hs as _ <-.
  - cbn [fl_step] in Hs. apply bind_Some in Hs as ([g' c'] & Hj & [= _ <-]).
    apply cl_advance_Some in Hj as (i & p & st & r & w & _ & _ & _ & Hstep & _ & ->).
    apply req_step_services in Hstep as [s Hs]. cbn [ow_world] in Hs.
    unfold fl_world at 1. cbn [set_fl_cluster fl_cluster cl_world]. by rewrite Hs.
  - by destruct (Hne body).
  - cbn [fl_step] in Hs. case_match; [|done..]. destruct (Issuer_generate _ _). by injection Hs as _ <-.
  - apply fl_step_commit in Hs as (i & r & st & _ & Hr & -> & _). cbn. by eapply rotate_commit_limiter.
  - cbn [fl_step] in Hs. destruct (redeem _ _). by injection Hs as _ <-.
  - by injection Hs as _ <-.
Qed.

Lemma fl_step_counts max secs m ev f g f' e i :
  counts_in max secs m f -> batch_fits ev -> fl_step ev f = Some (g, f') ->
  exists m', counts_in max secs m' f' /\ fl_signed_at secs e i ev f + counted m e i <= counted m' e i.
Proof.
  intros [Hl Hok <- <-] Hfit Hs.
  assert (Hother : (forall body, ev <> FlSign body) -> exists m', counts_in (max_per_epoch m) (epoch_secs m) m' f'
    /\ fl_signed_at (epoch_secs m) e i ev f + counted m e i <= counted m' e i).
  { intros Hne. exists m. split; [split; [by erewrite fl_step_limiter by done|done..]|].
    destruct ev; try (cbn; lia). by destruct (Hne body). }
  destruct ev as [| |body| | | |]; [by apply Hother..| |by apply Hother|by apply Hother|by apply Hother|by apply Hother].
  cbn [fl_step fl_signed_at] in *. destruct (sign _ _ _ _) as [r [st h]] eqn:Hq.
  injection Hs as _ <-. destruct (sign_counts _ _ _ _ _ _ _ _ m e i Hl Hok Hfit Hq)
    as (m' & ? & ? & ? & ? & ?). exists m'. by split.
Qed.

(** ** Property *)

(** C18: over any run of a deployment whose issuer was started without a Redis
    limiter, and with a quota below the largest [u32], the blind signatures it hands
    out to one identity in one epoch, by its clock, never exceed the quota, whatever
    batches are asked for and refused, however the clock moves and whichever keys
    are rotated in between (batches have fewer than 2^32 messages). *)
Theorem fleet_signs_within_quota pub max secs seed admin now g g' f l gs f' e i :
  issuer_run pub max secs None seed admin now g = (Ok (sv_issuer (fl_world f)), g') ->
  max < u32_max -> Forall batch_fits l -> fl_run l f = Some (gs, f') ->
  fl_signed (N.max secs 1) e i l f <= max.
Proof.
  intros (_ & _ & _ & _ & Hlim & _)%issuer_run_published Hmax Hfit Hr.
  cbn [LimitBackend_from_url] in Hlim. injection Hlim as Hlim.
  set (m := InMemoryRateLimiter_new max secs) in *.
  assert (Hc : counts_in max (N.max secs 1) m f) by (split; [done|by apply memory_ok_new|done..]).
  enough (Hall : fl_signed (N.max secs 1) e i l f + counted m e i <= max) by lia.
  revert Hc. generalize m. clear m Hlim. revert f gs Hr. induction Hfit as [|ev l Hev _ IH]; intros f gs Hr m Hc.
  { cbn. destruct Hc as [_ Hok Hm _]. rewrite <- Hm. apply Hok. }
  apply fl_run_cons in Hr as (g1 & f1 & gs1 & Hs & Hr & _). cbn [fl_signed]. rewrite Hs.
  destruct (fl_step_counts _ _ _ _ _ _ _ e i Hc Hev Hs) as (m1 & Hc1 & Hle).
  specialize (IH _ _ Hr _ Hc1). lia.
Qed.

End quota.
