(* ===== verification/Routes.v ===== *)
(** * The services on the wire

The routers of the four services as tables from method and path to handlers,
and the requests the origin and the client make to them: what is sent, the
extraction of a handler's arguments, the encoding of its answer and what the
caller makes of it.  This is what System abbreviates to calls of the handlers;
axum's router and extractors and reqwest's texts are parameters, with what they
document as laws. *)

From S2P Require Import Prelude RustStr Externals Pomfrit Core Http RateLimit Spend Gate Authorize.
From S2P Require Import Transparency Policy Appraise GateVerifiers Store Wire Redeemer IssuerService.
From S2P Require Import AttesterService Origin OriginSteps ClientFlow System.

(** ** Requests and answers *)

Inductive Method := GET | HEAD | POST | OtherMethod (name : str).

#[export] Instance Method_eq_dec : EqDecision Method.
Proof. solve_decision. Defined.

(** Header names are in lower case, as [HeaderMap] keeps them. *)
Record HttpRequest := {
  hq_method : Method;
  hq_path : str;
  hq_headers : list (str * bytes);
  hq_body : bytes;
}.

(** Of the headers of an answer, those its caller reads. *)
Record HttpResponse := {
  hs_status : N;
  hs_headers : list (str * bytes);
  hs_body : bytes;
}.

Definition plain_response (code : N) (body : bytes) : HttpResponse :=
  {| hs_status := code; hs_headers := []; hs_body := body |}.

(** [headers.get(name)], the first value of that name. *)
Fixpoint header (name : str) (l : list (str * bytes)) : option bytes :=
  match l with
  | [] => None
  | (k, v) :: l => if decide (k = name) then Some v else header name l
  end.

(** [HeaderValue::to_str]: visible ASCII, spaces and tabs. *)
Definition visible (b : byte) : bool := b_in 32 126 b || b_is 9 b.
Definition header_str (name : str) (l : list (str * bytes)) : option str :=
  match header name l with
  | Some v => if forallb visible v then Some v else None
  | None => None
  end.

(** A path, or a prefix with one more segment ([/keys/:version]). *)
Inductive Pattern := Exactly (path : str) | OneUnder (prefix : str).

(** axum's router and extractors.  [ax_route] chooses among the routes added, or
    answers itself; with its choice come the path's parameter, empty for a path
    without one, and what becomes of the handler's answer.  [ax_json_body] checks the
    content type and the length of a body; a rejection is a complete answer. *)
Class Axum := {
  ax_route {A : Type} : list (Pattern * Method * A) -> Method -> str ->
    HttpResponse + (A * str * (HttpResponse -> HttpResponse));
  ax_json_body : list (str * bytes) -> bytes -> HttpResponse + bytes;
  ax_data_rejection : str -> HttpResponse;
  ax_path_u32 : str -> HttpResponse + N;
}.

Definition content_json : str * bytes := (B "content-type", B "application/json").

(** What a route's path stands for. *)
Definition matches (p : Pattern) (path seg : str) : Prop :=
  match p with
  | Exactly q => path = q /\ seg = []
  | OneUnder q => path = q ++ seg /\ seg <> [] /\ x2f ∉ seg
  end.

(** What axum documents: a request goes to a route of its path and method, or to a
    [GET] route for a [HEAD], and to the only route of its path if it has that
    method, whose answer is then the response; JSON of up to two megabytes is
    accepted, the decimal digits of a [u32] are read as it, and what the extractors
    reject is the client's fault. *)
Class AxumLaws `{Axum} := {
  ax_route_sound {A} (l : list (Pattern * Method * A)) m path a seg finish :
    ax_route l m path = inr (a, seg, finish) ->
    exists p m', (p, m', a) ∈ l /\ matches p path seg /\ (m = m' \/ m = HEAD /\ m' = GET);
  ax_route_only {A} (l : list (Pattern * Method * A)) k p m a path seg :
    l !! k = Some (p, m, a) -> matches p path seg ->
    (forall k' x seg', k' <> k -> l !! k' = Some x -> ~ matches x.1.1 path seg') ->
    exists finish, ax_route l m path = inr (a, seg, finish) /\ forall r, finish r = r;
  ax_json_law b : len b <= 2 ^ 21 -> ax_json_body [content_json] b = inr b;
  ax_path_law v : v < 2 ^ 32 -> ax_path_u32 (display_N v) = inr v;
  ax_json_refusal l b r : ax_json_body l b = inl r -> 400 <= hs_status r < 500;
  ax_data_refusal e : 400 <= hs_status (ax_data_rejection e) < 500;
  ax_path_refusal s r : ax_path_u32 s = inl r -> 400 <= hs_status r < 500;
}.

(** ** Routers *)

Section router.
Context {X : Type}.

Record Route := {
  rt_pattern : Pattern;
  rt_method : Method;
  rt_handler : str -> HttpRequest -> run X Empty_set HttpResponse;
}.

(** [Router::new().route(..)...]: the request goes where axum's router sends it. *)
Definition dispatch `{Axum} (routes : list Route) (q : HttpRequest) : run X Empty_set HttpResponse :=
  match ax_route ((fun rt => (rt_pattern rt, rt_method rt, rt_handler rt)) <$> routes) (hq_method q) (hq_path q) with
  | inl r => mret r
  | inr (h, seg, finish) => r ← h seg q; mret (finish r)
  end.

Definition get (p : Pattern) (h : str -> HttpRequest -> run X Empty_set HttpResponse) : Route :=
  {| rt_pattern := p; rt_method := GET; rt_handler := h |}.
Definition post (p : Pattern) (h : HttpRequest -> run X Empty_set HttpResponse) : Route :=
  {| rt_pattern := p; rt_method := POST; rt_handler := fun _ => h |}.

End router.
Arguments Route : clear implicits.

(** ** Extractors and answers *)

Section axum.
Context `{Axum}.

(** [Json(x)] with a status; a value that does not serialize is a 500 with the
    error's text. *)
Definition json_response {T} `{Json T} (code : N) (x : T) : HttpResponse :=
  match json_to_vec x with
  | inr b => {| hs_status := code; hs_headers := [content_json]; hs_body := b |}
  | inl e => plain_response INTERNAL_SERVER_ERROR e
  end.

(** [Result<Json<T>, (StatusCode, Json<ErrorBody>)>]. *)
Definition result_response {T} `{Json T, Json ErrorBody} (r : result Reject T) :
    result Empty_set HttpResponse :=
  match r with
  | Ok x => Ok (json_response OK x)
  | Err (code, e) => Ok (json_response code e)
  | Panic => Panic
  end.

(** A handler's [Json<T>] argument. *)
Definition with_json {T X} `{Json T} (f : T -> run X Empty_set HttpResponse) (q : HttpRequest) :
    run X Empty_set HttpResponse :=
  match ax_json_body (hq_headers q) (hq_body q) with
  | inl r => mret r
  | inr b => match json_from_slice b with
             | inl e => mret (ax_data_rejection e)
             | inr x => f x
             end
  end.

(** A handler that answers with a value or a refusal, and may change its state. *)
Definition answering {T X} `{Json T, Json ErrorBody} (m : run X Reject T) : run X Empty_set HttpResponse :=
  fun s => let '(r, s) := m s in (result_response r, s).

(** ** The four routers *)

Section issuer.
Context `{Sha256, Hex, Base64, Faest, BlindSig, BuildProfile, Redis}
  `{Json IssuanceAuthorization, Json ErrorBody, Json IssuerPublicKey, Json KtResponse}
  `{Json SignBodyWire, Json SignResponse, Json RotateResponse}.
Variables (now : N) (clock : option N).

Definition issuer_routes : list (Route (IssuerState * rng)) := [
  get (Exactly (B "/keys")) (fun _ _ => answering (fun s => (Ok (keys s.1), s)));
  get (OneUnder (B "/keys/")) (fun seg _ =>
    match ax_path_u32 seg with
    | inl r => mret r
    | inr version => answering (fun s => (keys_version version s.1, s))
    end);
  get (Exactly (B "/kt")) (fun _ _ => answering (fun s => (Ok (kt s.1), s)));
  post (Exactly (B "/sign")) (with_json (fun body => answering (sign body now clock)));
  post (Exactly (B "/rotate")) (fun q => answering (rotate (header_str (B "x-admin-token") (hq_headers q)) now))
].

End issuer.

Section attester.
Context `{Sha256, Hex, Base64, Faest, Chrono, !UnifiedQuote, Tiers}
  `{Json IssuanceAuthorization, Json ErrorBody, Json PubkeyResponse}
  `{Json AuthorizeBody, Json AuthorizeResponse}.
Variables (now : N) (clock : DateTime).

Definition post_authorize_route (path : str) : Route AttesterState :=
  post (Exactly path) (with_json (fun body => answering (fun st => (handle_authorize st body now clock, st)))).

Definition attester_routes : list (Route AttesterState) := [
  get (Exactly (B "/pubkey")) (fun _ _ => answering (fun st => (Ok (pubkey st), st)));
  post_authorize_route (B "/authorize");
  post_authorize_route (B "/capability")
].

End attester.

Section redeemer.
Context `{Hex, Json ErrorBody, Json RedeemBody} {S : Type} `{!SpentStore S}.

(** A status alone has an empty body. *)
Definition redeem_routes : list (Route S) := [
  post (Exactly (B "/redeem")) (with_json (fun body s =>
    let '(r, s) := redeem body s in
    (match r with
     | Ok code => Ok (plain_response code [])
     | Err (code, e) => Ok (json_response code e)
     | Panic => Panic
     end, s)))
].

End redeemer.

Section origin.
Context `{Sha256, Hex, Base64, Faest, BlindSig, BuildProfile} {W : Type} `{!Upstream W}.

(** [HeaderValue::from_str]: no control characters but the tab. *)
Definition header_byte (b : byte) : bool := negb (b_in 0 31 b || b_is 127 b) || b_is 9 b.

(** [([("www-authenticate", www)], body)] as an answer. *)
Definition origin_response (r : Response) : HttpResponse :=
  match www_authenticate_header r with
  | None => plain_response (status r) (resp_body r)
  | Some www =>
      if forallb header_byte www
      then {| hs_status := status r; hs_headers := [(B "www-authenticate", www)]; hs_body := resp_body r |}
      else plain_response INTERNAL_SERVER_ERROR (B "failed to parse header value")
  end.

Definition origin_routes : list (Route (OriginWorld (W := W))) := [
  get (Exactly (B "/resource")) (fun _ q =>
    r ← resource (header_str (B "authorization") (hq_headers q)); mret (origin_response r))
].

End origin.
End axum.

(** ** What a caller does *)

(** reqwest's text for a body that does not decode, and [Response::text]. *)
Class ReqwestBody := {
  decode_error : str -> str;
  body_text : bytes -> str;
}.

Class ReqwestBodyLaws `{ReqwestBody} : Prop :=
  body_text_law b : is_utf8 b -> body_text b = b.

(** 400 to 599, and 200 to 299. *)
Definition is_error (code : N) : bool := (400 <=? code) && (code <? 600).
Definition is_success (code : N) : bool := (200 <=? code) && (code <? 300).

Section caller.
Context `{Reqwest, ReqwestBody} {X : Type}.

(** One exchange with the service at [base]. *)
Definition send (base : str) (app : HttpRequest -> run X Empty_set HttpResponse) (url : str)
    (m : Method) (headers : list (str * bytes)) (body : bytes) : run X str HttpResponse := fun x =>
  match strip_prefix base url with
  | None => (Err (transport_error url), x)
  | Some path =>
      let '(r, x) := app {| hq_method := m; hq_path := path; hq_headers := headers; hq_body := body |} x in
      (match r with Ok resp => Ok resp | _ => Err (transport_error url) end, x)
  end.

(** [.json()], and [.error_for_status()?.json()]. *)
Definition decoded {T} `{Json T} (resp : HttpResponse) : result str T :=
  map_err decode_error (of_sum (json_from_slice (hs_body resp))).
Definition fetched {T} `{Json T} (url : str) (resp : HttpResponse) : result str T :=
  if is_error (hs_status resp) then Err (status_error (hs_status resp) url) else decoded resp.

(** [.get(url).send()?.error_for_status()?.json()]. *)
Definition get_json {T} `{Json T} base app (url : str) : run X str T :=
  resp ← send base app url GET [] []; lift (fetched url resp).

(** [.post(url).json(&body).send()]. *)
Definition post_json {T} `{Json T} base app (url : str) (body : T) : run X str HttpResponse :=
  b ← lift (of_sum (json_to_vec body)); send base app url POST [content_json] b.

End caller.

Section wire.
Context `{Sha256, Hex, Base64, Faest, BlindSig, BuildProfile, Chrono}
  `{!UnifiedQuote, Tiers, Redis, Reqwest, ReqwestBody, Axum}
  `{Json IssuanceAuthorization, Json ErrorBody, Json IssuerPublicKey, Json KtResponse}
  `{Json SignBodyWire, Json SignResponse, Json RotateResponse, Json PubkeyResponse}
  `{Json AuthorizeBody, Json AuthorizeResponse, Json RedeemBody}
  {S : Type} `{!SpentStore S} {L : Type} `{!Machine L}.

(** The services as applications. *)
Definition issuer_app (q : HttpRequest) : run (Services (S := S)) Empty_set HttpResponse := fun w =>
  let '(r, (st, g)) := dispatch (issuer_routes (sv_now w) (sv_clock w)) q (sv_issuer w, sv_rng w) in
  (r, set_sv_issuer w st g).

Definition attester_app (q : HttpRequest) : run (Services (S := S)) Empty_set HttpResponse := fun w =>
  let '(r, _) := dispatch (attester_routes (sv_now w) (sv_instant w)) q (sv_attester w) in (r, w).

Definition redeemer_app (q : HttpRequest) : run (Services (S := S)) Empty_set HttpResponse := fun w =>
  let '(r, s) := dispatch redeem_routes q (sv_redeemer w) in (r, set_sv_redeemer w s).

Definition at_url {X T} (f : X -> str) (m : str -> run X str T) : run X str T := fun x => m (f x) x.

(** The origin's requests ([GET {base}/keys], ...), made over the wire. *)
Definition wire_upstream : Upstream (Services (S := S)) := {|
  up_keys base := at_url sv_issuer_url (fun own => get_json own issuer_app (base ++ B "/keys"));
  up_keys_version base v := at_url sv_issuer_url (fun own =>
    get_json own issuer_app (base ++ B "/keys/" ++ display_N v));
  up_kt base := at_url sv_issuer_url (fun own => get_json own issuer_app (base ++ B "/kt"));
  up_redeem url body := at_url sv_redeemer_url (fun own =>
    resp ← post_json own redeemer_app (url ++ B "/redeem") body; mret (hs_status resp));
|}.

Definition origin_app (q : HttpRequest) : run (Deployment (S := S) (L := L)) Empty_set HttpResponse := fun d =>
  let '(r, o) := dispatch origin_routes q (dp_origin d) in
  (r, {| dp_origin := o; dp_origin_url := dp_origin_url d; dp_local := dp_local d |}).

(** The client's requests, made over the wire, to an origin at [origin_base]. *)
Variable origin_base : str.

Definition wire_authorize (url : str) (body : AuthorizeBody) : run (Services (S := S)) str AuthorizeResponse :=
  at_url sv_attester_url (fun own =>
    resp ← post_json own attester_app url body; lift (fetched url resp)).

Definition wire_sign (url : str) (body : SignBodyWire) : run (Services (S := S)) str ((N * str) + SignResponse) :=
  at_url sv_issuer_url (fun own =>
    resp ← post_json own issuer_app url body;
    if is_success (hs_status resp) then sign_resp ← lift (decoded resp); mret (inr sign_resp)
    else mret (inl (hs_status resp, body_text (hs_body resp)))).

Definition wire_resource (url : str) (auth : option str) :
    run (Deployment (S := S) (L := L)) str (N * option str * str) :=
  resp ← send origin_base origin_app url GET
           (match auth with Some a => [(B "authorization", a)] | None => [] end) [];
  mret (hs_status resp, header_str (B "www-authenticate") (hs_headers resp), body_text (hs_body resp)).

Definition wire_host : ClientHost (Deployment (S := S) (L := L)) := {|
  get_keys url := on_services (S := S) (at_url sv_issuer_url (fun own => get_json own issuer_app url));
  get_kt url := on_services (S := S) (at_url sv_issuer_url (fun own => get_json own issuer_app url));
  post_authorize url body := on_services (S := S) (wire_authorize url body);
  post_sign url body := on_services (S := S) (wire_sign url body);
  get_resource := wire_resource;
  status_text := status_display;
|}.

End wire.

(** ** The wire is transparent *)

Lemma display_N_nonempty n : display_N n <> [].
Proof.
  intros Hn. pose proof (parse_uint_display n n (N.pow_gt_lin_r 2 n ltac:(done))) as Hp.
  by rewrite Hn in Hp.
Qed.

Lemma match_version v : matches (OneUnder (B "/keys/")) (B "/keys/" ++ display_N v) (display_N v).
Proof.
  split; [done|]. split; [apply display_N_nonempty|]. intros Hin.
  pose proof (proj1 (forallb_forall _ _) (display_N_digits v) _ (proj1 (list_elem_of_In _ _) Hin)) as Hd.
  by vm_compute in Hd.
Qed.

Section dispatch.
Context `{AxumLaws} {X : Type}.

(** The only route of a path, asked with its method. *)
Lemma dispatch_at (routes : list (Route X)) k rt seg q x :
  routes !! k = Some rt -> matches (rt_pattern rt) (hq_path q) seg -> hq_method q = rt_method rt ->
  (forall k' rt' seg', k' <> k -> routes !! k' = Some rt' -> ~ matches (rt_pattern rt') (hq_path q) seg') ->
  dispatch routes q x = rt_handler rt seg q x.
Proof.
  intros Hk Hm Hq Honly. unfold dispatch.
  destruct (ax_route_only ((fun rt => (rt_pattern rt, rt_method rt, rt_handler rt)) <$> routes) k
    (rt_pattern rt) (rt_method rt) (rt_handler rt) (hq_path q) seg) as (finish & Hr & Hid).
  - by rewrite list_lookup_fmap, Hk.
  - done.
  - intros k' e seg' Hne. rewrite list_lookup_fmap. intros (rt' & Hk' & ->)%fmap_Some. by eapply Honly.
  - rewrite Hq, Hr. unfold mbind, run_bind. destruct (rt_handler rt seg q x) as [[r|[]|] x']; [|done].
    unfold mret, run_ret. by rewrite Hid.
Qed.

(** Only a handler of the table changes the state, called with its method, or as
    a [GET] for a [HEAD]. *)
Lemma dispatch_changes (routes : list (Route X)) q x r x' :
  dispatch routes q x = (r, x') ->
  x' = x \/ exists rt seg r0, rt ∈ routes /\ matches (rt_pattern rt) (hq_path q) seg
    /\ rt_handler rt seg q x = (r0, x') /\ (hq_method q = rt_method rt \/ rt_method rt = GET).
Proof.
  unfold dispatch. destruct (ax_route _ _ _) as [resp|[[h seg] finish]] eqn:Hr; [by intros [= _ <-]; left|].
  apply ax_route_sound in Hr as (p & m & Hin & Hp & Hm).
  apply list_elem_of_fmap in Hin as (rt & Hrt & Hin). injection Hrt as -> -> ->. intros Hrun.
  right. exists rt, seg. apply run_bind_cases in Hrun as [(r0 & x1 & Hr & [= _ <-])|[(e & Hr & _)|[Hr _]]];
    eexists; (split; [done|]); (split; [done|]); (split; [exact Hr|]); naive_solver.
Qed.

End dispatch.

(** The route of a request, for a path that is known: the [k]th, and no other. *)
Ltac no_other := let k := fresh in let Hne := fresh in let Hl := fresh in let Hm := fresh in
  intros k ? ? Hne Hl Hm; repeat (destruct k as [|k]; [try congruence; injection Hl as <-; cbn in Hm; naive_solver|]); done.
Ltac route k := erewrite (dispatch_at _ k _ []); [|reflexivity|by split|reflexivity|no_other].

Section facts.
Context `{Reqwest, ReqwestBody, AxumLaws} {X : Type}.

(** A request to the service's own base reaches its router with the path. *)
Lemma send_at base (app : HttpRequest -> run X Empty_set HttpResponse) path m headers body x :
  send base app (base ++ path) m headers body x
  = let '(r, x) := app {| hq_method := m; hq_path := path; hq_headers := headers; hq_body := body |} x in
    (match r with Ok resp => Ok resp | _ => Err (transport_error (base ++ path)) end, x).
Proof. unfold send. by rewrite strip_prefix_app. Qed.

Lemma json_response_of {T} `{Json T, !JsonLaws T} code (v : T) :
  exists b, json_to_vec v = inr b /\ json_from_slice b = inr v
    /\ json_response code v = {| hs_status := code; hs_headers := [content_json]; hs_body := b |}.
Proof.
  destruct (json_total v) as [b Hb]. exists b. split; [done|]. split; [by apply json_roundtrip|].
  unfold json_response. by rewrite Hb.
Qed.

(** What a caller that keeps only successes makes of a handler's answer. *)
Lemma fetched_response {T} `{Json T, !JsonLaws T, Json ErrorBody, !JsonLaws ErrorBody} url (r : result Reject T) :
  (forall c e, r = Err (c, e) -> is_error c = true) ->
  match result_response r with
  | Ok resp => fetched url resp
  | _ => Err (transport_error url)
  end = answer url r.
Proof.
  intros Hc. destruct r as [v|[c e]|]; cbn [result_response answer]; [| |done].
  - destruct (json_response_of OK v) as (b & _ & Hb & ->). unfold fetched, decoded. cbn [hs_status hs_body].
    change (is_error OK) with false. by rewrite Hb.
  - destruct (json_response_of c e) as (b & _ & _ & ->). unfold fetched. cbn [hs_status].
    by rewrite (Hc c e).
Qed.

Lemma post_json_at {T} `{Json T} base (app : HttpRequest -> run X Empty_set HttpResponse) path (v : T) b x :
  json_to_vec v = inr b ->
  post_json base app (base ++ path) v x
  = let '(r, x) := app {| hq_method := POST; hq_path := path; hq_headers := [content_json]; hq_body := b |} x in
    (match r with Ok resp => Ok resp | _ => Err (transport_error (base ++ path)) end, x).
Proof.
  intros Hb. unfold post_json. erewrite run_bind_step by (unfold lift; rewrite Hb; done). apply send_at.
Qed.

(** A JSON body reaches the handler as it was. *)
Lemma with_json_of {T} `{Json T, !JsonLaws T} (f : T -> run X Empty_set HttpResponse) (v : T) b path x :
  json_to_vec v = inr b -> len b <= 2 ^ 21 ->
  with_json f {| hq_method := POST; hq_path := path; hq_headers := [content_json]; hq_body := b |} x = f v x.
Proof.
  intros Hb Hl. unfold with_json. cbn [hq_headers hq_body]. rewrite ax_json_law by done.
  by rewrite (json_roundtrip _ _ Hb).
Qed.

End facts.

Section agrees.
Context `{Sha256, Hex, Base64, Faest, BlindSig, BuildProfile, Chrono}
  `{!UnifiedQuote, Tiers, Redis, Reqwest, ReqwestBodyLaws, AxumLaws}
  `{Json IssuanceAuthorization, Json ErrorBody, Json IssuerPublicKey, Json KtResponse}
  `{Json SignBodyWire, Json SignResponse, Json RotateResponse, Json PubkeyResponse}
  `{Json AuthorizeBody, Json AuthorizeResponse, Json RedeemBody}
  `{!JsonLaws ErrorBody, !JsonLaws IssuerPublicKey, !JsonLaws KtResponse, !JsonLaws SignBodyWire,
    !JsonLaws SignResponse, !JsonLaws AuthorizeBody, !JsonLaws AuthorizeResponse, !JsonLaws RedeemBody}
  {S : Type} `{!SpentStore S} {L : Type} `{!Machine L}.

Implicit Types w : Services (S := S).

Lemma set_sv_issuer_id w : set_sv_issuer w (sv_issuer w) (sv_rng w) = w.
Proof. by destruct w. Qed.

(** A [GET] that the issuer answers with [r] and without changing its state. *)
Lemma get_issuer {T} `{Json T, !JsonLaws T} path (r : result Reject T) w :
  (forall c e, r = Err (c, e) -> is_error c = true) ->
  (forall q, hq_method q = GET -> hq_path q = path ->
    dispatch (issuer_routes (sv_now w) (sv_clock w)) q (sv_issuer w, sv_rng w)
    = (result_response r, (sv_issuer w, sv_rng w))) ->
  get_json (sv_issuer_url w) issuer_app (sv_issuer_url w ++ path) w
  = (answer (sv_issuer_url w ++ path) r, w).
Proof.
  intros Hc Hd. rewrite <- (fetched_response (sv_issuer_url w ++ path) r Hc).
  unfold get_json, mbind, run_bind. rewrite send_at. unfold issuer_app. rewrite Hd by done.
  rewrite set_sv_issuer_id. by destruct (result_response r).
Qed.

Lemma get_issuer_keys w :
  get_json (sv_issuer_url w) issuer_app (sv_issuer_url w ++ B "/keys") w = (Ok (keys (sv_issuer w)), w).
Proof. apply (get_issuer _ (Ok (keys (sv_issuer w)))); [done|]. intros [m p hs b] Hm Hp. cbn in Hm, Hp. subst. by route 0%nat. Qed.

Lemma get_issuer_kt w :
  get_json (sv_issuer_url w) issuer_app (sv_issuer_url w ++ B "/kt") w = (Ok (kt (sv_issuer w)), w).
Proof. apply (get_issuer _ (Ok (kt (sv_issuer w)))); [done|]. intros [m p hs b] Hm Hp. cbn in Hm, Hp. subst. by route 2%nat. Qed.

Lemma get_issuer_version v w : v < 2 ^ 32 ->
  get_json (sv_issuer_url w) issuer_app (sv_issuer_url w ++ B "/keys/" ++ display_N v) w
  = (answer (sv_issuer_url w ++ B "/keys/" ++ display_N v) (keys_version v (sv_issuer w)), w).
Proof.
  intros Hv. apply get_issuer.
  - unfold keys_version. intros c e. destruct (_ !! v); [done|]. by intros [= <- _].
  - intros [m p hs b] Hm Hp. cbn [hq_method hq_path] in Hm, Hp. subst m p.
    erewrite (dispatch_at _ 1 _ (display_N v)); [|reflexivity|apply match_version|reflexivity|no_other].
    cbn [get rt_handler]. by rewrite ax_path_law.
Qed.

(** The requests with a body reach their handlers. *)
Lemma redeemer_app_redeem body b w :
  json_to_vec body = inr b -> len b <= 2 ^ 21 ->
  redeemer_app {| hq_method := POST; hq_path := B "/redeem"; hq_headers := [content_json]; hq_body := b |} w
  = let '(r, s) := redeem body (sv_redeemer w) in
    (match r with
     | Ok code => Ok (plain_response code [])
     | Err (code, e) => Ok (json_response code e)
     | Panic => Panic
     end, set_sv_redeemer w s).
Proof.
  intros Hb Hl. unfold redeemer_app. route 0%nat. cbn [post rt_handler].
  erewrite with_json_of by done. by destruct (redeem _ _).
Qed.

Lemma wire_redeem body b w :
  json_to_vec body = inr b -> len b <= 2 ^ 21 ->
  @up_redeem _ wire_upstream (sv_redeemer_url w) body w = up_redeem (sv_redeemer_url w) body w.
Proof.
  intros Hb Hl. cbn [up_redeem wire_upstream Services_upstream]. unfold at_url, routed.
  rewrite decide_True by done. unfold mbind, run_bind. erewrite post_json_at, redeemer_app_redeem by done.
  destruct (redeem body _) as [[code|[code e]|] s]; [done| |done].
  by destruct (json_response_of code e) as (j & _ & _ & ->).
Qed.

Lemma attester_app_authorize body b w :
  json_to_vec body = inr b -> len b <= 2 ^ 21 ->
  attester_app {| hq_method := POST; hq_path := B "/authorize"; hq_headers := [content_json]; hq_body := b |} w
  = (result_response (handle_authorize (sv_attester w) body (sv_now w) (sv_instant w)), w).
Proof.
  intros Hb Hl. unfold attester_app. route 1%nat. cbn [post_authorize_route post rt_handler].
  by erewrite with_json_of by done.
Qed.

Lemma issuer_app_sign body b w :
  json_to_vec body = inr b -> len b <= 2 ^ 21 ->
  issuer_app {| hq_method := POST; hq_path := B "/sign"; hq_headers := [content_json]; hq_body := b |} w
  = let '(r, (st, g)) := sign body (sv_now w) (sv_clock w) (sv_issuer w, sv_rng w) in
    (result_response r, set_sv_issuer w st g).
Proof.
  intros Hb Hl. unfold issuer_app. route 3%nat. cbn [post rt_handler].
  erewrite with_json_of by done. unfold answering. by destruct (sign _ _ _ _) as [r [st g]].
Qed.

(** What a handler refuses is an error to its caller. *)
Lemma gate_code_error e : is_error (gate_code e) = true /\ is_success (gate_code e) = false.
Proof. by destruct e. Qed.

Lemma handle_authorize_error st body now clock c e :
  handle_authorize st body now clock = Err (c, e) -> is_error c = true.
Proof.
  intros [(-> & _)|[(-> & _)|(? & ? & ge & _ & _ & _ & _ & -> & _)]]%handle_authorize_Err; [done..|].
  apply gate_code_error.
Qed.

Lemma sign_error body now clock s c e s' :
  sign body now clock s = (Err (c, e), s') -> is_success c = false.
Proof.
  unfold sign. intros [(b & s1 & _ & Hr)|[(x & Hl & [= <-])|[_ [=]]]]%run_bind_cases.
  - apply run_bind_cases in Hr as [(a & s2 & _ & Hr)|[(x & Hl & [= <-])|[_ [=]]]].
    + unfold sign_authorized in Hr. destruct (issue_authorized_with_limit _ _ _ _ _ _ _) as [[q|ge|] [l g]]; [done| |done].
      injection Hr as <- _ _. apply gate_code_error.
    + unfold lift in Hl. by destruct (json_from_slice b); simplify_eq/=.
  - unfold lift in Hl. by destruct (b64_decode _ _); simplify_eq/=.
Qed.

Lemma wire_authorizes body b w :
  json_to_vec body = inr b -> len b <= 2 ^ 21 ->
  wire_authorize (sv_attester_url w ++ B "/authorize") body w
  = (answer (sv_attester_url w ++ B "/authorize")
       (handle_authorize (sv_attester w) body (sv_now w) (sv_instant w)), w).
Proof.
  intros Hb Hl. unfold wire_authorize, at_url, mbind, run_bind.
  erewrite post_json_at, attester_app_authorize by done.
  rewrite <- fetched_response by (intros c e; apply handle_authorize_error).
  by destruct (result_response _).
Qed.

Lemma wire_signs body b w :
  (forall e j, json_to_vec (T := ErrorBody) e = inr j -> is_utf8 j) ->
  json_to_vec body = inr b -> len b <= 2 ^ 21 ->
  wire_sign (sv_issuer_url w ++ B "/sign") body w
  = let '(r, (st, g)) := sign body (sv_now w) (sv_clock w) (sv_issuer w, sv_rng w) in
    (match r with
     | Ok resp => Ok (inr resp)
     | Err (code, e) => Ok (inl (code, match json_to_vec e with inr text => text | inl _ => [] end))
     | Panic => Err (transport_error (sv_issuer_url w ++ B "/sign"))
     end, set_sv_issuer w st g).
Proof.
  intros Hutf Hb Hl. unfold wire_sign, at_url. unfold mbind at 1, run_bind at 1.
  erewrite post_json_at, issuer_app_sign by done.
  destruct (sign _ _ _ _) as [[resp|[c e]|] [st g]] eqn:Hs; cbn [result_response]; [| |done].
  - destruct (json_response_of OK resp) as (j & _ & Hj & ->). cbn [hs_status]. change (is_success OK) with true.
    unfold decoded. cbn [hs_body]. rewrite Hj. done.
  - destruct (json_response_of c e) as (j & Hj & _ & ->). cbn [hs_status hs_body].
    rewrite (sign_error _ _ _ _ _ _ _ Hs), Hj, body_text_law by eauto. done.
Qed.

(** ** The resource over the wire *)

Lemma www_visible `{!Base64Laws} b pk www :
  www_authenticate b pk = Ok www -> forallb visible www = true /\ forallb header_byte www = true.
Proof.
  intros Hw. assert (www = B "PrivateToken challenge=" ++ b64_encode URL_SAFE_NO_PAD b
    ++ B ", token-key=" ++ b64_encode URL_SAFE_NO_PAD (pk_key pk)) as -> by (unfold www_authenticate in Hw; congruence).
  assert (Hu : forall p x, (forall c, is_b64url c = true -> p c = true) -> forallb p (b64_encode URL_SAFE_NO_PAD x) = true)
    by (intros p x Hp; eapply forallb_mono; [exact Hp|apply b64_encode_url]).
  rewrite !forallb_app, !Hu by (intros c; by_bytes c). done.
Qed.

Lemma challenge_response_www (o o' : OriginWorld (W := Services (S := S))) resp www :
  challenge_response o = (Ok resp, o') -> www_authenticate_header resp = Some www ->
  exists b pk, www_authenticate b pk = Ok www.
Proof.
  unfold challenge_response. destruct (issue_fresh_challenge o) as [[[c h]|e|] o1] eqn:Hi; [| |done];
    intros [= <- _]; cbn [www_authenticate_header reply]; [|done]. intros [= <-].
  unfold issue_fresh_challenge in Hi. apply run_bind_Ok in Hi as (c1 & s1 & _ & Hi).
  apply run_bind_Ok in Hi as ([] & s2 & _ & Hi).
  apply run_bind_Ok in Hi as (h1 & s3 & [Hw%map_err_Ok _]%lift_Ok & Hi). injection Hi as _ -> _. eauto.
Qed.

Lemma redeem_with_key_www t e (o o' : OriginWorld (W := Services (S := S))) resp :
  redeem_with_key t e o = (Ok resp, o') -> www_authenticate_header resp = None.
Proof.
  unfold redeem_with_key. destruct (challenge_for_digest _ _) as [c|]; [|by intros [= <- _]].
  destruct (_ && _); [by intros [= <- _]|]. unfold redeem_token.
  destruct (Verifier_verify _ _ _); [|by intros [= <- _]|done].
  intros (ok & o1 & _ & Hr)%run_bind_Ok. injection Hr as <- _. by destruct ok.
Qed.

Lemma resource_www auth (o o' : OriginWorld (W := Services (S := S))) resp www :
  resource auth o = (Ok resp, o') -> www_authenticate_header resp = Some www ->
  exists b pk, www_authenticate b pk = Ok www.
Proof.
  unfold resource. intros Hr Hw. destruct auth as [h|]; [|by eapply challenge_response_www].
  destruct (parse_authorization h) as [t|e|]; [|by eapply challenge_response_www|done].
  apply run_bind_Ok in Hr as ([e|] & o1 & _ & Hr); [|by injection Hr as <- _].
  apply redeem_with_key_www in Hr. congruence.
Qed.

Lemma wire_gets_resource `{!Base64Laws} base auth (d : Deployment (S := S) (L := L)) :
  dp_origin_url d = base ++ B "/resource" ->
  (forall a, auth = Some a -> forallb visible a = true) ->
  (forall resp o, resource auth (dp_origin d) = (Ok resp, o) -> is_utf8 (resp_body resp)) ->
  wire_resource base (dp_origin_url d) auth d = get_resource (dp_origin_url d) auth d.
Proof.
  intros Hu Ha Hbody. cbn [get_resource Deployment_host]. unfold routed, wire_resource, mbind, run_bind.
  rewrite decide_True by done. rewrite Hu at 1. rewrite send_at, <- Hu. unfold origin_app. route 0%nat.
  cbn [get rt_handler]. unfold mbind, run_bind. cbn [hq_headers].
  assert (header_str (B "authorization") match auth with Some a => [(B "authorization", a)] | None => [] end = auth) as ->.
  { destruct auth as [a|]; [|done]. unfold header_str. cbn [header]. rewrite decide_True by done. by rewrite Ha. }
  destruct (resource auth (dp_origin d)) as [[resp|[]|] o] eqn:Hr; [|done]. cbn.
  unfold origin_response. destruct (www_authenticate_header resp) as [www|] eqn:Hw.
  - destruct (resource_www _ _ _ _ _ Hr Hw) as (b & pk & Hwww). destruct (www_visible _ _ _ Hwww) as [Hv Hh].
    rewrite Hh. cbn [hs_status hs_headers hs_body]. rewrite body_text_law by by eapply Hbody.
    unfold header_str. cbn [header]. by rewrite decide_True, Hv by done.
  - cbn [plain_response hs_status hs_headers hs_body]. by rewrite body_text_law by by eapply Hbody.
Qed.

End agrees.

(** ** Properties *)

Section properties.
Context `{Sha256, Hex, Base64Laws, Faest, BlindSig, BuildProfile, Chrono}
  `{!UnifiedQuote, Tiers, Redis, Reqwest, ReqwestBodyLaws, AxumLaws}
  `{Json IssuanceAuthorization, Json ErrorBody, Json IssuerPublicKey, Json KtResponse}
  `{Json SignBodyWire, Json SignResponse, Json RotateResponse, Json PubkeyResponse}
  `{Json AuthorizeBody, Json AuthorizeResponse, Json RedeemBody}
  `{!JsonLaws ErrorBody, !JsonLaws IssuerPublicKey, !JsonLaws KtResponse, !JsonLaws SignBodyWire,
    !JsonLaws SignResponse, !JsonLaws AuthorizeBody, !JsonLaws AuthorizeResponse, !JsonLaws RedeemBody}
  {S : Type} `{!SpentStore S} {L : Type} `{!Machine L}.

(** C6: the calls the origin and the client are proved against are what happens on
    the wire: a request sent to the service's address with its method, path,
    headers and JSON body, dispatched by the service's router, its arguments
    extracted, the handler's answer encoded and decoded by the caller, gives the
    outcome and the state of the direct call (for bodies up to two megabytes, axum's
    limit). *)
Theorem wire_agrees (d : Deployment (S := S) (L := L)) base :
  (forall e j, json_to_vec (T := ErrorBody) e = inr j -> is_utf8 j) ->
  dp_origin_url d = base ++ B "/resource" ->
  let w := services d in
  let small {T} `{Json T} (x : T) := exists b, json_to_vec x = inr b /\ len b <= 2 ^ 21 in
  (@up_keys _ wire_upstream (sv_issuer_url w) w = up_keys (sv_issuer_url w) w
   /\ (forall v, v < 2 ^ 32 ->
        @up_keys_version _ wire_upstream (sv_issuer_url w) v w = up_keys_version (sv_issuer_url w) v w)
   /\ @up_kt _ wire_upstream (sv_issuer_url w) w = up_kt (sv_issuer_url w) w
   /\ (forall body, small body ->
        @up_redeem _ wire_upstream (sv_redeemer_url w) body w = up_redeem (sv_redeemer_url w) body w))
  /\ let keys_url := sv_issuer_url w ++ B "/keys" in
     let kt_url := sv_issuer_url w ++ B "/kt" in
     let authorize_url := sv_attester_url w ++ B "/authorize" in
     let sign_url := sv_issuer_url w ++ B "/sign" in
     @get_keys _ (wire_host base) keys_url d = get_keys keys_url d
     /\ @get_kt _ (wire_host base) kt_url d = get_kt kt_url d
     /\ (forall body, small body ->
          @post_authorize _ (wire_host base) authorize_url body d = post_authorize authorize_url body d)
     /\ (forall body, small body ->
          @post_sign _ (wire_host base) sign_url body d = post_sign sign_url body d)
     /\ (forall auth, (forall a, auth = Some a -> forallb visible a = true) ->
          (forall resp o, resource auth (dp_origin d) = (Ok resp, o) -> is_utf8 (resp_body resp)) ->
          @get_resource _ (wire_host base) (dp_origin_url d) auth d = get_resource (dp_origin_url d) auth d).
Proof.
  intros Hutf Hu w small. unfold up_keys, up_keys_version, up_kt, wire_upstream, Services_upstream,
    get_keys, get_kt, post_authorize, post_sign, wire_host, Deployment_host, on_services. cbv zeta.
  unfold at_url, routed, ask. rewrite !decide_True by done. fold w.
  rewrite !get_issuer_keys, !get_issuer_kt. split_and!; try done.
  - intros v Hv. by rewrite decide_True, get_issuer_version.
  - intros body (b & Hb & Hl). by apply (wire_redeem body b w).
  - intros body (b & Hb & Hl). rewrite !decide_True by done. by rewrite (wire_authorizes body b w).
  - intros body (b & Hb & Hl). rewrite !decide_True by done. rewrite (wire_signs body b w) by done.
    by destruct (sign _ _ _ _) as [[?|[]|] [st g]].
  - intros auth Ha Hb. by apply wire_gets_resource.
Qed.

(** C5: who can change the issuer: whatever request arrives, it leaves the issuer
    as it was unless it is a [POST /sign] whose body holds an authorization that
    verifies under the attester's key, for the very batch sent, and then keys, log
    and admin token stay; or a [POST /rotate] that presents the configured admin
    token, and then the limiter stays.  [GET]s and [HEAD]s change nothing. *)
Theorem issuer_changes_only now clock q st g r st' g' :
  dispatch (issuer_routes now clock) q (st, g) = (r, (st', g')) ->
  (st', g') = (st, g)
  \/ hq_method q = POST /\
     ((hq_path q = B "/sign" /\ is_rot st' = is_rot st /\ is_admin_token st' = is_admin_token st
       /\ exists b body v auth, ax_json_body (hq_headers q) (hq_body q) = inr b
          /\ json_from_slice b = inr body
          /\ b64_decode STANDARD (sb_authorization_b64 body) = inr v /\ json_from_slice v = inr auth
          /\ IssuanceAuthorization_verify auth (is_attester_pub st) now = Ok tt
          /\ auth_binding auth = binding_of (blinded (req_body (sb_req body))))
      \/ (hq_path q = B "/rotate" /\ is_limiter st' = is_limiter st
          /\ exists t, is_admin_token st = Some t /\ t <> []
             /\ header_str (B "x-admin-token") (hq_headers q) = Some t)).
Proof.
  intros [?|(rt & seg & r0 & Hin & Hm & Hh & Hq)]%dispatch_changes; [by left|].
  unfold issuer_routes in Hin. rewrite !elem_of_cons in Hin.
  destruct Hin as [->|[->|[->|[->|[->|Hin]]]]]; [..|by apply elem_of_nil in Hin];
    cbn [get post rt_handler rt_pattern rt_method] in *.
  - injection Hh as _ <- <-. by left.
  - destruct (ax_path_u32 seg); injection Hh as _ <- <-; by left.
  - injection Hh as _ <- <-. by left.
  - destruct Hq as [Hq|[=]]. destruct Hm as [Hm _]. unfold with_json in Hh.
    destruct (ax_json_body _ _) as [x|b] eqn:Hb; [injection Hh as _ <- <-; by left|].
    destruct (json_from_slice b) as [x|body] eqn:Hj; [injection Hh as _ <- <-; by left|].
    unfold answering in Hh. destruct (sign body now clock (st, g)) as [q1 [st1 g1]] eqn:Hs.
    injection Hh as _ <- <-. pose proof (sign_limiter_only _ _ _ _ _ _ _ _ Hs) as (Hrot & _ & _ & Hadm).
    apply sign_effect in Hs as [?|(v & auth & ?)]; [by left|right]. split; [done|]. left.
    split_and!; try done. by exists b, body, v, auth.
  - destruct Hq as [Hq|[=]]. destruct Hm as [Hm _]. unfold answering in Hh.
    destruct (rotate _ now (st, g)) as [q1 [st1 g1]] eqn:Hr. injection Hh as _ <- <-.
    apply rotate_effect in Hr as [?|(Hl & t & Ht)]; [by left|right]. split; [done|]. right.
    split_and!; try done. exists t. naive_solver.
Qed.

End properties.
