(* ===== verification/Standins.v ===== *)
(** * Stand-ins for the services' surroundings

More concrete instances for the witnesses: a Redis server, a quote verifier, a
machine to collect evidence on and a file system, with the JSON of the
recorded types by their codes. *)

From stdpp Require Import countable.
From S2P Require Import Prelude RustStr Externals Instances Pomfrit Core RateLimit Spend Gate Authorize Transparency.
From S2P Require Import Policy Appraise GateVerifiers Store RedisTime Wire Mobile ClientFlow Main System Routes.

(** ** JSON *)

#[export] Program Instance DevEat_countable : Countable DevEat :=
  inj_countable (fun e => (dev_platform e, dev_value_x e, dev_binding e, dev_sig e))
    (fun '(p, v, b, s) => Some (Build_DevEat p v b s)) _.
Next Obligation. by intros []. Qed.

#[export] Program Instance IssuanceAuthorization_countable : Countable IssuanceAuthorization :=
  inj_countable (fun a => (auth_version a, auth_binding a, auth_rate_limit_id a,
      auth_policy_label a, auth_max_batch a, auth_exp a, auth_iat a, auth_sig a))
    (fun '(v, b, i, l, m, x, t, s) => Some (Build_IssuanceAuthorization v b i l m x t s)) _.
Next Obligation. by intros []. Qed.

#[export] Instance SignResponse_eq_dec : EqDecision SignResponse.
Proof. solve_decision. Defined.
#[export] Program Instance SignResponse_countable : Countable SignResponse :=
  inj_countable blind_sigs (fun l => Some (Build_SignResponse l)) _.
Next Obligation. by intros []. Qed.

#[export] Program Instance SpendToken_countable : Countable SpendToken :=
  inj_countable (fun t => (token_type t, nonce t, challenge_digest t, token_key_id t, authenticator t))
    (fun '(y, n, c, k, a) => Some (Build_SpendToken y n c k a)) _.
Next Obligation. by intros []. Qed.

#[export] Program Instance IssuerPublicKey_countable : Countable IssuerPublicKey :=
  inj_countable (fun k => (pk_key_version k, pk_alg k, pk_key k))
    (fun '(v, a, k) => Some (Build_IssuerPublicKey v a k)) _.
Next Obligation. by intros []. Qed.

#[export] Instance SignRequest_eq_dec : EqDecision SignRequest.
Proof. unfold EqDecision. intros [c v [l b]] [c' v' [l' b']].
  destruct (decide ((c, v, l, b) = (c', v', l', b'))) as [E|E]; [left|right]; naive_solver. Defined.
#[export] Program Instance SignRequest_countable : Countable SignRequest :=
  inj_countable (fun r => let c := token_challenge r in
      (ch_token_type c, issuer_name c, redemption_context c, origin_info c,
       req_key_version r, blinded (req_body r), binding (req_body r)))
    (fun '(t, i, x, o, v, l, b) => Some (Build_SignRequest (Build_TokenChallenge t i x o) v
                                         (Build_SignBody l b))) _.
Next Obligation. by intros [[] ? []]. Qed.

#[export] Instance SignBodyWire_eq_dec : EqDecision SignBodyWire.
Proof. solve_decision. Defined.
#[export] Program Instance SignBodyWire_countable : Countable SignBodyWire :=
  inj_countable (fun b => (sb_req b, sb_authorization_b64 b))
    (fun '(r, a) => Some (Build_SignBodyWire r a)) _.
Next Obligation. by intros []. Qed.

#[export] Program Instance KeyRecord_countable : Countable KeyRecord :=
  inj_countable (fun r => (kr_seq r, kr_key_version r, kr_token_key_id r, kr_not_before r))
    (fun '(s, v, k, n) => Some (Build_KeyRecord s v k n)) _.
Next Obligation. by intros []. Qed.

#[export] Program Instance SignedHead_countable : Countable SignedHead :=
  inj_countable (fun h => (sh_seq h, sh_head h, sh_sig h)) (fun '(s, h, g) => Some (Build_SignedHead s h g)) _.
Next Obligation. by intros []. Qed.

#[export] Instance KtResponse_eq_dec : EqDecision KtResponse.
Proof. solve_decision. Defined.
#[export] Program Instance KtResponse_countable : Countable KtResponse :=
  inj_countable (fun k => (kt_log_pub_hex k, kt_records k, kt_signed_head k))
    (fun '(p, r, h) => Some (Build_KtResponse p r h)) _.
Next Obligation. by intros []. Qed.

#[export] Instance RotateResponse_eq_dec : EqDecision RotateResponse.
Proof. solve_decision. Defined.
#[export] Program Instance RotateResponse_countable : Countable RotateResponse :=
  inj_countable (fun r => (rr_key_version r, rr_token_key_id r, rr_kt_seq r, rr_head r))
    (fun '(v, k, s, h) => Some (Build_RotateResponse v k s h)) _.
Next Obligation. by intros []. Qed.

#[export] Instance PubkeyResponse_eq_dec : EqDecision PubkeyResponse.
Proof. solve_decision. Defined.
#[export] Program Instance PubkeyResponse_countable : Countable PubkeyResponse :=
  inj_countable pubkey_hex (fun h => Some (Build_PubkeyResponse h)) _.
Next Obligation. by intros []. Qed.

#[export] Instance AuthorizeBody_eq_dec : EqDecision AuthorizeBody.
Proof. solve_decision. Defined.
#[export] Program Instance AuthorizeBody_countable : Countable AuthorizeBody :=
  inj_countable (fun b => (ab_eat_b64 b, ab_binding b, ab_max_batch b))
    (fun '(e, b, m) => Some (Build_AuthorizeBody e b m)) _.
Next Obligation. by intros []. Qed.

#[export] Instance RedeemBody_eq_dec : EqDecision RedeemBody.
Proof. solve_decision. Defined.
#[export] Program Instance RedeemBody_countable : Countable RedeemBody :=
  inj_countable (fun b => (rb_key_epoch b, rb_nonce b)) (fun '(k, n) => Some (Build_RedeemBody k n)) _.
Next Obligation. by intros []. Qed.

#[export] Instance CheckId_countable : Countable CheckId.
Proof.
  refine (inj_countable' (fun c => match c with
      | PolicyNotExpired => 0 | ProfileMatch => 1 | BindingOk => 2 | ReferenceValueMatch => 3
      | RegistryStatus => 4 | MinTier => 5 | TierDetailAllowed => 6
      end)
    (fun n => match n with
      | 0 => PolicyNotExpired | 1 => ProfileMatch | 2 => BindingOk | 3 => ReferenceValueMatch
      | 4 => RegistryStatus | 5 => MinTier | _ => TierDetailAllowed
      end) _).
  by intros [].
Defined.

#[export] Program Instance Measurement_countable : Countable Measurement :=
  inj_countable (fun m => (platform m, value_x m, ima_verified m))
    (fun '(p, v, i) => Some (Build_Measurement p v i)) _.
Next Obligation. by intros []. Qed.

#[export] Instance AuthorizeResponse_eq_dec : EqDecision AuthorizeResponse.
Proof. unfold EqDecision. intros [a [p i c t d n k m r]] [a' [p' i' c' t' d' n' k' m' r']].
  destruct (decide ((a, p, i, c, t, d, n, k, m, r) = (a', p', i', c', t', d', n', k', m', r'))) as [E|E];
    [left|right]; naive_solver. Defined.
#[export] Program Instance AuthorizeResponse_countable : Countable AuthorizeResponse :=
  inj_countable (fun x => let r := aresp_appraisal x in
      (aresp_authorization_b64 x, ar_pass r, ar_policy_id r, ar_class_label r, ar_tier r, ar_tier_detail r,
       ar_notes r, ar_checks r, ar_measurement r, ar_reason r))
    (fun '(a, p, i, c, t, d, n, k, m, r) =>
       Some (Build_AuthorizeResponse a (Build_AppraisalResult p i c t d n k m r))) _.
Next Obligation. by intros [? []]. Qed.

(** An error's text in base 16, so that its JSON is UTF-8. *)
#[export] Instance toy_error_json : Json ErrorBody := {|
  json_to_vec e := inr (base16_encode (error e));
  json_from_slice b := match base16_decode b with Some m => inr {| error := m |} | None => inl (B "expected value") end;
|}.

#[export] Instance toy_error_json_laws : JsonLaws ErrorBody.
Proof.
  split; [intros x; by eexists|]. intros [m] b [= <-]. cbn [json_from_slice toy_error_json error].
  by rewrite base16_roundtrip.
Qed.

Lemma toy_error_json_utf8 (e : ErrorBody) j : json_to_vec e = inr j -> is_utf8 j.
Proof.
  intros [= <-]. apply ascii_is_utf8. eapply forallb_mono; [|apply base16_lower]. intros c. by_bytes c.
Qed.

(** axum and reqwest by what their documentation says. *)
(** The parameter of a path that a route stands for. *)
Definition toy_match (p : Pattern) (path : str) : option str :=
  match p with
  | Exactly q => if decide (path = q) then Some [] else None
  | OneUnder q =>
      match strip_prefix q path with
      | Some seg => if decide (seg <> [] /\ x2f ∉ seg) then Some seg else None
      | None => None
      end
  end.

Lemma toy_match_spec p path seg : toy_match p path = Some seg <-> matches p path seg.
Proof.
  destruct p as [q|q]; cbn [toy_match matches].
  - case_decide; naive_solver.
  - destruct (strip_prefix q path) as [seg'|] eqn:Hs.
    + apply strip_prefix_Some in Hs as ->. case_decide as Hd; split; [intros [= <-]; tauto| |done|].
      * intros (Heq & _). by apply app_inv_head in Heq as ->.
      * intros (Heq & Hx). apply app_inv_head in Heq as ->. by destruct Hd.
    + split; [done|]. intros [-> _]. by rewrite strip_prefix_app in Hs.
Qed.

(** The first route of the path and the method; [found] if one of the path was passed. *)
Fixpoint toy_route {A} (l : list (Pattern * Method * A)) (m : Method) (path : str) (found : bool) :
    HttpResponse + (A * str * (HttpResponse -> HttpResponse)) :=
  match l with
  | [] => inl (plain_response (if found then 405 else 404) [])
  | (p, m', a) :: l =>
      match toy_match p path with
      | None => toy_route l m path found
      | Some seg =>
          if decide (m = m') then inr (a, seg, fun r => r)
          else if decide (m = HEAD /\ m' = GET)
          then inr (a, seg, fun r => {| hs_status := hs_status r; hs_headers := hs_headers r; hs_body := [] |})
          else toy_route l m path true
      end
  end.

Lemma toy_route_sound {A} (l : list (Pattern * Method * A)) m path found a seg finish :
  toy_route l m path found = inr (a, seg, finish) ->
  exists p m', (p, m', a) ∈ l /\ matches p path seg /\ (m = m' \/ m = HEAD /\ m' = GET).
Proof.
  revert found. induction l as [|[[p m'] a'] l IH]; intros found; cbn [toy_route]; [done|].
  assert (Hrec : forall b, toy_route l m path b = inr (a, seg, finish) -> exists p' m1,
    (p', m1, a) ∈ (p, m', a') :: l /\ matches p' path seg /\ (m = m1 \/ m = HEAD /\ m1 = GET)).
  { intros b (p' & m1 & Hin & Hp)%IH. exists p', m1. split; [by right|done]. }
  destruct (toy_match p path) as [seg'|] eqn:Hm; [|apply Hrec].
  apply toy_match_spec in Hm. case_decide as Hd; [|case_decide as Hd'; [|apply Hrec]];
    intros [= <- <- _]; exists p, m'; (split; [by left|]); (split; [done|]); tauto.
Qed.

Lemma toy_route_only {A} (l : list (Pattern * Method * A)) k p m a path seg found :
  l !! k = Some (p, m, a) -> matches p path seg ->
  (forall k' x seg', k' <> k -> l !! k' = Some x -> ~ matches x.1.1 path seg') ->
  exists finish, toy_route l m path found = inr (a, seg, finish) /\ forall r, finish r = r.
Proof.
  revert k. induction l as [|[[p' m'] a'] l IH]; intros k; [done|]. cbn [toy_route].
  destruct k as [|k]; cbn [lookup list_lookup]; intros Hk Hp Honly.
  - injection Hk as -> -> ->. rewrite (proj2 (toy_match_spec p path seg) Hp), decide_True by done. by eexists.
  - destruct (toy_match p' path) as [seg'|] eqn:Hm.
    { apply toy_match_spec in Hm. by destruct (Honly 0%nat (p', m', a') seg'). }
    apply (IH k); [done..|]. intros k' x seg' Hne Hk'. by apply (Honly (S k')); [lia|].
Qed.

#[export] Instance toy_axum : Axum := {|
  ax_route A l m path := toy_route l m path false;
  ax_json_body l b :=
    if decide (header (B "content-type") l = Some (B "application/json")) then
      if len b <=? 2 ^ 21 then inr b else inl (plain_response 413 (B "length limit exceeded"))
    else inl (plain_response 415 (B "Expected request with `Content-Type: application/json`"));
  ax_data_rejection e := plain_response 422 (B "Failed to deserialize the JSON body: " ++ e);
  ax_path_u32 s := match parse_uint 32 s with
                   | Ok v => inr v
                   | _ => inl (plain_response 400 (B "Invalid URL: Cannot parse"))
                   end;
|}.

#[export] Instance toy_axum_laws : AxumLaws.
Proof.
  split; cbn [ax_route ax_json_body ax_data_rejection ax_path_u32 toy_axum].
  - intros A l m path a seg finish. apply toy_route_sound.
  - intros A l k p m a path seg. apply toy_route_only.
  - intros b Hl. rewrite decide_True by done. by apply N.leb_le in Hl as ->.
  - intros v Hv. by rewrite parse_uint_display.
  - intros l b r. case_decide; [case_match; [done|]|]; by intros [= <-].
  - done.
  - intros s r. destruct (parse_uint 32 s); [done| |]; by intros [= <-].
Qed.

#[export] Instance toy_reqwest_body : ReqwestBody := {|
  decode_error e := B "error decoding response body: " ++ e;
  body_text b := b;
|}.

#[export] Instance toy_reqwest_body_laws : ReqwestBodyLaws.
Proof. by intros b. Qed.

(** ** A Redis server

Sets and counters in one state, a clock, and the deadlines of the keys that have
one.  No command fails but an EXPIRE out of range. *)

Record toy_server := {
  toy_sets : gset (bytes * bytes);
  toy_counters : gmap bytes Z;
  toy_now : Z;
  toy_deadlines : gmap bytes Z;
}.

Definition toy_empty : toy_server :=
  {| toy_sets := ∅; toy_counters := ∅; toy_now := 1700000000%Z; toy_deadlines := ∅ |}.

Definition toy_add (k : bytes) (n : Z) : run toy_server str Z := fun s =>
  let v := (default 0 (toy_counters s !! k) + n)%Z in
  (Ok v, {| toy_sets := toy_sets s; toy_counters := <[k := v]> (toy_counters s);
            toy_now := toy_now s; toy_deadlines := toy_deadlines s |}).

(** Only the keys that satisfy [P] are left, at the time [now]. *)
Definition toy_restrict (P : bytes -> bool) (now : Z) (s : toy_server) : toy_server := {|
  toy_sets := filter (fun p => P p.1 = true) (toy_sets s);
  toy_counters := filter (fun p => P p.1 = true) (toy_counters s);
  toy_now := now;
  toy_deadlines := filter (fun p => P p.1 = true) (toy_deadlines s);
|}.

Definition toy_alive (s : toy_server) (now : Z) (k : bytes) : bool :=
  match toy_deadlines s !! k with Some t => (now <? t)%Z | None => true end.

Definition toy_keys (s : toy_server) : gset bytes :=
  set_map fst (toy_sets s) ∪ dom (toy_counters s).

Definition toy_expire (k : bytes) (t : Z) : run toy_server str unit := fun s =>
  if (Z.of_N expire_max <? Z.abs t)%Z then (Err (B "invalid expire time in 'expire' command"), s)
  else
  (Ok tt,
   if decide (k ∈ toy_keys s) then
     if (0 <? t)%Z
     then {| toy_sets := toy_sets s; toy_counters := toy_counters s; toy_now := toy_now s;
             toy_deadlines := <[k := (toy_now s + t)%Z]> (toy_deadlines s) |}
     else toy_restrict (fun k' => bool_decide (k' <> k)) (toy_now s) s
   else s).

#[export] Instance toy_redis : Redis := {|
  rstate := toy_server;
  r_client := unit;
  r_open _ := inr tt;
  r_build _ := inr toy_empty;
  r_conn := mret tt;
  r_ping := mret tt;
  r_sadd k m s :=
    (Ok (if decide ((k, m) ∈ toy_sets s) then 0%Z else 1%Z),
     {| toy_sets := {[ (k, m) ]} ∪ toy_sets s; toy_counters := toy_counters s;
        toy_now := toy_now s; toy_deadlines := toy_deadlines s |});
  r_expire := toy_expire;
  r_incrby := toy_add;
  r_decrby k n := toy_add k (- n);
  r_invoke script := script;
|}.

Definition toy_new : @rstate toy_redis := toy_empty.

#[export] Program Instance toy_redis_laws : RedisLaws := {|
  r_member s k m := (k, m) ∈ toy_sets s;
  r_counter s k := default 0%Z (toy_counters s !! k);
|}.
Next Obligation. by intros s r s' [= <- <-]. Qed.
Next Obligation.
  intros k t s r s' Ht Hr. cbn [r_expire toy_redis] in Hr. unfold toy_expire in Hr.
  destruct (_ <? _)%Z; injection Hr as <- <-; [done|].
  case_decide; [|done]. by destruct (Z.ltb_spec 0 t); [|lia].
Qed.
Next Obligation.
  intros k m s r s' [= <- <-]. cbn. split_and!; try set_solver.
  intros v [= <-]. case_decide; split_and!; set_solver.
Qed.
Next Obligation.
  intros k n s r s' [= <- <-]. cbn. rewrite lookup_insert_eq. split_and!; [|by right|].
  - by intros v [= <-].
  - intros k' Hk. by rewrite lookup_insert_ne.
Qed.
Next Obligation.
  intros k n s r s' [= <- <-]. cbn. rewrite lookup_insert_eq. split_and!; [|by right|].
  - by intros v [= <-].
  - intros k' Hk. by rewrite lookup_insert_ne.
Qed.
Next Obligation.
  intros script s r s' Hr. cbn in Hr. rewrite Hr. split; [by intros v ->|by right].
Qed.

#[export] Instance toy_clock : RedisClock := {|
  r_now := toy_now;
  r_elapse d s := let now := (toy_now s + Z.of_N d)%Z in toy_restrict (toy_alive s now) now s;
|}.

(** A restricted server keeps a key whole or drops it. *)
Lemma toy_restrict_key P now s k :
  (P k = true -> r_same s (toy_restrict P now s) k
                 /\ toy_deadlines (toy_restrict P now s) !! k = toy_deadlines s !! k)
  /\ (P k = false -> r_absent (toy_restrict P now s) k
                     /\ toy_deadlines (toy_restrict P now s) !! k = None).
Proof.
  assert (Hmap : forall m : gmap bytes Z, filter (fun p => P p.1 = true) m !! k
    = if P k then m !! k else None).
  { intros m. destruct (P k) eqn:HP.
    - apply option_eq. intros v. rewrite map_lookup_filter_Some. naive_solver.
    - apply map_lookup_filter_None_2. right. intros v _. cbn. by rewrite HP. }
  unfold r_same, r_absent. cbn [toy_restrict r_member r_counter toy_redis_laws toy_sets
    toy_counters toy_deadlines]. rewrite !Hmap.
  split; intros HP; rewrite HP; (split; [split; [|done]|done]); intros m; rewrite elem_of_filter;
    cbn [fst]; rewrite HP; naive_solver.
Qed.

Lemma toy_absent s k : k ∉ toy_keys s -> r_absent s k.
Proof.
  intros Hk. unfold toy_keys in Hk. apply not_elem_of_union in Hk as [Hs Hc]. split.
  - intros m Hm. apply Hs, elem_of_map. by exists (k, m).
  - cbn. by rewrite (proj1 (not_elem_of_dom _ _) Hc).
Qed.

#[export] Program Instance toy_clock_laws : RedisClockLaws := {|
  r_deadline s k := toy_deadlines s !! k;
|}.
Next Obligation. by intros s r s' [= <- <-]. Qed.
Next Obligation. by intros k m s r s' [= <- <-]. Qed.
Next Obligation. by intros k n s r s' [= <- <-]. Qed.
Next Obligation. by intros k n s r s' [= <- <-]. Qed.
Next Obligation.
  intros k t s r s' Ht Hr. cbn [r_expire toy_redis] in Hr. unfold toy_expire in Hr.
  destruct (_ <? _)%Z; injection Hr as <- <-; [split_and!; auto; done|]. case_decide as Hk.
  - destruct (Z.ltb_spec 0 t); [|lia]. cbn. rewrite lookup_insert_eq. split_and!; auto.
    intros k' Hne. by rewrite lookup_insert_ne.
  - split_and!; auto. intros _. right. by apply toy_absent.
Qed.
Next Obligation.
  intros k t s s' Ht Hr. cbn [r_expire toy_redis] in Hr. unfold toy_expire in Hr.
  destruct (_ <? _)%Z; [done|]. injection Hr as <-. case_decide as Hk.
  - destruct (Z.ltb_spec 0 t); [lia|]. apply toy_restrict_key.
    apply bool_decide_eq_false. by intros [].
  - by apply toy_absent.
Qed.
Next Obligation.
  intros k t s r s' Ht Hr. cbn [r_expire toy_redis] in Hr. unfold toy_expire in Hr.
  rewrite (proj2 (Z.ltb_lt _ _) Ht) in Hr. by injection Hr as <- <-.
Qed.
Next Obligation. done. Qed.
Next Obligation.
  intros d s k. cbn [r_elapse toy_clock]. set (P := toy_alive _ _).
  destruct (P k) eqn:HP; [left|right]; by apply toy_restrict_key.
Qed.
Next Obligation.
  intros d s k Ht. cbn [r_elapse toy_clock]. apply toy_restrict_key. unfold toy_alive.
  destruct (toy_deadlines s !! k) as [t|] eqn:Hd; [|done]. apply Z.ltb_lt. by apply Ht.
Qed.
Next Obligation.
  intros d s k t Hd Ht. cbn [r_elapse toy_clock]. apply toy_restrict_key. unfold toy_alive.
  rewrite Hd. apply Z.ltb_ge. cbn in Ht. lia.
Qed.

#[export] Instance toy_reliable : RedisReliable.
Proof.
  split; intros; cbn [r_conn r_sadd r_expire r_incrby r_decrby r_invoke toy_redis]; [by eexists|by do 2 eexists| | |..].
  - unfold toy_expire. destruct (Z.ltb_spec (Z.of_N expire_max) (Z.abs t)); [|by eexists].
    unfold expire_max in *. lia.
  - by do 2 eexists.
  - by do 2 eexists.
  - done.
Qed.

#[export] Instance toy_features : Features := true.

(** ** A quote verifier

A token or bundle is the binding it is for; its identity is a fixed value. *)

Definition toy_identity : bytes := replicate 32 x07.

Definition toy_binds {A} (b x : bytes) (v : A) : str + A :=
  if decide (b = x) then inr v else inl (B "binding").

Definition toy_desktop : DesktopVerdict := {|
  dt_verdict := B "verified";
  dt_identity_hash := hex_encode toy_identity;
  dt_platform := B "linux-tpm-client";
  dt_ima_verified := true;
  dt_boot_aggregate := None;
|}.

Definition toy_mobile : MobileVerdict :=
  {| mob_verdict := B "verified"; mob_app_id_hash := hex_encode toy_identity |}.

Definition toy_azure (b : bytes) : AzureVerdict := {|
  az_verdict := B "verified";
  az_value_x := Some (hex_encode b);
  az_measurement := hex_encode toy_identity;
|}.

#[export] Instance toy_uq : UnifiedQuote := {|
  EatToken := bytes;
  eat_from_cbor := inr;
  eat_nonce := id;
  eat_platform _ := 1;
  eat_platform_enum _ := Some SevSnp;
  eat_platform_quote := id;
  eat_binding_bytes := id;
  eat_value_x _ := toy_identity;
  verify_platform_quote _ _ _ _ := inr tt;
  AzureBundle := bytes;
  azure_bundle_json := inr;
  tls_spki_is_some _ := false;
  azure_verify_bundle _ b := inr (toy_azure b);
  verify_attested_cert _ b := inr (toy_azure b);
  AndroidBundle := bytes;
  android_bundle_json := inr;
  android_verify_bundle _ b x := toy_binds b x toy_mobile;
  ANDROID_PLATFORM := B "android-key-attestation";
  IosBundle := bytes;
  ios_bundle_json := inr;
  ios_verify_bundle _ b x := toy_binds b x toy_mobile;
  IOS_PLATFORM := B "ios-app-attest";
  TpmBundle := bytes;
  tpm_bundle_json := inr;
  tpm_verify_bundle _ b x _ := toy_binds b x toy_desktop;
  MacBundle := bytes;
  mac_bundle_json := inr;
  mac_verify_bundle _ b x := toy_binds b x toy_desktop;
|}.

Lemma toy_binds_Ok {A} b x (v w : A) : toy_binds b x v = inr w -> b = x.
Proof. unfold toy_binds. by case_decide. Qed.

#[export] Instance toy_uq_laws : UnifiedQuoteLaws.
Proof.
  split; cbn.
  - by intros now now' b v v' [= <-] [= <-].
  - by intros now now' b v v' [= <-] [= <-].
  - by intros now now' b x x' v v' ->%toy_binds_Ok ->%toy_binds_Ok.
  - by intros now now' b x x' v v' ->%toy_binds_Ok ->%toy_binds_Ok.
  - by intros now now' b x x' o v v' ->%toy_binds_Ok ->%toy_binds_Ok.
  - by intros now now' b x x' v v' ->%toy_binds_Ok ->%toy_binds_Ok.
Qed.

(** ** A machine

Its files; a collector writes the binding it is given to its output. *)

Abbreviation toy_machine := (gmap str bytes).

#[export] Instance toy_machine_ops : Machine toy_machine := {|
  read_stdin := lift (Err (B "closed"));
  read_file path := fun fs => (ok_or (fs !! path) (B "not found"), fs);
  remove_file path := fun fs => (Ok tt, delete path fs);
  spawn prog args env := fun fs =>
    match args with
    | [_; hex; _; out] | [_; _; _; hex; _; out] =>
        (Ok (true, B "exit status: 0"),
         match hex_decode hex with inr b => <[out := b]> fs | inl _ => fs end)
    | _ => (Ok (false, B "exit status: 1"), fs)
    end;
  getrandom8 := lift (Ok (replicate 8 x01));
  temp_path name := B "/tmp/" ++ name;
|}.

Definition toy_reason (code : N) : str :=
  match code with
  | 200 => B "OK" | 400 => B "Bad Request" | 401 => B "Unauthorized" | 403 => B "Forbidden"
  | 404 => B "Not Found" | 409 => B "Conflict" | 429 => B "Too Many Requests"
  | 500 => B "Internal Server Error" | _ => B "<unknown status code>"
  end.

#[export] Instance toy_reqwest : Reqwest := {|
  status_display code := display_N code ++ B " " ++ toy_reason code;
  status_error code url := B "HTTP status " ++ display_N code ++ B " for url " ++ url;
  transport_error url := B "error sending request for url " ++ url;
|}.

(** ** Sockets and texts *)

(** Every listener binds and every certificate loads. *)
#[export] Instance toy_net : Net := {|
  sock_display a := display_N (sa_port a);
  load_pem _ _ := inr tt;
  bind_listener _ := inr tt;
|}.

#[export] Instance toy_pretty : Pretty := {|
  pretty_appraisal r := inr (B "appraisal");
  pretty_diff d := inr (B "diff");
  dt_display := display_N;
|}.

#[export] Instance toy_uq_hashes : UqHashes :=
  {| desktop_build_id_hash := id; ios_client_data_hash := id |}.
