(* ===== verification/CoreTests.v ===== *)
(** * The tests of the core crate

The unit tests of core/src and the integration tests of core/tests/roundtrip.rs,
as programs over the model: an [assert!] that does not hold, or the [unwrap] of
an error, is [Panic].  A test passes when it ends in [Ok].  Those that ask only
for what the code promises pass for every implementation of the outside crates
that keeps its laws and for all randomness; those that ask for a refusal no law
guarantees (of a forgery, of a collision) are run on the stand-ins. *)

From S2P Require Import Prelude RustStr Externals Pomfrit Core Http RateLimit Spend Gate Authorize.
From S2P Require Import Transparency Instances Standins.

(** ** Assertions *)

Definition assert (b : bool) : result Empty_set unit := if b then Ok tt else Panic.

Definition assert_eq {A} `{EqDecision A} (x y : A) : result Empty_set unit :=
  assert (bool_decide (x = y)).

Definition is_err {E T} (r : result E T) : bool := match r with Err _ => true | _ => false end.

(** [unwrap_err]. *)
Definition unwrap_err {E T} (r : result E T) : result Empty_set E :=
  match r with Err e => Ok e | _ => Panic end.

(** [unwrap] of a computation. *)
Definition unwrapped {S E T} (m : run S E T) : run S Empty_set T := fun s =>
  let '(r, s) := m s in (expect r, s).
(** The [Result] of a computation as a value. *)
Definition observe {S E T} (m : run S E T) : run S Empty_set (result E T) := fun s =>
  let '(r, s) := m s in (match r with Panic => Panic | _ => Ok r end, s).

(** A computation that cannot fail. *)
Definition infallible {S T} (m : S -> T * S) : run S Empty_set T := fun s =>
  let '(x, s) := m s in (Ok x, s).

Fixpoint for_each {A} (body : A -> result Empty_set unit) (l : list A) : result Empty_set unit :=
  match l with
  | [] => Ok tt
  | x :: l => _ ← body x; for_each body l
  end.

(** [pop().unwrap()]. *)
Definition pop_unwrap {A} (l : list A) : result Empty_set A := expect (ok_or (last l) tt).

Lemma for_each_Ok {A} (body : A -> result Empty_set unit) l :
  Forall (fun x => body x = Ok tt) l -> for_each body l = Ok tt.
Proof. induction 1 as [|x l Hx _ IH]; [done|]. cbn [for_each]. by rewrite Hx. Qed.

(** ** core/src/ratelimit.rs *)

Section ratelimit.
Context `{BuildProfile}.

Definition allows_up_to_limit_then_blocks : result Empty_set unit :=
  let rl := InMemoryRateLimiter_new 5 3600 in
  let id := B "build-abc" in
  let '(r, rl) := try_consume_at 0 id 3 rl in
  _ ← assert (is_ok r);
  let '(r, rl) := try_consume_at 0 id 2 rl in
  _ ← assert (is_ok r);
  let '(r, rl) := try_consume_at 0 id 1 rl in
  assert_eq r (Err RLExceeded).

Definition separate_identities_have_separate_budgets : result Empty_set unit :=
  let rl := InMemoryRateLimiter_new 2 3600 in
  let '(r, rl) := try_consume_at 0 (B "a") 2 rl in
  _ ← assert (is_ok r);
  let '(r, rl) := try_consume_at 0 (B "b") 2 rl in
  _ ← assert (is_ok r);
  let '(r, rl) := try_consume_at 0 (B "a") 1 rl in
  assert_eq r (Err RLExceeded).

Definition budget_resets_next_epoch : result Empty_set unit :=
  let rl := InMemoryRateLimiter_new 1 3600 in
  let '(r, rl) := try_consume_at 0 (B "a") 1 rl in
  _ ← assert (is_ok r);
  let '(r, rl) := try_consume_at 0 (B "a") 1 rl in
  _ ← assert_eq r (Err RLExceeded);
  let '(r, rl) := try_consume_at 1 (B "a") 1 rl in
  assert (is_ok r).

Definition prune_drops_old_epochs : result Empty_set unit :=
  let rl := InMemoryRateLimiter_new 1 3600 in
  let '(r, rl) := try_consume_at 0 (B "a") 1 rl in
  _ ← expect r;
  let '(r, rl) := prune_before 1 rl in
  _ ← expect r;
  let '(r, rl) := try_consume_at 0 (B "a") 1 rl in
  assert (is_ok r).

Theorem ratelimit_tests_pass :
  allows_up_to_limit_then_blocks = Ok tt
  /\ separate_identities_have_separate_budgets = Ok tt
  /\ budget_resets_next_epoch = Ok tt
  /\ prune_drops_old_epochs = Ok tt.
Proof. split_and!; by vm_compute. Qed.

End ratelimit.

(** ** core/src/spend.rs *)

Definition first_spend_ok_second_is_double_spend : result Empty_set unit :=
  let store := InMemorySpentStore_new in
  let n := replicate 32 x01 in
  let '(r, store) := check_and_mark 1 n store in
  _ ← assert (is_ok r);
  let '(r, store) := check_and_mark 1 n store in
  assert_eq r (Err SEDoubleSpend).

Definition same_nonce_distinct_epochs_are_independent : result Empty_set unit :=
  let store := InMemorySpentStore_new in
  let n := replicate 32 x02 in
  let '(r, store) := check_and_mark 1 n store in
  _ ← assert (is_ok r);
  let '(r, store) := check_and_mark 2 n store in
  assert (is_ok r).

Definition prune_retires_old_epochs : result Empty_set unit :=
  let store := InMemorySpentStore_new in
  let '(r, store) := check_and_mark 1 (replicate 32 x03) store in
  _ ← expect r;
  let '(r, store) := check_and_mark 2 (replicate 32 x04) store in
  _ ← expect r;
  _ ← assert_eq (InMemorySpentStore_len store) 2;
  let '(r, store) := prune_epochs_before 2 store in
  _ ← expect r;
  _ ← assert_eq (InMemorySpentStore_len store) 1;
  let '(r, store) := check_and_mark 1 (replicate 32 x03) store in
  assert (is_ok r).

Theorem spend_tests_pass :
  first_spend_ok_second_is_double_spend = Ok tt
  /\ same_nonce_distinct_epochs_are_independent = Ok tt
  /\ prune_retires_old_epochs = Ok tt.
Proof. split_and!; by vm_compute. Qed.

(** ** core/src/gate.rs *)

Section gate.
Context `{Chrono}.

(** A verifier that authenticates nothing. *)
Record FixedMeasurement := { fixed : Measurement }.
#[export] Instance FixedMeasurement_verifier : AttestationVerifier FixedMeasurement :=
  fun v _ _ _ => Ok (fixed v).

Definition class_gated_allows_in_class_rejects_out_of_class (now : DateTime) : result Empty_set unit :=
  let in_class := replicate 32 x01 in
  let out_class := replicate 32 x09 in
  let class := MeasurementClass_new (B "accepted") 2 [in_class] in
  let okv := {| cg_inner := {| fixed := Measurement_new (B "sev-snp") in_class |}; cg_class := class |} in
  _ ← assert (is_ok (verify_eat okv now [] (replicate 32 x00)));
  _ ← assert_eq (policy_label (cg_class okv)) (B "accepted@v2");
  let bad := {| cg_inner := {| fixed := Measurement_new (B "sev-snp") out_class |}; cg_class := class |} in
  assert_eq (verify_eat bad now [] (replicate 32 x00)) (Err GMeasurementNotAllowed).

Theorem gate_tests_pass now : class_gated_allows_in_class_rejects_out_of_class now = Ok tt.
Proof. by vm_compute. Qed.

End gate.

(** ** core/src/transparency.rs *)

Section transparency.
Context `{Sha256, Hex, Faest, BlindSig, BuildProfile}.

(** The pool of keys the tests share is generated once. *)
Fixpoint generate_pool (v : N) (n : nat) (g : rng) : list IssuerPublicKey * rng :=
  match n with
  | O => ([], g)
  | S n =>
      let '(i, g) := Issuer_generate (v + 1) g in
      let '(l, g) := generate_pool (v + 1) n g in
      (Issuer_public i :: l, g)
  end.

Definition key_pool (g : rng) : list IssuerPublicKey := fst (generate_pool 0 6 g).

Section with_pool.
Variable pool : list IssuerPublicKey.

Definition issuer_pk_idx (idx : nat) (key_version : N) : result Empty_set IssuerPublicKey :=
  pk ← index pool idx;
  Ok {| pk_key_version := key_version; pk_alg := pk_alg pk; pk_key := pk_key pk |}.

Definition issuer_pk (key_version : N) : result Empty_set IssuerPublicKey :=
  issuer_pk_idx (N.to_nat key_version mod length pool) key_version.

(** [log.append(..).unwrap()], the [key_id] of a key, and [LogSigner::from_seed]
    and [sign], which return a value. *)
Definition append (log : KeyLog) (pk : IssuerPublicKey) (nb : N) : result Empty_set KeyLog :=
  snd <$> expect (KeyLog_append log pk nb).
Definition key_id (pk : IssuerPublicKey) : result Empty_set bytes :=
  expect (IssuerPublicKey_token_key_id pk).
Definition signer_of (seed : bytes) : result Empty_set LogSigner := expect (LogSigner_from_seed seed).
Definition sign_log (s : LogSigner) (log : KeyLog) : result Empty_set SignedHead :=
  expect (LogSigner_sign s log).

Definition build_sign_verify_roundtrip : result Empty_set unit :=
  signer ← signer_of (replicate 32 x07);
  k0 ← issuer_pk 1;
  k1 ← issuer_pk 2;
  log ← append KeyLog_new k0 1000;
  log ← append log k1 2000;
  sth ← sign_log signer log;
  _ ← expect (verify_log (LogSigner_public signer) (kl_records log) sth);
  id0 ← key_id k0;
  seq0 ← expect (verify_inclusion (kl_records log) id0);
  id1 ← key_id k1;
  seq1 ← expect (verify_inclusion (kl_records log) id1);
  assert_eq (seq0, seq1) (0, 1).

Definition unknown_key_not_included : result Empty_set unit :=
  signer ← signer_of (replicate 32 x09);
  k ← issuer_pk 1;
  log ← append KeyLog_new k 1;
  sth ← sign_log signer log;
  _ ← expect (verify_log (LogSigner_public signer) (kl_records log) sth);
  k5 ← issuer_pk 5;
  stranger ← key_id k5;
  assert_eq (verify_inclusion (kl_records log) stranger) (Err TNotIncluded).

Definition set_token_key_id (r : KeyRecord) (id : str) : KeyRecord :=
  {| kr_seq := kr_seq r; kr_key_version := kr_key_version r; kr_token_key_id := id;
     kr_not_before := kr_not_before r |}.

Definition tampered_record_breaks_head : result Empty_set unit :=
  signer ← signer_of (replicate 32 x01);
  k1 ← issuer_pk 1;
  log ← append KeyLog_new k1 1;
  k2 ← issuer_pk 2;
  log ← append log k2 2;
  sth ← sign_log signer log;
  let records := kl_records log in
  r0 ← index records 0;
  let records := <[0%nat := set_token_key_id r0 (hex_encode (replicate 32 xee))]> records in
  assert_eq (verify_log (LogSigner_public signer) records sth) (Err THeadMismatch).

Definition wrong_log_key_rejected : result Empty_set unit :=
  signer ← signer_of (replicate 32 x02);
  k ← issuer_pk 1;
  log ← append KeyLog_new k 1;
  sth ← sign_log signer log;
  attacker ← signer_of (replicate 32 x03);
  assert_eq (verify_log (LogSigner_public attacker) (kl_records log) sth) (Err TBadSignature).

Definition consistency_accepts_append_rejects_rewrite : result Empty_set unit :=
  signer ← signer_of (replicate 32 x04);
  k1 ← issuer_pk 1;
  log ← append KeyLog_new k1 1;
  old ← sign_log signer log;
  k2 ← issuer_pk 2;
  log ← append log k2 2;
  new ← sign_log signer log;
  _ ← expect (verify_log (LogSigner_public signer) (kl_records log) new);
  _ ← expect (verify_consistency old (kl_records log));
  k9 ← issuer_pk 9;
  rewritten ← append KeyLog_new k9 1;
  k2 ← issuer_pk 2;
  rewritten ← append rewritten k2 2;
  assert_eq (verify_consistency old (kl_records rewritten)) (Err TNotConsistent).

(** The loop over [1..=4]: the log so far and the heads signed. *)
Fixpoint rotations (signer : LogSigner) (vs : list N) (log : KeyLog) (heads : list SignedHead) :
    result Empty_set (KeyLog * list SignedHead) :=
  match vs with
  | [] => Ok (log, heads)
  | v :: vs =>
      k ← issuer_pk v;
      log ← append log k (v * 1000);
      sth ← sign_log signer log;
      rotations signer vs log (heads ++ [sth])
  end.

Definition multi_rotation_stays_consistent_from_every_prefix : result Empty_set unit :=
  signer ← signer_of (replicate 32 x05);
  '(log, heads) ← rotations signer [1; 2; 3; 4] KeyLog_new [];
  let final_records := kl_records log in
  lasth ← expect (ok_or (last heads) tt);
  _ ← expect (verify_log (LogSigner_public signer) final_records lasth);
  _ ← for_each (fun old => expect (verify_consistency old final_records)) heads;
  k4 ← issuer_pk 4;
  id ← key_id k4;
  seq ← expect (verify_inclusion final_records id);
  assert_eq seq 3.

End with_pool.
End transparency.

Theorem transparency_tests_pass :
  Forall (fun test => test (key_pool (1 : @rng toy_rng)) = Ok tt)
    [build_sign_verify_roundtrip; unknown_key_not_included; tampered_record_breaks_head;
     wrong_log_key_rejected; consistency_accepts_append_rejects_rewrite;
     multi_rotation_stays_consistent_from_every_prefix].
Proof. repeat constructor; by vm_compute. Qed.

(** ** core/tests/roundtrip.rs *)

Section roundtrip.
Context `{Sha256, Hex, Base64, Rng, !BlindSig, Ed25519, Chrono, BuildProfile}
  `{Json DevEat, Json IssuerPublicKey, Json SignRequest, Json SignResponse, Json SpendToken}.

(** The clocks a test reads. *)
Variable now : DateTime.
Variable clock : option N.

Definition issuer : run rng Empty_set Issuer := infallible (Issuer_generate 1).
Definition challenge : TokenChallenge := TokenChallenge_new (B "issuer.example") (B "origin.example").

Definition verify_each (pk : IssuerPublicKey) (ch : TokenChallenge) (tokens : list SpendToken) :
    result Empty_set unit :=
  for_each (fun t => _ ← expect (Verifier_verify (Verifier_new pk) t ch); Ok tt) tokens.

Definition happy_path_issue_finalize_verify : run rng Empty_set unit :=
  issuer ← issuer;
  let pk := Issuer_public issuer in
  let ch := challenge in
  '(req, pending) ← unwrapped (Client_begin pk ch 3);
  _ ← lift (assert_eq (PendingTokens_len pending) 3);
  resp ← unwrapped (Issuer_blind_sign issuer req);
  tokens ← unwrapped (PendingTokens_finalize pending pk resp);
  _ ← lift (assert_eq (len tokens) 3);
  lift (for_each (fun t => nonce' ← expect (Verifier_verify (Verifier_new pk) t ch);
                           assert_eq nonce' (nonce t)) tokens).

Definition tokens_are_unlinkable_to_blinded_messages : run rng Empty_set unit :=
  issuer ← issuer;
  let pk := Issuer_public issuer in
  let ch := challenge in
  '(req, pending) ← unwrapped (Client_begin pk ch 2);
  resp ← unwrapped (Issuer_blind_sign issuer req);
  tokens ← unwrapped (PendingTokens_finalize pending pk resp);
  t0 ← lift (index tokens 0);
  t1 ← lift (index tokens 1);
  _ ← lift (assert (bool_decide (nonce t0 <> nonce t1)));
  blinded0 ← lift (index (blinded (req_body req)) 0);
  lift (assert (bool_decide (blinded0 <> authenticator t0))).

Definition set_nonce (t : SpendToken) (n : bytes) : SpendToken :=
  {| token_type := token_type t; nonce := n; challenge_digest := challenge_digest t;
     token_key_id := token_key_id t; authenticator := authenticator t |}.

(** [n[0] ^= 0x01]. *)
Definition flip_first (n : bytes) : result Empty_set bytes :=
  b ← index n 0;
  Ok (<[0%nat := byte_of_N (N.lxor (Byte.to_N b) 1)]> n).

Definition tampered_token_fails : run rng Empty_set unit :=
  issuer ← issuer;
  let pk := Issuer_public issuer in
  let ch := challenge in
  '(req, pending) ← unwrapped (Client_begin pk ch 1);
  resp ← unwrapped (Issuer_blind_sign issuer req);
  tokens ← unwrapped (PendingTokens_finalize pending pk resp);
  token ← lift (pop_unwrap tokens);
  n ← lift (flip_first (nonce token));
  lift (assert (is_err (Verifier_verify (Verifier_new pk) (set_nonce token n) ch))).

Definition wrong_challenge_fails : run rng Empty_set unit :=
  issuer ← issuer;
  let pk := Issuer_public issuer in
  let minted := TokenChallenge_new (B "issuer.example") (B "origin-a.example") in
  let presented := TokenChallenge_new (B "issuer.example") (B "origin-b.example") in
  '(req, pending) ← unwrapped (Client_begin pk minted 1);
  resp ← unwrapped (Issuer_blind_sign issuer req);
  tokens ← unwrapped (PendingTokens_finalize pending pk resp);
  token ← lift (pop_unwrap tokens);
  lift (assert (is_err (Verifier_verify (Verifier_new pk) token presented))).

Definition token_key_id_pins_the_issuer_key : run rng Empty_set unit :=
  issuer_a ← issuer;
  issuer_b ← issuer;
  let pk_a := Issuer_public issuer_a in
  let ch := challenge in
  '(req, pending) ← unwrapped (Client_begin pk_a ch 1);
  resp ← unwrapped (Issuer_blind_sign issuer_a req);
  tokens ← unwrapped (PendingTokens_finalize pending pk_a resp);
  token ← lift (pop_unwrap tokens);
  lift (assert (is_err (Verifier_verify (Verifier_new (Issuer_public issuer_b)) token ch))).

Definition key_consistency_check : run rng Empty_set unit :=
  issuer ← issuer;
  let pk := Issuer_public issuer in
  pinned ← lift (expect (IssuerPublicKey_token_key_id pk));
  _ ← lift (assert (is_ok (check_key_consistency pinned pk)));
  other ← infallible (Issuer_generate 1);
  lift (assert (is_err (check_key_consistency pinned (Issuer_public other)))).

Definition token_bytes_roundtrip : run rng Empty_set unit :=
  issuer ← issuer;
  let pk := Issuer_public issuer in
  let ch := challenge in
  '(req, pending) ← unwrapped (Client_begin pk ch 1);
  resp ← unwrapped (Issuer_blind_sign issuer req);
  tokens ← unwrapped (PendingTokens_finalize pending pk resp);
  token ← lift (pop_unwrap tokens);
  back ← lift (expect (SpendToken_from_bytes (SpendToken_to_bytes token)));
  _ ← lift (assert_eq (token_type back) (token_type token));
  _ ← lift (assert_eq (nonce back) (nonce token));
  _ ← lift (assert_eq (challenge_digest back) (challenge_digest token));
  _ ← lift (assert_eq (token_key_id back) (token_key_id token));
  _ ← lift (assert_eq (authenticator back) (authenticator token));
  _ ← lift (expect (Verifier_verify (Verifier_new pk) back ch));
  mret tt.

Definition http_authorization_roundtrip : run rng Empty_set unit :=
  issuer ← issuer;
  let pk := Issuer_public issuer in
  let ch := challenge in
  '(req, pending) ← unwrapped (Client_begin pk ch 1);
  resp ← unwrapped (Issuer_blind_sign issuer req);
  tokens ← unwrapped (PendingTokens_finalize pending pk resp);
  token ← lift (pop_unwrap tokens);
  www ← lift (expect (www_authenticate (TokenChallenge_to_bytes ch) pk));
  _ ← lift (assert (starts_with (B "PrivateToken challenge=") www));
  parsed ← lift (expect (parse_authorization (authorization token)));
  _ ← lift (expect (Verifier_verify (Verifier_new pk) parsed ch));
  mret tt.

Definition dev_measurement : Measurement := Measurement_new (B "dev") (replicate 32 x07).

Definition gate_happy_path : run rng Empty_set unit :=
  issuer ← issuer;
  let pk := Issuer_public issuer in
  let ch := challenge in
  attester ← unwrapped DevAttester_generate;
  let measurement := dev_measurement in
  verifier_gate ← lift (expect (DevVerifier_new (DevAttester_verifying_key attester) [value_x measurement]));
  '(req, pending) ← unwrapped (Client_begin pk ch 2);
  let b := binding_of (blinded (req_body req)) in
  eat ← lift (expect (DevAttester_attest attester measurement b));
  resp ← unwrapped (issue_gated issuer verifier_gate now req eat);
  tokens ← unwrapped (PendingTokens_finalize pending pk resp);
  _ ← lift (assert_eq (len tokens) 2);
  lift (verify_each pk ch tokens).

Definition gate_rejects_wrong_binding : run rng Empty_set unit :=
  issuer ← issuer;
  let pk := Issuer_public issuer in
  attester ← unwrapped DevAttester_generate;
  let measurement := dev_measurement in
  gate ← lift (expect (DevVerifier_new (DevAttester_verifying_key attester) [value_x measurement]));
  '(req, _) ← unwrapped (Client_begin pk challenge 1);
  eat ← lift (expect (DevAttester_attest attester measurement (replicate 32 x00)));
  r ← observe (issue_gated issuer gate now req eat);
  err ← lift (unwrap_err r);
  lift (assert_eq err GBindingMismatch).

Definition gate_rejects_unallowed_measurement : run rng Empty_set unit :=
  issuer ← issuer;
  let pk := Issuer_public issuer in
  attester ← unwrapped DevAttester_generate;
  gate ← lift (expect (DevVerifier_new (DevAttester_verifying_key attester) [replicate 32 x01]));
  '(req, _) ← unwrapped (Client_begin pk challenge 1);
  let b := binding_of (blinded (req_body req)) in
  eat ← lift (expect (DevAttester_attest attester (Measurement_new (B "dev") (replicate 32 x09)) b));
  r ← observe (issue_gated issuer gate now req eat);
  err ← lift (unwrap_err r);
  lift (assert_eq err GMeasurementNotAllowed).

Definition gate_rejects_forged_attester : run rng Empty_set unit :=
  issuer ← issuer;
  let pk := Issuer_public issuer in
  real ← unwrapped DevAttester_generate;
  forger ← unwrapped DevAttester_generate;
  let measurement := dev_measurement in
  gate ← lift (expect (DevVerifier_new (DevAttester_verifying_key real) [value_x measurement]));
  '(req, _) ← unwrapped (Client_begin pk challenge 1);
  let b := binding_of (blinded (req_body req)) in
  eat ← lift (expect (DevAttester_attest forger measurement b));
  r ← observe (issue_gated issuer gate now req eat);
  err ← lift (unwrap_err r);
  lift (assert match err with GAttestationInvalid _ => true | _ => false end).

Definition gate_on_measurement_class : run rng Empty_set unit :=
  issuer ← issuer;
  let pk := Issuer_public issuer in
  attester ← unwrapped DevAttester_generate;
  let build_a := replicate 32 x01 in
  let build_b := replicate 32 x02 in
  let class := MeasurementClass_new (B "accepted-builds") 1 [build_a; build_b] in
  _ ← lift (assert_eq (policy_label class) (B "accepted-builds@v1"));
  gate ← lift (expect (DevVerifier_new_for_class (DevAttester_verifying_key attester) class));
  '(req, _) ← unwrapped (Client_begin pk challenge 1);
  let b := binding_of (blinded (req_body req)) in
  eat ← lift (expect (DevAttester_attest attester (Measurement_new (B "dev") build_b) b));
  r ← observe (issue_gated issuer gate now req eat);
  lift (assert (is_ok r)).

(** A request served with the limiter, which the test keeps in a variable. *)
Definition with_limiter {R E T} (l : R) (m : run (R * rng) E T) :
    run rng Empty_set (result E T * R) := fun g =>
  let '(r, (l, g)) := m (l, g) in (match r with Panic => Panic | _ => Ok (r, l) end, g).

Definition rate_limit_gate_blocks_over_quota : run rng Empty_set unit :=
  issuer ← issuer;
  let pk := Issuer_public issuer in
  attester ← unwrapped DevAttester_generate;
  let m := dev_measurement in
  gate ← lift (expect (DevVerifier_new (DevAttester_verifying_key attester) [value_x m]));
  let limiter := InMemoryRateLimiter_new 2 3600 in
  '(req1, _) ← unwrapped (Client_begin pk challenge 2);
  eat1 ← lift (expect (DevAttester_attest attester m (binding_of (blinded (req_body req1)))));
  '(r, limiter) ← with_limiter limiter (issue_gated_with_limit issuer gate now clock req1 eat1);
  _ ← lift (assert (is_ok r));
  '(req2, _) ← unwrapped (Client_begin pk challenge 1);
  eat2 ← lift (expect (DevAttester_attest attester m (binding_of (blinded (req_body req2)))));
  '(r, _) ← with_limiter limiter (issue_gated_with_limit issuer gate now clock req2 eat2);
  err ← lift (unwrap_err r);
  lift (assert_eq err GQuotaExceeded).

(** [to_string(..).unwrap()] and [from_str(..).unwrap()]. *)
Definition through_json {T} `{Json T} (x : T) : result Empty_set T :=
  b ← expect (of_sum (json_to_vec x)); expect (of_sum (json_from_slice b)).

Definition json_wire_roundtrip : run rng Empty_set unit :=
  issuer ← issuer;
  let pk := Issuer_public issuer in
  let ch := challenge in
  pk2 ← lift (through_json pk);
  '(req, pending) ← unwrapped (Client_begin pk2 ch 1);
  req2 ← lift (through_json req);
  resp ← unwrapped (Issuer_blind_sign issuer req2);
  resp2 ← lift (through_json resp);
  tokens ← unwrapped (PendingTokens_finalize pending pk2 resp2);
  token ← lift (pop_unwrap tokens);
  token2 ← lift (through_json token);
  _ ← lift (expect (Verifier_verify (Verifier_new pk) token2 ch));
  mret tt.

End roundtrip.

Theorem roundtrip_tests_pass :
  Forall (fun test => fst (test (1 : @rng toy_rng)) = Ok tt)
    [tokens_are_unlinkable_to_blinded_messages; tampered_token_fails; wrong_challenge_fails;
     token_key_id_pins_the_issuer_key; key_consistency_check]
  /\ Forall (fun test => fst (test (7 : @DateTime toy_chrono) (1 : @rng toy_rng)) = Ok tt)
    [gate_happy_path; gate_rejects_wrong_binding; gate_rejects_unallowed_measurement;
     gate_rejects_forged_attester; gate_on_measurement_class;
     fun now => rate_limit_gate_blocks_over_quota now (Some 1000)].
Proof. split; repeat constructor; by vm_compute. Qed.

(** ** core/src/authorize.rs *)

Section authorize.
Context `{Sha256, Hex, Faest, Ed25519, BlindSig, BuildProfile, Chrono, Json DevEat}.
(** The clock the limiter and a verifier read. *)
Variable clock : option N.
Variable at_ : DateTime.

Definition authorize_now : N := 1700000000.

Definition split_authorize_then_issue : run rng Empty_set unit :=
  let seed := replicate 32 x07 in
  let attester := DevAttester_from_seed seed in
  let value_x := replicate 32 x07 in
  let measurement := Measurement_new (B "dev") value_x in
  verifier ← lift (expect (DevVerifier_new (DevAttester_verifying_key attester) [value_x]));
  authorizer ← lift (expect (Authorizer_new seed verifier (B "default@v1") DEFAULT_AUTHORIZATION_TTL_SECS));
  attester_pub ← lift (expect (attester_pubkey_from_hex (hex_encode (Authorizer_verifying_key authorizer))));
  issuer ← infallible (Issuer_generate 1);
  let pk := Issuer_public issuer in
  let challenge := TokenChallenge_new (B "issuer") (B "origin") in
  '(req, pending) ← unwrapped (Client_begin pk challenge 2);
  let b := SignRequest_binding req in
  eat ← lift (expect (DevAttester_attest attester measurement b));
  auth ← lift (expect (authorize authorizer at_ eat b 2 authorize_now));
  let limiter := InMemoryRateLimiter_new 64 3600 in
  '(r, _) ← with_limiter limiter (issue_authorized_with_limit issuer attester_pub req auth authorize_now clock);
  resp ← lift (expect r);
  _ ← lift (assert_eq (len (blind_sigs resp)) 2);
  _ ← unwrapped (PendingTokens_finalize pending pk resp);
  mret tt.

Definition expired_authorization_rejected : run rng Empty_set unit :=
  let seed := replicate 32 x01 in
  let attester := DevAttester_from_seed seed in
  let value_x := replicate 32 x01 in
  verifier ← lift (expect (DevVerifier_new (DevAttester_verifying_key attester) [value_x]));
  authorizer ← lift (expect (Authorizer_new seed verifier (B "default@v1") 1));
  attester_pub ← lift (expect (attester_pubkey_from_hex (hex_encode (Authorizer_verifying_key authorizer))));
  let measurement := Measurement_new (B "dev") value_x in
  let b := replicate 32 x00 in
  eat ← lift (expect (DevAttester_attest attester measurement b));
  auth ← lift (expect (authorize authorizer at_ eat b 1 authorize_now));
  issuer ← infallible (Issuer_generate 1);
  let pk := Issuer_public issuer in
  let challenge := TokenChallenge_new (B "i") (B "o") in
  '(req, _) ← unwrapped (Client_begin pk challenge 1);
  let limiter := InMemoryRateLimiter_new 64 3600 in
  '(r, _) ← with_limiter limiter
    (issue_authorized_with_limit issuer attester_pub req auth (authorize_now + 10) clock);
  err ← lift (unwrap_err r);
  lift (assert match err with GAttestationInvalid _ => true | _ => false end).

End authorize.

Theorem authorize_tests_pass :
  Forall (fun test => fst (test (Some 1000) (7 : @DateTime toy_chrono) (1 : @rng toy_rng)) = Ok tt)
    [split_authorize_then_issue; expired_authorization_rejected].
Proof. repeat constructor; by vm_compute. Qed.

(** ** core/tests/fuzz_smoke.rs *)

Section fuzz_smoke.
Context `{Sha256, Hex, Base64}.

(** The generator: xorshift64*, its state 64 bits wide. *)
Definition next_u64 (x : N) : N * N :=
  let x := N.lxor x (N.shiftr x 12) in
  let x := N.lxor x (wrap 64 (N.shiftl x 25)) in
  let x := N.lxor x (N.shiftr x 27) in
  (wrap 64 (x * 0x2545F4914F6CDD1D), x).

Definition rng_byte (x : N) : byte * N := let '(v, x) := next_u64 x in (byte_of_N (N.land v 0xff), x).
Definition rng_len (max : N) (x : N) : N * N := let '(v, x) := next_u64 x in (v mod (max + 1), x).

Fixpoint rng_bytes (n : nat) (x : N) : bytes * N :=
  match n with
  | O => ([], x)
  | S n => let '(b, x) := rng_byte x in let '(l, x) := rng_bytes n x in (b :: l, x)
  end.

(** [for _ in 0..n]. *)
Fixpoint repeated (n : nat) (body : run N Empty_set unit) : run N Empty_set unit :=
  match n with
  | O => mret tt
  | S n => _ ← body; repeated n body
  end.

Definition smoke_len (x : N) : N * N :=
  let '(v, x) := next_u64 x in
  if v mod 4 =? 0 then rng_len 8 x
  else if v mod 4 =? 1 then let '(l, x) := rng_len 20 x in (120 + l, x)
  else rng_len 8192 x.

Definition token_from_bytes_never_panics_and_roundtrips : result Empty_set unit :=
  fst (repeated (N.to_nat 50000) (fun x =>
    let '(n, x) := smoke_len x in
    let '(buf, x) := rng_bytes (N.to_nat n) x in
    (match SpendToken_from_bytes buf with
     | Ok tok => assert_eq (SpendToken_to_bytes tok) buf
     | Err _ => assert (length buf <? 131)%nat
     | Panic => Panic
     end, x)) 0x123456789abcdef0).

Definition smoke_pieces : list str :=
  [B "PrivateToken token="; B "PrivateToken token=" ++ [x22]; B "PrivateToken "; B "Bearer "; B "token=";
   B "=," ++ [x22]; B "AAAABBBB____----"; B "  "].

Fixpoint smoke_header (parts : nat) (s : str) (x : N) : result Empty_set str * N :=
  match parts with
  | O => (Ok s, x)
  | S parts =>
      let '(v, x) := next_u64 x in
      match index smoke_pieces (N.to_nat (v mod len smoke_pieces)) with
      | Ok p =>
          let '(extra_len, x) := rng_len 40 x in
          let '(extra, x) := rng_bytes (N.to_nat extra_len) x in
          let ascii b := byte_of_N (0x21 + Byte.to_N b mod 0x5d) in
          smoke_header parts (s ++ p ++ (ascii <$> extra)) x
      | Err e => (Err e, x)
      | Panic => (Panic, x)
      end
  end.

Definition parse_authorization_never_panics : result Empty_set unit :=
  fst (repeated (N.to_nat 50000) (fun x =>
    let '(v, x) := next_u64 x in
    let '(r, x) := smoke_header (N.to_nat (1 + v mod 4)) [] x in
    (s ← r; match parse_authorization s with Panic => Panic | _ => Ok tt end, x)) 0x0fedcba987654321).

Definition authorization_roundtrips_for_arbitrary_tokens : result Empty_set unit :=
  fst (repeated (N.to_nat 10000) (fun x =>
    let '(tail, x) := rng_len 300 x in
    let '(buf, x) := rng_bytes (N.to_nat (131 + tail)) x in
    (tok ← expect (SpendToken_from_bytes buf);
     back ← expect (parse_authorization (authorization tok));
     assert_eq (SpendToken_to_bytes back) buf, x)) 0xa5a55a5adeadbeef).

Lemma repeated_Ok n body :
  (forall x, exists x', body x = (Ok tt, x')) -> forall x, fst (repeated n body x) = Ok tt.
Proof.
  intros Hb. induction n as [|n IH]; intros x; [done|]. cbn [repeated].
  destruct (Hb x) as [x' Hx]. by erewrite run_bind_step by exact Hx.
Qed.

Lemma rng_bytes_length n x : length (fst (rng_bytes n x)) = n.
Proof.
  revert x. induction n as [|n IH]; intros x; [done|]. cbn [rng_bytes].
  destruct (rng_byte x) as [b y]. specialize (IH y). destruct (rng_bytes n y) as [l z]. cbn in *. by rewrite IH.
Qed.

Lemma smoke_header_Ok parts s x : exists s' x', smoke_header parts s x = (Ok s', x').
Proof.
  revert s x. induction parts as [|parts IH]; intros s x; [by do 2 eexists|]. cbn [smoke_header].
  destruct (next_u64 x) as [v y].
  destruct (smoke_pieces !! N.to_nat (v mod len smoke_pieces)) as [p|] eqn:Hp.
  2:{ apply lookup_ge_None in Hp. pose proof (N.mod_upper_bound v (len smoke_pieces) ltac:(done)) as Hv.
      unfold len in Hp, Hv. change (length smoke_pieces) with 8%nat in Hp, Hv. lia. }
  rewrite (proj2 (index_Ok _ _ _) Hp). destruct (rng_len 40 y) as [e z], (rng_bytes (N.to_nat e) z) as [l u]. apply IH.
Qed.

(** The smoke tests pass, whatever the generator draws. *)
Theorem fuzz_smoke_tests_pass `{!Base64Laws} :
  token_from_bytes_never_panics_and_roundtrips = Ok tt
  /\ parse_authorization_never_panics = Ok tt
  /\ authorization_roundtrips_for_arbitrary_tokens = Ok tt.
Proof.
  split_and!; apply repeated_Ok; intros x.
  - destruct (smoke_len x) as [n y], (rng_bytes (N.to_nat n) y) as [buf z]. eexists. f_equal.
    destruct (SpendToken_from_bytes buf) as [t|e|] eqn:Ht.
    + apply from_bytes_Ok in Ht as [-> _]. unfold assert_eq. by rewrite bool_decide_eq_true_2.
    + unfold assert. destruct (Nat.ltb_spec (length buf) 131) as [|Hl]; [done|exfalso].
      destruct (token_layout buf) as (b0 & b1 & m & cd & kid & a & -> & ?); [lia|].
      by rewrite from_bytes_fields in Ht by naive_solver.
    + by destruct (from_bytes_no_panic buf).
  - destruct (next_u64 x) as [v y]. destruct (smoke_header_Ok (N.to_nat (1 + v mod 4)) [] y) as (s & z & ->).
    eexists. f_equal. cbn [mbind result_bind]. pose proof (parse_authorization_no_panic s).
    by destruct (parse_authorization s).
  - destruct (rng_len 300 x) as [tail y]. destruct (rng_bytes (N.to_nat (131 + tail)) y) as [buf z] eqn:Hb.
    eexists. f_equal. assert (Hl : length buf = N.to_nat (131 + tail))
      by (rewrite <- (rng_bytes_length (N.to_nat (131 + tail)) y); by rewrite Hb).
    destruct (token_layout buf) as (b0 & b1 & n & cd & kid & a & E & ?); [lia|].
    destruct (SpendToken_from_bytes buf) as [t|e|] eqn:Ht.
    + pose proof Ht as (Hd & Hw & Ha)%from_bytes_Ok. cbn [expect mbind result_bind].
      rewrite parse_authorization_of, from_to_bytes by done. cbn [map_err expect mbind result_bind].
      unfold assert_eq. by rewrite bool_decide_eq_true_2.
    + rewrite E in Ht. by rewrite from_bytes_fields in Ht by naive_solver.
    + by destruct (from_bytes_no_panic buf).
Qed.

End fuzz_smoke.

(** ** For every lawful implementation of the outside crates *)

Section lawful.
Context `{Sha256Laws, HexLaws, Base64, RngLaws, !BlindSig, !BlindSigLaws, !Base64Laws}
  `{Json IssuerPublicKey, Json SignRequest, Json SignResponse, Json SpendToken,
    !JsonLaws IssuerPublicKey, !JsonLaws SignRequest, !JsonLaws SignResponse, !JsonLaws SpendToken}.

Lemma Client_begin_pending pk c count g req p g' :
  Client_begin pk c count g = (Ok (req, p), g') -> PendingTokens_len p = N.of_nat count.
Proof.
  unfold Client_begin, IssuerPublicKey_token_key_id, client_begin.
  destruct (begin_items _ _ count g) as [l g1] eqn:Hl. intros [= <- <- <-].
  unfold PendingTokens_len, PendingMint_len, len. cbn [pt_inner pending_items].
  rewrite length_fmap. by erewrite begin_items_length.
Qed.

(** The steps that open most of the tests. *)
Lemma mint_steps ch count g : exists i g1 req p g2 resp g3 ts g4,
  Issuer_generate 1 g = (i, g1)
  /\ Client_begin (Issuer_public i) ch count g1 = (Ok (req, p), g2)
  /\ PendingTokens_len p = N.of_nat count
  /\ Issuer_blind_sign i req g2 = (Ok resp, g3)
  /\ PendingTokens_finalize p (Issuer_public i) resp g3 = (Ok ts, g4)
  /\ length ts = count
  /\ Forall (fun t => Verifier_verify (Verifier_new (Issuer_public i)) t ch = Ok (nonce t)
       /\ wf_token t /\ (33 <= length (authenticator t))%nat) ts.
Proof.
  destruct (Issuer_generate 1 g) as [i g1] eqn:Hi.
  destruct (Client_begin_total (Issuer_public i) ch count g1) as (req & p & g2 & Hb & _ & _ & Hv & _).
  destruct (issuer_sign (issuer_sk i) (req_body req) g2) as [resp g3] eqn:Hs.
  apply Issuer_blind_sign_same_version in Hs; [|done].
  destruct (PendingTokens_finalize p (Issuer_public i) resp g3) as [r g4] eqn:Hf.
  destruct (mint_run_complete _ _ _ _ _ _ _ _ _ _ _ _ _ _ _ _ Hi Hb Hs Hf) as (ts & -> & Hl & Hts).
  exists i, g1, req, p, g2, resp, g3, ts, g4. split_and!; try done. by eapply Client_begin_pending.
Qed.

Lemma unwrapped_Ok {S E T} (m : run S E T) s x s' : m s = (Ok x, s') -> unwrapped m s = (Ok x, s').
Proof. unfold unwrapped. by intros ->. Qed.

Lemma infallible_Ok {S T} (m : S -> T * S) s x s' : m s = (x, s') -> infallible m s = (Ok x, s').
Proof. unfold infallible. by intros ->. Qed.

Lemma assert_eq_refl {A} `{EqDecision A} (x y : A) : x = y -> assert_eq x y = Ok tt.
Proof. intros ->. unfold assert_eq. by rewrite bool_decide_eq_true_2. Qed.

Lemma through_json_Ok {T} `{Json T, !JsonLaws T} (x : T) : through_json x = Ok x.
Proof.
  unfold through_json. destruct (json_total x) as [b Hb]. rewrite Hb. cbn [of_sum expect mbind result_bind].
  by rewrite (json_roundtrip _ _ Hb).
Qed.

(** One step of a test. *)
Ltac test_step tac := erewrite run_bind_step by tac; cbv beta iota zeta.

Theorem happy_path_passes g : fst (happy_path_issue_finalize_verify g) = Ok tt.
Proof.
  destruct (mint_steps challenge 3 g) as (i & g1 & req & p & g2 & resp & g3 & ts & g4 & Hi & Hb & Hp & Hs & Hf & Hl & Hts).
  unfold happy_path_issue_finalize_verify.
  test_step ltac:(eapply infallible_Ok; eassumption). test_step ltac:(eapply unwrapped_Ok; eassumption).
  test_step ltac:(unfold lift; by rewrite assert_eq_refl).
  test_step ltac:(eapply unwrapped_Ok; eassumption). test_step ltac:(eapply unwrapped_Ok; eassumption).
  test_step ltac:(unfold lift; rewrite assert_eq_refl by (unfold len; by rewrite Hl); done).
  unfold lift. cbn [fst]. apply for_each_Ok. eapply Forall_impl; [exact Hts|].
  intros t (-> & _). cbn [expect mbind result_bind]. by apply assert_eq_refl.
Qed.

(** The one token of a batch of one. *)
Lemma pop_one (ts : list SpendToken) P : length ts = 1%nat -> Forall P ts ->
  exists t, pop_unwrap ts = Ok t /\ P t.
Proof. destruct ts as [|t [|]]; [done| |done]. intros _ [Ht _]%Forall_cons. by exists t. Qed.

Theorem token_bytes_roundtrip_passes g : fst (token_bytes_roundtrip g) = Ok tt.
Proof.
  destruct (mint_steps challenge 1 g) as (i & g1 & req & p & g2 & resp & g3 & ts & g4 & Hi & Hb & _ & Hs & Hf & Hl & Hts).
  destruct (pop_one _ _ Hl Hts) as (t & Hpop & Hv & Hw & Ha). unfold token_bytes_roundtrip.
  test_step ltac:(eapply infallible_Ok; eassumption). do 3 test_step ltac:(eapply unwrapped_Ok; eassumption).
  test_step ltac:(unfold lift; by rewrite Hpop).
  test_step ltac:(unfold lift; by rewrite from_to_bytes).
  do 5 test_step ltac:(unfold lift; by rewrite assert_eq_refl).
  by test_step ltac:(unfold lift; rewrite Hv; reflexivity).
Qed.

Theorem http_authorization_roundtrip_passes g : fst (http_authorization_roundtrip g) = Ok tt.
Proof.
  destruct (mint_steps challenge 1 g) as (i & g1 & req & p & g2 & resp & g3 & ts & g4 & Hi & Hb & _ & Hs & Hf & Hl & Hts).
  destruct (pop_one _ _ Hl Hts) as (t & Hpop & Hv & Hw & Ha). unfold http_authorization_roundtrip.
  test_step ltac:(eapply infallible_Ok; eassumption). do 3 test_step ltac:(eapply unwrapped_Ok; eassumption).
  test_step ltac:(unfold lift; by rewrite Hpop).
  test_step ltac:(reflexivity).
  test_step ltac:(unfold lift; by rewrite starts_with_app).
  test_step ltac:(unfold lift; rewrite parse_authorization_of, from_to_bytes by done; reflexivity).
  by test_step ltac:(unfold lift; rewrite Hv; reflexivity).
Qed.

Theorem json_wire_roundtrip_passes g : fst (json_wire_roundtrip g) = Ok tt.
Proof.
  destruct (mint_steps challenge 1 g) as (i & g1 & req & p & g2 & resp & g3 & ts & g4 & Hi & Hb & _ & Hs & Hf & Hl & Hts).
  destruct (pop_one _ _ Hl Hts) as (t & Hpop & Hv & Hw & Ha). unfold json_wire_roundtrip.
  test_step ltac:(eapply infallible_Ok; eassumption).
  test_step ltac:(unfold lift; by rewrite through_json_Ok). test_step ltac:(eapply unwrapped_Ok; eassumption).
  test_step ltac:(unfold lift; by rewrite through_json_Ok). test_step ltac:(eapply unwrapped_Ok; eassumption).
  test_step ltac:(unfold lift; by rewrite through_json_Ok). test_step ltac:(eapply unwrapped_Ok; eassumption).
  test_step ltac:(unfold lift; by rewrite Hpop).
  test_step ltac:(unfold lift; by rewrite through_json_Ok).
  by test_step ltac:(unfold lift; rewrite Hv; reflexivity).
Qed.

End lawful.
