(* ===== verification/ServiceTests.v ===== *)
(** * The tests of the other crates

The unit tests of gate/src, policy/src, mobile/src and cli/src/store.rs, and the
end-to-end tests of cli/tests, as programs over the model, in the way of
CoreTests.  A JSON text is an argument, with what it decodes to as a hypothesis;
so are the answers a test expects of the unified-quote library. *)

From S2P Require Import Prelude RustStr Externals Pomfrit Core Http RateLimit Spend Gate Authorize.
From S2P Require Import Policy Appraise GateVerifiers Store Mobile Demo Wire Instances Standins CoreTests.

(** [str::contains]. *)
Fixpoint str_contains (pat s : str) : bool :=
  starts_with pat s || match s with [] => false | _ :: s => str_contains pat s end.

Definition is_attestation_invalid {T} (r : result GateError T) : bool :=
  match r with Err (GAttestationInvalid _) => true | _ => false end.

(** [Err(GateError::AttestationInvalid(msg)) => assert!(msg.contains(pat))]. *)
Definition assert_invalid {T} (pat : str) (r : result GateError T) : result Empty_set unit :=
  match r with Err (GAttestationInvalid msg) => assert (str_contains pat msg) | _ => Panic end.

(** ** gate/src/lib.rs *)

Section gate.
Context `{Hex, UnifiedQuote, Tiers}.
Variable now : DateTime.

(** [eat_with_nonce], whose [EatToken::to_cbor] is the library's. *)
Variable eat_with_nonce : bytes -> N -> bytes -> bytes.

Definition rejects_nonce_not_equal_to_binding : result Empty_set unit :=
  let v := Build_UqVerifier in
  let eat := eat_with_nonce (replicate 32 x01) 2 (replicate 8 x00) in
  let b := replicate 32 x02 in
  assert_eq (verify_eat v now eat b) (Err GBindingMismatch).

Definition rejects_unknown_platform : result Empty_set unit :=
  let v := Build_UqVerifier in
  let n := replicate 32 x07 in
  let eat := eat_with_nonce n 9 (replicate 8 x00) in
  assert_invalid (B "unknown platform") (verify_eat v now eat n).

Definition passes_binding_then_fails_on_bogus_quote : result Empty_set unit :=
  let v := Build_UqVerifier in
  let n := replicate 32 x09 in
  let eat := eat_with_nonce n 2 (replicate 64 xff) in
  assert_invalid (B "platform quote") (verify_eat v now eat n).

(** A bundle a verifier must refuse. *)
Definition rejects {V} `{!AttestationVerifier V} (v : V) (bundle : bytes) : result Empty_set unit :=
  assert (is_attestation_invalid (verify_eat v now bundle (replicate 32 x00))).

Definition rejects_malformed_cbor : result Empty_set unit :=
  rejects Build_UqVerifier [xde; xad; xbe; xef].

Definition azure_rejects_malformed_bundle : result Empty_set unit :=
  rejects Build_AzureUqVerifier (B "not json").

Definition azure_rejects_attested_tls_shape (bundle : bytes) : result Empty_set unit :=
  assert_invalid (B "tls_spki") (verify_eat Build_AzureUqVerifier now bundle (replicate 32 x00)).

(** [DesktopTpmVerifier::new]. *)
Definition DesktopTpmVerifier_new : DesktopTpmVerifier := DesktopTpmVerifier_with_policy false [] [] [].

Definition desktop_tpm_rejects_malformed_bundle : result Empty_set unit :=
  rejects DesktopTpmVerifier_new (B "not json").

Definition desktop_tpm_verifier_carries_policy_trust_anchors : result Empty_set unit :=
  let ek_roots := [replicate 64 x61] in
  let activation := [replicate 32 x42] in
  let boot := [replicate 32 x11] in
  let v := DesktopTpmVerifier_with_policy true boot ek_roots activation in
  _ ← assert (tpm_require_ima v);
  _ ← assert_eq (tpm_boot_aggregates v) boot;
  _ ← assert_eq (ek_root_sha256 (tpm_options v)) ek_roots;
  assert_eq (activation_pubkeys (tpm_options v)) activation.

Definition shape_cases : list (str * bool * str) :=
  [(B "sev-snp", false, B "silicon-cvm"); (B "tdx", false, B "silicon-cvm");
   (B "nitro", false, B "silicon-cvm"); (B "azure-sev-snp-vtpm", false, B "silicon-cvm");
   (B "linux-tpm-client", false, B "device-attested"); (B "linux-tpm-client", true, B "device-attested");
   (B "windows-tpm-client", false, B "device-attested"); (B "macos-app-attest", false, B "device-attested");
   (B "ios-app-attest", false, B "device-attested"); (B "android-key-attestation", false, B "device-attested")].

Definition active_verifier_outputs_have_policy_shape : result Empty_set unit :=
  for_each (fun '(p, ima, want_tier) =>
    let m := with_ima_verified (Measurement_new p (replicate 32 xaa)) ima in
    let '(tier, detail) := assurance_tier (platform m) (ima_verified m) in
    _ ← assert_eq tier want_tier;
    _ ← assert (bool_decide (detail <> []));
    assert_eq (len (value_x m)) 32) shape_cases.

Definition macos_rejects_malformed_bundle : result Empty_set unit :=
  rejects Build_MacOsAppAttestVerifier (B "not json").

Definition mobile_verifiers_reject_malformed_bundles : result Empty_set unit :=
  _ ← rejects Build_AndroidKeyAttestationVerifier (B "not json");
  rejects Build_IosAppAttestVerifier (B "not json").

(** What the tests expect of the library: it reads back the token they encode,
    knows platform 2 and not platform 9, and refuses a quote of 0xff. *)
Record expected_tokens : Prop := {
  et_reads n p q : exists token, eat_from_cbor (eat_with_nonce n p q) = inr token
    /\ eat_nonce token = n /\ eat_platform token = p /\ eat_platform_quote token = q;
  et_known token : eat_platform token = 2 -> eat_platform_enum token = Some SevSnp;
  et_unknown token : eat_platform token = 9 -> eat_platform_enum token = None;
  et_bogus b : exists e, verify_platform_quote now SevSnp (replicate 64 xff) b = inl e;
}.

Lemma str_contains_app pat s t : str_contains pat (s ++ pat ++ t) = true.
Proof.
  induction s as [|x s IH]; cbn [app].
  - assert (Hs : starts_with pat (pat ++ t) = true) by apply starts_with_app.
    destruct (pat ++ t); cbn [str_contains]; by rewrite Hs.
  - cbn [str_contains]. by rewrite IH, orb_true_r.
Qed.

Theorem gate_token_tests_pass :
  expected_tokens ->
  rejects_nonce_not_equal_to_binding = Ok tt /\ rejects_unknown_platform = Ok tt
  /\ passes_binding_then_fails_on_bogus_quote = Ok tt.
Proof.
  intros [Hreads Hknown Hunknown Hbogus].
  unfold rejects_nonce_not_equal_to_binding, rejects_unknown_platform,
    passes_binding_then_fails_on_bogus_quote, verify_eat, UqVerifier_verifier, UqVerifier_verify, invalid.
  split_and!.
  - destruct (Hreads (replicate 32 x01) 2 (replicate 8 x00)) as (token & -> & Hn & _ & _).
    cbn [of_sum map_err mbind result_bind]. rewrite decide_True by (rewrite Hn; discriminate). reflexivity.
  - destruct (Hreads (replicate 32 x07) 9 (replicate 8 x00)) as (token & -> & Hn & Hp & _).
    cbn [of_sum map_err mbind result_bind]. rewrite decide_False by (rewrite Hn; tauto).
    rewrite (Hunknown _ Hp). cbn [ok_or mbind result_bind assert_invalid].
    rewrite Hp. reflexivity.
  - destruct (Hreads (replicate 32 x09) 2 (replicate 64 xff)) as (token & -> & Hn & Hp & Hq).
    cbn [of_sum map_err mbind result_bind]. rewrite decide_False by (rewrite Hn; tauto).
    rewrite (Hknown _ Hp), Hq. cbn [ok_or mbind result_bind]. destruct (Hbogus (eat_binding_bytes token)) as [e ->].
    cbn [of_sum map_err mbind result_bind assert_invalid]. unfold assert.
    by rewrite (str_contains_app (B "platform quote") [] (B ": " ++ e) : str_contains _ (B "platform quote" ++ _) = true).
Qed.

(** A bundle its decoder refuses is invalid evidence. *)
Theorem gate_bundle_tests_pass :
  (forall e, eat_from_cbor [xde; xad; xbe; xef] = inl e -> rejects_malformed_cbor = Ok tt)
  /\ (forall e, azure_bundle_json (B "not json") = inl e -> azure_rejects_malformed_bundle = Ok tt)
  /\ (forall bundle b, azure_bundle_json bundle = inr b -> tls_spki_is_some b = true ->
      azure_rejects_attested_tls_shape bundle = Ok tt)
  /\ (forall e, tpm_bundle_json (B "not json") = inl e -> desktop_tpm_rejects_malformed_bundle = Ok tt)
  /\ desktop_tpm_verifier_carries_policy_trust_anchors = Ok tt
  /\ (forall e, mac_bundle_json (B "not json") = inl e -> macos_rejects_malformed_bundle = Ok tt)
  /\ (forall e e', android_bundle_json (B "not json") = inl e -> ios_bundle_json (B "not json") = inl e' ->
      mobile_verifiers_reject_malformed_bundles = Ok tt).
Proof.
  unfold rejects_malformed_cbor, azure_rejects_malformed_bundle, azure_rejects_attested_tls_shape,
    desktop_tpm_rejects_malformed_bundle, macos_rejects_malformed_bundle,
    mobile_verifiers_reject_malformed_bundles, rejects, verify_eat, UqVerifier_verifier, AzureUqVerifier_verifier,
    DesktopTpmVerifier_verifier, MacOsAppAttestVerifier_verifier, AndroidKeyAttestationVerifier_verifier,
    IosAppAttestVerifier_verifier.
  split_and!; [intros e He..|intros bundle b Hb Hs|intros e He|done|intros e He|intros e e' He He'].
  - unfold UqVerifier_verify, invalid. by rewrite He.
  - unfold AzureUqVerifier_verify, invalid. by rewrite He.
  - unfold AzureUqVerifier_verify, invalid. rewrite Hb. cbn [of_sum map_err mbind result_bind].
    by rewrite Hs.
  - unfold DesktopTpmVerifier_verify, invalid. by rewrite He.
  - unfold MacOsAppAttestVerifier_verify, invalid. by rewrite He.
  - unfold AndroidKeyAttestationVerifier_verify, IosAppAttestVerifier_verify, invalid. by rewrite He, He'.
Qed.

End gate.

Theorem gate_shape_test_passes : active_verifier_outputs_have_policy_shape = Ok tt.
Proof. by vm_compute. Qed.

(** ** mobile/src/lib.rs *)

Section mobile.
Context `{Sha256, Hex, Base64, BlindSig, Ed25519, Chrono}
  `{Json IssuerPublicKey, Json SignRequest, Json SignResponse, Json DevEat}.

Definition ffi_surface_mints_presentable_tokens (now : DateTime) : run rng Empty_set unit :=
  issuer ← infallible (Issuer_generate 1);
  pk_json ← lift (expect (of_sum (json_to_vec (Issuer_public issuer))));
  let attester := DevAttester_from_seed (replicate 32 x03) in
  let value_x := replicate 48 xcd in
  verifier ← lift (expect (DevVerifier_new (DevAttester_verifying_key attester) [value_x]));
  client ← lift (expect (EatPassClient_new pk_json (B "issuer.example") (B "origin.example")));
  '(begin, client) ← with_limiter client (EatPassClient_begin 2);
  begin ← lift (expect begin);
  binding ← lift (expect (of_sum (hex_decode (binding_hex begin))));
  binding ← lift (expect (ok_or (array32 binding) tt));
  let measurement := Measurement_new (B "dev") value_x in
  eat ← lift (expect (DevAttester_attest attester measurement binding));
  req ← lift (expect (of_sum (json_from_slice (T := SignRequest) (request_json begin))));
  resp ← unwrapped (issue_gated issuer verifier now req eat);
  resp_json ← lift (expect (of_sum (json_to_vec resp)));
  '(headers, client) ← with_limiter client (EatPassClient_finalize resp_json);
  headers ← lift (expect headers);
  _ ← lift (assert_eq (len headers) 2);
  _ ← lift (for_each (fun h =>
    _ ← assert (starts_with (B "PrivateToken token=") h);
    _ ← expect (parse_authorization h);
    Ok tt) headers);
  '(again, _) ← with_limiter client (EatPassClient_finalize (B "{}"));
  err ← lift (unwrap_err again);
  lift (assert (match err with MNoPendingRequest | MBadSignResponse _ => true | _ => false end)).

End mobile.

Theorem mobile_test_passes :
  fst (ffi_surface_mints_presentable_tokens (7 : @DateTime toy_chrono) (1 : @rng toy_rng)) = Ok tt.
Proof. by vm_compute. Qed.

(** ** policy/src/appraise.rs *)

Section appraise.
Context `{Chrono, Tiers}.

Definition sample_policy : VerificationPolicy := {|
  vp_version := 1; vp_id := B "p1"; vp_valid_until := None;
  vp_evidence_profile := AzureSnpBundle;
  vp_class := {| spec_name := B "accepted"; spec_version := 1 |};
  vp_registry_minimum := Recommended; vp_min_tier := SoftwareWitness;
  vp_allowed_tier_details := [];
  vp_allow := [{| ae_measurement := Some (replicate 32 x01); ae_app_id_hash := None;
                  ae_registry_status := None |}];
  vp_require_ima := false; vp_boot_aggregates := []; vp_desktop_tpm_ek_roots := [];
  vp_desktop_tpm_activation_pubkeys := []; vp_notes := None;
|}.

(** [p.min_tier = t] and [p.allowed_tier_details = details]. *)
Definition set_min_tier (p : VerificationPolicy) (t : TrustTier) (details : list str) : VerificationPolicy := {|
  vp_version := vp_version p; vp_id := vp_id p; vp_valid_until := vp_valid_until p;
  vp_evidence_profile := vp_evidence_profile p; vp_class := vp_class p;
  vp_registry_minimum := vp_registry_minimum p; vp_min_tier := t;
  vp_allowed_tier_details := details;
  vp_allow := vp_allow p; vp_require_ima := vp_require_ima p;
  vp_boot_aggregates := vp_boot_aggregates p; vp_desktop_tpm_ek_roots := vp_desktop_tpm_ek_roots p;
  vp_desktop_tpm_activation_pubkeys := vp_desktop_tpm_activation_pubkeys p; vp_notes := vp_notes p;
|}.

(** The claims of the tests, which differ in these four. *)
Definition sample_claims (plat : str) (binding_ok ima : bool) (status : option str) : AppraisalClaims := {|
  ac_evidence_profile := AzureSnpBundle; ac_platform := plat;
  ac_measurement := Some (replicate 32 x01); ac_app_id_hash := None;
  ac_binding_ok := binding_ok; ac_ima_verified := ima; ac_registry_status := status;
|}.

Definition appraise_pass_test (now : DateTime) : result Empty_set unit :=
  let r := appraise sample_policy (sample_claims (B "sev-snp") true false (Some (B "recommended"))) now in
  _ ← assert (ar_pass r);
  _ ← assert (bool_decide (is_Some (ar_measurement r)));
  _ ← assert_eq (ar_tier r) (B "silicon-cvm");
  assert_eq (ar_tier_detail r) (B "sev-snp").

Definition appraise_binding_fail_closed (now : DateTime) : result Empty_set unit :=
  let r := appraise sample_policy (sample_claims (B "sev-snp") false false None) now in
  assert (negb (ar_pass r)).

Definition appraise_min_tier_fail_closed (now : DateTime) : result Empty_set unit :=
  let p := set_min_tier sample_policy SiliconCvm (vp_allowed_tier_details sample_policy) in
  let r := appraise p (sample_claims (B "linux-tpm-client") true true None) now in
  _ ← assert (negb (ar_pass r));
  assert (bool_decide ((MinTier, false) ∈ ar_checks r)).

Definition appraise_tier_detail_allowlist (now : DateTime) : result Empty_set unit :=
  let p := set_min_tier sample_policy DeviceAttested [B "tpm-ima"] in
  let r := appraise p (sample_claims (B "linux-tpm-client") true false None) now in
  _ ← assert (negb (ar_pass r));
  assert (bool_decide ((TierDetailAllowed, false) ∈ ar_checks r)).

End appraise.

(** The policy of the tests does not expire, so they pass at any time. *)
Theorem appraise_tests_pass (now : @DateTime toy_chrono) :
  appraise_pass_test now = Ok tt /\ appraise_binding_fail_closed now = Ok tt
  /\ appraise_min_tier_fail_closed now = Ok tt /\ appraise_tier_detail_allowlist now = Ok tt.
Proof. by vm_compute. Qed.

(** ** policy/src/gated.rs *)

Record StaticVerifier := { sv_binding : bytes; sv_measurement : Measurement }.

#[export] Instance StaticVerifier_verifier `{Chrono} : AttestationVerifier StaticVerifier :=
  fun v _ _ expected_binding =>
  if decide (expected_binding <> sv_binding v) then Err GBindingMismatch
  else Ok (sv_measurement v).

Record ResultShapeCase := {
  verifier_name : str;
  case_profile : EvidenceProfile;
  case_platform : str;
  case_ima_verified : bool;
  identity_len : nat;
  case_tier : str;
  case_tier_detail : str;
  identity_is_app_id : bool;
}.

Definition result_shape_cases : list ResultShapeCase := [
  Build_ResultShapeCase (B "UqVerifier/sev-snp") UqEat (B "sev-snp") false 48
    (B "silicon-cvm") (B "sev-snp") false;
  Build_ResultShapeCase (B "UqVerifier/nitro") UqEat (B "nitro") false 48
    (B "silicon-cvm") (B "nitro") false;
  Build_ResultShapeCase (B "UqVerifier/tdx") UqEat (B "tdx") false 48
    (B "silicon-cvm") (B "tdx") false;
  Build_ResultShapeCase (B "AzureUqVerifier") AzureSnpBundle (B "azure-sev-snp-vtpm") false 48
    (B "silicon-cvm") (B "azure-sev-snp-vtpm") false;
  Build_ResultShapeCase (B "AzureTlsVerifier") AzureAttestedTls (B "azure-sev-snp-vtpm") false 48
    (B "silicon-cvm") (B "azure-sev-snp-vtpm") false;
  Build_ResultShapeCase (B "DesktopTpmVerifier/linux") DesktopTpmClient (B "linux-tpm-client") true 32
    (B "device-attested") (B "tpm-ima") false;
  Build_ResultShapeCase (B "DesktopTpmVerifier/windows") DesktopTpmClient (B "windows-tpm-client") false 32
    (B "device-attested") (B "tpm-channel-bound") false;
  Build_ResultShapeCase (B "AndroidKeyAttestationVerifier") AndroidKeyAttestation (B "android-key-attestation")
    false 32 (B "device-attested") (B "app-attest") true;
  Build_ResultShapeCase (B "IosAppAttestVerifier") IosAppAttest (B "ios-app-attest") false 32
    (B "device-attested") (B "app-attest") true;
  Build_ResultShapeCase (B "MacOsAppAttestVerifier") MacOsAppAttest (B "macos-app-attest") false 32
    (B "device-attested") (B "app-attest") true
].

Section gated.
Context `{Chrono, Tiers, Hex}.

Definition policy_for_case (case : ResultShapeCase) (identity : bytes) : result Empty_set VerificationPolicy :=
  min_tier ← expect (ok_or (TrustTier_from_label (case_tier case)) tt);
  let desktop := bool_decide (case_profile case = DesktopTpmClient) in
  Ok {| vp_version := 1; vp_id := verifier_name case ++ B "-contract"; vp_valid_until := None;
        vp_evidence_profile := case_profile case;
        vp_class := {| spec_name := B "accepted-identities"; spec_version := 1 |};
        vp_registry_minimum := Recommended; vp_min_tier := min_tier;
        vp_allowed_tier_details := [case_tier_detail case];
        vp_allow :=
          [if identity_is_app_id case
           then {| ae_measurement := None; ae_app_id_hash := Some identity;
                   ae_registry_status := Some (B "recommended") |}
           else {| ae_measurement := Some identity; ae_app_id_hash := None;
                   ae_registry_status := Some (B "recommended") |}];
        vp_require_ima := false; vp_boot_aggregates := [];
        vp_desktop_tpm_ek_roots := if desktop then [replicate 64 x61] else [];
        vp_desktop_tpm_activation_pubkeys := if desktop then [replicate 64 x62] else [];
        vp_notes := None |}.

Definition assert_check (r : AppraisalResult) (id : CheckId) : result Empty_set unit :=
  assert (existsb (fun '(check, ok) => bool_decide (check = id) && ok) (ar_checks r)).

(** The body of the test's loop, at index [i]. *)
Definition check_result_shape (now : DateTime) (binding : bytes) (i : N) (case : ResultShapeCase) :
    result Empty_set unit :=
  let identity := replicate (identity_len case) (byte_of_N (wrap 8 (i + 1))) in
  policy ← policy_for_case case identity;
  _ ← expect (validate policy);
  let verifier := {| sv_binding := binding;
    sv_measurement := with_ima_verified (Measurement_new (case_platform case) identity)
                        (case_ima_verified case) |} in
  let gate := {| pg_inner := verifier; pg_policy := policy |} in
  '(measurement, appraisal) ← expect (verify_with_appraisal gate now (B "verified-evidence") binding);
  _ ← assert_eq (platform measurement) (case_platform case);
  _ ← assert_eq (value_x measurement) identity;
  _ ← assert_eq (ima_verified measurement) (case_ima_verified case);
  _ ← assert (ar_pass appraisal);
  _ ← assert_eq (ar_tier appraisal) (case_tier case);
  _ ← assert_eq (ar_tier_detail appraisal) (case_tier_detail case);
  _ ← assert_eq ((fun m => (platform m, value_x m)) <$> ar_measurement appraisal)
        (Some (case_platform case, identity));
  _ ← assert_check appraisal BindingOk;
  _ ← assert_check appraisal ReferenceValueMatch;
  _ ← assert_check appraisal MinTier;
  _ ← assert_check appraisal TierDetailAllowed;
  assert_eq (verify_eat gate now (B "verified-evidence") (replicate 32 xc8)) (Err GBindingMismatch).

Definition active_verifier_results_match_eat_pass_result_shape (now : DateTime) : result Empty_set unit :=
  for_enumerate (check_result_shape now (replicate 32 xb7)) 0 result_shape_cases.

End gated.

Theorem gated_test_passes (now : @DateTime toy_chrono) :
  active_verifier_results_match_eat_pass_result_shape now = Ok tt.
Proof. by vm_compute. Qed.

(** ** policy/src/schema.rs and policy/src/lib.rs *)

Section schema.
Context `{Hex, Chrono, Json VerificationPolicy}.

Definition parse_minimal_cvm_policy (j : bytes) : result Empty_set unit :=
  p ← expect (from_json_bytes j);
  _ ← assert_eq (len (vp_allow p)) 1;
  assert_eq (class_len (measurement_class p)) 1.

Definition desktop_tpm_policy_requires_trust_roots (j : bytes) : result Empty_set unit :=
  err ← unwrap_err (from_json_bytes j);
  assert (str_contains (B "desktop-tpm profile requires desktop_tpm_ek_roots") (PolicyError_display err)).

Definition desktop_tpm_trust_roots_are_desktop_only (j : bytes) : result Empty_set unit :=
  err ← unwrap_err (from_json_bytes j);
  assert (str_contains (B "desktop TPM trust-root fields are only valid") (PolicyError_display err)).

Definition parse_desktop_tpm_policy_with_trust_roots (j : bytes) : result Empty_set unit :=
  p ← expect (from_json_bytes j);
  _ ← assert_eq (desktop_tpm_ek_roots_bytes p) [replicate 64 x61];
  assert_eq (desktop_tpm_activation_pubkeys_bytes p) [replicate 32 xbb].

Definition example_names : list bytes :=
  [B "desktop-linux-tpm-example.json"; B "desktop-macos-app-attest-example.json";
   B "aws-nitro-uq-example.json"; B "mobile-android-example.json"; B "mobile-ios-example.json";
   B "uqaz1-example.json"].

Definition checked_in_examples_parse `{Fs} (root : str) : result Empty_set unit :=
  for_each (fun name =>
    _ ← expect (from_json_file {| path_dir := root; path_file := Some name |}); Ok tt) example_names.

(** After the test wrote its policy to [path]. *)
Definition load_for_attester_rejects_gate_profile_mismatch `{Fs, Faest, Base64} (path : Path) (now : DateTime) :
    result Empty_set unit :=
  _ ← expect (load_for_attester path (B "azure") [] now);
  err ← unwrap_err (load_for_attester path (B "desktop-tpm") [] now);
  assert (str_contains (B "does not match --gate") (PolicyError_display err)).

End schema.

(** What a policy text decodes to when it has only these fields, the others at
    their defaults. *)
Definition test_policy (id : str) (valid_until : option (@DateTime toy_chrono)) (profile : EvidenceProfile)
    (class : str) (tier : TrustTier) (details : list str) (entry : AllowEntry)
    (roots activation : list str) (notes : option str) : VerificationPolicy := {|
  vp_version := 1; vp_id := id; vp_valid_until := valid_until; vp_evidence_profile := profile;
  vp_class := {| spec_name := class; spec_version := 1 |};
  vp_registry_minimum := default_registry_minimum; vp_min_tier := tier;
  vp_allowed_tier_details := details; vp_allow := [entry];
  vp_require_ima := false; vp_boot_aggregates := []; vp_desktop_tpm_ek_roots := roots;
  vp_desktop_tpm_activation_pubkeys := activation; vp_notes := notes;
|}.

(** 0102..1f20. *)
Definition test_measurement : bytes := (fun i => byte_of_N (N.of_nat i)) <$> seq 1 32.
Definition test_entry : AllowEntry :=
  {| ae_measurement := Some test_measurement; ae_app_id_hash := None; ae_registry_status := None |}.

(** The four texts of schema.rs and the text of lib.rs. *)
Definition minimal_cvm : VerificationPolicy :=
  test_policy (B "test") None AzureSnpBundle (B "accepted-builds") default_min_tier [] test_entry [] [] None.
Definition desktop_without_roots : VerificationPolicy :=
  test_policy (B "desktop") None DesktopTpmClient (B "desktop") default_min_tier [] test_entry [] [] None.
Definition azure_with_roots : VerificationPolicy :=
  test_policy (B "azure") None AzureSnpBundle (B "azure") default_min_tier [] test_entry
    [replicate 64 x30] [replicate 64 x31] None.
Definition desktop_with_roots : VerificationPolicy :=
  test_policy (B "desktop") None DesktopTpmClient (B "desktop") default_min_tier [] test_entry
    [replicate 64 x41] [replicate 64 x62] None.
Definition azure_policy : VerificationPolicy :=
  test_policy (B "azure-policy") None AzureSnpBundle (B "accepted-builds") default_min_tier [] test_entry [] [] None.

(** An entry of the examples, all of which are recommended. *)
Definition recommended (app : bool) (id : bytes) : AllowEntry := {|
  ae_measurement := if app then None else Some id;
  ae_app_id_hash := if app then Some id else None;
  ae_registry_status := Some (B "recommended");
|}.

Definition nitro_value_x : bytes :=
  default [] (base16_decode (B "5d108f53301a3f6e364ae80c060cbcb134c1a195a223d6f9f027c0b4dc5005287d5d2dd298f74304b5148048e626d599")).

(** The files of policy/examples; the notes and the expiry are left open. *)
Definition example_policies (until : @DateTime toy_chrono) (notes : bytes -> str) : list (bytes * VerificationPolicy) :=
  let note name := Some (notes name) in
  [(B "desktop-linux-tpm-example.json",
    test_policy (B "desktop-agent-linux-dev") None DesktopTpmClient (B "desktop-agents") DeviceAttested []
      (recommended false (replicate 32 x22)) [replicate 64 x30] [replicate 64 x31]
      (note (B "desktop-linux-tpm-example.json")));
   (B "desktop-macos-app-attest-example.json",
    test_policy (B "desktop-agent-macos-dev") None MacOsAppAttest (B "desktop-agents") DeviceAttested
      [B "app-attest"] (recommended true (replicate 32 x33)) [] [] (note (B "desktop-macos-app-attest-example.json")));
   (B "aws-nitro-uq-example.json",
    test_policy (B "aws-nitro-uq-example") (Some until) UqEat (B "accepted-builds") SiliconCvm [B "nitro"]
      (recommended false nitro_value_x) [] [] (note (B "aws-nitro-uq-example.json")));
   (B "mobile-android-example.json",
    test_policy (B "mobile-android-example") None AndroidKeyAttestation (B "mobile-agents") DeviceAttested
      [B "app-attest"] (recommended true (replicate 32 x44)) [] [] (note (B "mobile-android-example.json")));
   (B "mobile-ios-example.json",
    test_policy (B "mobile-ios-example") None IosAppAttest (B "mobile-agents") DeviceAttested
      [B "app-attest"] (recommended true (replicate 32 x55)) [] [] (note (B "mobile-ios-example.json")));
   (B "uqaz1-example.json",
    test_policy (B "uqaz1-example") (Some until) AzureSnpBundle (B "accepted-builds") SiliconCvm []
      (recommended false (replicate 31 x00 ++ [x01])) [] [] None)].

Section schema_passes.
Context `{Json VerificationPolicy}.

Theorem schema_tests_pass j :
  (json_from_slice j = inr minimal_cvm -> parse_minimal_cvm_policy j = Ok tt)
  /\ (json_from_slice j = inr desktop_without_roots -> desktop_tpm_policy_requires_trust_roots j = Ok tt)
  /\ (json_from_slice j = inr azure_with_roots -> desktop_tpm_trust_roots_are_desktop_only j = Ok tt)
  /\ (json_from_slice j = inr desktop_with_roots -> parse_desktop_tpm_policy_with_trust_roots j = Ok tt).
Proof.
  unfold parse_minimal_cvm_policy, desktop_tpm_policy_requires_trust_roots,
    desktop_tpm_trust_roots_are_desktop_only, parse_desktop_tpm_policy_with_trust_roots, from_json_bytes.
  split_and!; intros Hj; rewrite Hj; by vm_compute.
Qed.

(** The examples in the repository are valid policies. *)
Theorem checked_in_examples_pass `{Fs} root until notes :
  Forall (fun '(name, p) => exists b,
    fs_read {| path_dir := root; path_file := Some name |} = inr b /\ json_from_slice b = inr p)
    (example_policies until notes) ->
  checked_in_examples_parse root = Ok tt.
Proof.
  intros Hf. apply for_each_Ok.
  change example_names with ((example_policies until notes).*1). apply Forall_fmap.
  assert (Hv : Forall (fun x => validate x.2 = Ok tt) (example_policies until notes))
    by (repeat constructor; by vm_compute).
  eapply Forall_impl; [by apply Forall_and; split; [exact Hf|exact Hv]|].
  intros [name p] [(b & Hb & Hj) Hp]. cbn [fst snd compose] in *.
  unfold from_json_file. rewrite Hb. cbn [of_sum map_err mbind result_bind].
  unfold from_json_bytes. rewrite Hj. cbn [of_sum map_err mbind result_bind]. by rewrite Hp.
Qed.

Theorem gate_profile_mismatch_test_passes `{Fs} path now b :
  fs_read path = inr b -> json_from_slice b = inr azure_policy ->
  load_for_attester_rejects_gate_profile_mismatch path now = Ok tt.
Proof.
  intros Hb Hj. unfold load_for_attester_rejects_gate_profile_mismatch, load_for_attester, load_verified.
  rewrite Hb. cbn [of_sum map_err mbind result_bind]. unfold from_json_bytes. rewrite Hj.
  by vm_compute.
Qed.

End schema_passes.

(** ** cli/src/store.rs *)

Section redis.
Context `{Redis, Hex, Rng}.
Variable redis_url : str.

Definition try_spend : option RedisSpentStore :=
  match RedisSpentStore_connect redis_url 60 with Ok s => Some s | _ => None end.

(** [getrandom::getrandom(&mut bytes).unwrap()] on [n <= 32] bytes: the last [n] of 32. *)
Definition random_bytes (n : nat) : run rng Empty_set bytes := fun g =>
  let '(r, g) := getrandom32 g in (drop (32 - n)%nat <$> expect (of_sum r), g).

Definition redis_spend_detects_double_spend : run rng Empty_set unit :=
  match try_spend with
  | None => mret tt
  | Some store =>
      nonce ← random_bytes 32;
      let epoch := 7 in
      let '(r, store) := check_and_mark epoch nonce store in
      _ ← lift (assert (is_ok r));
      let '(r, store) := check_and_mark epoch nonce store in
      _ ← lift (assert_eq r (Err SEDoubleSpend));
      let '(r, _) := check_and_mark (epoch + 1) nonce store in
      lift (assert (is_ok r))
  end.

Definition redis_rate_limiter_caps_per_epoch (clock : option N) : run rng Empty_set unit :=
  match try_spend with
  | None => mret tt
  | Some _ =>
      rl ← lift (expect (RedisRateLimiter_connect redis_url 5 3600));
      id ← random_bytes 16;
      let '(r, rl) := try_consume clock id 3 rl in
      _ ← lift (assert (is_ok r));
      let '(r, rl) := try_consume clock id 2 rl in
      _ ← lift (assert (is_ok r));
      let '(r, rl) := try_consume clock id 1 rl in
      _ ← lift (assert_eq r (Err RLExceeded));
      id2 ← random_bytes 16;
      let '(r, _) := try_consume clock id2 5 rl in
      lift (assert (is_ok r))
  end.

End redis.

Theorem redis_tests_pass url :
  fst (redis_spend_detects_double_spend url (1 : @rng toy_rng)) = Ok tt
  /\ fst (redis_rate_limiter_caps_per_epoch url (Some 1000) (1 : @rng toy_rng)) = Ok tt.
Proof. by vm_compute. Qed.

(** ** cli/tests/e2e.rs *)

Section e2e.
Context `{Sha256, Hex, Base64, BlindSig, Ed25519, Faest, BuildProfile}.
Context `{Chrono, Json DevEat, Json IssuanceAuthorization, Json SignBodyWire, Json SignResponse}.

Definition demo_runs_end_to_end (clock : option N) (now : DateTime) : run rng Empty_set unit :=
  minted ← unwrapped (run_in_process 3 clock now);
  lift (assert_eq minted 3).

Definition demo_single_token (clock : option N) (now : DateTime) : run rng Empty_set unit :=
  minted ← unwrapped (run_in_process 1 clock now);
  lift (assert_eq minted 1).

(** With any crates that keep their laws, any randomness and any clock. *)
Theorem e2e_tests_pass
    `{!Sha256Laws, !HexLaws, !Base64Laws, !FaestLaws, !Ed25519Laws, !RngLaws, !BlindSigLaws}
    `{!JsonLaws DevEat, !JsonLaws SignBodyWire, !JsonLaws IssuanceAuthorization, !JsonLaws SignResponse}
    clock now g :
  fst (demo_runs_end_to_end clock now g) = Ok tt /\ fst (demo_single_token clock now g) = Ok tt.
Proof.
  assert (Hrun : forall n, n <> O -> (n <= 64)%nat -> fst (unwrapped (run_in_process n clock now) g) = Ok (N.of_nat n)).
  { intros n Hz Hn. pose proof (run_in_process_result n clock now g ltac:(lia)) as Hr.
    rewrite decide_False, decide_True in Hr by lia. unfold unwrapped.
    destruct (run_in_process n clock now g) as [r g']. cbn [fst] in *. by subst r. }
  unfold demo_runs_end_to_end, demo_single_token.
  split; [specialize (Hrun 3%nat)|specialize (Hrun 1%nat)]; unfold mbind, run_bind;
    destruct (unwrapped _ g) as [r g']; cbn [fst] in Hrun; by rewrite Hrun by lia.
Qed.

End e2e.
