(* ===== verification/Witnesses.v ===== *)
(** * Witnesses

For each property with hypotheses, a concrete input on which they hold, with
the stand-ins of [Instances] and [Standins] for the code outside the
repository; each lemma applies its theorem there. *)

From S2P Require Import Prelude RustStr Externals Instances Pomfrit Core Http RateLimit Spend Gate.
From S2P Require Import Authorize Transparency Policy Appraise Store Wire Redeemer IssuerService.
From S2P Require Import GateVerifiers AttesterService Origin Mobile ClientFlow Demo System Standins RedisTime.
From S2P Require Import OriginSteps OriginLocks Cli Main Fleet FleetToken Overlap FleetQuota Routes Restart.

(** A number as the state of the stand-in for randomness. *)
Definition seeded (n : N) : @rng toy_rng := n.

(** An instant of the stand-in for chrono. *)
Definition noon : DateTime := (7 : @DateTime toy_chrono).

(** ** Tokens and challenges *)

Lemma binding_commits_witness :
  binding_fits [[x01]; [x02; x03]] /\
  ([[x01]; [x02; x03]] = [[x01]; [x02; x03]]
   \/ collides [binding_message [[x01]; [x02; x03]]] [binding_message [[x01]; [x02; x03]]]).
Proof.
  assert (Hf : binding_fits [[x01]; [x02; x03]])
    by (split; [done|repeat constructor]).
  split; [exact Hf|]. exact (binding_commits_to_batch _ _ Hf Hf eq_refl).
Defined.

Definition wit_challenge : TokenChallenge :=
  TokenChallenge_new (B "issuer.example") (B "origin.example").

Lemma wf_wit_challenge : wf_challenge wit_challenge.
Proof. by split. Qed.

(** An issuer's key, from the randomness 5, and a mint of two tokens. *)
Definition wit_issuer : Issuer := fst (Issuer_generate 1 (seeded 5)).
Definition wit_begun := Client_begin (Issuer_public wit_issuer) wit_challenge 2 (seeded 10).
Definition wit_req : SignRequest :=
  match fst wit_begun with Ok (r, _) => r | _ => Build_SignRequest wit_challenge 0 (Build_SignBody [] []) end.
Definition wit_pending : PendingTokens :=
  match fst wit_begun with
  | Ok (_, p) => p
  | _ => Build_PendingTokens (Build_PendingMint [] [] [] []) (Issuer_public wit_issuer)
  end.
Definition wit_response : SignResponse :=
  match fst (Issuer_blind_sign wit_issuer wit_req (seeded 20)) with Ok r => r | _ => Build_SignResponse [] end.
Definition wit_tokens : list SpendToken :=
  match fst (PendingTokens_finalize wit_pending (Issuer_public wit_issuer) wit_response (seeded 30)) with
  | Ok ts => ts | _ => []
  end.
Definition wit_token : SpendToken := default (Build_SpendToken 0 [] [] [] []) (head wit_tokens).

Lemma wit_begin :
  exists g, Client_begin (Issuer_public wit_issuer) wit_challenge 2 (seeded 10) = (Ok (wit_req, wit_pending), g).
Proof.
  destruct (Client_begin_total (Issuer_public wit_issuer) wit_challenge 2 (seeded 10))
    as (req & p & g & Hb & _). exists g. unfold wit_req, wit_pending, wit_begun. by rewrite Hb.
Qed.

Lemma wit_sign : exists g, Issuer_blind_sign wit_issuer wit_req (seeded 20) = (Ok wit_response, g).
Proof.
  destruct (issuer_sign (issuer_sk wit_issuer) (req_body wit_req) (seeded 20)) as [resp g] eqn:Hs.
  exists g. unfold wit_response.
  by rewrite (Issuer_blind_sign_same_version wit_issuer wit_req _ _ _ eq_refl Hs).
Qed.

Lemma mint_complete_witness :
  exists ts, fst (PendingTokens_finalize wit_pending (Issuer_public wit_issuer) wit_response (seeded 30))
      = Ok ts /\ length ts = 2%nat
    /\ Forall (fun t => Verifier_verify (Verifier_new (Issuer_public wit_issuer)) t wit_challenge
         = Ok (nonce t) /\ wf_token t /\ (33 <= length (authenticator t))%nat) ts.
Proof.
  destruct wit_begin as [g Hb], wit_sign as [g' Hs].
  destruct (PendingTokens_finalize wit_pending (Issuer_public wit_issuer) wit_response (seeded 30))
    as [r g''] eqn:Hf.
  exact (mint_complete 1 (seeded 5) wit_issuer (seeded 6) wit_challenge 2 (seeded 10) wit_req wit_pending g (seeded 20) wit_response
    g' (seeded 30) r g'' eq_refl Hb Hs Hf).
Defined.

(** The same for later use. *)
Lemma wit_tokens_ok :
  fst (PendingTokens_finalize wit_pending (Issuer_public wit_issuer) wit_response (seeded 30)) = Ok wit_tokens
  /\ length wit_tokens = 2%nat
  /\ Forall (fun t => Verifier_verify (Verifier_new (Issuer_public wit_issuer)) t wit_challenge
       = Ok (nonce t) /\ wf_token t /\ (33 <= length (authenticator t))%nat) wit_tokens.
Proof.
  destruct wit_begin as [g Hb], wit_sign as [g' Hs]. unfold wit_tokens.
  destruct (PendingTokens_finalize wit_pending (Issuer_public wit_issuer) wit_response (seeded 30))
    as [r g''] eqn:Hf.
  destruct (mint_run_complete 1 (seeded 5) wit_issuer (seeded 6) wit_challenge 2 (seeded 10) wit_req
    wit_pending g (seeded 20) wit_response g' (seeded 30) r g'' eq_refl Hb Hs Hf) as (ts & -> & Ht).
  cbn [fst]. split; [reflexivity|exact Ht].
Qed.

Lemma wit_token_ok :
  Verifier_verify (Verifier_new (Issuer_public wit_issuer)) wit_token wit_challenge
    = Ok (nonce wit_token)
  /\ wf_token wit_token /\ (33 <= length (authenticator wit_token))%nat.
Proof.
  destruct wit_tokens_ok as (_ & Hl & Ht). unfold wit_token.
  destruct wit_tokens as [|t ts]; [done|]. by apply Forall_cons_1 in Ht as [? _].
Qed.

Lemma headers_roundtrip_witness :
  parse_authorization (authorization wit_token) = Ok wit_token
  /\ (forall h, www_authenticate (TokenChallenge_to_bytes wit_challenge) (Issuer_public wit_issuer) = Ok h ->
      parse_www_authenticate h = Ok wit_challenge).
Proof.
  destruct (headers_roundtrip wit_token wit_challenge (Issuer_public wit_issuer) [] []) as (Ha & _ & _).
  split; [apply Ha; apply wit_token_ok|]. intros h Hh.
  destruct (headers_roundtrip wit_token wit_challenge (Issuer_public wit_issuer) h []) as (_ & Hw & _).
  apply Hw; [exact wf_wit_challenge|exact Hh].
Defined.

(** ** Limits and spends *)

Definition wit_limiter : InMemoryRateLimiter := InMemoryRateLimiter_new 100 3600.

Lemma wit_limiter_ok : memory_ok wit_limiter.
Proof. by apply memory_ok_new. Qed.

Definition wit_requests : list consume_req :=
  [(Some 10, [x01], 60); (Some 20, [x01], 50); (Some 30, [x02], 50); (Some 40, [x01], 40)].

Lemma memory_limiter_spec_witness :
  try_consume (Some 10) [x01] 101 wit_limiter
    = (Err RLExceeded, snd (try_consume (Some 10) [x01] 101 wit_limiter)).
Proof.
  destruct (try_consume (Some 10) [x01] 101 wit_limiter) as [r l'] eqn:Hr.
  destruct (memory_limiter_spec (Some 10) [x01] 101 wit_limiter r l' wit_limiter_ok eq_refl Hr)
    as (_ & _ & Hc).
  destruct Hc as [-> _]. reflexivity.
Defined.

(** An identity that has used the largest quota up. *)
Definition wit_full : InMemoryRateLimiter :=
  {| max_per_epoch := u32_max; epoch_secs := 3600; state := {[ (0, [x01]) := u32_max ]};
     poisoned := false |}.

Lemma limiter_wraps_witness :
  exists l', try_consume (Some 10) [x01] 1 wit_full = (Ok tt, l') /\ counted l' 0 [x01] = 0.
Proof.
  destruct (try_consume (Some 10) [x01] 1 wit_full) as [r l'] eqn:Hr.
  destruct (limiter_wraps_at_max (Some 10) [x01] wit_full r l' eq_refl eq_refl eq_refl Hr) as [-> Hc].
  exists l'. split; [reflexivity|exact Hc].
Defined.

(** ** Redis *)

(** A key used by 9, just started to count. *)
Definition wit_counting : rstate := snd (r_incrby (B "k") 9 toy_new).

Lemma CONSUME_LUA_exactly_witness :
  exists s', CONSUME_LUA (B "k") 3 60 10 wit_counting = (Ok 0%Z, s')
    /\ r_counter s' (B "k") = 9%Z.
Proof.
  assert (exists s', CONSUME_LUA (B "k") 3 60 10 wit_counting = (Ok 0%Z, s')) as [s' Hr]
    by (eexists; reflexivity).
  exists s'. split; [exact Hr|].
  destruct (CONSUME_LUA_exactly (B "k") 3 60 10 _ _ _ ltac:(lia) ltac:(lia) Hr) as (_ & _ & _ & Hno).
  destruct (Hno eq_refl) as [-> _]. reflexivity.
Defined.

Definition wit_spent (ttl : N) : RedisSpentStore := {| rs_server := toy_new; rs_ttl_secs := ttl |}.

(** Two redemptions within the minute the set lives, then a repeated one. *)
Definition wit_spending : list spend_event :=
  [SpendMark 1 [x01]; SpendElapse 50; SpendMark 1 [x02]; SpendElapse 50; SpendMark 1 [x01]].

Lemma redis_once_within_ttl_witness :
  accepted (run_spend wit_spending (wit_spent 60)).1 = [(1, [x01]); (1, [x02])]
  /\ NoDup (filter (fun x => x.1 = 1) (accepted (run_spend wit_spending (wit_spent 60)).1)).
Proof.
  split; [by vm_compute|].
  apply (redis_once_within_ttl 60 1 wit_spending toy_new _ (run_spend wit_spending (wit_spent 60)).2
    eq_refl ltac:(done) eq_refl eq_refl). by destruct (run_spend _ _).
Defined.

(** The nonce of a set that lives a minute, a minute later; the largest time to
    live; and one that Redis refuses. *)
Lemma redis_forgets_witness :
  (exists s, check_and_mark 1 [x01] (store_elapse 61 (check_and_mark 1 [x01] (wit_spent 60)).2) = (Ok tt, s))
  /\ (exists s, check_and_mark 1 [x01] (check_and_mark 1 [x01] (wit_spent u64_max)).2 = (Ok tt, s))
  /\ exists s, check_and_mark 1 [x01]
       (store_elapse 61 (check_and_mark 1 [x01] (wit_spent (2 ^ 62))).2) = (Err SEDoubleSpend, s).
Proof.
  split_and!.
  - destruct (redis_forgets (wit_spent 60) 1 [x01] eq_refl) as (Hf & _).
    apply (Hf ltac:(done) _ 61); [|done].
    rewrite (surjective_pairing (check_and_mark 1 [x01] (wit_spent 60))) at 1. reflexivity.
  - destruct (redis_forgets (wit_spent u64_max) 1 [x01] eq_refl) as (_ & Hf & _).
    apply (Hf ltac:(done) (check_and_mark 1 [x01] (wit_spent u64_max)).1). apply surjective_pairing.
  - destruct (redis_forgets (wit_spent (2 ^ 62)) 1 [x01] eq_refl) as (_ & _ & Hf).
    apply (Hf ltac:(done) eq_refl _ 61).
    rewrite (surjective_pairing (check_and_mark 1 [x01] (wit_spent (2 ^ 62)))) at 1. reflexivity.
Defined.

Definition wit_redis_limiter : RedisRateLimiter :=
  {| rr_server := toy_new; rr_max_per_epoch := 10; rr_epoch_secs := 3600 |}.

Lemma wit_no_counts e i : r_counter toy_new (limit_key e i) = 0%Z.
Proof. cbn [r_counter toy_redis_laws toy_counters toy_new toy_empty]. by rewrite lookup_empty. Qed.

Lemma wit_redis_limiter_timed : limiter_timed 900 wit_redis_limiter.
Proof.
  split; [split; [done|]|done|done|]; cbn [wit_redis_limiter rr_server].
  - intros e i. by rewrite wit_no_counts.
  - intros e i t. change (r_deadline _ ?k) with ((∅ : gmap bytes Z) !! k). by rewrite lookup_empty.
Qed.

(** Two batches of 6 in one hour, of which the second is refused, and another in
    the next hour, from issuers whose clocks are minutes apart. *)
Definition wit_limiting : list limit_event :=
  [LimitConsume (Some 1700000300) [x01] 6; LimitElapse 1800; LimitConsume (Some 1700001500) [x01] 6;
   LimitElapse 3600; LimitConsume (Some 1700005400) [x01] 6].

Lemma redis_quota_over_time_witness :
  (run_limit wit_limiting wit_redis_limiter).1.*2 = [Ok tt; Err RLExceeded; Ok tt]
  /\ granted (redis_current_epoch wit_redis_limiter) 472222 [x01]
       (run_limit wit_limiting wit_redis_limiter).1 <= 10.
Proof.
  split; [by vm_compute|].
  apply (redis_quota_over_time 900 wit_redis_limiter wit_limiting 472222 [x01]
    (run_limit wit_limiting wit_redis_limiter).1 (run_limit wit_limiting wit_redis_limiter).2
    wit_redis_limiter_timed); [|apply surjective_pairing].
  by vm_compute.
Defined.

(** Both kinds of backend, new. *)
Lemma backends_agree_witness :
  (mark_all [(1, [x01]); (1, [x01])] (SpendInMemory InMemorySpentStore_new)).1
    = (mark_all [(1, [x01]); (1, [x01])] (SpendRedis (wit_spent 60))).1
  /\ (consume_all wit_requests (LimitInMemory (InMemoryRateLimiter_new 10 3600))).1
    = (consume_all wit_requests (LimitRedis wit_redis_limiter)).1.
Proof.
  destruct backends_agree as [Hs Hl]. split.
  - apply Hs. split; [done|]. intros k n.
    cbn [r_member toy_redis_laws toy_sets toy_new toy_empty wit_spent rs_server seen InMemorySpentStore_new].
    set_solver.
  - apply Hl; [|by repeat constructor].
    split; [by apply memory_ok_new|done|done|done|]. intros e i. by rewrite wit_no_counts, counted_new.
Defined.

(** The same nonce redeemed twice and another once. *)
Definition wit_bodies : list RedeemBody :=
  [ {| rb_key_epoch := 1; rb_nonce := hex_encode (replicate 32 x01) |};
    {| rb_key_epoch := 1; rb_nonce := hex_encode (replicate 32 x01) |};
    {| rb_key_epoch := 2; rb_nonce := hex_encode (replicate 32 x01) |} ].
Definition wit_redis_store : SpendBackend :=
  SpendRedis (wit_spent 60).

Lemma redeem_all_once_witness :
  redeemed (fst (redeem_all wit_bodies wit_redis_store))
    = [(1, replicate 32 x01); (2, replicate 32 x01)]
  /\ NoDup (redeemed (fst (redeem_all wit_bodies wit_redis_store))).
Proof.
  split; [by vm_compute|].
  destruct (redeem_all wit_bodies wit_redis_store) as [h s'] eqn:Hr.
  exact (proj1 (redeem_all_once wit_bodies wit_redis_store h s' eq_refl Hr)).
Defined.

(** ** Authorization and the gate *)

Definition wit_policy : VerificationPolicy := {|
  vp_version := 1; vp_id := B "example"; vp_valid_until := Some 5000; vp_evidence_profile := UqEat;
  vp_class := {| spec_name := B "prod"; spec_version := 3 |};
  vp_registry_minimum := Recommended; vp_min_tier := SiliconCvm; vp_allowed_tier_details := [];
  vp_allow := [ {| ae_measurement := Some toy_identity; ae_app_id_hash := None;
                   ae_registry_status := None |} ];
  vp_require_ima := false; vp_boot_aggregates := []; vp_desktop_tpm_ek_roots := [];
  vp_desktop_tpm_activation_pubkeys := []; vp_notes := None;
|}.

Definition wit_gate : AttGate := gate_of_backend BackendUq wit_policy.
Definition wit_measurement : Measurement := Measurement_new (B "sev-snp") toy_identity.

Lemma wit_gate_ok (b : bytes) :
  exists r, gate_verify_with_appraisal wit_gate noon b b = Ok (wit_measurement, r).
Proof.
  eexists. unfold wit_gate, gate_of_backend, gate_verify_with_appraisal, verify_with_appraisal,
    verify_eat, UqVerifier_verifier, UqVerifier_verify. cbn [pg_inner pg_policy eat_from_cbor toy_uq
    invalid of_sum map_err mbind result_bind eat_nonce id].
  rewrite decide_False by tauto. reflexivity.
Qed.

Lemma rate_limit_message_inj_witness :
  platform wit_measurement = platform wit_measurement
  /\ value_x wit_measurement = value_x wit_measurement.
Proof.
  assert (Hn : x00 ∉ platform wit_measurement) by by_decide.
  exact (rate_limit_message_inj wit_measurement wit_measurement Hn Hn eq_refl).
Defined.

Lemma wit_binding_fits : binding_fits (blinded (req_body wit_req)).
Proof.
  destruct (Client_begin_total (Issuer_public wit_issuer) wit_challenge 2 (seeded 10))
    as (req & p & g & Hb & _ & Hl & _).
  assert (wit_req = req) as -> by (unfold wit_req, wit_begun; by rewrite Hb).
  split; [unfold len; by rewrite Hl|].
  unfold Client_begin, client_begin in Hb. cbn [IssuerPublicKey_token_key_id] in Hb.
  cbn [begin_items begin_item fill32 toy_rng bs_sign_1 toy_blindsig] in Hb.
  injection Hb as <- _ _. repeat constructor.
Qed.

Lemma gate_replay_witness :
  exists m, verify_eat wit_gate noon (binding_of (blinded (req_body wit_req)))
      (binding_of (blinded (req_body wit_req))) = Ok m
  /\ (blinded (req_body wit_req) = blinded (req_body wit_req)
      \/ collides [binding_message (blinded (req_body wit_req))]
                  [binding_message (blinded (req_body wit_req))]).
Proof.
  destruct (wit_gate_ok (binding_of (blinded (req_body wit_req)))) as [r Hr].
  assert (Hv : verify_eat wit_gate noon (binding_of (blinded (req_body wit_req)))
      (binding_of (blinded (req_body wit_req))) = Ok wit_measurement)
    by (unfold verify_eat, AttGate_verifier; by rewrite Hr).
  exists wit_measurement. split; [exact Hv|].
  exact (gate_replay wit_gate noon noon _ wit_req wit_req _ _ wit_binding_fits wit_binding_fits Hv Hv).
Defined.

Definition wit_authorizer : Authorizer AttGate :=
  {| az_signer := 9 : @faest_sk toy_faest; az_verifier := wit_gate; az_ttl_secs := 60;
     az_policy_label := gate_policy_label wit_gate |}.
Definition wit_attester_vk : faest_vk := faest_verifying_key (az_signer wit_authorizer).

Definition wit_unsigned : IssuanceAuthorization :=
  {| auth_version := AUTHORIZATION_VERSION; auth_binding := SignRequest_binding wit_req;
     auth_rate_limit_id := rate_limit_id wit_measurement;
     auth_policy_label := gate_policy_label wit_gate; auth_max_batch := 2; auth_exp := 1060;
     auth_iat := 1000; auth_sig := [] |}.
Definition wit_auth : IssuanceAuthorization :=
  set_sig wit_unsigned (faest_sig_sign (az_signer wit_authorizer) (signed_bytes wit_unsigned)).

Lemma wit_auth_signed :
  sign_authorization wit_authorizer wit_measurement (SignRequest_binding wit_req) 2 1000 = Ok wit_auth.
Proof. reflexivity. Qed.

Lemma wit_begun_req :
  binding (req_body wit_req) = binding_of (blinded (req_body wit_req))
  /\ length (blinded (req_body wit_req)) = 2%nat.
Proof.
  destruct (Client_begin_total (Issuer_public wit_issuer) wit_challenge 2 (seeded 10))
    as (req & p & g & Hb & Hbind & Hl & _).
  assert (wit_req = req) as -> by (unfold wit_req, wit_begun; by rewrite Hb). by split.
Qed.

Lemma wit_auth_wf : wf_auth wit_auth.
Proof.
  destruct wit_begun_req as [Hb _].
  split; [by_decide| |by_decide..]. unfold wit_auth. cbn [auth_binding set_sig wit_unsigned].
  unfold SignRequest_binding. rewrite Hb. apply sha256_length.
Qed.

Lemma signed_bytes_inj_witness :
  set_sig wit_auth [x01] = set_sig wit_auth (auth_sig (set_sig wit_auth [x01])).
Proof.
  assert (Hw : wf_auth (set_sig wit_auth [x01])) by by destruct wit_auth_wf.
  exact (signed_bytes_inj wit_auth (set_sig wit_auth [x01]) wit_auth_wf Hw eq_refl).
Defined.

Lemma wit_issue :
  exists resp l g, issue_authorized_with_limit wit_issuer wit_attester_vk wit_req wit_auth 1010 (Some 10)
      (wit_limiter, seeded 20) = (Ok resp, (l, g)).
Proof.
  destruct wit_begun_req as [Hb Hl].
  destruct (try_consume (Some 10) (auth_rate_limit_id wit_auth) 2 wit_limiter) as [r l] eqn:Hc.
  assert (Hn2 : 2 < 2 ^ 32) by done.
  pose proof (memory_step _ _ _ _ _ _ wit_limiter_ok Hn2 Hc) as (_ & _ & _ & _ & Hr).
  unfold wit_limiter in Hr. rewrite counted_new in Hr.
  destruct Hr as [(_ & -> & _)|(Hx & _)]; [|by vm_compute in Hx].
  destruct (issuer_sign (issuer_sk wit_issuer) (req_body wit_req) (seeded 20)) as [resp g] eqn:Hs.
  assert (Hw : wrap 32 (len (blinded (req_body wit_req))) = 2) by (unfold len; by rewrite Hl).
  exists resp, l, g. apply issue_authorized_Ok. rewrite Hw.
  split_and!; [|done|by rewrite <- Hb|done|done|done|done].
  eapply sign_authorization_verify; [exact wit_auth_signed|done].
Qed.

Lemma issue_authorized_replay_witness :
  blinded (req_body wit_req) = blinded (req_body wit_req)
  \/ collides [binding_message (blinded (req_body wit_req))]
              [binding_message (blinded (req_body wit_req))].
Proof.
  destruct wit_issue as (resp & l & g & Hi).
  exact (issue_authorized_replay _ _ _ _ _ _ _ _ _ _ _ _ _ _ _ _ _ _ _ _ _
    wit_binding_fits wit_binding_fits Hi Hi).
Defined.

(** After its expiry the authorization is refused and nothing changes. *)
Lemma issue_authorized_refuses_witness :
  exists e, issue_authorized_with_limit wit_issuer wit_attester_vk wit_req wit_auth 2000 (Some 10)
      (wit_limiter, seeded 20) = (Err e, (wit_limiter, seeded 20)).
Proof.
  destruct (issue_authorized_with_limit wit_issuer wit_attester_vk wit_req wit_auth 2000 (Some 10)
    (wit_limiter, seeded 20)) as [r [l' g']] eqn:Hi.
  pose proof (issue_authorized_refuses wit_issuer wit_attester_vk wit_req wit_auth 2000 (Some 10)
    wit_limiter (seeded 20) r l' g' Hi) as Hr. cbv zeta in Hr.
  replace (IssuanceAuthorization_verify wit_auth wit_attester_vk 2000)
    with (@Err GateError unit (GAttestationInvalid (B "authorization expired"))) in Hr by reflexivity.
  destruct Hr as (-> & -> & ->). eexists. reflexivity.
Defined.

(** ** The transparency log *)

(** Two keys, logged one after the other and signed after each. *)
Definition wit_signer : LogSigner := {| ls_sk := 3 : @faest_sk toy_faest |}.
Definition wit_key1 : IssuerPublicKey := Issuer_public wit_issuer.
Definition wit_key2 : IssuerPublicKey := Issuer_public (fst (Issuer_generate 2 (seeded 77))).
Definition wit_log1 : KeyLog := {| kl_records := key_records 0 [(wit_key1, 100)] |}.
Definition wit_log2 : KeyLog := {| kl_records := key_records 0 [(wit_key1, 100); (wit_key2, 200)] |}.

Lemma wit_heads : exists sth1 sth2,
  LogSigner_sign wit_signer wit_log1 = Ok sth1 /\ LogSigner_sign wit_signer wit_log2 = Ok sth2.
Proof.
  destruct (LogSigner_sign_spec wit_signer wit_log1 (key_records_have_id 0 _)) as (h1 & _ & E1).
  destruct (LogSigner_sign_spec wit_signer wit_log2 (key_records_have_id 0 _)) as (h2 & _ & E2).
  do 2 eexists. split; [exact E1|exact E2].
Qed.

Lemma signed_log_verifies_witness :
  exists sth1 sth2, LogSigner_sign wit_signer wit_log1 = Ok sth1
    /\ LogSigner_sign wit_signer wit_log2 = Ok sth2
    /\ verify_log (LogSigner_public wit_signer) (kl_records wit_log2) sth2 = Ok tt
    /\ verify_consistency sth1 (kl_records wit_log2) = Ok tt.
Proof.
  destruct wit_heads as (sth1 & sth2 & Hs1 & Hs2). exists sth1, sth2.
  split; [exact Hs1|]. split; [exact Hs2|].
  assert (Hne : [(wit_key1, 100)] <> []) by done.
  assert (Hl : len ([(wit_key1, 100)] ++ [(wit_key2, 200)]) < 2 ^ 64) by done.
  pose proof (KeyLog_append_all_spec KeyLog_new [(wit_key1, 100)]) as Ha1.
  pose proof (KeyLog_append_all_spec wit_log1 [(wit_key2, 200)]) as Ha2.
  destruct (signed_log_verifies wit_signer [(wit_key1, 100)] [(wit_key2, 200)] wit_log1 wit_log2
    sth1 sth2 Hne Hl Ha1 Hs1 Ha2 Hs2) as (Hv & Hc & _).
  split; [exact Hv|exact Hc].
Defined.

Lemma wit_verified : exists sth1 sth2,
  LogSigner_sign wit_signer wit_log1 = Ok sth1 /\ LogSigner_sign wit_signer wit_log2 = Ok sth2
  /\ verify_log (LogSigner_public wit_signer) (kl_records wit_log1) sth1 = Ok tt
  /\ verify_log (LogSigner_public wit_signer) (kl_records wit_log2) sth2 = Ok tt
  /\ verify_consistency sth1 (kl_records wit_log2) = Ok tt
  /\ sh_seq sth1 = 0 /\ sh_seq sth2 = 1.
Proof.
  destruct wit_heads as (sth1 & sth2 & Hs1 & Hs2). exists sth1, sth2.
  split; [done|]. split; [done|].
  split; [apply (sign_verify_log wit_signer wit_log1); [apply key_records_have_id|done..]|].
  split; [apply (sign_verify_log wit_signer wit_log2); [apply key_records_have_id|done..]|].
  split; [apply (sign_consistent wit_signer (kl_records wit_log1) (key_records 1 [(wit_key2, 200)]));
    [apply (key_records_have_id 0 [(wit_key1, 100); (wit_key2, 200)])|done|done]|].
  destruct (LogSigner_sign_spec wit_signer wit_log1 (key_records_have_id 0 _)) as (h1 & _ & E1).
  destruct (LogSigner_sign_spec wit_signer wit_log2 (key_records_have_id 0 _)) as (h2 & _ & E2).
  rewrite E1 in Hs1. rewrite E2 in Hs2. injection Hs1 as <-. injection Hs2 as <-.
  split; reflexivity.
Qed.

Lemma wit_records_wf : Forall wf_record (kl_records wit_log1) /\ Forall wf_record (kl_records wit_log2).
Proof.
  split; repeat (apply Forall_cons_2; [split; by_decide|]); apply Forall_nil_2.
Qed.

Lemma head_commits_witness :
  Forall2 same_record (kl_records wit_log2) (kl_records wit_log2)
  \/ collides (chain_messages (kl_records wit_log2)) (chain_messages (kl_records wit_log2)).
Proof.
  destruct wit_verified as (sth1 & sth2 & _ & _ & _ & Hv & _ & _ & Hq).
  assert (Hs : sh_seq sth2 + 1 < 2 ^ 64) by by rewrite Hq.
  exact (head_commits_to_log _ _ _ _ sth2 (proj2 wit_records_wf) (proj2 wit_records_wf) Hs Hv Hv).
Defined.

Lemma consistency_extends_witness :
  Forall2 same_record (kl_records wit_log1) (take 1 (kl_records wit_log2))
  \/ collides (chain_messages (kl_records wit_log1)) (chain_messages (take 1 (kl_records wit_log2))).
Proof.
  destruct wit_verified as (sth1 & sth2 & _ & _ & Hv1 & Hv2 & Hc & Hq1 & Hq2).
  assert (Hs1 : sh_seq sth1 + 1 < 2 ^ 64) by by rewrite Hq1.
  assert (Hs2 : sh_seq sth2 + 1 < 2 ^ 64) by by rewrite Hq2.
  exact (consistency_extends _ _ _ sth1 _ sth2 (proj1 wit_records_wf) (proj2 wit_records_wf)
    Hs1 Hs2 Hv1 Hv2 Hc).
Defined.

(** ** Policies *)

(** A file system of one policy file; JSON as one fixed policy. *)
#[local] Instance wit_policy_json : Json VerificationPolicy :=
  {| json_to_vec _ := inr (B "{}"); json_from_slice _ := inr wit_policy |}.

Definition wit_path : Path := {| path_dir := B "/etc"; path_file := Some (B "policy.json") |}.

#[export] Instance Path_eq_dec : EqDecision Path.
Proof. solve_decision. Defined.

Definition wit_files (l : list (Path * bytes)) : Fs := {|
  fs_read p := match list_find (fun x => x.1 = p) l with
               | Some (_, (_, b)) => inr b | None => inl (B "not found") end;
  fs_write _ _ := inr tt;
  path_display p := path_dir p;
|}.
Definition wit_file : Path * bytes := (wit_path, B "{}").
Definition wit_sidecar : Path * bytes :=
  (sidecar_path wit_path, b64_encode STANDARD (faest_sig_sign (faest_generate (replicate 32 x05)) (B "{}"))).
Definition wit_seed_var : option str := Some (hex_encode (replicate 32 x05)).

Lemma sign_then_load_witness :
  exists sk p, signing_key_from_env wit_seed_var = Ok sk
    /\ @load_verified _ _ _ _ _ (wit_files [wit_file; wit_sidecar]) wit_path
         [faest_verifying_key sk] = Ok p.
Proof.
  apply (sign_then_load (wit_files [wit_file]) (wit_files [wit_file; wit_sidecar]) wit_path
    wit_seed_var (sidecar_path wit_path) [wit_sidecar]).
  - vm_compute. reflexivity.
  - vm_compute. reflexivity.
  - intros q c Hq. apply list_elem_of_singleton in Hq.
    change (@fs_read (wit_files [wit_file; wit_sidecar]) (fst (q, c)) = inr (snd (q, c))).
    rewrite Hq. vm_compute. reflexivity.
Defined.

(** ** The attester's gate *)

Definition wit_desktop : DesktopTpmVerifier := DesktopTpmVerifier_with_policy true [] [] [].

Lemma DesktopTpm_posture_witness :
  exists m, DesktopTpmVerifier_verify wit_desktop noon [x01] [x01] = Ok m /\ ima_verified m = true.
Proof.
  destruct (DesktopTpmVerifier_verify wit_desktop noon [x01] [x01]) as [m| |] eqn:Hv;
    [|vm_compute in Hv; discriminate Hv..].
  exists m. split; [reflexivity|].
  exact (proj1 (DesktopTpmVerifier_posture wit_desktop noon [x01] [x01] m Hv) eq_refl).
Defined.

Definition wit_attester : AttesterState := {| at_authorizer := wit_authorizer |}.
Definition wit_authorize_body (n : N) : AuthorizeBody :=
  {| ab_eat_b64 := b64_encode STANDARD (replicate 32 x04); ab_binding := hex_encode (replicate 32 x04);
     ab_max_batch := n |}.

Lemma handle_authorize_Ok_witness :
  exists resp, handle_authorize wit_attester (wit_authorize_body 2) 1000 noon = Ok resp
    /\ ar_pass (aresp_appraisal resp) = true.
Proof.
  destruct (wit_gate_ok (replicate 32 x04)) as [r Hr].
  destruct (handle_authorize_accepts wit_attester (replicate 32 x04) (replicate 32 x04) 2 1000 noon _ r Hr)
    as (resp & auth & v & Hh & _); [done..|].
  exists resp. split; [exact Hh|].
  destruct (handle_authorize_Ok wit_attester (wit_authorize_body 2) 1000 noon resp Hh)
    as (eat & b & m & a & w & _ & _ & _ & Hp & _). exact Hp.
Defined.

(** The same answer's authorization verifies in the last second of its minute. *)
Lemma handle_authorize_typed_witness :
  exists resp a v, handle_authorize wit_attester (wit_authorize_body 2) 1000 noon = Ok resp
    /\ aresp_authorization_b64 resp = b64_encode STANDARD v /\ wf_auth a
    /\ IssuanceAuthorization_verify a (faest_verifying_key (az_signer (at_authorizer wit_attester)))
         (auth_exp a) = Ok tt.
Proof.
  destruct (wit_gate_ok (replicate 32 x04)) as [r Hr].
  destruct (handle_authorize_accepts wit_attester (replicate 32 x04) (replicate 32 x04) 2 1000 noon _ r Hr)
    as (resp & auth & v & Hh & _); [done..|].
  destruct (handle_authorize_typed wit_attester (wit_authorize_body 2) 1000 noon resp eq_refl eq_refl
    eq_refl Hh) as (a & w & _ & He & Hwf & _ & _ & Hv).
  exists resp, a, w. split; [exact Hh|]. split; [exact He|]. split; [exact Hwf|]. apply Hv. reflexivity.
Defined.

Lemma handle_authorize_Err_witness :
  exists c e, handle_authorize wit_attester (wit_authorize_body 0) 1000 noon = Err (c, e)
    /\ (c = BAD_REQUEST \/ c = INTERNAL_SERVER_ERROR \/ exists ge, c = gate_code ge).
Proof.
  assert (Hh : handle_authorize wit_attester (wit_authorize_body 0) 1000 noon
    = Err (BAD_REQUEST, {| error := B "max_batch must be non-zero" |})) by reflexivity.
  do 2 eexists. split; [exact Hh|].
  destruct (handle_authorize_Err wit_attester (wit_authorize_body 0) 1000 noon _ _ Hh)
    as [[Hc _]|[[Hc _]|(eat & b & ge & _ & _ & _ & _ & Hc & _)]];
    [left; exact Hc|right; left; exact Hc|right; right; exists ge; exact Hc].
Defined.

(** ** The services *)

(** An issuer started with this attester's key. *)
Definition wit_attester_pub : str := hex_encode (Authorizer_verifying_key wit_authorizer).
Definition wit_kt_seed : option str := Some (hex_encode (replicate 32 x06)).
Definition wit_run := issuer_run wit_attester_pub 100 3600 None wit_kt_seed (Some (B "admin")) 100 (seeded 5).

Lemma wit_started : exists st g, wit_run = (Ok st, g)
  /\ rot_current (is_rot st) = wit_issuer
  /\ is_attester_pub st = wit_attester_vk
  /\ is_limiter st = LimitInMemory wit_limiter
  /\ is_admin_token st = Some (B "admin")
  /\ published st [(keys st, 100)] /\ sequential st [(keys st, 100)].
Proof.
  assert (Hvk : attester_pubkey_from_hex wit_attester_pub = Ok wit_attester_vk).
  { unfold attester_pubkey_from_hex, wit_attester_pub, Authorizer_verifying_key.
    by rewrite verifying_key_from_hex_encode. }
  assert (Hseed : kt_seed_from_env wit_kt_seed = Ok (replicate 32 x06)) by reflexivity.
  destruct (issuer_run_total wit_attester_pub 100 3600 None wit_kt_seed (Some (B "admin")) 100 (seeded 5)
    wit_attester_vk (LimitInMemory wit_limiter) (replicate 32 x06) Hvk eq_refl Hseed) as (st & g & Hr).
  exists st, g. split; [exact Hr|].
  destruct (issuer_run_published _ _ _ _ _ _ _ _ _ _ Hr) as (i & Hi & Hc & Ha & Hl & Had & Hp & Hs).
  rewrite Hvk in Ha. injection Ha as Ha. injection Hl as Hl.
  split_and!; [|by symmetry|by symmetry|exact Had|exact Hp|exact Hs].
  rewrite Hc. unfold wit_issuer. by rewrite Hi.
Qed.

Lemma served_log_witness :
  exists st g, wit_run = (Ok st, g)
    /\ verify_log (is_kt_log_pub st) (kt_records (kt st)) (kt_signed_head (kt st)) = Ok tt.
Proof.
  destruct wit_started as (st & g & Hr & _ & _ & _ & _ & Hp & _). exists st, g. split; [exact Hr|].
  assert (Hl : len (kl_records (rot_log (is_rot st))) < 2 ^ 64) by (rewrite (pub_log _ _ Hp); done).
  destruct (served_log_always_verifies _ _ _ _ _ _ _ _ st g st [] g st [] g Hr
    (rtc_refl _ _) (rtc_refl _ _) Hl) as (Hv & _ & _). exact Hv.
Defined.

Lemma sequential_rotate_witness :
  exists st g resp st' g', wit_run = (Ok st, g)
    /\ rotate (Some (B "admin")) 300 (st, g) = (resp, (st', g'))
    /\ exists more, sequential st' ([(keys st, 100)] ++ more).
Proof.
  destruct wit_started as (st & g & Hr & _ & _ & _ & _ & Hp & Hs).
  destruct (rotate (Some (B "admin")) 300 (st, g)) as [resp [st' g']] eqn:Hrot.
  exists st, g, resp, st', g'. split; [exact Hr|]. split; [exact Hrot|].
  assert (Hl : len [(keys st, 100)] + 1 < 2 ^ 32) by done.
  destruct (sequential_rotate _ _ _ _ _ _ _ _ Hp Hs Hl Hrot) as (more & _ & Hs' & _).
  exists more. exact Hs'.
Defined.

(** The services around that issuer, an origin and a client's machine. *)
Definition wit_services (st : IssuerState) : Services (S := InMemorySpentStore) := {|
  sv_issuer_url := B "http://issuer"; sv_attester_url := B "http://attester";
  sv_redeemer_url := B "http://redeemer"; sv_issuer := st; sv_attester := wit_attester;
  sv_redeemer := InMemorySpentStore_new; sv_rng := seeded 20; sv_now := 1000;
  sv_clock := Some 1000; sv_instant := noon;
|}.

Definition wit_entry : KeyEntry := {| ke_verifier := Verifier_new wit_key1; ke_epoch := 1 |}.

Definition wit_origin (st : IssuerState) : OriginWorld (W := Services (S := InMemorySpentStore)) := {|
  ow_state := {| or_base := B "http://issuer"; or_issuer_name := B "issuer.example";
                 or_origin_info := B "origin.example"; or_advertised_pk := wit_key1;
                 or_recent := [wit_challenge]; or_require_context := false;
                 or_keys := {[ token_key_id wit_token := wit_entry ]};
                 or_kt_log_pub := is_kt_log_pub st; or_redeemer := B "http://redeemer" |};
  ow_world := wit_services st;
  ow_rng := seeded 40;
|}.

Lemma wit_entry_ok : entry_ok (token_key_id wit_token) wit_entry.
Proof.
  destruct wit_token_ok as [(_ & _ & Hk & _)%Verifier_verify_Ok _]. by split_and!.
Qed.

Lemma wit_origin_ok st : origin_ok (ow_state (wit_origin st)).
Proof.
  split; cbn [wit_origin ow_state or_recent or_issuer_name or_origin_info or_require_context or_keys].
  - unfold MAX_RECENT_CHALLENGES. cbn. lia.
  - apply Forall_singleton. by exists [].
  - intros k e [<- <-]%lookup_singleton_Some. exact wit_entry_ok.
Qed.

Lemma wit_wired st : wired (wit_origin st).
Proof. by split. Qed.

(** The witness token, presented to that origin. *)
Lemma wit_granted st : exists w', resource (Some (authorization wit_token)) (wit_origin st)
  = (Ok (reply OK (B "access granted: valid attested, unlinkable, one-time token" ++ [x0a])), w').
Proof.
  destruct wit_token_ok as (Hv & Hw & Ha). pose proof Hv as (_ & Hd & _)%Verifier_verify_Ok.
  assert (Hkf : key_for (token_key_id wit_token) (wit_origin st) = (Ok (Some wit_entry), wit_origin st)).
  { unfold key_for. cbn [wit_origin ow_state or_keys]. by rewrite lookup_singleton_eq. }
  assert (Hin : wit_challenge ∈ or_recent (ow_state (wit_origin st))) by (cbn; left).
  destruct (resource_redeems (wit_origin st) (wit_origin st) wit_entry wit_token wit_challenge Hkf
    (wit_origin_ok st) eq_refl Hw Ha Hin Hd) as (q & s & resp & w' & Hm & Hr & -> & _).
  { intros c' Hc'. eapply entry_verifies; [exact wit_entry_ok|reflexivity|exact Hv|exact Hc']. }
  rewrite check_and_mark_memory, decide_False in Hm by apply not_elem_of_empty.
  assert (Hq : q = Ok tt) by exact (eq_sym (f_equal fst Hm)). rewrite Hq in Hr.
  exists w'. exact Hr.
Qed.

Lemma origin_grants_only_witness :
  exists st g w' c, wit_run = (Ok st, g)
    /\ resource (Some (authorization wit_token)) (wit_origin st)
       = (Ok (reply OK (B "access granted: valid attested, unlinkable, one-time token" ++ [x0a])), w')
    /\ c ∈ [wit_challenge].
Proof.
  destruct wit_started as (st & g & Hr & _). destruct (wit_granted st) as [w' Hg].
  destruct (origin_grants_only _ (wit_origin st) _ w' (wit_origin_ok st) Hg eq_refl)
    as (h & t & e & c & u & _ & _ & _ & _ & Hc & _).
  exists st, g, w', c. split; [exact Hr|]. split; [exact Hg|exact Hc].
Defined.

(** Presented twice, it is granted once. *)
Lemma resource_all_once_witness :
  exists st g, wit_run = (Ok st, g)
    /\ NoDup (omap granted_token (fst (resource_all
         [Some (authorization wit_token); Some (authorization wit_token); None] (wit_origin st)))).
Proof.
  destruct wit_started as (st & g & Hr & _). exists st, g. split; [exact Hr|].
  destruct (resource_all [Some (authorization wit_token); Some (authorization wit_token); None]
    (wit_origin st)) as [h w'] eqn:Hall.
  exact (proj1 (resource_all_once _ (wit_origin st) h w' I Hall)).
Defined.

Lemma origin_reachable_witness :
  exists st g o w, wit_run = (Ok st, g)
    /\ origin_run (B "http://issuer") (B "issuer.example") (B "origin.example") (B "http://redeemer")
         (is_kt_log_pub st) true (wit_services st) = (Ok o, w)
    /\ origin_ok (ow_state (snd (resource_all [None; Some (B "x"); None]
         {| ow_state := o; ow_world := w; ow_rng := seeded 40 |}))).
Proof.
  destruct wit_started as (st & g & Hr & _).
  destruct (origin_run (B "http://issuer") (B "issuer.example") (B "origin.example")
    (B "http://redeemer") (is_kt_log_pub st) true (wit_services st)) as [r w] eqn:Ho.
  pose proof Ho as Hq. unfold origin_run in Hq. cbn in Hq. injection Hq as <- _.
  exists st, g. eexists _, w. split; [exact Hr|]. split; [exact Ho|].
  destruct (resource_all [None; Some (B "x"); None] _) as [h w'] eqn:Hall.
  exact (proj1 (origin_reachable _ _ _ _ _ _ _ _ _ _ _ _ _ Ho Hall)).
Defined.

(** Two origins, and the witness token presented to both at once. *)
Definition wit_cluster (st : IssuerState) : Cluster (W := Services (S := InMemorySpentStore)) := {|
  cl_origins := [ow_state (wit_origin st); ow_state (wit_origin st)];
  cl_requests := [];
  cl_world := wit_services st;
  cl_rng := seeded 40;
|}.

Definition wit_schedule : list cl_event :=
  [Arrive 0 (Some (authorization wit_token)); Arrive 1 (Some (authorization wit_token)); Arrive 0 None;
   Advance 0; Advance 1; Advance 1; Advance 2; Advance 0; Advance 0; Advance 1; Elsewhere; Advance 1;
   Advance 2; Advance 0; Advance 2].

Lemma wit_origin_sound st : origin_sound (ow_state (wit_origin st)).
Proof.
  split; [apply wit_origin_ok|]. cbn [wit_origin ow_state or_keys]. intros k e [<- <-]%lookup_singleton_Some. left. apply wit_entry_ok.
Qed.

Lemma wit_cluster_ok st : cluster_ok (wit_cluster st).
Proof.
  split; [|by apply Forall_nil].
  apply Forall_cons. split; [|apply Forall_singleton]; apply wit_origin_sound.
Qed.

(** The statuses answered, in the order of arrival. *)
Definition answers {W} `{!Upstream W} (c : Cluster (W := W)) : list (option N) :=
  (fun rq => match rq_progress rq with Some (RqDone resp) => Some (status resp) | _ => None end)
    <$> cl_requests c.

Lemma wit_scheduled st : exists tr c',
  cl_schedule wit_schedule (wit_cluster st) = Some (tr, c')
  /\ length (grants tr) = 1%nat /\ answers c' = [Some 409; Some 200; Some 401].
Proof.
  assert (Hc : (fun x => (length (grants x.1), answers x.2)) <$> cl_schedule wit_schedule (wit_cluster st)
    = Some (1%nat, [Some 409; Some 200; Some 401])) by by vm_compute.
  destruct (cl_schedule wit_schedule (wit_cluster st)) as [[tr c']|]; [|done].
  injection Hc as Hg Ha. by exists tr, c'.
Qed.

Lemma origins_grant_once_witness :
  exists st g tr c', wit_run = (Ok st, g) /\ cl_run (wit_cluster st) tr c'
    /\ length (grants tr) = 1%nat
    /\ NoDup ((fun x => (ke_epoch x.2, nonce x.1)) <$> grants tr).
Proof.
  destruct wit_started as (st & g & Hr & _). destruct (wit_scheduled st) as (tr & c' & Hs & Hg & _).
  apply cl_schedule_run in Hs. exists st, g, tr, c'. split; [exact Hr|]. split; [exact Hs|].
  split; [exact Hg|]. exact (proj1 (origins_grant_once (wit_cluster st) tr c' (wit_cluster_ok st) I Hs)).
Defined.

(** A request presents a token and waits for the lock a second one has taken to push
    its challenge, while a third one's call for a key no log has hangs. *)
Definition wit_unknown : SpendToken := {|
  token_type := TOKEN_TYPE; nonce := replicate 32 x00; challenge_digest := replicate 32 x00;
  token_key_id := replicate 32 x00; authenticator := replicate 33 x00;
|}.
Definition wit_lock_events : list cl_event :=
  [Arrive 0 (Some (authorization wit_token)); Arrive 0 None; Arrive 0 (Some (authorization wit_unknown));
   Advance 0; Advance 0; Advance 2; Advance 2; Advance 2; Advance 2; Advance 2; Advance 0; Advance 0;
   Advance 1; Advance 1; Advance 1].

Lemma requests_end_witness :
  exists st g tr s, wit_run = (Ok st, g)
    /\ lk_run {| lk_cluster := wit_cluster st; lk_threads := [] |} tr s
    /\ lk_threads s = [{| th_todo := [AAcquire LkRecent Shared; ADo; ARelease LkRecent]; th_held := [] |};
                       {| th_todo := [ADo; ARelease LkRecent]; th_held := [(LkRecent, Exclusive)] |};
                       {| th_todo := [AServe; AReceive]; th_held := [] |}]
    /\ lk_act 0 s = None /\ waits 0 0 (LkRecent, Shared) s
    /\ exists tr' s', lk_run s tr' s' /\ (length tr' <= 25)%nat
       /\ (exists t, lk_threads s' !! 0%nat = Some t /\ th_todo t = [])
       /\ lk_threads s' !! 2%nat = Some {| th_todo := [AServe; AReceive]; th_held := [] |}.
Proof.
  destruct wit_started as (st & g & Hr & _).
  assert (Hq : (x ← lk_schedule wit_lock_events {| lk_cluster := wit_cluster st; lk_threads := [] |};
      Some (rq_origin <$> cl_requests (lk_cluster x.2), lk_threads x.2, bool_decide (is_Some (lk_act 0 x.2))))
    = Some ([0; 0; 0]%nat,
            [{| th_todo := [AAcquire LkRecent Shared; ADo; ARelease LkRecent]; th_held := [] |};
             {| th_todo := [ADo; ARelease LkRecent]; th_held := [(LkRecent, Exclusive)] |};
             {| th_todo := [AServe; AReceive]; th_held := [] |}], false)) by by vm_compute.
  apply bind_Some in Hq as ([tr s] & Hs & Hq). cbn [snd] in Hq. apply (Some_inj _ _) in Hq.
  assert (Hor := f_equal (fun x => x.1.1) Hq). assert (Hth := f_equal (fun x => x.1.2) Hq).
  assert (Hno := f_equal snd Hq). cbn [fst snd] in Hor, Hth, Hno. clear Hq.
  apply lk_schedule_run in Hs.
  destruct (cl_requests (lk_cluster s)) as [|[o0 p0] rest] eqn:Hrq; [discriminate Hor|].
  assert (o0 = 0%nat) as -> by exact (f_equal (fun l => default 0%nat (head l)) Hor).
  destruct (requests_end {| lk_cluster := wit_cluster st; lk_threads := [] |} tr s (wit_cluster_ok st)
    eq_refl eq_refl Hs) as (_ & _ & Hall).
  destruct (Hall 0%nat {| rq_origin := 0; rq_progress := p0 |}
    {| th_todo := [AAcquire LkRecent Shared; ADo; ARelease LkRecent]; th_held := [] |})
    as (_ & [_ Hw] & tr' & s' & Hr' & Hlen & Hend & Hkeep).
  { split; [by rewrite Hrq|by rewrite Hth]. }
  apply bool_decide_eq_false in Hno. rewrite Hth in Hlen. rewrite Hth in Hkeep.
  exists st, g, tr, s. split; [exact Hr|]. split; [exact Hs|]. split; [exact Hth|].
  split; [by destruct (lk_act 0 s); [destruct Hno; eexists|]|].
  split; [destruct Hw as [Hw|Hw]; [destruct (Hno Hw)|exact Hw]|]. exists tr', s'. split; [exact Hr'|]. split; [exact Hlen|]. split; [exact Hend|].
  apply Hkeep; [discriminate|reflexivity|reflexivity].
Defined.

(** An origin just started, serving two requests at once. *)
Definition wit_start (st : IssuerState) :=
  origin_run (B "http://issuer") (B "issuer.example") (B "origin.example") (B "http://redeemer")
    (is_kt_log_pub st) true (wit_services st).

Lemma cluster_reachable_witness :
  exists st g o w tr c', wit_run = (Ok st, g) /\ wit_start st = (Ok o, w)
    /\ cl_run {| cl_origins := [o; o]; cl_requests := []; cl_world := w; cl_rng := seeded 40 |} tr c'
    /\ length tr = 10%nat /\ Forall origin_sound (cl_origins c').
Proof.
  destruct wit_started as (st & g & Hr & _). destruct (wit_start st) as [r w] eqn:Ho.
  pose proof Ho as Hq. unfold wit_start, origin_run in Hq. cbn in Hq. injection Hq as <- <-.
  set (l := [Arrive 0 None; Arrive 0 (Some (B "x")); Advance 1; Advance 0; Advance 1; Advance 0;
             Advance 0; Arrive 1 None; Advance 1; Advance 2]).
  match type of Ho with _ = (Ok ?o, ?w) =>
    set (c := {| cl_origins := [o; o]; cl_requests := []; cl_world := w; cl_rng := seeded 40 |});
    exists st, g, o, w
  end.
  assert (Hc : (fun x => length x.1) <$> cl_schedule l c = Some 10%nat) by by vm_compute.
  destruct (cl_schedule l c) as [[tr c']|] eqn:Hs; [|done]. injection Hc as Hlen.
  apply cl_schedule_run in Hs. exists tr, c'. split; [exact Hr|]. split; [reflexivity|].
  split; [exact Hs|]. split; [exact Hlen|].
  refine (proj2 (cluster_reachable c tr c' eq_refl _ Hs)).
  unfold wit_start in Ho. apply Forall_cons. split; [|apply Forall_singleton]; by repeat eexists.
Defined.

(** Two origins just started: one issues a challenge, the witness token is
    presented there twice while two administrators rotate at once and somebody
    else redeems. *)
Definition wit_open (st : IssuerState) :=
  origin_run (B "http://issuer") (B "issuer.example") (B "origin.example") (B "http://redeemer")
    (is_kt_log_pub st) false (wit_services st).

Definition wit_fleet (st : IssuerState) : Fleet (S := InMemorySpentStore) := {|
  fl_cluster := {| cl_origins := match fst (wit_open st) with Ok o => [o; o] | _ => [] end;
                   cl_requests := []; cl_world := wit_services st; cl_rng := seeded 40 |};
  fl_rotating := [];
|}.

Lemma wit_fleet_started st g : wit_run = (Ok st, g) -> fleet_started (wit_fleet st).
Proof.
  intros Hr. unfold fleet_started. split_and!; [done|done|by repeat eexists|].
  assert (Ho : exists o, wit_open st = (Ok o, wit_services st)) by by eexists.
  destruct Ho as [o Ho]. unfold wit_fleet. cbn [fl_cluster cl_origins]. rewrite Ho. cbn [fst].
  apply Forall_cons. split; [|apply Forall_singleton]; by repeat eexists.
Qed.

Definition wit_challenge_events : list fl_event :=
  [FlArrive 0 None; FlAdvance 0; FlRotateBegin (Some (B "admin")); FlAdvance 0; FlAdvance 0;
   FlRotateBegin (Some (B "admin"))].
Definition wit_present_events : list fl_event :=
  [FlAdvance 1; FlArrive 0 (Some (authorization wit_token)); FlAdvance 2; FlRotateCommit 1; FlAdvance 1;
   FlAdvance 2; FlRotateCommit 0; FlTick 1100 (Some 1100) noon; FlAdvance 1; FlAdvance 1;
   FlRedeem {| rb_key_epoch := 1; rb_nonce := hex_encode (replicate 32 x00) |}; FlAdvance 2; FlAdvance 2].
Definition wit_events : list fl_event :=
  wit_challenge_events ++ FlArrive 0 (Some (authorization wit_token)) :: wit_present_events.

Lemma wit_fleet_runs st g : wit_run = (Ok st, g) ->
  exists gs f', fl_run wit_events (wit_fleet st) = Some (gs, f') /\ length gs = 1%nat /\ log_len f' = 3
    /\ answers (fl_cluster f') = [Some 401; Some 200; Some 409]
    /\ kr_key_version <$> kt_records (kt (sv_issuer (fl_world f'))) = [1; 2; 2].
Proof.
  intros Hr.
  assert (Hc : match fst wit_run with
    | Ok st => (fun x => (length x.1, log_len x.2, answers (fl_cluster x.2),
                          kr_key_version <$> kt_records (kt (sv_issuer (fl_world x.2)))))
               <$> fl_run wit_events (wit_fleet st)
    | _ => None
    end = Some (1%nat, 3, [Some 401; Some 200; Some 409], [1; 2; 2])) by by vm_compute.
  rewrite Hr in Hc. cbn [fst] in Hc.
  destruct (fl_run wit_events (wit_fleet st)) as [[gs f']|]; [|done]. injection Hc as Hg Hl Ha Hk.
  exists gs, f'. split; [reflexivity|]. split; [exact Hg|]. split; [exact Hl|]. split; [exact Ha|exact Hk].
Qed.

Lemma wit_store st : store_ok (sv_redeemer (fl_world (wit_fleet st))).
Proof. exact I. Qed.

Lemma wit_log_room (f : Fleet (S := InMemorySpentStore)) : log_len f = 3 -> log_len f + 1 < 2 ^ 32.
Proof. by intros ->. Qed.

Lemma fleet_refines_witness :
  exists st g gs f' tr, wit_run = (Ok st, g) /\ fl_run wit_events (wit_fleet st) = Some (gs, f')
    /\ cl_run (fl_cluster (wit_fleet st)) tr (fl_cluster f') /\ length (grants tr) = 1%nat.
Proof.
  destruct wit_started as (st & g & Hr & _). destruct (wit_fleet_runs _ _ Hr) as (gs & f' & Hf & Hg & _ & _).
  destruct (fleet_refines (wit_fleet st) wit_events gs f' (wit_fleet_started _ _ Hr) (wit_store st) Hf)
    as (_ & _ & tr & Htr & Heq).
  exists st, g, gs, f', tr. split; [exact Hr|]. split; [exact Hf|]. split; [exact Htr|]. rewrite Heq. exact Hg.
Defined.

Lemma fleet_grants_witness :
  exists st g gs f', wit_run = (Ok st, g) /\ fl_run wit_events (wit_fleet st) = Some (gs, f')
    /\ length gs = 1%nat /\ NoDup ((fun x => (v_pk (ke_verifier x.2), nonce x.1)) <$> gs).
Proof.
  destruct wit_started as (st & g & Hr & _). destruct (wit_fleet_runs _ _ Hr) as (gs & f' & Hf & Hg & Hl & _).
  destruct (fleet_grants (wit_fleet st) wit_events gs f' (wit_fleet_started _ _ Hr) (wit_store st) Hf)
    as (ks & _ & _ & _ & Hd).
  exists st, g, gs, f'. split; [exact Hr|]. split; [exact Hf|]. split; [exact Hg|exact Hd].
Defined.

(** Of the two keys under version 2, the last is served. *)
Lemma fleet_reachable_witness :
  exists st g gs f' pk r, wit_run = (Ok st, g) /\ fl_run wit_events (wit_fleet st) = Some (gs, f')
    /\ keys_version 2 (sv_issuer (fl_world f')) = Ok pk
    /\ kt_records (kt (sv_issuer (fl_world f'))) !! 2%nat = Some r
    /\ kr_token_key_id r = hex_encode (Scheme_token_key_id (pk_key pk)).
Proof.
  destruct wit_started as (st & g & Hr & _).
  destruct (wit_fleet_runs _ _ Hr) as (gs & f' & Hf & _ & Hl & _ & Hv).
  destruct (fleet_reachable (wit_fleet st) wit_events gs f' (wit_fleet_started _ _ Hr) (wit_store st) Hf (wit_log_room _ Hl))
    as (_ & _ & _ & _ & Ha). set (rs := kt_records _) in *.
  assert (Hat : forall i v, [1; 2; 2] !! i = Some v -> exists r, rs !! i = Some r /\ v = kr_key_version r)
    by (intros i v Hi; rewrite <- Hv, list_lookup_fmap in Hi; by apply fmap_Some in Hi).
  destruct (Hat 1%nat 2 eq_refl) as (r1 & H1 & E1). destruct (Hat 2%nat 2 eq_refl) as (r2 & H2 & E2).
  destruct (Ha 1%nat r1 H1) as (j & r & pk & Hj & _ & Hk & Hid & Hmax & _). rewrite <- E1 in Hk, Hmax.
  pose proof (Hmax 2%nat r2 H2 (eq_sym E2)) as Hle.
  assert (Hlt : (j < 3)%nat).
  { apply lookup_lt_Some in Hj. pose proof (f_equal length Hv) as Hlen. rewrite length_fmap in Hlen.
    rewrite Hlen in Hj. exact Hj. }
  assert (j = 2%nat) as -> by lia. exists st, g, gs, f', pk, r. by split_and!.
Defined.

(** The token presented first, while the rotations go on. *)
Lemma good_token_served_witness :
  exists st g gs1 f1 gs f', wit_run = (Ok st, g)
    /\ fl_run (wit_challenge_events ++ [FlArrive 0 (Some (authorization wit_token))]) (wit_fleet st)
       = Some (gs1, f1)
    /\ fl_run wit_present_events f1 = Some (gs, f')
    /\ cl_requests (fl_cluster f') !! 1%nat
       = Some {| rq_origin := 0; rq_progress := Some (RqDone (spend_reply true)) |}
    /\ exists l1 l2 gs2 f2 e, wit_present_events = l1 ++ FlAdvance 1 :: l2 /\ fl_run l1 f1 = Some (gs2, f2)
       /\ Scheme_token_key_id (pk_key (v_pk (ke_verifier e))) = token_key_id wit_token
       /\ ~ spent (sv_redeemer (fl_world f2)) (ke_epoch e) (nonce wit_token).
Proof.
  destruct wit_started as (st & g & Hr & Hcur & _).
  set (l1 := wit_challenge_events ++ [FlArrive 0 (Some (authorization wit_token))]).
  assert (Hc : match fst wit_run with
    | Ok st => x ← fl_run l1 (wit_fleet st); y ← fl_run wit_present_events x.2;
        Some (cl_requests (fl_cluster x.2) !! 1%nat, or_recent <$> cl_origins (fl_cluster x.2) !! 0%nat,
          fl_pushes 0 wit_present_events x.2, log_len y.2, cl_requests (fl_cluster y.2) !! 1%nat)
    | _ => None
    end = Some (Some {| rq_origin := 0; rq_progress := Some (RqStart (Some (authorization wit_token))) |},
                Some [wit_challenge], 0%nat, 3,
                Some {| rq_origin := 0; rq_progress := Some (RqDone (spend_reply true)) |})) by by vm_compute.
  rewrite Hr in Hc. cbn [fst] in Hc.
  apply bind_Some in Hc as ([gs1 f1] & Hf1 & Hc). apply bind_Some in Hc as ([gs f'] & Hf & Hc).
  cbn [snd] in Hf, Hc.
  assert (Hpush : fl_pushes 0 wit_present_events f1 = 0%nat)
    by exact (f_equal (fun o => match o with Some (_, _, n, _, _) => n | None => 0%nat end) Hc).
  injection Hc as Hj Hrec _ Hl Hdone.
  destruct (cl_origins (fl_cluster f1) !! 0%nat) as [o|] eqn:Ho; [|discriminate Hrec].
  injection Hrec as Hrec.
  destruct (fleet_ok_started _ (wit_fleet_started _ _ Hr) (wit_store st)) as (nb & Hok & _).
  destruct (fleet_keys_run _ _ _ _ _ Hok (fleet_keys_started _ nb (wit_fleet_started _ _ Hr)) Hf1)
    as (m & Hok1 & Hk1 & _).
  destruct wit_token_ok as (Hv & Hw & Ha).
  assert (Hk : keys st = wit_key1) by (unfold keys; by rewrite Hcur).
  assert (Hg : good_token ([(keys (sv_issuer (fl_world (wit_fleet st))), nb)] ++ m) wit_key1 wit_token wit_challenge).
  { split; [exists nb|exact Hw|exact Ha|exact Hv]. apply elem_of_app. left. change (sv_issuer _) with st.
    rewrite Hk. left. }
  assert (Hless : (length (@nil TokenChallenge) + fl_pushes 0 wit_present_events f1 < 64)%nat)
    by (rewrite Hpush; cbn; lia).
  destruct (good_token_served f1 _ wit_key1 wit_token wit_challenge 0%nat 1%nat o [] [] wit_present_events gs f'
    Hok1 Hk1 Hg Ho Hrec Hless Hj Hf (wit_log_room _ Hl)) as (p & ks' & Hp & _ & _ & _ & _ & Hres).
  rewrite Hdone in Hp. injection Hp as <-.
  exists st, g, gs1, f1, gs, f'. split; [exact Hr|]. split; [exact Hf1|]. split; [exact Hf|]. split; [exact Hdone|].
  destruct (Hres _ eq_refl) as [(l2 & l3 & gs2 & f2 & e & q & s & El & Hf2 & _ & _ & Hid & _ & _ & Hx)|[[Hx _]|[Hx _]]];
    [|discriminate (f_equal status Hx)|discriminate Hx].
  exists l2, l3, gs2, f2, e. split; [exact El|]. split; [exact Hf2|]. split; [exact Hid|].
  destruct Hx as [(_ & _ & Hn)|[Hx _]]; [exact Hn|discriminate Hx].
Defined.

(** Two administrators rotating at once, and a token of the first key. *)
Definition wit_first : Issuer * rng := Issuer_generate 2 (seeded 20).
Definition wit_second : Issuer * rng := Issuer_generate 2 (snd wit_first).
Definition wit_lost : SpendToken := {|
  token_type := TOKEN_TYPE; nonce := replicate 32 x00; challenge_digest := replicate 32 x00;
  token_key_id := Scheme_token_key_id (issuer_pk (fst wit_first)); authenticator := replicate 33 x00;
|}.

Lemma overlapping_rotations_witness :
  exists st g f1 f2, wit_run = (Ok st, g)
    /\ fl_run (overlap (Some (B "admin"))) (wit_fleet st) = Some ([], f1)
    /\ fl_run [FlArrive 0 (Some (authorization wit_lost)); FlAdvance 0; FlAdvance 0; FlAdvance 0; FlAdvance 0] f1
       = Some ([], f2)
    /\ cl_requests (fl_cluster f2) !! 0%nat
       = Some {| rq_origin := 0; rq_progress := Some (RqDone unknown_key) |}.
Proof.
  destruct wit_started as (st & g & Hr & Hcur & _ & _ & Had & _).
  assert (Hc : rotate_check (Some (B "admin")) st = Ok tt)
    by (unfold rotate_check; rewrite Had; reflexivity).
  assert (Hn : rotate_next st = Ok 2) by (unfold rotate_next; rewrite Hcur; reflexivity).
  destruct (fleet_ok_started _ (wit_fleet_started _ _ Hr) (wit_store st)) as (nb & Hok & _).
  assert (Ho : exists o, wit_open st = (Ok o, wit_services st)
    /\ or_keys o = {[ Scheme_token_key_id (pk_key (keys st)) := {| ke_verifier := Verifier_new (keys st);
                       ke_epoch := pk_key_version (keys st) |} ]}).
  { destruct (wit_open st) as [r w] eqn:Hq. unfold wit_open, origin_run in Hq. cbn in Hq.
    injection Hq as <- <-. eexists. split; reflexivity. }
  destruct Ho as (o & Ho & Hkeys).
  assert (Hst : cl_origins (fl_cluster (wit_fleet st)) !! 0%nat = Some o)
    by (unfold wit_fleet; cbn [fl_cluster cl_origins]; rewrite Ho; reflexivity).
  assert (Hk : keys st = wit_key1) by (unfold keys; by rewrite Hcur).
  assert (Hne : Scheme_token_key_id (pk_key wit_key1) <> Scheme_token_key_id (issuer_pk (fst wit_first)))
    by (vm_compute; discriminate).
  assert (Hne2 : Scheme_token_key_id (issuer_pk (fst wit_second)) <> Scheme_token_key_id (issuer_pk (fst wit_first)))
    by (vm_compute; discriminate).
  assert (Hfresh : forall pk n, (pk, n) ∈ [(keys (sv_issuer (fl_world (wit_fleet st))), nb)] ->
    Scheme_token_key_id (pk_key pk) <> Scheme_token_key_id (issuer_pk (fst wit_first))).
  { intros pk n [= -> _]%list_elem_of_singleton. change (sv_issuer _) with st. rewrite Hk. exact Hne. }
  assert (Hmiss : or_keys o !! token_key_id wit_lost = None).
  { rewrite Hkeys, Hk. by apply lookup_singleton_ne. }
  assert (Hwf : wf_token wit_lost) by (split; reflexivity).
  destruct (overlapping_rotations_lose_tokens (wit_fleet st) _ (Some (B "admin")) 2 (fst wit_first)
    (snd wit_first) (fst wit_second) (snd wit_second) 0%nat o wit_lost Hok eq_refl eq_refl Hc Hn
    (surjective_pairing _) (surjective_pairing _) Hfresh Hne2 Hst Hmiss Hwf (le_n _) eq_refl)
    as (f1 & f2 & Hr1 & _ & _ & _ & _ & Hr2 & Hdone).
  exists st, g, f1, f2. split; [exact Hr|]. split; [exact Hr1|]. split; [exact Hr2|exact Hdone].
Defined.

(** ** Clients *)

Definition wit_deployment (st : IssuerState) : Deployment (S := InMemorySpentStore) (L := toy_machine) := {|
  dp_origin := wit_origin st; dp_origin_url := B "http://origin/resource"; dp_local := ∅;
|}.
Definition wit_evidence : EvidenceInput := EvAzureCommand (B "uq azure collect").

(** The stand-in collector returns the binding it is given. *)
Lemma wit_collect (b : bytes) :
  exists l, collect_evidence (W := toy_machine) wit_evidence b ∅ = (Ok b, l).
Proof.
  eexists. unfold wit_evidence, collect_evidence, tempfile_path.
  erewrite run_bind_step by reflexivity.
  replace (split_whitespace (B "uq azure collect")) with [B "uq"; B "azure"; B "collect"] by reflexivity.
  cbn beta iota zeta.
  erewrite run_bind_step.
  2:{ unfold mapping_err. cbn [spawn toy_machine_ops app]. rewrite hex_decode_encode. reflexivity. }
  cbn beta iota. cbn [negb].
  erewrite run_bind_step.
  2:{ unfold mapping_err. cbn [read_file toy_machine_ops]. rewrite lookup_insert_eq. reflexivity. }
  erewrite run_bind_step by reflexivity. reflexivity.
Qed.

Lemma wit_mintable st :
  rot_current (is_rot st) = wit_issuer -> is_attester_pub st = wit_attester_vk ->
  is_limiter st = LimitInMemory wit_limiter ->
  mintable (wit_deployment st) wit_evidence 2.
Proof.
  intros Hc Ha Hl. split.
  - exists 1, (seeded 5), (seeded 6). cbn [services wit_deployment dp_origin wit_origin ow_world
      wit_services sv_issuer]. rewrite Hc. reflexivity.
  - exact Ha.
  - done.
  - split; [lia|done].
  - intros b Hb. destruct (wit_collect b) as [l Hcol]. destruct (wit_gate_ok b) as [r Hg].
    destruct (try_consume (Some 1000) (rate_limit_id wit_measurement) 2 wit_limiter) as [q lim] eqn:Ht.
    exists b, l, wit_measurement, r, (LimitInMemory lim). split; [exact Hcol|]. split; [exact Hg|].
    cbn [services wit_deployment dp_origin wit_origin ow_world wit_services sv_issuer sv_clock].
    rewrite Hl. unfold try_consume, LimitBackend_limiter. change (N.of_nat 2) with 2.
    rewrite Ht. assert (Hn2 : 2 < 2 ^ 32) by done.
    pose proof (memory_step _ _ _ _ _ _ wit_limiter_ok Hn2 Ht) as (_ & _ & _ & _ & Hr).
    unfold wit_limiter in Hr. rewrite counted_new in Hr.
    destruct Hr as [(_ & -> & _)|(Hx & _)]; [reflexivity|by vm_compute in Hx].
Qed.

Lemma wit_challenging st : challenging (wit_deployment st).
Proof. by split. Qed.

(** ** The command line *)

(** A process beside the deployment, reading one policy file. *)
#[local] Instance wit_upstream : Upstream (Deployment (S := InMemorySpentStore) (L := toy_machine)) := {|
  up_keys b := on_services (up_keys b);
  up_keys_version b v := on_services (up_keys_version b v);
  up_kt b := on_services (up_kt b);
  up_redeem u b := on_services (up_redeem u b);
|}.

#[local] Instance wit_fs : Fs := wit_files [wit_file].

#[local] Instance wit_claims_json : Json AppraisalClaims :=
  {| json_to_vec _ := inl []; json_from_slice _ := inl (B "expected value") |}.

Definition wit_env : Env := {|
  env_trusted_pub := None; env_attester_seed := None; env_kt_seed := wit_kt_seed;
  env_admin_token := None; env_signing_seed := wit_seed_var; env_unix_now := 100; env_utc_now := noon;
|}.

Definition wit_process (st : IssuerState) : Process := {|
  ps_client := {| cw_world := wit_deployment st; cw_rng := seeded 40; cw_out := [] |};
  ps_files := [];
|}.

Definition wit_loopback : SocketAddr := {| sa_ip := V4 127 0 0 1; sa_port := 8099 |}.
Definition wit_cleartext : ServeTlsArgs := {| tls_cert := None; tls_key := None; insecure_http := true |}.

Definition wit_origin_cmd : Cmd :=
  CmdOrigin wit_cleartext wit_loopback (B "http://issuer/") (B "issuer.example") (B "origin.example")
    (B "http://redeemer") (hex_encode (replicate 32 x01)) false true false.

Lemma main_listens_witness :
  exists st g role tr p, wit_run = (Ok st, g)
    /\ main wit_env wit_origin_cmd (wit_process st) = (Ok (Listening role tr), p)
    /\ tr = ServePlain /\ role_started wit_env wit_origin_cmd role.
Proof.
  destruct wit_started as (st & g & Hr & _).
  assert (Hm : match fst (main wit_env wit_origin_cmd (wit_process st)) with
               | Ok (Listening _ ServePlain) => true | _ => false end = true) by by vm_compute.
  destruct (main wit_env wit_origin_cmd (wit_process st)) as [r p] eqn:Hmain.
  destruct r as [[role tr|]| |]; [|done..]. cbn [fst] in Hm. destruct tr; [done..|].
  destruct (main_listens wit_env wit_origin_cmd _ _ _ _ Hmain) as (tls & listen & _ & _ & Hs).
  exists st, g, role, ServePlain, p. by split_and!.
Defined.

Lemma main_exits_witness :
  exists st g p, wit_run = (Ok st, g)
    /\ main wit_env (CmdPolicy (PolicySign wit_path)) (wit_process st) = (Ok (Exited 0), p)
    /\ map fst (ps_files p) = [sidecar_path wit_path].
Proof.
  destruct wit_started as (st & g & Hr & _).
  assert (Hm : match fst (main wit_env (CmdPolicy (PolicySign wit_path)) (wit_process st)) with
               | Ok (Exited 0) => true | _ => false end = true) by by vm_compute.
  destruct (main wit_env (CmdPolicy (PolicySign wit_path)) (wit_process st)) as [r p] eqn:Hmain.
  destruct r as [[|code]| |]; [done| |done..]. destruct code; [|done].
  destruct (main_exits wit_env (CmdPolicy (PolicySign wit_path)) _ _ _ Hmain) as (_ & _ & text & _ & Hf).
  exists st, g, p. split; [exact Hr|]. split; [exact Hmain|]. rewrite Hf. reflexivity.
Defined.

Lemma run_in_process_spec_witness :
  fst (run_in_process 3 (Some 5) noon (seeded 1)) = Ok 3
  /\ fst (run_in_process 65 (Some 5) noon (seeded 1))
     = Err (B "issuer rejected: " ++ GateError_display GQuotaExceeded).
Proof.
  assert (H3 : N.of_nat 3 < 2 ^ 32) by done. assert (H65 : N.of_nat 65 < 2 ^ 32) by done.
  split; [exact (run_in_process_spec 3 (Some 5) noon (seeded 1) H3)
         |exact (run_in_process_spec 65 (Some 5) noon (seeded 1) H65)].
Defined.

Lemma client_run_presents_witness :
  exists st g ts s', wit_run = (Ok st, g) /\ length ts = 2%nat
    /\ client_run (B "http://issuer/") (B "http://attester/") wit_evidence 2 (B "i") (B "o")
         (Some (B "http://origin/resource")) (is_kt_log_pub st) None
         {| cw_world := wit_deployment st; cw_rng := seeded 50; cw_out := [] |} = (Ok tt, s')
    /\ cw_out s' = (authorization <$> ts)
         ++ [B "access granted: valid attested, unlinkable, one-time token" ++ [x0a]].
Proof.
  destruct wit_started as (st & g & Hr & Hc & Ha & Hl & _ & Hp & Hs).
  assert (Hlen : len [(keys st, 100)] < 2 ^ 64) by done.
  assert (Hu : trim_end_matches x2f (B "http://issuer/") = sv_issuer_url (services (wit_deployment st)))
    by reflexivity.
  assert (Hv : trim_end_matches x2f (B "http://attester/") = sv_attester_url (services (wit_deployment st)))
    by reflexivity.
  assert (Hk : forall old, None = Some old -> earlier_head (sv_issuer (services (wit_deployment st)))
    [(keys st, 100)] old) by discriminate.
  destruct (client_run_presents (wit_deployment st) [(keys st, 100)] wit_evidence 2 (B "i") (B "o") None
    (B "http://issuer/") (B "http://attester/") (seeded 50) [] Hu Hv Hp Hs Hlen Hk
    (wit_mintable st Hc Ha Hl) (wit_challenging st) (wit_origin_ok st) (wit_wired st))
    as (ts & t & e & s' & answer & Hts & _ & Hrun & Hout & He & _ & Hres).
  exists st, g, ts, s'. split; [exact Hr|]. split; [exact Hts|]. split; [exact Hrun|]. rewrite Hout.
  assert (Hkey : keys st = wit_key1) by (unfold keys; by rewrite Hc).
  assert (Hone : v_pk (ke_verifier e) = wit_key1).
  { change (or_keys _) with ({[ token_key_id wit_token := wit_entry ]} : gmap bytes KeyEntry) in He.
    destruct He as [[_ <-]%lookup_singleton_Some|[nb [= -> _]%list_elem_of_singleton]]; [reflexivity|exact Hkey]. }
  destruct Hres as [(x & y & Hx & Hy & Hne & _)|(_ & q & s & Hm & _ & ->)].
  - exfalso. apply list_elem_of_singleton in Hx, Hy. apply Hne. rewrite Hx, Hy, Hone.
    change (services _) with (wit_services st). cbn [wit_services sv_issuer]. by rewrite Hkey.
  - cbn [services wit_deployment dp_origin wit_origin ow_world wit_services sv_redeemer] in Hm.
    rewrite check_and_mark_memory, decide_False in Hm by apply not_elem_of_empty.
    assert (Hq : q = Ok tt) by exact (eq_sym (f_equal fst Hm)). rewrite Hq. reflexivity.
Defined.

Lemma client_run_Ok_witness :
  exists st g s' ts, wit_run = (Ok st, g)
    /\ client_run (B "http://issuer/") (B "http://attester/") wit_evidence 2 (B "i") (B "o")
         None (is_kt_log_pub st) None
         {| cw_world := wit_deployment st; cw_rng := seeded 50; cw_out := [] |} = (Ok tt, s')
    /\ length ts = 2%nat /\ cw_out s' = (authorization <$> ts) ++ [].
Proof.
  destruct wit_started as (st & g & Hr & Hc & Ha & Hl & _ & Hp & Hs).
  assert (Hlen : len [(keys st, 100)] < 2 ^ 64) by done.
  assert (Hu : trim_end_matches x2f (B "http://issuer/") = sv_issuer_url (services (wit_deployment st)))
    by reflexivity.
  assert (Hv : trim_end_matches x2f (B "http://attester/") = sv_attester_url (services (wit_deployment st)))
    by reflexivity.
  assert (Hk : forall old, None = Some old -> earlier_head (sv_issuer (services (wit_deployment st)))
    [(keys st, 100)] old) by discriminate.
  destruct (client_run_mints (wit_deployment st) [(keys st, 100)] wit_evidence 2 (B "i") (B "o") None
    (B "http://issuer/") (B "http://attester/") (seeded 50) [] Hu Hv Hp Hlen Hk
    (wit_mintable st Hc Ha Hl)) as (ts0 & s' & Hrun & _).
  assert (Hne : is_kt_log_pub st <> []) by by eapply is_kt_log_pub_nonempty.
  destruct (client_run_Ok _ _ _ _ _ _ _ _ _ _ _ Hne Hrun)
    as (pk & kt0 & ch & w1 & w2 & ts & rest & _ & _ & _ & Hout & Hrest & Hts & _).
  exists st, g, s', ts. split; [exact Hr|]. split; [exact Hrun|]. split; [exact Hts|].
  assert (rest = []) as -> by by destruct rest. exact Hout.
Defined.

(** A client that pins another log key. *)
Lemma client_run_untrusted_witness :
  exists st g r, wit_run = (Ok st, g)
    /\ client_run (B "http://issuer/") (B "http://attester/") wit_evidence 2 (B "i") (B "o")
         None [x00] None {| cw_world := wit_deployment st; cw_rng := seeded 50; cw_out := [] |}
       = (r, {| cw_world := wit_deployment st; cw_rng := seeded 50; cw_out := [] |})
    /\ r <> Ok tt.
Proof.
  destruct wit_started as (st & g & Hr & Hc & Ha & Hl & _ & Hp & Hs).
  assert (Ht : ~ trusted_log (kt st) [x00] (Scheme_token_key_id (pk_key (keys st))) None).
  { intros (Hx & _). cbn [kt kt_log_pub_hex] in Hx. rewrite trim_hex_encode, hex_decode_encode in Hx.
    destruct Hp as [_ _ Hpub _ _ _]. rewrite Hpub in Hx.
    assert (Hlen := faest_vk_length (ls_sk (is_log_signer st))).
    assert (Hy : LogSigner_public (is_log_signer st) = [x00]) by congruence.
    unfold LogSigner_public, public_bytes_from_sk, public_bytes in Hy. rewrite Hy in Hlen. discriminate Hlen. }
  assert (Hne : [x00] <> []) by discriminate.
  assert (Hgk : get_keys (trim_end_matches x2f (B "http://issuer/") ++ B "/keys") (wit_deployment st)
    = (Ok (keys st), wit_deployment st)).
  { cbn [get_keys Deployment_host]. unfold on_services, routed, ask.
    rewrite decide_True by reflexivity. reflexivity. }
  assert (Hgkt : get_kt (trim_end_matches x2f (B "http://issuer/") ++ B "/kt") (wit_deployment st)
    = (Ok (kt st), wit_deployment st)).
  { cbn [get_kt Deployment_host]. unfold on_services, routed, ask.
    rewrite decide_True by reflexivity. reflexivity. }
  destruct (client_run_untrusted (B "http://issuer/") (B "http://attester/") wit_evidence 2 (B "i") (B "o")
    None [x00] None {| cw_world := wit_deployment st; cw_rng := seeded 50; cw_out := [] |}
    (keys st) (wit_deployment st) (kt st) (wit_deployment st) Hne Hgk Hgkt Ht)
    as (r & Hrun & Hno).
  exists st, g, r. split; [exact Hr|]. split; [exact Hrun|exact Hno].
Defined.

Definition wit_mobile : EatPassClient :=
  {| mc_pk := Issuer_public wit_issuer; mc_challenge := wit_challenge; mc_pending := None |}.

Lemma mobile_mint_witness :
  exists b c2 g3 rj r c3 g7 headers, EatPassClient_begin 2 (wit_mobile, seeded 10) = (Ok b, (c2, g3))
    /\ EatPassClient_finalize rj (c2, seeded 30) = (r, (c3, g7))
    /\ r = Ok headers /\ length headers = 2%nat /\ mc_pending c3 = None.
Proof.
  destruct wit_begin as [g Hb], wit_sign as [g' Hs].
  destruct (json_total wit_req) as [jq Hjq]. destruct (json_total wit_response) as [jr Hjr].
  set (b := {| request_json := jq; binding_hex := hex_encode (SignRequest_binding wit_req) |}).
  assert (Hbegin : EatPassClient_begin 2 (wit_mobile, seeded 10)
    = (Ok b, (set_pending wit_mobile (Some wit_pending), g))).
  { unfold EatPassClient_begin. cbn [mc_pk mc_challenge wit_mobile]. change (N.to_nat 2) with 2%nat.
    rewrite Hb. cbn [map_err]. rewrite Hjq. reflexivity. }
  destruct (EatPassClient_finalize jr (set_pending wit_mobile (Some wit_pending), seeded 30))
    as [r [c3 g7]] eqn:Hf.
  destruct (mobile_mint 1 (seeded 5) wit_issuer (seeded 6) wit_mobile 2 (seeded 10) b _ g wit_req
    (seeded 20) wit_response g' jr (seeded 30) r c3 g7 eq_refl eq_refl json_roundtrip Hbegin
    (json_roundtrip _ _ Hjq) Hs (json_roundtrip _ _ Hjr) Hf) as (_ & Hp & headers & Hh & Hl & _).
  do 8 eexists. split; [exact Hbegin|]. split; [exact Hf|]. split; [exact Hh|]. split; [exact Hl|exact Hp].
Defined.

(** The key as the client object is given it. *)
Definition wit_pk_json : str :=
  match json_to_vec (Issuer_public wit_issuer) with inr j => j | inl e => e end.

(** Four lines: two sessions, one of them dropped, and a blank line. *)
#[local] Instance wit_line_json : Json FfiLine := {|
  json_to_vec _ := inl [];
  json_from_slice b :=
    let line o := {| op := o; line_id := 1; line_issuer_pk_json := wit_pk_json; line_issuer_name := [];
                     line_origin_info := []; line_count := 1; line_sign_response_json := [] |} in
    if decide (b = B "n") then inr (line (B "new"))
    else if decide (b = B "d") then inr (line (B "drop")) else inl (B "expected value");
|}.

Definition wit_stdin : list (str + str) := [inr (B "n"); inr (B " "); inr (B "n"); inr (B "d"); inl (B "eof")].

Lemma ffi_main_sessions_witness :
  exists replies st g, ffi_main wit_stdin (FfiState_new, seeded 1) = (Ok replies, (st, g))
    /\ opened replies = [1; 2] /\ length replies = 4%nat
    /\ exists before, length before = 3%nat /\ before ++ [FfiError (B "eof")] `prefix_of` replies.
Proof.
  destruct (ffi_main wit_stdin (FfiState_new, seeded 1)) as [r [st g]] eqn:Hr.
  destruct (ffi_main_sessions wit_stdin (seeded 1) r st g eq_refl Hr) as (replies & -> & Hlen & Hline & _).
  exists replies, st, g. split; [reflexivity|]. split; [|split; [exact Hlen|]].
  2:{ destruct (Hline 4%nat (inl (B "eof")) eq_refl eq_refl) as (before & s & Hb & Hp).
      exists before. split; [|exact Hp].
      assert (Hl : match fst (ffi_main (take 4 wit_stdin) (FfiState_new, seeded 1)) with
                   | Ok l => length l | _ => O end = 3%nat) by by vm_compute.
      rewrite Hb in Hl. exact Hl. }
  assert (Ho : match fst (ffi_main wit_stdin (FfiState_new, seeded 1)) with
               | Ok l => opened l | _ => [] end = [1; 2]) by by vm_compute.
  rewrite Hr in Ho. exact Ho.
Defined.

(** ** Routes *)

Definition wit_redeem_body : RedeemBody := {| rb_key_epoch := 1; rb_nonce := hex_encode (replicate 32 x07) |}.

Lemma wire_agrees_witness :
  exists st g, wit_run = (Ok st, g)
  /\ @up_redeem _ wire_upstream (B "http://redeemer") wit_redeem_body (wit_services st)
     = up_redeem (B "http://redeemer") wit_redeem_body (wit_services st)
  /\ @up_keys_version _ wire_upstream (B "http://issuer") 1 (wit_services st)
     = up_keys_version (B "http://issuer") 1 (wit_services st).
Proof.
  destruct wit_started as (st & g & Hr & _).
  destruct (wire_agrees (wit_deployment st) (B "http://origin") toy_error_json_utf8 eq_refl)
    as [(_ & Hv & _ & Hredeem) _].
  exists st, g. split; [exact Hr|]. split; [|apply Hv; reflexivity].
  apply Hredeem. eexists. split; [reflexivity|]. by vm_compute.
Defined.

Definition wit_rotate_request : HttpRequest := {|
  hq_method := POST; hq_path := B "/rotate"; hq_headers := [(B "x-admin-token", B "admin")]; hq_body := [];
|}.

Lemma issuer_changes_only_witness :
  exists st g r st' g', wit_run = (Ok st, g)
  /\ dispatch (issuer_routes 300 (Some 5)) wit_rotate_request (st, g) = (r, (st', g'))
  /\ ((st', g') = (st, g)
      \/ exists t, is_admin_token st = Some t
         /\ header_str (B "x-admin-token") (hq_headers wit_rotate_request) = Some t).
Proof.
  destruct wit_started as (st & g & Hr & _).
  destruct (dispatch (issuer_routes 300 (Some 5)) wit_rotate_request (st, g)) as [r [st' g']] eqn:Hd.
  exists st, g, r, st', g'. split; [exact Hr|]. split; [exact Hd|].
  destruct (issuer_changes_only _ _ _ _ _ _ _ _ Hd) as [Hs|[_ [(Hp & _)|(_ & _ & t & Ht & _ & Hh)]]].
  - left. exact Hs.
  - discriminate Hp.
  - right. exists t. split; [exact Ht|exact Hh].
Defined.

(** ** Restart *)

Lemma restart_forks_log_witness :
  exists st g st' g', wit_run = (Ok st, g)
  /\ issuer_run wit_attester_pub 100 3600 None wit_kt_seed (Some (B "admin")) 5000 (seeded 9) = (Ok st', g')
  /\ length (kt_records (kt st')) = 1%nat
  /\ verify_log (is_kt_log_pub st) (kt_records (kt st')) (kt_signed_head (kt st')) = Ok tt.
Proof.
  destruct wit_started as (st & g & Hr & _ & _ & _ & _ & _ & _).
  assert (Hvk : attester_pubkey_from_hex wit_attester_pub = Ok wit_attester_vk).
  { unfold attester_pubkey_from_hex, wit_attester_pub, Authorizer_verifying_key.
    by rewrite verifying_key_from_hex_encode. }
  assert (Hseed : kt_seed_from_env wit_kt_seed = Ok (replicate 32 x06)) by reflexivity.
  destruct (issuer_run_total wit_attester_pub 100 3600 None wit_kt_seed (Some (B "admin")) 5000 (seeded 9)
    wit_attester_vk (LimitInMemory wit_limiter) (replicate 32 x06) Hvk eq_refl Hseed) as (st' & g' & Hr').
  exists st, g, st', g'. split; [exact Hr|]. split; [exact Hr'|].
  destruct (restart_forks_log _ _ _ _ _ _ _ _ st g st [] g _ _ _ _ _ _ _ st' g' Hr (rtc_refl _ _) Hr'
    ltac:(done) ltac:(done)) as (_ & Hl & Hv & _).
  split; [exact Hl|exact Hv].
Defined.


(** ** The quota of a deployment *)

(** An issuer with a quota of 4, asked three times to sign the same batch of two. *)
Definition wit_small_run := issuer_run wit_attester_pub 4 3600 None wit_kt_seed (Some (B "admin")) 100 (seeded 5).

#[local] Instance wit_auth_json : Json IssuanceAuthorization := {|
  json_to_vec _ := inr [x01];
  json_from_slice b := if decide (b = [x01]) then inr wit_auth else inl (B "expected value");
|}.

Definition wit_sign_body : SignBodyWire :=
  {| sb_req := wit_req; sb_authorization_b64 := b64_encode STANDARD [x01] |}.
Definition wit_quota_events : list fl_event :=
  [FlSign wit_sign_body; FlTick 1010 (Some 1010) noon; FlSign wit_sign_body; FlSign wit_sign_body].

Lemma fleet_signs_within_quota_witness :
  exists st g gs f', wit_small_run = (Ok st, g) /\ fl_run wit_quota_events (wit_fleet st) = Some (gs, f')
    /\ fl_signed 3600 0 (rate_limit_id wit_measurement) wit_quota_events (wit_fleet st) = 4
    /\ fl_signed 3600 0 (rate_limit_id wit_measurement) wit_quota_events (wit_fleet st) <= 4.
Proof.
  assert (Hc : match fst wit_small_run with
    | Ok st => match fl_run wit_quota_events (wit_fleet st) with
               | Some _ => Some (fl_signed 3600 0 (rate_limit_id wit_measurement) wit_quota_events (wit_fleet st))
               | None => None
               end
    | _ => None
    end = Some 4) by by vm_compute.
  destruct wit_small_run as [r g] eqn:Hr. destruct r as [st|e|]; [|discriminate Hc..]. cbn [fst] in Hc.
  destruct (fl_run wit_quota_events (wit_fleet st)) as [[gs f']|] eqn:Hf; [|discriminate Hc].
  apply (Some_inj _ _) in Hc. exists st, g, gs, f'. split; [reflexivity|]. split; [exact Hf|]. split; [exact Hc|].
  assert (Hfit : Forall batch_fits wit_quota_events).
  { assert (Hb : batch_fits (FlSign wit_sign_body)) by by vm_compute. by repeat constructor. }
  exact (fleet_signs_within_quota _ 4 3600 _ _ _ _ _ (wit_fleet st) _ _ _ 0 (rate_limit_id wit_measurement)
    Hr eq_refl Hfit Hf).
Defined.
